(** * Material shader replacer: node-graph rewriting and reconnection

    A shallow embedding of the add-on's engine (node_config.py, cache.py,
    error_handler.py, operators.py, the update callbacks of properties.py)
    and the properties proved about it.

    Conventions of the embedding
    - Python strings are [string]s holding the UTF-8 bytes of the text.
      Substring tests on UTF-8 bytes agree with substring tests on code
      points.  [lower] and [strip] work on the code points, with the tables
      of Unicode 14.0 that the Python of Blender 4.3 uses.
    - Host objects (nodes, sockets, links) are compared by identity in the
      source.  A node carries a host identity [node_id]; a socket is the pair
      of its node and its position in that node's [inputs] or [outputs].
    - The score of [_find_best_input_socket] is a float in the source.  Every
      product it forms (0.8 and 0.6 times a table value) is an integer-valued
      double, so the score is modelled exactly, in tenths, as an integer. *)

From Stdlib Require Import ZArith String Ascii List Bool Lia DecimalString.
From stdpp Require Import base strings list gmap.

Open Scope string_scope.
Open Scope list_scope.
Open Scope Z_scope.

(** ** Text primitives *)

(** *** Code points

    [code_points] reads the UTF-8 bytes of a text back into its code points,
    [utf8] writes them.  A byte that begins no well-formed sequence (no
    Python string has one) stands alone as 0xDC00 + byte, which [utf8]
    writes back as that byte, so [utf8 (code_points s) = s] for every [s]. *)

Definition byte (c : ascii) : N := N_of_ascii c.

Definition between (a c b : N) : bool := ((a <=? c) && (c <=? b))%N.

Definition continuation (c : ascii) : bool := between 0x80 (byte c) 0xBF.

Definition code_point2 (b0 b1 : ascii) : N :=
  ((byte b0 - 0xC0) * 64 + (byte b1 - 0x80))%N.

Definition code_point3 (b0 b1 b2 : ascii) : N :=
  ((byte b0 - 0xE0) * 4096 + (byte b1 - 0x80) * 64 + (byte b2 - 0x80))%N.

Definition code_point4 (b0 b1 b2 b3 : ascii) : N :=
  ((byte b0 - 0xF0) * 262144 + (byte b1 - 0x80) * 4096
   + (byte b2 - 0x80) * 64 + (byte b3 - 0x80))%N.

Definition stray (b : ascii) : N :=
  (if byte b <? 0x80 then byte b else 0xDC00 + byte b)%N.

Fixpoint code_points (s : string) : list N :=
  match s with
  | EmptyString => []
  | String b0 r0 =>
      let one := stray b0 :: code_points r0 in
      match r0 with
      | String b1 r1 =>
          if between 0xC0 (byte b0) 0xDF && continuation b1
             && between 0x80 (code_point2 b0 b1) 0x7FF
          then code_point2 b0 b1 :: code_points r1
          else
            match r1 with
            | String b2 r2 =>
                if between 0xE0 (byte b0) 0xEF && continuation b1 && continuation b2
                   && between 0x800 (code_point3 b0 b1 b2) 0xFFFF
                   && negb (between 0xD800 (code_point3 b0 b1 b2) 0xDFFF)
                then code_point3 b0 b1 b2 :: code_points r2
                else
                  match r2 with
                  | String b3 r3 =>
                      if between 0xF0 (byte b0) 0xF4 && continuation b1 && continuation b2
                         && continuation b3
                         && between 0x10000 (code_point4 b0 b1 b2 b3) 0x10FFFF
                      then code_point4 b0 b1 b2 b3 :: code_points r3
                      else one
                  | EmptyString => one
                  end
            | EmptyString => one
            end
      | EmptyString => one
      end
  end.

Definition utf8_tail (c : N) (s : string) : string :=
  String (ascii_of_N (0x80 + c mod 64)) s.

Definition utf8_char (c : N) (s : string) : string :=
  (if c <? 0x80 then String (ascii_of_N c) s
   else if c <? 0x800 then String (ascii_of_N (0xC0 + c / 64)) (utf8_tail c s)
   else if between 0xDC80 c 0xDCFF then String (ascii_of_N (c - 0xDC00)) s
   else if c <? 0x10000 then
     String (ascii_of_N (0xE0 + c / 4096)) (utf8_tail (c / 64) (utf8_tail c s))
   else
     String (ascii_of_N (0xF0 + c / 262144))
            (utf8_tail (c / 4096) (utf8_tail (c / 64) (utf8_tail c s))))%N.

Definition utf8 (cs : list N) : string := fold_right utf8_char EmptyString cs.

Definition in_ranges (c : N) (ranges : list (N * N)) : bool :=
  existsb (fun r => between (fst r) c (snd r)) ranges.

(** *** [s.lower()]

    As CPython 3.11 computes it (the Python of Blender 4.3) from the
    character database of Unicode 14.0: every code point goes to its full
    lower-case mapping, and capital sigma to the final or the medial small
    sigma after its context. *)

(** The simple lower-case mappings in runs: [(a, b, t)] sends the code
    points from [a] to [b] to [t], [t + 1], ... *)
Definition lower_shifts : list (N * N * N) :=
  [
    (0x41, 0x5A, 0x61); (0xC0, 0xD6, 0xE0); (0xD8, 0xDE, 0xF8);
    (0x178, 0x178, 0xFF); (0x181, 0x181, 0x253); (0x186, 0x186, 0x254);
    (0x187, 0x187, 0x188); (0x189, 0x18A, 0x256); (0x18B, 0x18B, 0x18C);
    (0x18E, 0x18E, 0x1DD); (0x18F, 0x18F, 0x259); (0x190, 0x190, 0x25B);
    (0x191, 0x191, 0x192); (0x193, 0x193, 0x260); (0x194, 0x194, 0x263);
    (0x196, 0x196, 0x269); (0x197, 0x197, 0x268); (0x198, 0x198, 0x199);
    (0x19C, 0x19C, 0x26F); (0x19D, 0x19D, 0x272); (0x19F, 0x19F, 0x275);
    (0x1A6, 0x1A6, 0x280); (0x1A7, 0x1A7, 0x1A8); (0x1A9, 0x1A9, 0x283);
    (0x1AC, 0x1AC, 0x1AD); (0x1AE, 0x1AE, 0x288); (0x1AF, 0x1AF, 0x1B0);
    (0x1B1, 0x1B2, 0x28A); (0x1B7, 0x1B7, 0x292); (0x1B8, 0x1B8, 0x1B9);
    (0x1BC, 0x1BC, 0x1BD); (0x1C4, 0x1C4, 0x1C6); (0x1C5, 0x1C5, 0x1C6);
    (0x1C7, 0x1C7, 0x1C9); (0x1C8, 0x1C8, 0x1C9); (0x1CA, 0x1CA, 0x1CC);
    (0x1F1, 0x1F1, 0x1F3); (0x1F6, 0x1F6, 0x195); (0x1F7, 0x1F7, 0x1BF);
    (0x220, 0x220, 0x19E); (0x23A, 0x23A, 0x2C65); (0x23B, 0x23B, 0x23C);
    (0x23D, 0x23D, 0x19A); (0x23E, 0x23E, 0x2C66); (0x241, 0x241, 0x242);
    (0x243, 0x243, 0x180); (0x244, 0x244, 0x289); (0x245, 0x245, 0x28C);
    (0x376, 0x376, 0x377); (0x37F, 0x37F, 0x3F3); (0x386, 0x386, 0x3AC);
    (0x388, 0x38A, 0x3AD); (0x38C, 0x38C, 0x3CC); (0x38E, 0x38F, 0x3CD);
    (0x391, 0x3A1, 0x3B1); (0x3A3, 0x3AB, 0x3C3); (0x3CF, 0x3CF, 0x3D7);
    (0x3F4, 0x3F4, 0x3B8); (0x3F7, 0x3F7, 0x3F8); (0x3F9, 0x3F9, 0x3F2);
    (0x3FA, 0x3FA, 0x3FB); (0x3FD, 0x3FF, 0x37B); (0x400, 0x40F, 0x450);
    (0x410, 0x42F, 0x430); (0x4C0, 0x4C0, 0x4CF); (0x531, 0x556, 0x561);
    (0x10A0, 0x10C5, 0x2D00); (0x10C7, 0x10C7, 0x2D27); (0x10CD, 0x10CD, 0x2D2D);
    (0x13A0, 0x13EF, 0xAB70); (0x13F0, 0x13F5, 0x13F8); (0x1C90, 0x1CBA, 0x10D0);
    (0x1CBD, 0x1CBF, 0x10FD); (0x1E9E, 0x1E9E, 0xDF); (0x1F08, 0x1F0F, 0x1F00);
    (0x1F18, 0x1F1D, 0x1F10); (0x1F28, 0x1F2F, 0x1F20); (0x1F38, 0x1F3F, 0x1F30);
    (0x1F48, 0x1F4D, 0x1F40); (0x1F59, 0x1F59, 0x1F51); (0x1F5B, 0x1F5B, 0x1F53);
    (0x1F5D, 0x1F5D, 0x1F55); (0x1F5F, 0x1F5F, 0x1F57); (0x1F68, 0x1F6F, 0x1F60);
    (0x1F88, 0x1F8F, 0x1F80); (0x1F98, 0x1F9F, 0x1F90); (0x1FA8, 0x1FAF, 0x1FA0);
    (0x1FB8, 0x1FB9, 0x1FB0); (0x1FBA, 0x1FBB, 0x1F70); (0x1FBC, 0x1FBC, 0x1FB3);
    (0x1FC8, 0x1FCB, 0x1F72); (0x1FCC, 0x1FCC, 0x1FC3); (0x1FD8, 0x1FD9, 0x1FD0);
    (0x1FDA, 0x1FDB, 0x1F76); (0x1FE8, 0x1FE9, 0x1FE0); (0x1FEA, 0x1FEB, 0x1F7A);
    (0x1FEC, 0x1FEC, 0x1FE5); (0x1FF8, 0x1FF9, 0x1F78); (0x1FFA, 0x1FFB, 0x1F7C);
    (0x1FFC, 0x1FFC, 0x1FF3); (0x2126, 0x2126, 0x3C9); (0x212A, 0x212A, 0x6B);
    (0x212B, 0x212B, 0xE5); (0x2132, 0x2132, 0x214E); (0x2160, 0x216F, 0x2170);
    (0x2183, 0x2183, 0x2184); (0x24B6, 0x24CF, 0x24D0); (0x2C00, 0x2C2F, 0x2C30);
    (0x2C60, 0x2C60, 0x2C61); (0x2C62, 0x2C62, 0x26B); (0x2C63, 0x2C63, 0x1D7D);
    (0x2C64, 0x2C64, 0x27D); (0x2C6D, 0x2C6D, 0x251); (0x2C6E, 0x2C6E, 0x271);
    (0x2C6F, 0x2C6F, 0x250); (0x2C70, 0x2C70, 0x252); (0x2C72, 0x2C72, 0x2C73);
    (0x2C75, 0x2C75, 0x2C76); (0x2C7E, 0x2C7F, 0x23F); (0x2CF2, 0x2CF2, 0x2CF3);
    (0xA77D, 0xA77D, 0x1D79); (0xA78B, 0xA78B, 0xA78C); (0xA78D, 0xA78D, 0x265);
    (0xA7AA, 0xA7AA, 0x266); (0xA7AB, 0xA7AB, 0x25C); (0xA7AC, 0xA7AC, 0x261);
    (0xA7AD, 0xA7AD, 0x26C); (0xA7AE, 0xA7AE, 0x26A); (0xA7B0, 0xA7B0, 0x29E);
    (0xA7B1, 0xA7B1, 0x287); (0xA7B2, 0xA7B2, 0x29D); (0xA7B3, 0xA7B3, 0xAB53);
    (0xA7C4, 0xA7C4, 0xA794); (0xA7C5, 0xA7C5, 0x282); (0xA7C6, 0xA7C6, 0x1D8E);
    (0xA7D0, 0xA7D0, 0xA7D1); (0xA7F5, 0xA7F5, 0xA7F6); (0xFF21, 0xFF3A, 0xFF41);
    (0x10400, 0x10427, 0x10428); (0x104B0, 0x104D3, 0x104D8); (0x10570, 0x1057A, 0x10597);
    (0x1057C, 0x1058A, 0x105A3); (0x1058C, 0x10592, 0x105B3); (0x10594, 0x10595, 0x105BB);
    (0x10C80, 0x10CB2, 0x10CC0); (0x118A0, 0x118BF, 0x118C0); (0x16E40, 0x16E5F, 0x16E60);
    (0x1E900, 0x1E921, 0x1E922) ]%N.

(** Runs of a capital followed by its small letter: [(a, b)] sends [a],
    [a + 2], ..., [b] each to the next code point. *)
Definition lower_pairs : list (N * N) :=
  [
    (0x100, 0x12E); (0x132, 0x136); (0x139, 0x147); (0x14A, 0x176);
    (0x179, 0x17D); (0x182, 0x184); (0x1A0, 0x1A4); (0x1B3, 0x1B5);
    (0x1CB, 0x1DB); (0x1DE, 0x1EE); (0x1F2, 0x1F4); (0x1F8, 0x21E);
    (0x222, 0x232); (0x246, 0x24E); (0x370, 0x372); (0x3D8, 0x3EE);
    (0x460, 0x480); (0x48A, 0x4BE); (0x4C1, 0x4CD); (0x4D0, 0x52E);
    (0x1E00, 0x1E94); (0x1EA0, 0x1EFE); (0x2C67, 0x2C6B); (0x2C80, 0x2CE2);
    (0x2CEB, 0x2CED); (0xA640, 0xA66C); (0xA680, 0xA69A); (0xA722, 0xA72E);
    (0xA732, 0xA76E); (0xA779, 0xA77B); (0xA77E, 0xA786); (0xA790, 0xA792);
    (0xA796, 0xA7A8); (0xA7B4, 0xA7C2); (0xA7C7, 0xA7C9); (0xA7D6, 0xA7D8) ]%N.

(** The code points with the property Cased. *)
Definition Cased : list (N * N) :=
  [
    (0x41, 0x5A); (0x61, 0x7A); (0xAA, 0xAA); (0xB5, 0xB5);
    (0xBA, 0xBA); (0xC0, 0xD6); (0xD8, 0xF6); (0xF8, 0x1BA);
    (0x1BC, 0x1BF); (0x1C4, 0x293); (0x295, 0x2B8); (0x2C0, 0x2C1);
    (0x2E0, 0x2E4); (0x345, 0x345); (0x370, 0x373); (0x376, 0x377);
    (0x37A, 0x37D); (0x37F, 0x37F); (0x386, 0x386); (0x388, 0x38A);
    (0x38C, 0x38C); (0x38E, 0x3A1); (0x3A3, 0x3F5); (0x3F7, 0x481);
    (0x48A, 0x52F); (0x531, 0x556); (0x560, 0x588); (0x10A0, 0x10C5);
    (0x10C7, 0x10C7); (0x10CD, 0x10CD); (0x10D0, 0x10FA); (0x10FD, 0x10FF);
    (0x13A0, 0x13F5); (0x13F8, 0x13FD); (0x1C80, 0x1C88); (0x1C90, 0x1CBA);
    (0x1CBD, 0x1CBF); (0x1D00, 0x1DBF); (0x1E00, 0x1F15); (0x1F18, 0x1F1D);
    (0x1F20, 0x1F45); (0x1F48, 0x1F4D); (0x1F50, 0x1F57); (0x1F59, 0x1F59);
    (0x1F5B, 0x1F5B); (0x1F5D, 0x1F5D); (0x1F5F, 0x1F7D); (0x1F80, 0x1FB4);
    (0x1FB6, 0x1FBC); (0x1FBE, 0x1FBE); (0x1FC2, 0x1FC4); (0x1FC6, 0x1FCC);
    (0x1FD0, 0x1FD3); (0x1FD6, 0x1FDB); (0x1FE0, 0x1FEC); (0x1FF2, 0x1FF4);
    (0x1FF6, 0x1FFC); (0x2071, 0x2071); (0x207F, 0x207F); (0x2090, 0x209C);
    (0x2102, 0x2102); (0x2107, 0x2107); (0x210A, 0x2113); (0x2115, 0x2115);
    (0x2119, 0x211D); (0x2124, 0x2124); (0x2126, 0x2126); (0x2128, 0x2128);
    (0x212A, 0x212D); (0x212F, 0x2134); (0x2139, 0x2139); (0x213C, 0x213F);
    (0x2145, 0x2149); (0x214E, 0x214E); (0x2160, 0x217F); (0x2183, 0x2184);
    (0x24B6, 0x24E9); (0x2C00, 0x2CE4); (0x2CEB, 0x2CEE); (0x2CF2, 0x2CF3);
    (0x2D00, 0x2D25); (0x2D27, 0x2D27); (0x2D2D, 0x2D2D); (0xA640, 0xA66D);
    (0xA680, 0xA69D); (0xA722, 0xA787); (0xA78B, 0xA78E); (0xA790, 0xA7CA);
    (0xA7D0, 0xA7D1); (0xA7D3, 0xA7D3); (0xA7D5, 0xA7D9); (0xA7F5, 0xA7F6);
    (0xA7F8, 0xA7FA); (0xAB30, 0xAB5A); (0xAB5C, 0xAB68); (0xAB70, 0xABBF);
    (0xFB00, 0xFB06); (0xFB13, 0xFB17); (0xFF21, 0xFF3A); (0xFF41, 0xFF5A);
    (0x10400, 0x1044F); (0x104B0, 0x104D3); (0x104D8, 0x104FB); (0x10570, 0x1057A);
    (0x1057C, 0x1058A); (0x1058C, 0x10592); (0x10594, 0x10595); (0x10597, 0x105A1);
    (0x105A3, 0x105B1); (0x105B3, 0x105B9); (0x105BB, 0x105BC); (0x10780, 0x10780);
    (0x10783, 0x10785); (0x10787, 0x107B0); (0x107B2, 0x107BA); (0x10C80, 0x10CB2);
    (0x10CC0, 0x10CF2); (0x118A0, 0x118DF); (0x16E40, 0x16E7F); (0x1D400, 0x1D454);
    (0x1D456, 0x1D49C); (0x1D49E, 0x1D49F); (0x1D4A2, 0x1D4A2); (0x1D4A5, 0x1D4A6);
    (0x1D4A9, 0x1D4AC); (0x1D4AE, 0x1D4B9); (0x1D4BB, 0x1D4BB); (0x1D4BD, 0x1D4C3);
    (0x1D4C5, 0x1D505); (0x1D507, 0x1D50A); (0x1D50D, 0x1D514); (0x1D516, 0x1D51C);
    (0x1D51E, 0x1D539); (0x1D53B, 0x1D53E); (0x1D540, 0x1D544); (0x1D546, 0x1D546);
    (0x1D54A, 0x1D550); (0x1D552, 0x1D6A5); (0x1D6A8, 0x1D6C0); (0x1D6C2, 0x1D6DA);
    (0x1D6DC, 0x1D6FA); (0x1D6FC, 0x1D714); (0x1D716, 0x1D734); (0x1D736, 0x1D74E);
    (0x1D750, 0x1D76E); (0x1D770, 0x1D788); (0x1D78A, 0x1D7A8); (0x1D7AA, 0x1D7C2);
    (0x1D7C4, 0x1D7CB); (0x1DF00, 0x1DF09); (0x1DF0B, 0x1DF1E); (0x1E900, 0x1E943);
    (0x1F130, 0x1F149); (0x1F150, 0x1F169); (0x1F170, 0x1F189) ]%N.

(** The code points with the property Case_Ignorable. *)
Definition Case_Ignorable : list (N * N) :=
  [
    (0x27, 0x27); (0x2E, 0x2E); (0x3A, 0x3A); (0x5E, 0x5E);
    (0x60, 0x60); (0xA8, 0xA8); (0xAD, 0xAD); (0xAF, 0xAF);
    (0xB4, 0xB4); (0xB7, 0xB8); (0x2B0, 0x36F); (0x374, 0x375);
    (0x37A, 0x37A); (0x384, 0x385); (0x387, 0x387); (0x483, 0x489);
    (0x559, 0x559); (0x55F, 0x55F); (0x591, 0x5BD); (0x5BF, 0x5BF);
    (0x5C1, 0x5C2); (0x5C4, 0x5C5); (0x5C7, 0x5C7); (0x5F4, 0x5F4);
    (0x600, 0x605); (0x610, 0x61A); (0x61C, 0x61C); (0x640, 0x640);
    (0x64B, 0x65F); (0x670, 0x670); (0x6D6, 0x6DD); (0x6DF, 0x6E8);
    (0x6EA, 0x6ED); (0x70F, 0x70F); (0x711, 0x711); (0x730, 0x74A);
    (0x7A6, 0x7B0); (0x7EB, 0x7F5); (0x7FA, 0x7FA); (0x7FD, 0x7FD);
    (0x816, 0x82D); (0x859, 0x85B); (0x888, 0x888); (0x890, 0x891);
    (0x898, 0x89F); (0x8C9, 0x902); (0x93A, 0x93A); (0x93C, 0x93C);
    (0x941, 0x948); (0x94D, 0x94D); (0x951, 0x957); (0x962, 0x963);
    (0x971, 0x971); (0x981, 0x981); (0x9BC, 0x9BC); (0x9C1, 0x9C4);
    (0x9CD, 0x9CD); (0x9E2, 0x9E3); (0x9FE, 0x9FE); (0xA01, 0xA02);
    (0xA3C, 0xA3C); (0xA41, 0xA42); (0xA47, 0xA48); (0xA4B, 0xA4D);
    (0xA51, 0xA51); (0xA70, 0xA71); (0xA75, 0xA75); (0xA81, 0xA82);
    (0xABC, 0xABC); (0xAC1, 0xAC5); (0xAC7, 0xAC8); (0xACD, 0xACD);
    (0xAE2, 0xAE3); (0xAFA, 0xAFF); (0xB01, 0xB01); (0xB3C, 0xB3C);
    (0xB3F, 0xB3F); (0xB41, 0xB44); (0xB4D, 0xB4D); (0xB55, 0xB56);
    (0xB62, 0xB63); (0xB82, 0xB82); (0xBC0, 0xBC0); (0xBCD, 0xBCD);
    (0xC00, 0xC00); (0xC04, 0xC04); (0xC3C, 0xC3C); (0xC3E, 0xC40);
    (0xC46, 0xC48); (0xC4A, 0xC4D); (0xC55, 0xC56); (0xC62, 0xC63);
    (0xC81, 0xC81); (0xCBC, 0xCBC); (0xCBF, 0xCBF); (0xCC6, 0xCC6);
    (0xCCC, 0xCCD); (0xCE2, 0xCE3); (0xD00, 0xD01); (0xD3B, 0xD3C);
    (0xD41, 0xD44); (0xD4D, 0xD4D); (0xD62, 0xD63); (0xD81, 0xD81);
    (0xDCA, 0xDCA); (0xDD2, 0xDD4); (0xDD6, 0xDD6); (0xE31, 0xE31);
    (0xE34, 0xE3A); (0xE46, 0xE4E); (0xEB1, 0xEB1); (0xEB4, 0xEBC);
    (0xEC6, 0xEC6); (0xEC8, 0xECD); (0xF18, 0xF19); (0xF35, 0xF35);
    (0xF37, 0xF37); (0xF39, 0xF39); (0xF71, 0xF7E); (0xF80, 0xF84);
    (0xF86, 0xF87); (0xF8D, 0xF97); (0xF99, 0xFBC); (0xFC6, 0xFC6);
    (0x102D, 0x1030); (0x1032, 0x1037); (0x1039, 0x103A); (0x103D, 0x103E);
    (0x1058, 0x1059); (0x105E, 0x1060); (0x1071, 0x1074); (0x1082, 0x1082);
    (0x1085, 0x1086); (0x108D, 0x108D); (0x109D, 0x109D); (0x10FC, 0x10FC);
    (0x135D, 0x135F); (0x1712, 0x1714); (0x1732, 0x1733); (0x1752, 0x1753);
    (0x1772, 0x1773); (0x17B4, 0x17B5); (0x17B7, 0x17BD); (0x17C6, 0x17C6);
    (0x17C9, 0x17D3); (0x17D7, 0x17D7); (0x17DD, 0x17DD); (0x180B, 0x180F);
    (0x1843, 0x1843); (0x1885, 0x1886); (0x18A9, 0x18A9); (0x1920, 0x1922);
    (0x1927, 0x1928); (0x1932, 0x1932); (0x1939, 0x193B); (0x1A17, 0x1A18);
    (0x1A1B, 0x1A1B); (0x1A56, 0x1A56); (0x1A58, 0x1A5E); (0x1A60, 0x1A60);
    (0x1A62, 0x1A62); (0x1A65, 0x1A6C); (0x1A73, 0x1A7C); (0x1A7F, 0x1A7F);
    (0x1AA7, 0x1AA7); (0x1AB0, 0x1ACE); (0x1B00, 0x1B03); (0x1B34, 0x1B34);
    (0x1B36, 0x1B3A); (0x1B3C, 0x1B3C); (0x1B42, 0x1B42); (0x1B6B, 0x1B73);
    (0x1B80, 0x1B81); (0x1BA2, 0x1BA5); (0x1BA8, 0x1BA9); (0x1BAB, 0x1BAD);
    (0x1BE6, 0x1BE6); (0x1BE8, 0x1BE9); (0x1BED, 0x1BED); (0x1BEF, 0x1BF1);
    (0x1C2C, 0x1C33); (0x1C36, 0x1C37); (0x1C78, 0x1C7D); (0x1CD0, 0x1CD2);
    (0x1CD4, 0x1CE0); (0x1CE2, 0x1CE8); (0x1CED, 0x1CED); (0x1CF4, 0x1CF4);
    (0x1CF8, 0x1CF9); (0x1D2C, 0x1D6A); (0x1D78, 0x1D78); (0x1D9B, 0x1DFF);
    (0x1FBD, 0x1FBD); (0x1FBF, 0x1FC1); (0x1FCD, 0x1FCF); (0x1FDD, 0x1FDF);
    (0x1FED, 0x1FEF); (0x1FFD, 0x1FFE); (0x200B, 0x200F); (0x2018, 0x2019);
    (0x2024, 0x2024); (0x2027, 0x2027); (0x202A, 0x202E); (0x2060, 0x2064);
    (0x2066, 0x206F); (0x2071, 0x2071); (0x207F, 0x207F); (0x2090, 0x209C);
    (0x20D0, 0x20F0); (0x2C7C, 0x2C7D); (0x2CEF, 0x2CF1); (0x2D6F, 0x2D6F);
    (0x2D7F, 0x2D7F); (0x2DE0, 0x2DFF); (0x2E2F, 0x2E2F); (0x3005, 0x3005);
    (0x302A, 0x302D); (0x3031, 0x3035); (0x303B, 0x303B); (0x3099, 0x309E);
    (0x30FC, 0x30FE); (0xA015, 0xA015); (0xA4F8, 0xA4FD); (0xA60C, 0xA60C);
    (0xA66F, 0xA672); (0xA674, 0xA67D); (0xA67F, 0xA67F); (0xA69C, 0xA69F);
    (0xA6F0, 0xA6F1); (0xA700, 0xA721); (0xA770, 0xA770); (0xA788, 0xA78A);
    (0xA7F2, 0xA7F4); (0xA7F8, 0xA7F9); (0xA802, 0xA802); (0xA806, 0xA806);
    (0xA80B, 0xA80B); (0xA825, 0xA826); (0xA82C, 0xA82C); (0xA8C4, 0xA8C5);
    (0xA8E0, 0xA8F1); (0xA8FF, 0xA8FF); (0xA926, 0xA92D); (0xA947, 0xA951);
    (0xA980, 0xA982); (0xA9B3, 0xA9B3); (0xA9B6, 0xA9B9); (0xA9BC, 0xA9BD);
    (0xA9CF, 0xA9CF); (0xA9E5, 0xA9E6); (0xAA29, 0xAA2E); (0xAA31, 0xAA32);
    (0xAA35, 0xAA36); (0xAA43, 0xAA43); (0xAA4C, 0xAA4C); (0xAA70, 0xAA70);
    (0xAA7C, 0xAA7C); (0xAAB0, 0xAAB0); (0xAAB2, 0xAAB4); (0xAAB7, 0xAAB8);
    (0xAABE, 0xAABF); (0xAAC1, 0xAAC1); (0xAADD, 0xAADD); (0xAAEC, 0xAAED);
    (0xAAF3, 0xAAF4); (0xAAF6, 0xAAF6); (0xAB5B, 0xAB5F); (0xAB69, 0xAB6B);
    (0xABE5, 0xABE5); (0xABE8, 0xABE8); (0xABED, 0xABED); (0xFB1E, 0xFB1E);
    (0xFBB2, 0xFBC2); (0xFE00, 0xFE0F); (0xFE13, 0xFE13); (0xFE20, 0xFE2F);
    (0xFE52, 0xFE52); (0xFE55, 0xFE55); (0xFEFF, 0xFEFF); (0xFF07, 0xFF07);
    (0xFF0E, 0xFF0E); (0xFF1A, 0xFF1A); (0xFF3E, 0xFF3E); (0xFF40, 0xFF40);
    (0xFF70, 0xFF70); (0xFF9E, 0xFF9F); (0xFFE3, 0xFFE3); (0xFFF9, 0xFFFB);
    (0x101FD, 0x101FD); (0x102E0, 0x102E0); (0x10376, 0x1037A); (0x10780, 0x10785);
    (0x10787, 0x107B0); (0x107B2, 0x107BA); (0x10A01, 0x10A03); (0x10A05, 0x10A06);
    (0x10A0C, 0x10A0F); (0x10A38, 0x10A3A); (0x10A3F, 0x10A3F); (0x10AE5, 0x10AE6);
    (0x10D24, 0x10D27); (0x10EAB, 0x10EAC); (0x10F46, 0x10F50); (0x10F82, 0x10F85);
    (0x11001, 0x11001); (0x11038, 0x11046); (0x11070, 0x11070); (0x11073, 0x11074);
    (0x1107F, 0x11081); (0x110B3, 0x110B6); (0x110B9, 0x110BA); (0x110BD, 0x110BD);
    (0x110C2, 0x110C2); (0x110CD, 0x110CD); (0x11100, 0x11102); (0x11127, 0x1112B);
    (0x1112D, 0x11134); (0x11173, 0x11173); (0x11180, 0x11181); (0x111B6, 0x111BE);
    (0x111C9, 0x111CC); (0x111CF, 0x111CF); (0x1122F, 0x11231); (0x11234, 0x11234);
    (0x11236, 0x11237); (0x1123E, 0x1123E); (0x112DF, 0x112DF); (0x112E3, 0x112EA);
    (0x11300, 0x11301); (0x1133B, 0x1133C); (0x11340, 0x11340); (0x11366, 0x1136C);
    (0x11370, 0x11374); (0x11438, 0x1143F); (0x11442, 0x11444); (0x11446, 0x11446);
    (0x1145E, 0x1145E); (0x114B3, 0x114B8); (0x114BA, 0x114BA); (0x114BF, 0x114C0);
    (0x114C2, 0x114C3); (0x115B2, 0x115B5); (0x115BC, 0x115BD); (0x115BF, 0x115C0);
    (0x115DC, 0x115DD); (0x11633, 0x1163A); (0x1163D, 0x1163D); (0x1163F, 0x11640);
    (0x116AB, 0x116AB); (0x116AD, 0x116AD); (0x116B0, 0x116B5); (0x116B7, 0x116B7);
    (0x1171D, 0x1171F); (0x11722, 0x11725); (0x11727, 0x1172B); (0x1182F, 0x11837);
    (0x11839, 0x1183A); (0x1193B, 0x1193C); (0x1193E, 0x1193E); (0x11943, 0x11943);
    (0x119D4, 0x119D7); (0x119DA, 0x119DB); (0x119E0, 0x119E0); (0x11A01, 0x11A0A);
    (0x11A33, 0x11A38); (0x11A3B, 0x11A3E); (0x11A47, 0x11A47); (0x11A51, 0x11A56);
    (0x11A59, 0x11A5B); (0x11A8A, 0x11A96); (0x11A98, 0x11A99); (0x11C30, 0x11C36);
    (0x11C38, 0x11C3D); (0x11C3F, 0x11C3F); (0x11C92, 0x11CA7); (0x11CAA, 0x11CB0);
    (0x11CB2, 0x11CB3); (0x11CB5, 0x11CB6); (0x11D31, 0x11D36); (0x11D3A, 0x11D3A);
    (0x11D3C, 0x11D3D); (0x11D3F, 0x11D45); (0x11D47, 0x11D47); (0x11D90, 0x11D91);
    (0x11D95, 0x11D95); (0x11D97, 0x11D97); (0x11EF3, 0x11EF4); (0x13430, 0x13438);
    (0x16AF0, 0x16AF4); (0x16B30, 0x16B36); (0x16B40, 0x16B43); (0x16F4F, 0x16F4F);
    (0x16F8F, 0x16F9F); (0x16FE0, 0x16FE1); (0x16FE3, 0x16FE4); (0x1AFF0, 0x1AFF3);
    (0x1AFF5, 0x1AFFB); (0x1AFFD, 0x1AFFE); (0x1BC9D, 0x1BC9E); (0x1BCA0, 0x1BCA3);
    (0x1CF00, 0x1CF2D); (0x1CF30, 0x1CF46); (0x1D167, 0x1D169); (0x1D173, 0x1D182);
    (0x1D185, 0x1D18B); (0x1D1AA, 0x1D1AD); (0x1D242, 0x1D244); (0x1DA00, 0x1DA36);
    (0x1DA3B, 0x1DA6C); (0x1DA75, 0x1DA75); (0x1DA84, 0x1DA84); (0x1DA9B, 0x1DA9F);
    (0x1DAA1, 0x1DAAF); (0x1E000, 0x1E006); (0x1E008, 0x1E018); (0x1E01B, 0x1E021);
    (0x1E023, 0x1E024); (0x1E026, 0x1E02A); (0x1E130, 0x1E13D); (0x1E2AE, 0x1E2AE);
    (0x1E2EC, 0x1E2EF); (0x1E8D0, 0x1E8D6); (0x1E944, 0x1E94B); (0x1F3FB, 0x1F3FF);
    (0xE0001, 0xE0001); (0xE0020, 0xE007F); (0xE0100, 0xE01EF) ]%N.

(** The full lower-case mapping of one code point; capital I with dot is the
    only one that goes to two. *)
Definition to_lower_full (c : N) : list N :=
  if (c =? 0x130)%N then [0x69; 0x307]%N
  else
    match List.find (fun r => between (fst (fst r)) c (snd (fst r))) lower_shifts with
    | Some (a, _, t) => [t + (c - a)]%N
    | None =>
        match List.find (fun r => between (fst r) c (snd r)) lower_pairs with
        | Some (a, _) => if N.even (c - a) then [c + 1]%N else [c]
        | None => [c]
        end
    end.

Fixpoint skip_case_ignorable (cs : list N) : list N :=
  match cs with
  | c :: rest => if in_ranges c Case_Ignorable then skip_case_ignorable rest else cs
  | [] => []
  end.

(** Capital sigma is final when a cased letter comes before it and none
    after it, case-ignorable code points set aside; [before] is the text
    before it read backwards. *)
Definition final_sigma (before after : list N) : bool :=
  match skip_case_ignorable before with
  | c :: _ => in_ranges c Cased
  | [] => false
  end
  && match skip_case_ignorable after with
     | c :: _ => negb (in_ranges c Cased)
     | [] => true
     end.

Fixpoint do_lower (before cs : list N) : list N :=
  match cs with
  | [] => []
  | c :: rest =>
      (if (c =? 0x3A3)%N
       then [if final_sigma before rest then 0x3C2 else 0x3C3]%N
       else to_lower_full c)
      ++ do_lower (c :: before) rest
  end.

Definition lower (s : string) : string := utf8 (do_lower [] (code_points s)).

Fixpoint starts_with (p s : string) : bool :=
  match p, s with
  | EmptyString, _ => true
  | String a p', String b s' => Ascii.eqb a b && starts_with p' s'
  | String _ _, EmptyString => false
  end.

(** [kw in s] on strings *)
Fixpoint str_in (kw s : string) : bool :=
  starts_with kw s ||
  match s with
  | EmptyString => false
  | String _ s' => str_in kw s'
  end.

(** [any(kw in s for kw in kws)] *)
Definition any_kw_in (kws : list string) (s : string) : bool :=
  existsb (fun kw => str_in kw s) kws.

(** [x in xs] for a list or set of strings *)
Definition str_mem (x : string) (xs : list string) : bool :=
  existsb (String.eqb x) xs.

(** *** [s.strip()]

    Without argument it removes white space at both ends: the code points
    for which [str.isspace] holds. *)
Definition whitespace : list (N * N) :=
  [ (0x09, 0x0D); (0x1C, 0x20); (0x85, 0x85); (0xA0, 0xA0); (0x1680, 0x1680);
    (0x2000, 0x200A); (0x2028, 0x2029); (0x202F, 0x202F); (0x205F, 0x205F);
    (0x3000, 0x3000) ]%N.

Definition is_space (c : N) : bool := in_ranges c whitespace.

Fixpoint lstrip (cs : list N) : list N :=
  match cs with
  | c :: r => if is_space c then lstrip r else cs
  | [] => []
  end.

Fixpoint rstrip (cs : list N) : list N :=
  match cs with
  | [] => []
  | c :: r =>
      match rstrip r with
      | [] => if is_space c then [] else [c]
      | r' => c :: r'
      end
  end.

Definition strip (s : string) : string := utf8 (rstrip (lstrip (code_points s))).

(** Truth value of a Python string *)
Definition nonempty (s : string) : bool :=
  match s with EmptyString => false | _ => true end.

(** [d.get(k, default)] on a dictionary literal given by its items (the
    literals of the add-on repeat no key). *)
Definition dict_get {K V} `{EqDecision K} (d : list (K * V)) (k : K) (default : V) : V :=
  match List.find (fun kv => bool_decide (fst kv = k)) d with
  | Some kv => snd kv
  | None => default
  end.

(** [enumerate(xs)] *)
Definition enumerate {A} (xs : list A) : list (nat * A) :=
  combine (seq 0 (length xs)) xs.

(** Position of the first element satisfying [p]. *)
Definition find_index {A} (p : A -> bool) (xs : list A) : option nat :=
  match List.find (fun ix => p (snd ix)) (enumerate xs) with
  | Some ix => Some (fst ix)
  | None => None
  end.

Definition nat_mem (i : nat) (s : list nat) : bool := existsb (Nat.eqb i) s.

(** ** Socket semantics (node_config.py, class SocketSemantics) *)

Inductive Semantic :=
  | COLOR | NORMAL | ROUGHNESS | METALLIC | ALPHA | EMISSION
  | SPECULAR | SUBSURFACE | AO | DISPLACEMENT | UNKNOWN.

#[global] Instance Semantic_eq_dec : EqDecision Semantic.
Proof. solve_decision. Defined.

Module SocketSemantics.

Definition COLOR_KEYWORDS : list string :=
  ["color"; "base color"; "diffuse"; "albedo"; "颜色"; "基础色"; "漫反射"; "反照率"].
Definition NORMAL_KEYWORDS : list string := ["normal"; "bump"; "法线"; "凹凸"].
Definition ROUGHNESS_KEYWORDS : list string :=
  ["roughness"; "rough"; "glossy"; "gloss"; "粗糙"; "光泽"].
Definition METALLIC_KEYWORDS : list string := ["metallic"; "metal"; "金属"].
Definition ALPHA_KEYWORDS : list string :=
  ["alpha"; "opacity"; "transparency"; "透明"; "不透明"; "fac"].
Definition EMISSION_KEYWORDS : list string :=
  ["emission"; "emissive"; "glow"; "自发光"; "发光"].
Definition SPECULAR_KEYWORDS : list string :=
  ["specular"; "spec"; "reflection"; "高光"; "反射"].
Definition SUBSURFACE_KEYWORDS : list string := ["subsurface"; "sss"; "次表面"].
Definition AO_KEYWORDS : list string :=
  ["ao"; "ambient occlusion"; "occlusion"; "环境光遮蔽"; "遮蔽"].
Definition DISPLACEMENT_KEYWORDS : list string :=
  ["displacement"; "height"; "disp"; "置换"; "高度"].

Definition get_socket_semantic (socket_name : string) : Semantic :=
  let name_lower := lower socket_name in
  if str_in "base color" name_lower || str_in "basecolor" name_lower then COLOR
  else if any_kw_in NORMAL_KEYWORDS name_lower then NORMAL
  else if any_kw_in ROUGHNESS_KEYWORDS name_lower then ROUGHNESS
  else if any_kw_in METALLIC_KEYWORDS name_lower then METALLIC
  else if any_kw_in ALPHA_KEYWORDS name_lower then ALPHA
  else if any_kw_in EMISSION_KEYWORDS name_lower then EMISSION
  else if any_kw_in SPECULAR_KEYWORDS name_lower then SPECULAR
  else if any_kw_in SUBSURFACE_KEYWORDS name_lower then SUBSURFACE
  else if any_kw_in AO_KEYWORDS name_lower then AO
  else if any_kw_in DISPLACEMENT_KEYWORDS name_lower then DISPLACEMENT
  else if str_in "color" name_lower || str_in "颜色" name_lower then COLOR
  else UNKNOWN.

(** The dictionary literal of [are_semantically_compatible]. *)
Definition compatibility : list ((Semantic * Semantic) * Z) :=
  [ ((COLOR, COLOR), 100);
    ((COLOR, EMISSION), 80);
    ((NORMAL, NORMAL), 100);
    ((ROUGHNESS, ROUGHNESS), 100);
    ((ROUGHNESS, SPECULAR), 60);
    ((METALLIC, METALLIC), 100);
    ((ALPHA, ALPHA), 100);
    ((AO, ROUGHNESS), 40);
    ((AO, SPECULAR), 40) ].

Definition are_semantically_compatible (output_semantic input_semantic : Semantic) : Z :=
  if bool_decide (output_semantic = input_semantic) then 100
  else dict_get compatibility (output_semantic, input_semantic) 0.

End SocketSemantics.

(** ** The host's graph API

    What the add-on reads and writes through [bpy]: node trees, their nodes,
    sockets and links, the shared node groups and the node classes. *)

Record Socket := {
  sock_name : string;        (* socket.name *)
  sock_type : string;        (* socket.type: 'RGBA', 'VECTOR', 'VALUE', 'SHADER', ... *)
  sock_bl_idname : string    (* socket.bl_idname *)
}.

Record Node := {
  node_id : nat;                 (* identity of the host object *)
  node_name : string;            (* node.name *)
  node_label : string;           (* node.label *)
  node_type : string;            (* node.type *)
  node_tree : option string;     (* node.node_tree.name of a group node, if bound *)
  node_inputs : list Socket;     (* node.inputs *)
  node_outputs : list Socket;    (* node.outputs *)
  node_location : Z * Z          (* node.location *)
}.

(** A link joins output [from_socket] of node [from_node] to input
    [to_socket] of node [to_node]; sockets are positions. *)
Record Link := {
  from_node : nat;
  from_socket : nat;
  to_node : nat;
  to_socket : nat
}.

#[global] Instance Link_eq_dec : EqDecision Link.
Proof. solve_decision. Defined.

Record NodeTree := {
  nt_nodes : list Node;      (* node_tree.nodes, in order *)
  nt_links : list Link       (* node_tree.links, in order *)
}.

(** A shared group definition of [bpy.data.node_groups]. *)
Record NodeGroup := {
  ng_name : string;
  ng_type : string;
  ng_inputs : list Socket;
  ng_outputs : list Socket
}.

(** What [nodes.new(type=cls)] builds for a node class. *)
Record NodeClass := {
  nc_type : string;
  nc_inputs : list Socket;
  nc_outputs : list Socket
}.

Record Host := {
  host_accepts : Link -> bool;              (* links.new raises when false *)
  node_groups : list NodeGroup;             (* bpy.data.node_groups *)
  node_class : string -> option NodeClass   (* None: nodes.new raises *)
}.

(** [nodes.get(name)] *)
Definition nodes_get (ns : list Node) (name : string) : option Node :=
  List.find (fun n => String.eqb (node_name n) name) ns.

(** The node a link end refers to. *)
Definition node_of_id (ns : list Node) (i : nat) : option Node :=
  List.find (fun n => Nat.eqb (node_id n) i) ns.

(** [name in sockets] and [sockets[name]]: the first socket of that name. *)
Definition socket_named (ss : list Socket) (name : string) : option nat :=
  find_index (fun s => String.eqb (sock_name s) name) ss.

Definition same_input (a b : Link) : bool :=
  Nat.eqb (to_node a) (to_node b) && Nat.eqb (to_socket a) (to_socket b).

(** [links.new(out, inp)]: an input holds one link, so a link already bound
    to the input is replaced.  [None] when the host raises. *)
Definition links_new (h : Host) (l : Link) (ls : list Link) : option (list Link) :=
  if host_accepts h l
  then Some (List.filter (fun l' => negb (same_input l' l)) ls ++ [l])
  else None.

(** [links.remove(link)] *)
Definition links_remove (l : Link) (ls : list Link) : list Link :=
  List.filter (fun l' => negb (bool_decide (l' = l))) ls.

(** [nodes.remove(node)]: the node goes, and every link bound to it. *)
Definition nodes_remove (n : Node) (t : NodeTree) : NodeTree :=
  {| nt_nodes := List.filter (fun m => negb (Nat.eqb (node_id m) (node_id n))) (nt_nodes t);
     nt_links := List.filter (fun l => negb (Nat.eqb (from_node l) (node_id n))
                                       && negb (Nat.eqb (to_node l) (node_id n))) (nt_links t) |}.

(** Identity of the next host object. *)
Definition fresh_id (ns : list Node) : nat :=
  S (fold_right Nat.max 0%nat (map node_id ns)).

(** Node names are unique in a tree: a name already taken gets the first free
    numeric suffix (.001, .002, ...). *)
Definition digit (n : nat) : ascii := ascii_of_nat (48 + n mod 10).

Definition suffix3 (k : nat) : string :=
  String "." (String (digit (k / 100)) (String (digit (k / 10)) (String (digit k) EmptyString))).

Fixpoint first_free (used : list string) (base : string) (k fuel : nat) : string :=
  let c := String.append base (suffix3 k) in
  match fuel with
  | O => c
  | S fuel' => if str_mem c used then first_free used base (S k) fuel' else c
  end.

Definition unique_name (used : list string) (base : string) : string :=
  if str_mem base used then first_free used base 1 (length used) else base.

(** Link attempts of one operation: the links, the number made, and every
    call of [links.new] in order. *)
Record Conn := {
  c_links : list Link;
  c_count : Z;
  c_trace : list Link
}.

Definition conn_start (ls : list Link) : Conn :=
  {| c_links := ls; c_count := 0; c_trace := [] |}.

(** [try: links.new(a, b); connect_count += 1  except: pass] *)
Definition try_link (h : Host) (l : Link) (st : Conn) : bool * Conn :=
  match links_new h l (c_links st) with
  | Some ls => (true, {| c_links := ls; c_count := c_count st + 1; c_trace := c_trace st ++ [l] |})
  | None => (false, {| c_links := c_links st; c_count := c_count st; c_trace := c_trace st ++ [l] |})
  end.

Definition mk_link (src : Node) (o : nat) (dst : Node) (i : nat) : Link :=
  {| from_node := node_id src; from_socket := o; to_node := node_id dst; to_socket := i |}.

(** ** Node type registry (node_config.py, class NodeTypeConfig) *)

Module NodeTypeConfig.

Definition SHADER_NODE_TYPES : list string :=
  [ "BSDF_PRINCIPLED"; "BSDF_DIFFUSE"; "BSDF_GLOSSY"; "BSDF_TRANSPARENT";
    "BSDF_GLASS"; "BSDF_TRANSLUCENT"; "BSDF_ANISOTROPIC"; "BSDF_VELVET";
    "BSDF_REFRACTION"; "BSDF_TOON"; "BSDF_SHEEN"; "BSDF_HAIR";
    "BSDF_HAIR_PRINCIPLED"; "SUBSURFACE_SCATTERING"; "EMISSION";
    "VOLUME_ABSORPTION"; "VOLUME_SCATTER"; "VOLUME_PRINCIPLED";
    "MIX_SHADER"; "ADD_SHADER"; "HOLDOUT"; "BACKGROUND"; "EEVEE_SPECULAR" ].

Definition TEXTURE_NODE_TYPES : list string :=
  [ "TEX_IMAGE"; "TEX_ENVIRONMENT"; "TEX_SKY"; "TEX_NOISE"; "TEX_VORONOI";
    "TEX_WAVE"; "TEX_MAGIC"; "TEX_CHECKER"; "TEX_BRICK"; "TEX_GRADIENT";
    "TEX_WHITE_NOISE"; "TEX_GABOR"; "TEX_MUSGRAVE" ].

Definition SHADER_TYPE_TO_CLASS : list (string * string) :=
  [ ("BSDF_PRINCIPLED", "ShaderNodeBsdfPrincipled");
    ("BSDF_DIFFUSE", "ShaderNodeBsdfDiffuse");
    ("BSDF_GLOSSY", "ShaderNodeBsdfGlossy");
    ("BSDF_TRANSPARENT", "ShaderNodeBsdfTransparent");
    ("BSDF_GLASS", "ShaderNodeBsdfGlass");
    ("BSDF_TRANSLUCENT", "ShaderNodeBsdfTranslucent");
    ("BSDF_ANISOTROPIC", "ShaderNodeBsdfAnisotropic");
    ("BSDF_REFRACTION", "ShaderNodeBsdfRefraction");
    ("BSDF_TOON", "ShaderNodeBsdfToon");
    ("BSDF_SHEEN", "ShaderNodeBsdfSheen");
    ("BSDF_HAIR", "ShaderNodeBsdfHair");
    ("BSDF_HAIR_PRINCIPLED", "ShaderNodeBsdfHairPrincipled");
    ("SUBSURFACE_SCATTERING", "ShaderNodeSubsurfaceScattering");
    ("EMISSION", "ShaderNodeEmission");
    ("HOLDOUT", "ShaderNodeHoldout");
    ("BACKGROUND", "ShaderNodeBackground");
    ("VOLUME_ABSORPTION", "ShaderNodeVolumeAbsorption");
    ("VOLUME_SCATTER", "ShaderNodeVolumeScatter");
    ("VOLUME_PRINCIPLED", "ShaderNodeVolumePrincipled");
    ("MIX_SHADER", "ShaderNodeMixShader");
    ("ADD_SHADER", "ShaderNodeAddShader") ].

Definition BUILTIN_SHADER_TYPES : list string :=
  [ "BSDF_PRINCIPLED"; "BSDF_DIFFUSE"; "BSDF_GLOSSY"; "BSDF_TRANSPARENT";
    "BSDF_GLASS"; "EMISSION"; "BSDF_ANISOTROPIC"; "BSDF_HAIR";
    "SUBSURFACE_SCATTERING"; "VOLUME_ABSORPTION"; "VOLUME_SCATTER";
    "VOLUME_PRINCIPLED"; "MIX_SHADER"; "ADD_SHADER"; "BSDF_SHEEN";
    "BSDF_TRANSLUCENT"; "BSDF_REFRACTION"; "BSDF_TOON"; "HOLDOUT";
    "BSDF_HAIR_PRINCIPLED"; "BACKGROUND" ].

Definition SHADER_KEYWORDS : list string :=
  [ "shader"; "bsdf"; "material"; "着色"; "材质"; "surface" ].

Definition is_shader_node (node : Node) : bool :=
  if str_mem (node_type node) SHADER_NODE_TYPES then true
  else
    match node_tree node with
    | Some ng_name =>
        if String.eqb (node_type node) "GROUP" then
          if existsb (fun out => String.eqb (sock_type out) "SHADER") (node_outputs node)
          then true
          else any_kw_in SHADER_KEYWORDS (lower ng_name)
        else false
    | None => false
    end.

Definition is_texture_node (node : Node) : bool :=
  str_mem (node_type node) TEXTURE_NODE_TYPES.

Definition get_shader_class_name (shader_type : string) : string :=
  dict_get SHADER_TYPE_TO_CLASS shader_type "ShaderNodeBsdfPrincipled".

Definition is_valid_builtin_shader (shader_type : string) : bool :=
  str_mem shader_type BUILTIN_SHADER_TYPES.

End NodeTypeConfig.

(** ** Node matching for the connection rules (node_config.py) *)

Module NodeMatch.

Definition NODE_TYPE_NAMES : list (string * string) :=
  [ ("BSDF_PRINCIPLED", "原理化BSDF");
    ("BSDF_DIFFUSE", "漫射BSDF");
    ("BSDF_GLOSSY", "光泽BSDF");
    ("BSDF_TRANSPARENT", "透明BSDF");
    ("BSDF_GLASS", "玻璃BSDF");
    ("BSDF_TRANSLUCENT", "半透明BSDF");
    ("BSDF_ANISOTROPIC", "各向异性BSDF");
    ("BSDF_VELVET", "天鹅绒BSDF");
    ("BSDF_REFRACTION", "折射BSDF");
    ("BSDF_TOON", "卡通BSDF");
    ("BSDF_SHEEN", "光泽BSDF");
    ("BSDF_HAIR", "毛发BSDF");
    ("BSDF_HAIR_PRINCIPLED", "原理化毛发BSDF");
    ("SUBSURFACE_SCATTERING", "次表面散射");
    ("EMISSION", "自发光");
    ("VOLUME_ABSORPTION", "体积吸收");
    ("VOLUME_SCATTER", "体积散射");
    ("VOLUME_PRINCIPLED", "原理化体积");
    ("EEVEE_SPECULAR", "Eevee高光");
    ("ADD_SHADER", "混合着色器(相加)");
    ("MIX_SHADER", "混合着色器");
    ("HOLDOUT", "阻隔");
    ("BACKGROUND", "背景");
    ("TEX_IMAGE", "图像纹理");
    ("TEX_ENVIRONMENT", "环境纹理");
    ("TEX_SKY", "天空纹理");
    ("TEX_NOISE", "噪波纹理");
    ("TEX_VORONOI", "沃罗诺伊纹理");
    ("TEX_MUSGRAVE", "Musgrave纹理");
    ("TEX_WAVE", "波浪纹理");
    ("TEX_MAGIC", "魔法纹理");
    ("TEX_CHECKER", "棋盘格纹理");
    ("TEX_BRICK", "砖块纹理");
    ("TEX_GRADIENT", "渐变纹理");
    ("TEX_POINTDENSITY", "点密度");
    ("TEX_IES", "IES纹理");
    ("TEX_WHITE_NOISE", "白噪波纹理");
    ("TEX_GABOR", "Gabor纹理");
    ("MIX", "混合");
    ("MIX_RGB", "混合RGB");
    ("CURVE_RGB", "RGB曲线");
    ("CURVE_VEC", "矢量曲线");
    ("INVERT", "反转");
    ("HUE_SAT", "色相/饱和度");
    ("GAMMA", "伽马");
    ("BRIGHTCONTRAST", "亮度/对比度");
    ("LIGHT_FALLOFF", "灯光衰减");
    ("BUMP", "凹凸");
    ("NORMAL", "法向");
    ("NORMAL_MAP", "法向贴图");
    ("DISPLACEMENT", "置换");
    ("VECTOR_DISPLACEMENT", "矢量置换");
    ("MAPPING", "映射");
    ("VECT_TRANSFORM", "矢量变换");
    ("VECTOR_ROTATE", "矢量旋转");
    ("VECTOR_MATH", "矢量运算");
    ("VALTORGB", "颜色渐变");
    ("RGBTOBW", "RGB转BW");
    ("SEPARATE_COLOR", "分离颜色");
    ("COMBINE_COLOR", "合并颜色");
    ("SEPRGB", "分离RGB");
    ("COMBRGB", "合并RGB");
    ("SEPXYZ", "分离XYZ");
    ("COMBXYZ", "合并XYZ");
    ("SEPHSV", "分离HSV");
    ("COMBHSV", "合并HSV");
    ("WAVELENGTH", "波长");
    ("BLACKBODY", "黑体");
    ("TEX_COORD", "纹理坐标");
    ("UVMAP", "UV贴图");
    ("GEOMETRY", "几何数据");
    ("OBJECT_INFO", "物体信息");
    ("PARTICLE_INFO", "粒子信息");
    ("HAIR_INFO", "毛发信息");
    ("POINT_INFO", "点信息");
    ("VOLUME_INFO", "体积信息");
    ("ATTRIBUTE", "属性");
    ("TANGENT", "切向");
    ("LAYER_WEIGHT", "层权重");
    ("FRESNEL", "菲涅尔");
    ("AMBIENT_OCCLUSION", "环境光遮蔽");
    ("BEVEL", "倒角");
    ("WIREFRAME", "线框");
    ("VALUE", "数值");
    ("RGB", "RGB");
    ("VERTEX_COLOR", "顶点颜色");
    ("CAMERA", "相机数据");
    ("LIGHT_PATH", "光程");
    ("OUTPUT_MATERIAL", "材质输出");
    ("OUTPUT_WORLD", "世界输出");
    ("OUTPUT_LIGHT", "灯光输出");
    ("OUTPUT_AOV", "AOV输出");
    ("MATH", "数学运算");
    ("CLAMP", "钳制");
    ("MAP_RANGE", "映射范围");
    ("GROUP", "节点组");
    ("GROUP_INPUT", "组输入");
    ("GROUP_OUTPUT", "组输出");
    ("FRAME", "框架");
    ("REROUTE", "重定向");
    ("SCRIPT", "OSL脚本") ].

(** [NODE_TYPE_NAMES_REVERSE = {v: k for k, v in NODE_TYPE_NAMES.items()}]:
    of two types with one display name the later entry stays. *)
Definition NODE_TYPE_NAMES_REVERSE (display : string) : option string :=
  match List.find (fun kv => String.eqb (snd kv) display) (rev NODE_TYPE_NAMES) with
  | Some kv => Some (fst kv)
  | None => None
  end.

Definition match_node_by_label_or_name (node : Node) (target_name : string) : bool :=
  if negb (nonempty target_name) then false
  else
    let target_name_lower := strip (lower target_name) in
    if nonempty (node_label node)
       && String.eqb (strip (lower (node_label node))) target_name_lower then true
    else if String.eqb (strip (lower (node_name node))) target_name_lower then true
    else if nonempty (node_label node)
            && str_in target_name_lower (lower (node_label node)) then true
    else str_in target_name_lower (lower (node_name node)).

Definition match_node_by_type (node : Node) (target_type : string) : bool :=
  if negb (nonempty target_type) then false
  else if String.eqb (node_type node) target_type then true
  else if String.eqb target_type "GROUP" && String.eqb (node_type node) "GROUP" then true
  else
    match NODE_TYPE_NAMES_REVERSE target_type with
    | Some english_type => String.eqb (node_type node) english_type
    | None => false
    end.

End NodeMatch.

(** ** Auto-connection engine (node_config.py, class AutoConnectionRules) *)

Module AutoConnectionRules.

Import SocketSemantics.

(** First output of type SHADER, else the first output. *)
Definition shader_output_of (outs : list Socket) : option nat :=
  match find_index (fun out => String.eqb (sock_type out) "SHADER") outs with
  | Some i => Some i
  | None => match outs with [] => None | _ :: _ => Some 0%nat end
  end.

Definition surface_names : list string :=
  [ "Surface"; "surface"; "表面"; "曲面"; "表（曲）面" ].

Fixpoint first_named (ins : list Socket) (names : list string) : option nat :=
  match names with
  | [] => None
  | name :: rest =>
      match socket_named ins name with
      | Some i => Some i
      | None => first_named ins rest
      end
  end.

Definition surface_input_of (ins : list Socket) : option nat :=
  match first_named ins surface_names with
  | Some i => Some i
  | None => match ins with [] => None | _ :: _ => Some 0%nat end
  end.

(** Pass 1, the loop over [shader_nodes] with its [break]. *)
Fixpoint connect_shaders_to_output (h : Host) (output_node : Node)
         (shader_nodes : list Node) (st : Conn) : Conn :=
  match shader_nodes with
  | [] => st
  | shader_node :: rest =>
      match shader_output_of (node_outputs shader_node) with
      | Some so =>
          match surface_input_of (node_inputs output_node) with
          | Some si => snd (try_link h (mk_link shader_node so output_node si) st)
          | None => st
          end
      | None => connect_shaders_to_output h output_node rest st
      end
  end.

Definition has_alpha_input (shader_node : Node) : bool :=
  existsb (fun inp => bool_decide (get_socket_semantic (sock_name inp) = ALPHA))
          (node_inputs shader_node).

(** The lowest-numbered input outside [connected_inputs] that satisfies [p]. *)
Definition first_unconnected (p : Socket -> bool) (ins : list Socket)
           (connected_inputs : list nat) : option nat :=
  match List.find (fun ix => negb (nat_mem (fst ix) connected_inputs) && p (snd ix))
                  (enumerate ins) with
  | Some ix => Some (fst ix)
  | None => None
  end.

Definition color_keywords : list string :=
  [ "base color"; "basecolor"; "color"; "颜色"; "diffuse"; "漫反射";
    "albedo"; "反照率"; "基础色" ].

Definition alpha_keywords : list string :=
  [ "alpha"; "opacity"; "transparency"; "透明" ].

Fixpoint color_target (keywords : list string) (ins : list Socket)
         (connected_inputs : list nat) : option nat :=
  match keywords with
  | [] => None
  | keyword :: rest =>
      match first_unconnected (fun inp => str_in keyword (lower (sock_name inp)))
                              ins connected_inputs with
      | Some i => Some i
      | None => color_target rest ins connected_inputs
      end
  end.

Definition alpha_target (ins : list Socket) (connected_inputs : list nat) : option nat :=
  first_unconnected (fun inp => any_kw_in alpha_keywords (lower (sock_name inp)))
                    ins connected_inputs.

(** A link attempt that records the input on success. *)
Definition link_input (h : Host) (l : Link) (cs : list nat * Conn) : bool * (list nat * Conn) :=
  let '(ok, st) := try_link h l (snd cs) in
  (ok, (if ok then to_socket l :: fst cs else fst cs, st)).

(** The [TEX_IMAGE] branch of pass 2 for one shader and one texture. *)
Definition connect_image_texture (h : Host) (shader_node tex_node : Node)
           (has_alpha : bool) (cs : list nat * Conn) : list nat * Conn :=
  let cs1 :=
    if (0 <? length (node_outputs tex_node))%nat then
      match color_target color_keywords (node_inputs shader_node) (fst cs) with
      | Some ti => snd (link_input h (mk_link tex_node 0 shader_node ti) cs)
      | None => cs
      end
    else cs in
  if has_alpha && (1 <? length (node_outputs tex_node))%nat then
    match alpha_target (node_inputs shader_node) (fst cs1) with
    | Some ai => snd (link_input h (mk_link tex_node 1 shader_node ai) cs1)
    | None => cs1
    end
  else cs1.

Definition label_or_name_lower (node : Node) : string :=
  lower (if nonempty (node_label node) then node_label node else node_name node).

Definition texture_semantic (tex_name : string) : Semantic :=
  if any_kw_in ["normal"; "norm"; "法线"] tex_name then NORMAL
  else if any_kw_in ["rough"; "gloss"; "粗糙"; "光泽"] tex_name then ROUGHNESS
  else if any_kw_in ["metal"; "金属"] tex_name then METALLIC
  else if any_kw_in ["ao"; "ambient"; "遮蔽"] tex_name then AO
  else if any_kw_in ["emit"; "glow"; "发光"] tex_name then EMISSION
  else if any_kw_in ["alpha"; "opacity"; "透明"] tex_name then ALPHA
  else COLOR.

Definition color_output_of (outs : list Socket) : option nat :=
  match find_index (fun out => str_mem (sock_type out) ["RGBA"; "VECTOR"]
                               && str_in "color" (lower (sock_name out))) outs with
  | Some i => Some i
  | None => find_index (fun out => str_mem (sock_type out) ["RGBA"; "VECTOR"]) outs
  end.

(** The scan for the best input: a later input wins only with a strictly
    higher score. *)
Definition best_input (out_semantic : Semantic) (ins : list Socket)
           (connected_inputs : list nat) : option nat * Z :=
  fold_left
    (fun best ix =>
       if nat_mem (fst ix) connected_inputs then best
       else
         let score := are_semantically_compatible
                        out_semantic (get_socket_semantic (sock_name (snd ix))) in
         if snd best <? score then (Some (fst ix), score) else best)
    (enumerate ins) (None, 0).

(** The other texture types of pass 2. *)
Definition connect_other_texture (h : Host) (shader_node tex_node : Node)
           (cs : list nat * Conn) : list nat * Conn :=
  let tex_semantic := texture_semantic (label_or_name_lower tex_node) in
  match color_output_of (node_outputs tex_node) with
  | None => cs
  | Some co =>
      match best_input tex_semantic (node_inputs shader_node) (fst cs) with
      | (Some bi, best_score) =>
          if 50 <=? best_score
          then snd (link_input h (mk_link tex_node co shader_node bi) cs)
          else cs
      | (None, _) => cs
      end
  end.

Definition connect_texture (h : Host) (shader_node : Node) (has_alpha : bool)
           (cs : list nat * Conn) (tex_node : Node) : list nat * Conn :=
  match node_outputs tex_node with
  | [] => cs
  | _ :: _ =>
      if String.eqb (node_type tex_node) "TEX_IMAGE"
      then connect_image_texture h shader_node tex_node has_alpha cs
      else connect_other_texture h shader_node tex_node cs
  end.

(** Pass 2 for one shader node: a fresh [connected_inputs], then every
    texture node in order. *)
Definition connect_textures_to_shader (h : Host) (texture_nodes : list Node)
           (st : Conn) (shader_node : Node) : Conn :=
  snd (fold_left (connect_texture h shader_node (has_alpha_input shader_node))
                 texture_nodes ([], st)).

Definition other_output_semantic (node_name : string) (out : Socket) : Semantic :=
  match get_socket_semantic (sock_name out) with
  | UNKNOWN =>
      if any_kw_in ["normal"; "norm"; "法线"] node_name then NORMAL
      else if any_kw_in ["rough"; "粗糙"] node_name then ROUGHNESS
      else if any_kw_in ["metal"; "金属"] node_name then METALLIC
      else if any_kw_in ["ao"; "遮蔽"] node_name then AO
      else if any_kw_in ["bump"; "凹凸"] node_name then NORMAL
      else if any_kw_in ["alpha"; "透明"] node_name then ALPHA
      else COLOR
  | s => s
  end.

(** Pass 3, the loop over the outputs of one source node, left at the first
    link made. *)
Fixpoint connect_other_outputs (h : Host) (shader_node other_node : Node)
         (outs : list (nat * Socket)) (cs : list nat * Conn) : list nat * Conn :=
  match outs with
  | [] => cs
  | (oi, out) :: rest =>
      if negb (str_mem (sock_type out) ["RGBA"; "VECTOR"; "VALUE"])
      then connect_other_outputs h shader_node other_node rest cs
      else
        let output_semantic :=
          other_output_semantic (label_or_name_lower other_node) out in
        match best_input output_semantic (node_inputs shader_node) (fst cs) with
        | (Some bi, best_score) =>
            if 40 <=? best_score then
              let '(ok, cs') := link_input h (mk_link other_node oi shader_node bi) cs in
              if ok then cs'
              else connect_other_outputs h shader_node other_node rest cs'
            else connect_other_outputs h shader_node other_node rest cs
        | (None, _) => connect_other_outputs h shader_node other_node rest cs
        end
  end.

Definition connect_others_to_shader (h : Host) (other_nodes : list Node)
           (st : Conn) (shader_node : Node) : Conn :=
  snd (fold_left
         (fun cs other_node =>
            connect_other_outputs h shader_node other_node
                                  (enumerate (node_outputs other_node)) cs)
         other_nodes ([], st)).

Definition output_node_of (nodes : list Node) : option Node :=
  List.find (fun node => String.eqb (node_type node) "OUTPUT_MATERIAL") nodes.

Definition shader_nodes_of (nodes : list Node) : list Node :=
  List.filter
    (fun node =>
       if str_mem (node_type node) NodeTypeConfig.SHADER_NODE_TYPES then true
       else if String.eqb (node_type node) "GROUP"
               && bool_decide (node_tree node <> None)
            then NodeTypeConfig.is_shader_node node
            else false)
    nodes.

Definition texture_nodes_of (nodes : list Node) : list Node :=
  List.filter NodeTypeConfig.is_texture_node nodes.

Definition other_nodes_of (nodes : list Node) : list Node :=
  List.filter
    (fun node =>
       negb (str_mem (node_type node) NodeTypeConfig.TEXTURE_NODE_TYPES)
       && negb (str_mem (node_type node) NodeTypeConfig.SHADER_NODE_TYPES)
       && negb (String.eqb (node_type node) "OUTPUT_MATERIAL")
       && negb (String.eqb (node_type node) "GROUP"))
    nodes.

Definition pass_shader_to_output (h : Host) (nodes : list Node) (st : Conn) : Conn :=
  match output_node_of nodes with
  | Some output_node => connect_shaders_to_output h output_node (shader_nodes_of nodes) st
  | None => st
  end.

Definition pass_texture_to_shader (h : Host) (nodes : list Node) (st : Conn) : Conn :=
  fold_left (connect_textures_to_shader h (texture_nodes_of nodes)) (shader_nodes_of nodes) st.

Definition pass_other_to_shader (h : Host) (nodes : list Node) (st : Conn) : Conn :=
  fold_left (connect_others_to_shader h (other_nodes_of nodes)) (shader_nodes_of nodes) st.

Definition apply_auto_connections (h : Host) (nodes : list Node) (links : list Link)
           (auto_connect : bool) : Conn :=
  if negb auto_connect then conn_start links
  else
    pass_other_to_shader h nodes
      (pass_texture_to_shader h nodes
         (pass_shader_to_output h nodes (conn_start links))).

End AutoConnectionRules.

(** ** Settings, scene and caches (properties.py, cache.py) *)

Inductive ReplaceMode := ALL | SPECIFIC | MATERIAL | MATERIAL_SPECIFIC.

#[global] Instance ReplaceMode_eq_dec : EqDecision ReplaceMode.
Proof. solve_decision. Defined.

Definition mode_name (m : ReplaceMode) : string :=
  match m with
  | ALL => "ALL"
  | SPECIFIC => "SPECIFIC"
  | MATERIAL => "MATERIAL"
  | MATERIAL_SPECIFIC => "MATERIAL_SPECIFIC"
  end.

Inductive MatchMode := LABEL | TYPE.

Inductive TargetType := OBJECTS | COLLECTION.

Record ConnectionRuleItem := {
  source_match_mode : MatchMode;
  source_node_label : string;
  source_node_type : string;
  source_socket_index : nat;
  target_match_mode : MatchMode;
  target_node_label : string;
  target_node_type : string;
  target_socket_index : nat
}.

Record ConnectionSnapshotItem := {
  snap_material_name : string;
  snap_from_node_name : string;
  snap_from_node_type : string;
  snap_from_socket_name : string;
  snap_from_socket_index : nat;
  snap_from_socket_type : string;
  snap_to_node_name : string;
  snap_to_node_type : string;
  snap_to_socket_name : string;
  snap_to_socket_index : nat;
  snap_to_socket_type : string;
  snap_replace_mode : string;
  snap_shader_type : string
}.

(** [ShaderReplacerProperties]; a pointer property holds the name of the
    data block it points to, or nothing. *)
Record Props := {
  builtin_shader : string;
  shader_nodegroup : option string;
  specific_builtin_shader : string;
  specific_nodegroup : option string;
  replace_mode : ReplaceMode;
  target_material : option string;
  material_specific_builtin_shader : string;
  material_specific_nodegroup : option string;
  auto_connect : bool;
  connection_rules : list ConnectionRuleItem;
  target_type : TargetType;
  connection_snapshot : list ConnectionSnapshotItem
}.

(** A material of [bpy.data.materials]; its name is its key there. *)
Record Material := {
  use_nodes : bool;
  mat_node_tree : NodeTree
}.

(** An object: its type and the materials of its slots, by name. *)
Record Obj := {
  obj_type : string;
  material_slots : list (option string)
}.

Record Context := {
  selected_objects : list Obj;
  collection : option (list Obj)      (* context.collection.all_objects *)
}.

(** Everything an operator can change. *)
Record World := {
  materials : gmap string Material;        (* bpy.data.materials *)
  material_cache : gmap string Z;          (* MaterialCache._processed_materials *)
  props : Props                            (* scene.shader_replacer_props *)
}.

Module MaterialCache.

Definition clear (w : World) : World :=
  {| materials := materials w; material_cache := ∅; props := props w |}.

Definition is_processed (w : World) (material : string) : bool :=
  bool_decide (is_Some (material_cache w !! material)).

Definition mark_processed (w : World) (material : string) (result : Z) : World :=
  {| materials := materials w;
     material_cache := <[material := result]> (material_cache w);
     props := props w |}.

Definition get_result (w : World) (material : string) : Z :=
  default 0 (material_cache w !! material).

End MaterialCache.

Inductive Level := INFO | WARNING | ERROR.

Inductive Status := FINISHED | CANCELLED.

(** [slot.material and slot.material.use_nodes] *)
Definition slot_material (w : World) (slot : option string) : option (string * Material) :=
  match slot with
  | Some name =>
      match materials w !! name with
      | Some mat => if use_nodes mat then Some (name, mat) else None
      | None => None
      end
  | None => None
  end.

Definition set_node_tree (w : World) (name : string) (mat : Material) (t : NodeTree) : World :=
  {| materials := <[name := {| use_nodes := use_nodes mat; mat_node_tree := t |}]> (materials w);
     material_cache := material_cache w;
     props := props w |}.

(** The slots the operators visit, in order: the slots of the mesh objects. *)
Definition mesh_slots (objs : list Obj) : list (option string) :=
  concat (map (fun obj => if String.eqb (obj_type obj) "MESH" then material_slots obj else [])
              objs).

(** ** error_handler.py *)

Module error_handler.

Definition safe_link (h : Host) (l : Link) (st : Conn) : bool * Conn :=
  try_link h l st.

(** The node was just fetched from the tree, so the removal goes through. *)
Definition safe_remove_node (node : Node) (t : NodeTree) : bool * NodeTree :=
  (true, nodes_remove node t).

End error_handler.

(** ** Shader replacement engine (operators.py, MATERIAL_OT_batch_replace_shader) *)

(** [d.setdefault(k, []).append(v)] on a dictionary kept in insertion order. *)
Fixpoint dict_append {V} (d : list (string * list V)) (k : string) (v : V)
  : list (string * list V) :=
  match d with
  | [] => [(k, [v])]
  | (k', vs) :: rest =>
      if String.eqb k' k then (k', vs ++ [v]) :: rest
      else (k', vs) :: dict_append rest k v
  end.

(** [xs.sort(key=..., reverse=True)]: stable, highest key first. *)
Fixpoint insert_desc {A} (key : A -> Z) (x : A) (xs : list A) : list A :=
  match xs with
  | [] => [x]
  | y :: ys => if key y <=? key x then x :: y :: ys else y :: insert_desc key x ys
  end.

Definition sort_desc {A} (key : A -> Z) (xs : list A) : list A :=
  fold_right (insert_desc key) [] xs.

(** What CAPTURE keeps of a link into the node to replace. *)
Record InputLink := {
  il_from_node : string;
  il_from_node_type : string;
  il_from_socket : string;
  il_from_socket_type : string;
  il_from_socket_index : Z;
  il_to_socket_index : Z;
  il_to_socket_type : string
}.

(** What CAPTURE keeps of a link out of the node to replace. *)
Record OutputLink := {
  ol_to_node : string;
  ol_to_node_type : string;
  ol_to_socket : string;
  ol_to_socket_type : string;
  ol_to_socket_index : Z;
  ol_from_socket_index : Z;
  ol_from_socket_type : string
}.

(** Messages of [self.report], by content. *)
Inductive Message :=
  | SelectTargetShader
  | ShaderNotFound (name : string)
  | SelectSpecificShader
  | SelectTargetMaterial
  | NodesNotEnabled (material : string)
  | ReplacedInMaterial (material : string) (n : Z)
  | NothingInMaterial (material : string)
  | ReplacedSpecificInMaterial (material : string) (n : Z) (specific : string)
  | NothingSpecificInMaterial (material specific : string)
  | NoTargetObjects
  | ProcessedNothing (total_materials : Z)
  | ReplacedTotal (replaced_materials total_materials replaced_shaders : Z)
  | NoSelectedObjects
  | SelectTargetMaterialFirst
  | Disconnected (mode : ReplaceMode) (disconnected_count : Z)
  | Reconnected (auto_connect_count : option Z) (custom_rule_count : Z)
                (restored_count : option Z).

Module MATERIAL_OT_batch_replace_shader.

Import SocketSemantics.

Definition type_compatibility : list ((string * string) * Z) :=
  [ (("RGBA", "RGBA"), 100);
    (("RGBA", "VECTOR"), 80);
    (("RGBA", "VALUE"), 60);
    (("VECTOR", "VECTOR"), 100);
    (("VECTOR", "RGBA"), 80);
    (("VALUE", "VALUE"), 100);
    (("VALUE", "RGBA"), 60);
    (("SHADER", "SHADER"), 100) ].

Definition _get_type_compatibility_score (output_type input_type : string) : Z :=
  if String.eqb output_type input_type then 100
  else dict_get type_compatibility (output_type, input_type) 0.

(** Position of the socket in its collection, -1 when it is not there. *)
Definition get_socket_index (socket_collection : list Socket) (target_socket : nat) : Z :=
  if (target_socket <? length socket_collection)%nat then Z.of_nat target_socket else -1.

Definition name_score (inp_name original_name : string) : Z :=
  if String.eqb inp_name original_name then 100
  else if String.eqb (lower inp_name) (lower original_name) then 90
  else if str_in (lower original_name) (lower inp_name)
          || str_in (lower inp_name) (lower original_name) then 50
  else 0.

(** The score of one candidate input, in tenths. *)
Definition input_score (original_name original_type : string)
           (idx : nat) (inp : Socket) : Z :=
  let original_semantic := get_socket_semantic original_name in
  let input_semantic := get_socket_semantic (sock_name inp) in
  let semantic_score := are_semantically_compatible original_semantic input_semantic in
  let type_score := _get_type_compatibility_score original_type (sock_type inp) in
  let position_score := Z.max 0 (10 - Z.of_nat idx) in
  10 * name_score (sock_name inp) original_name
  + 8 * semantic_score + 6 * type_score + 10 * position_score.

Definition candidates (shader_node : Node) (original_name original_type : string)
           (connected_inputs : list nat) : list (nat * Z) :=
  map (fun ix => (fst ix, input_score original_name original_type (fst ix) (snd ix)))
      (List.filter (fun ix => negb (nat_mem (fst ix) connected_inputs))
                   (enumerate (node_inputs shader_node))).

Definition _find_best_input_socket (shader_node : Node)
           (original_name original_type : string)
           (connected_inputs : list nat) : option nat :=
  match sort_desc snd (candidates shader_node original_name original_type connected_inputs) with
  | (best_socket, best_score) :: _ =>
      if 300 <=? best_score then Some best_socket else None
  | [] => None
  end.

Definition _find_best_output_socket (shader_node : Node)
           (original_name original_type : string) (connected_outputs : list nat)
  : option nat :=
  match socket_named (node_outputs shader_node) original_name with
  | Some i => Some i
  | None =>
      match find_index (fun out => String.eqb (lower (sock_name out)) (lower original_name))
                       (node_outputs shader_node) with
      | Some i => Some i
      | None =>
          match find_index (fun out => String.eqb (sock_type out) original_type)
                           (node_outputs shader_node) with
          | Some i => Some i
          | None => match node_outputs shader_node with [] => None | _ :: _ => Some 0%nat end
          end
      end
  end.

Definition _find_shader_output (shader_node : Node) : option nat :=
  match find_index (fun out => String.eqb (sock_type out) "SHADER")
                   (node_outputs shader_node) with
  | Some i => Some i
  | None => match node_outputs shader_node with [] => None | _ :: _ => Some 0%nat end
  end.

(** The input named 'Surface', else the first input. *)
Definition surface_input_of (output_node : Node) : option nat :=
  match socket_named (node_inputs output_node) "Surface" with
  | Some i => Some i
  | None => match node_inputs output_node with [] => None | _ :: _ => Some 0%nat end
  end.

(** *** LOCATE_TARGETS *)

Definition nodes_connected_to_output (t : NodeTree) : list string :=
  concat
    (map (fun link =>
            match node_of_id (nt_nodes t) (to_node link),
                  node_of_id (nt_nodes t) (from_node link) with
            | Some tn, Some fn =>
                if String.eqb (node_type tn) "OUTPUT_MATERIAL" then [node_name fn] else []
            | _, _ => []
            end)
         (nt_links t)).

Definition selects_all (t : NodeTree) (target_shader_name : string) (node : Node) : bool :=
  if str_mem (node_type node) NodeTypeConfig.SHADER_NODE_TYPES then true
  else
    match node_tree node with
    | Some ng_name =>
        if String.eqb (node_type node) "GROUP" then
          let should_replace :=
            existsb (fun out => String.eqb (sock_type out) "SHADER") (node_outputs node)
            || str_mem (node_name node) (nodes_connected_to_output t)
            || any_kw_in NodeTypeConfig.SHADER_KEYWORDS (lower ng_name) in
          should_replace && negb (String.eqb ng_name target_shader_name)
        else false
    | None => false
    end.

Definition selects_specific (specific_shader_name : string) (node : Node) : bool :=
  match node_tree node with
  | Some ng_name =>
      if String.eqb (node_type node) "GROUP"
      then String.eqb ng_name specific_shader_name
      else String.eqb (node_type node) specific_shader_name
  | None => String.eqb (node_type node) specific_shader_name
  end.

Definition shaders_to_replace (t : NodeTree) (mode : ReplaceMode)
           (target_shader_name specific_shader_name : string) : list string :=
  map node_name
      (List.filter
         (match mode with
          | ALL | MATERIAL => selects_all t target_shader_name
          | SPECIFIC | MATERIAL_SPECIFIC => selects_specific specific_shader_name
          end)
         (nt_nodes t)).

(** *** CAPTURE *)

Definition capture_input (nodes : list Node) (old_shader : Node)
           (input_links : list (string * list InputLink)) (link : Link)
  : list (string * list InputLink) :=
  if Nat.eqb (to_node link) (node_id old_shader) then
    match node_inputs old_shader !! to_socket link, node_of_id nodes (from_node link) with
    | Some ts, Some fn =>
        match node_outputs fn !! from_socket link with
        | Some fs =>
            dict_append input_links (sock_name ts)
              {| il_from_node := node_name fn;
                 il_from_node_type := node_type fn;
                 il_from_socket := sock_name fs;
                 il_from_socket_type := sock_type fs;
                 il_from_socket_index := get_socket_index (node_outputs fn) (from_socket link);
                 il_to_socket_index := get_socket_index (node_inputs old_shader) (to_socket link);
                 il_to_socket_type := sock_type ts |}
        | None => input_links
        end
    | _, _ => input_links
    end
  else input_links.

Definition capture_output (nodes : list Node) (old_shader : Node)
           (output_links : list (string * list OutputLink)) (link : Link)
  : list (string * list OutputLink) :=
  if Nat.eqb (from_node link) (node_id old_shader) then
    match node_outputs old_shader !! from_socket link, node_of_id nodes (to_node link) with
    | Some fs, Some tn =>
        match node_inputs tn !! to_socket link with
        | Some ts =>
            dict_append output_links (sock_name fs)
              {| ol_to_node := node_name tn;
                 ol_to_node_type := node_type tn;
                 ol_to_socket := sock_name ts;
                 ol_to_socket_type := sock_type ts;
                 ol_to_socket_index := get_socket_index (node_inputs tn) (to_socket link);
                 ol_from_socket_index := get_socket_index (node_outputs old_shader) (from_socket link);
                 ol_from_socket_type := sock_type fs |}
        | None => output_links
        end
    | _, _ => output_links
    end
  else output_links.

(** *** INSTANTIATE *)

Definition new_shader_node (h : Host) (new_id : nat) (nodes : list Node)
           (target_shader_name : string) (old_location : Z * Z) : option Node :=
  match List.find (fun ng => String.eqb (ng_type ng) "SHADER"
                             && String.eqb (ng_name ng) target_shader_name)
                  (node_groups h) with
  | Some node_group =>
      Some {| node_id := new_id;
              node_name := unique_name (map node_name nodes) target_shader_name;
              node_label := target_shader_name;
              node_type := "GROUP";
              node_tree := Some (ng_name node_group);
              node_inputs := ng_inputs node_group;
              node_outputs := ng_outputs node_group;
              node_location := old_location |}
  | None =>
      match node_class h (NodeTypeConfig.get_shader_class_name target_shader_name) with
      | Some cls =>
          Some {| node_id := new_id;
                  node_name := unique_name (map node_name nodes) target_shader_name;
                  node_label := target_shader_name;
                  node_type := nc_type cls;
                  node_tree := None;
                  node_inputs := nc_inputs cls;
                  node_outputs := nc_outputs cls;
                  node_location := old_location |}
      | None => None
      end
  end.

(** *** RECONNECT *)

(** A captured socket: by position if it is in range, else by name. *)
Definition resolve_socket (sockets : list Socket) (index : Z) (name : string) : option nat :=
  if (0 <=? index) && (index <? Z.of_nat (length sockets)) then Some (Z.to_nat index)
  else socket_named sockets name.

Definition reconnect_input (h : Host) (nodes : list Node) (new_shader : Node)
           (socket_name : string) (cs : list nat * Conn) (conn : InputLink)
  : list nat * Conn :=
  match nodes_get nodes (il_from_node conn) with
  | None => cs
  | Some source_node =>
      match resolve_socket (node_outputs source_node)
                           (il_from_socket_index conn) (il_from_socket conn) with
      | None => cs
      | Some source_socket =>
          match _find_best_input_socket new_shader socket_name
                                        (il_to_socket_type conn) (fst cs) with
          | Some target_socket =>
              let '(ok, st) :=
                error_handler.safe_link
                  h (mk_link source_node source_socket new_shader target_socket) (snd cs) in
              (if ok then target_socket :: fst cs else fst cs, st)
          | None => cs
          end
      end
  end.

(** The input loop; its first component is [connected_inputs] at the end. *)
Definition reconnect_inputs_all (h : Host) (nodes : list Node) (new_shader : Node)
           (input_links : list (string * list InputLink)) (st : Conn) : list nat * Conn :=
  fold_left
    (fun cs item => fold_left (reconnect_input h nodes new_shader (fst item)) (snd item) cs)
    input_links ([], st).

Definition reconnect_inputs (h : Host) (nodes : list Node) (new_shader : Node)
           (input_links : list (string * list InputLink)) (st : Conn) : Conn :=
  snd (reconnect_inputs_all h nodes new_shader input_links st).

(** State of the output loop: [connected_outputs],
    [output_connected_to_material] and the links. *)
Record OutState := {
  connected_outputs : list nat;
  output_connected_to_material : bool;
  out_conn : Conn
}.

Definition link_output (h : Host) (l : Link) (to_material : bool) (s : OutState) : OutState :=
  let '(ok, st) := error_handler.safe_link h l (out_conn s) in
  {| connected_outputs :=
       if ok then from_socket l :: connected_outputs s else connected_outputs s;
     output_connected_to_material :=
       if ok && to_material then true else output_connected_to_material s;
     out_conn := st |}.

(** The standard path of one captured outgoing link. *)
Definition reconnect_output_standard (h : Host) (new_shader target_node : Node)
           (socket_name : string) (conn : OutputLink) (s : OutState) : OutState :=
  match resolve_socket (node_inputs target_node)
                       (ol_to_socket_index conn) (ol_to_socket conn) with
  | None => s
  | Some target_socket =>
      match _find_best_output_socket new_shader socket_name (ol_from_socket_type conn)
                                     (connected_outputs s) with
      | Some source_socket =>
          link_output h (mk_link new_shader source_socket target_node target_socket) false s
      | None => s
      end
  end.

Definition reconnect_output (h : Host) (nodes : list Node) (new_shader : Node)
           (socket_name : string) (s : OutState) (conn : OutputLink) : OutState :=
  match nodes_get nodes (ol_to_node conn) with
  | None => s
  | Some target_node =>
      if String.eqb (node_type target_node) "OUTPUT_MATERIAL"
         && negb (output_connected_to_material s)
      then
        match _find_shader_output new_shader, surface_input_of target_node with
        | Some source_socket, Some surface_input =>
            link_output h (mk_link new_shader source_socket target_node surface_input) true s
        | _, _ => reconnect_output_standard h new_shader target_node socket_name conn s
        end
      else reconnect_output_standard h new_shader target_node socket_name conn s
  end.

(** The fallback after the captured links: reach the first output node. *)
Definition connect_fallback (h : Host) (nodes : list Node) (new_shader : Node)
           (s : OutState) : OutState :=
  if output_connected_to_material s then s
  else
    match List.find (fun node => String.eqb (node_type node) "OUTPUT_MATERIAL") nodes with
    | Some output_node =>
        match _find_shader_output new_shader, surface_input_of output_node with
        | Some source_socket, Some surface_input =>
            link_output h (mk_link new_shader source_socket output_node surface_input) true s
        | _, _ => s
        end
    | None => s
    end.

Definition reconnect_outputs (h : Host) (nodes : list Node) (new_shader : Node)
           (output_links : list (string * list OutputLink)) (st : Conn) : OutState :=
  connect_fallback h nodes new_shader
    (fold_left
       (fun s item => fold_left (reconnect_output h nodes new_shader (fst item)) (snd item) s)
       output_links
       {| connected_outputs := []; output_connected_to_material := false; out_conn := st |}).

(** *** One target: CAPTURE, DELETE, INSTANTIATE, RECONNECT *)

Record Replace := {
  r_tree : NodeTree;
  r_count : Z;            (* replaced_count *)
  r_trace : list Link;    (* every safe_link call, in order *)
  r_new : list nat        (* the nodes created, in order *)
}.

Definition replace_one (h : Host) (auto_connect : bool) (target_shader_name : string)
           (r : Replace) (old_shader_name : string) : Replace :=
  let t := r_tree r in
  match nodes_get (nt_nodes t) old_shader_name with
  | None => r
  | Some old_shader =>
      let old_location := node_location old_shader in
      let links_snapshot := nt_links t in
      let input_links := fold_left (capture_input (nt_nodes t) old_shader) links_snapshot [] in
      let output_links := fold_left (capture_output (nt_nodes t) old_shader) links_snapshot [] in
      let '(removed, t1) := error_handler.safe_remove_node old_shader t in
      if negb removed then r
      else
        match new_shader_node h (fresh_id (nt_nodes t)) (nt_nodes t1)
                              target_shader_name old_location with
        | None =>
            {| r_tree := t1; r_count := r_count r; r_trace := r_trace r; r_new := r_new r |}
        | Some new_shader =>
            let nodes := nt_nodes t1 ++ [new_shader] in
            let st0 := {| c_links := nt_links t1; c_count := 0; c_trace := r_trace r |} in
            let st2 :=
              if auto_connect then
                out_conn (reconnect_outputs h nodes new_shader output_links
                            (reconnect_inputs h nodes new_shader input_links st0))
              else st0 in
            {| r_tree := {| nt_nodes := nodes; nt_links := c_links st2 |};
               r_count := r_count r + 1;
               r_trace := c_trace st2;
               r_new := r_new r ++ [node_id new_shader] |}
        end
  end.

Definition replace_material_shaders (h : Host) (t : NodeTree) (p : Props)
           (target_shader_name specific_shader_name : string) : Replace :=
  fold_left (replace_one h (auto_connect p) target_shader_name)
            (shaders_to_replace t (replace_mode p) target_shader_name specific_shader_name)
            {| r_tree := t; r_count := 0; r_trace := []; r_new := [] |}.

(** *** The operator *)

(** A built-in choice if one is set, else the chosen node group. *)
Definition chosen_shader (builtin : string) (nodegroup : option string) : string :=
  if nonempty builtin && negb (String.eqb builtin "NONE") then builtin
  else match nodegroup with Some name => name | None => "" end.

Definition node_group_exists (h : Host) (target_shader_name : string) : bool :=
  existsb (fun ng => String.eqb (ng_name ng) target_shader_name)
          (List.filter (fun ng => String.eqb (ng_type ng) "SHADER") (node_groups h)).

Definition get_target_objects (ctx : Context) (target_type : TargetType) : list Obj :=
  match target_type with
  | OBJECTS => selected_objects ctx
  | COLLECTION => match collection ctx with Some objs => objs | None => [] end
  end.

(** [props.target_material], a material of the scene. *)
Definition target_material_of (w : World) : option (string * Material) :=
  match target_material (props w) with
  | Some name =>
      match materials w !! name with
      | Some mat => Some (name, mat)
      | None => None
      end
  | None => None
  end.

(** [replace_material_shaders] on a material of the world. *)
Definition replace_in_world (h : Host) (w : World) (name : string) (mat : Material)
           (target_shader_name specific_shader_name : string) : World * Z :=
  let r := replace_material_shaders h (mat_node_tree mat) (props w)
                                    target_shader_name specific_shader_name in
  (set_node_tree w name mat (r_tree r), r_count r).

Record Totals := {
  total_materials : Z;
  replaced_materials : Z;
  replaced_shaders : Z
}.

(** The body of the loop over the slots of the target objects. *)
Definition replace_slot (h : Host) (target_shader_name specific_shader_name : string)
           (acc : World * Totals) (slot : option string) : World * Totals :=
  let '(w, tot) := acc in
  match slot_material w slot with
  | None => acc
  | Some (name, mat) =>
      let '(w', result) :=
        if MaterialCache.is_processed w name then (w, MaterialCache.get_result w name)
        else
          let '(w1, result) :=
            replace_in_world h w name mat target_shader_name specific_shader_name in
          (MaterialCache.mark_processed w1 name result, result) in
      (w', {| total_materials := total_materials tot + 1;
              replaced_materials :=
                if 0 <? result then replaced_materials tot + 1 else replaced_materials tot;
              replaced_shaders :=
                if 0 <? result then replaced_shaders tot + result else replaced_shaders tot |})
  end.

Definition execute (h : Host) (ctx : Context) (w : World)
  : Status * list (Level * Message) * World :=
  let p := props w in
  let target_shader_name := chosen_shader (builtin_shader p) (shader_nodegroup p) in
  if negb (nonempty target_shader_name) then
    (CANCELLED, [(ERROR, SelectTargetShader)], w)
  else if negb (node_group_exists h target_shader_name)
          && negb (NodeTypeConfig.is_valid_builtin_shader target_shader_name) then
    (CANCELLED, [(ERROR, ShaderNotFound target_shader_name)], w)
  else
    let specific_shader_name :=
      match replace_mode p with
      | SPECIFIC => chosen_shader (specific_builtin_shader p) (specific_nodegroup p)
      | _ => ""
      end in
    if bool_decide (replace_mode p = SPECIFIC) && negb (nonempty specific_shader_name) then
      (CANCELLED, [(ERROR, SelectSpecificShader)], w)
    else
      match replace_mode p with
      | MATERIAL =>
          match target_material_of w with
          | None => (CANCELLED, [(ERROR, SelectTargetMaterial)], w)
          | Some (name, mat) =>
              if negb (use_nodes mat) then
                (CANCELLED, [(WARNING, NodesNotEnabled name)], w)
              else
                let '(w', result) :=
                  replace_in_world h (MaterialCache.clear w) name mat target_shader_name "" in
                (FINISHED,
                 [if 0 <? result then (INFO, ReplacedInMaterial name result)
                  else (WARNING, NothingInMaterial name)],
                 w')
          end
      | MATERIAL_SPECIFIC =>
          match target_material_of w with
          | None => (CANCELLED, [(ERROR, SelectTargetMaterial)], w)
          | Some (name, mat) =>
              if negb (use_nodes mat) then
                (CANCELLED, [(WARNING, NodesNotEnabled name)], w)
              else
                let material_specific_shader_name :=
                  chosen_shader (material_specific_builtin_shader p)
                                (material_specific_nodegroup p) in
                let '(w', result) :=
                  replace_in_world h (MaterialCache.clear w) name mat
                                   target_shader_name material_specific_shader_name in
                (FINISHED,
                 [if 0 <? result then
                    if nonempty material_specific_shader_name
                    then (INFO, ReplacedSpecificInMaterial name result
                                  material_specific_shader_name)
                    else (INFO, ReplacedInMaterial name result)
                  else
                    if nonempty material_specific_shader_name
                    then (WARNING, NothingSpecificInMaterial name
                                     material_specific_shader_name)
                    else (WARNING, NothingInMaterial name)],
                 w')
          end
      | _ =>
          match get_target_objects ctx (target_type p) with
          | [] => (CANCELLED, [(WARNING, NoTargetObjects)], w)
          | target_objects =>
              let '(w', tot) :=
                fold_left (replace_slot h target_shader_name specific_shader_name)
                          (mesh_slots target_objects)
                          (MaterialCache.clear w,
                           {| total_materials := 0; replaced_materials := 0;
                              replaced_shaders := 0 |}) in
              (FINISHED,
               [if replaced_shaders tot =? 0
                then (WARNING, ProcessedNothing (total_materials tot))
                else (INFO, ReplacedTotal (replaced_materials tot) (total_materials tot)
                              (replaced_shaders tot))],
               w')
          end
      end.

End MATERIAL_OT_batch_replace_shader.

(** ** Disconnect with snapshot (operators.py, MATERIAL_OT_disconnect_all_connections) *)

Definition set_snapshot (w : World) (snapshot : list ConnectionSnapshotItem) : World :=
  let p := props w in
  {| materials := materials w;
     material_cache := material_cache w;
     props := {| builtin_shader := builtin_shader p;
                 shader_nodegroup := shader_nodegroup p;
                 specific_builtin_shader := specific_builtin_shader p;
                 specific_nodegroup := specific_nodegroup p;
                 replace_mode := replace_mode p;
                 target_material := target_material p;
                 material_specific_builtin_shader := material_specific_builtin_shader p;
                 material_specific_nodegroup := material_specific_nodegroup p;
                 auto_connect := auto_connect p;
                 connection_rules := connection_rules p;
                 target_type := target_type p;
                 connection_snapshot := snapshot |} |}.

(** [','.join(xs)] *)
Fixpoint join_comma (xs : list string) : string :=
  match xs with
  | [] => ""
  | [x] => x
  | x :: rest => String.append x (String.append "," (join_comma rest))
  end.

(** [s[n:]] *)
Fixpoint drop_chars (n : nat) (s : string) : string :=
  match n, s with
  | O, _ => s
  | S n', String _ r => drop_chars n' r
  | S _, EmptyString => EmptyString
  end.

(** The shader-type filter of the disconnect and reconnect operators. *)
Definition shader_types_of (p : Props) : list string :=
  let pick (builtin : string) (nodegroup : option string) :=
    (if nonempty builtin && negb (String.eqb builtin "NONE") then [builtin] else [])
    ++ match nodegroup with
       | Some name => if nonempty name then [String.append "GROUP:" name] else []
       | None => []
       end in
  match replace_mode p with
  | SPECIFIC => pick (specific_builtin_shader p) (specific_nodegroup p)
  | MATERIAL_SPECIFIC =>
      pick (material_specific_builtin_shader p) (material_specific_nodegroup p)
  | MATERIAL => match target_material p with Some _ => ["ALL"] | None => [] end
  | ALL => ["ALL"]
  end.

(** The material filter of both operators: in the two material modes with a
    target chosen, only the target is processed. *)
Definition should_process (p : Props) (mat_name : string) : bool :=
  match replace_mode p, target_material p with
  | (MATERIAL | MATERIAL_SPECIFIC), Some target => String.eqb mat_name target
  | _, _ => true
  end.

Module MATERIAL_OT_disconnect_all_connections.

Definition get_shader_types_to_disconnect (p : Props) : list string :=
  shader_types_of p.

(** The first socket that is the link's socket or has its name. *)
Definition recorded_index (sockets : list Socket) (socket : nat) : nat :=
  match sockets !! socket with
  | Some s =>
      match List.find (fun ix => Nat.eqb (fst ix) socket
                                 || String.eqb (sock_name (snd ix)) (sock_name s))
                      (enumerate sockets) with
      | Some ix => fst ix
      | None => 0%nat
      end
  | None => 0%nat
  end.

Definition _record_connection (nodes : list Node) (link : Link)
           (material_name replace_mode shader_type : string) : ConnectionSnapshotItem :=
  let src := node_of_id nodes (from_node link) in
  let dst := node_of_id nodes (to_node link) in
  let src_socket := src ≫= fun n => node_outputs n !! from_socket link in
  let dst_socket := dst ≫= fun n => node_inputs n !! to_socket link in
  {| snap_material_name := material_name;
     snap_from_node_name := from_option node_name "" src;
     snap_from_node_type := from_option node_type "" src;
     snap_from_socket_name := from_option sock_name "" src_socket;
     snap_from_socket_index :=
       match src with
       | Some n => recorded_index (node_outputs n) (from_socket link)
       | None => 0%nat
       end;
     snap_from_socket_type := from_option sock_bl_idname "" src_socket;
     snap_to_node_name := from_option node_name "" dst;
     snap_to_node_type := from_option node_type "" dst;
     snap_to_socket_name := from_option sock_name "" dst_socket;
     snap_to_socket_index :=
       match dst with
       | Some n => recorded_index (node_inputs n) (to_socket link)
       | None => 0%nat
       end;
     snap_to_socket_type := from_option sock_bl_idname "" dst_socket;
     snap_replace_mode := replace_mode;
     snap_shader_type := shader_type |}.

Definition _clear_snapshot (w : World) : World := set_snapshot w [].

(** Whether a node is of one of the filtered shader types. *)
Definition node_matches (shader_type : string) (node : option Node) : bool :=
  match node with
  | Some n =>
      if starts_with "GROUP:" shader_type then
        String.eqb (node_type n) "GROUP"
        && match node_tree n with
           | Some ng_name => String.eqb ng_name (drop_chars 6 shader_type)
           | None => false
           end
      else String.eqb (node_type n) shader_type
  | None => false
  end.

Definition should_remove (nodes : list Node) (shader_types : list string) (link : Link) : bool :=
  existsb (fun shader_type =>
             node_matches shader_type (node_of_id nodes (from_node link))
             || node_matches shader_type (node_of_id nodes (to_node link)))
          shader_types.

Definition links_to_remove (t : NodeTree) (shader_types : list string) : list Link :=
  if str_mem "ALL" shader_types then nt_links t
  else List.filter (should_remove (nt_nodes t) shader_types) (nt_links t).

(** The body of the loop over the slots: record, then remove. *)
Definition disconnect_slot (shader_types : list string) (acc : World * Z)
           (slot : option string) : World * Z :=
  let '(w, disconnected_count) := acc in
  match slot_material w slot with
  | None => acc
  | Some (name, mat) =>
      if negb (should_process (props w) name) then acc
      else
        let t := mat_node_tree mat in
        let to_remove := links_to_remove t shader_types in
        let shader_type_str :=
          match shader_types with [] => "ALL" | _ :: _ => join_comma shader_types end in
        let records :=
          map (fun link => _record_connection (nt_nodes t) link name
                             (mode_name (replace_mode (props w))) shader_type_str)
              to_remove in
        let w1 := set_snapshot w (connection_snapshot (props w) ++ records) in
        let t' := {| nt_nodes := nt_nodes t;
                     nt_links := fold_left (fun ls l => links_remove l ls) to_remove (nt_links t) |} in
        (set_node_tree w1 name mat t', disconnected_count + Z.of_nat (length to_remove))
  end.

Definition execute (ctx : Context) (w : World) : Status * list (Level * Message) * World :=
  match selected_objects ctx with
  | [] => (CANCELLED, [(WARNING, NoSelectedObjects)], w)
  | objs =>
      let shader_types := get_shader_types_to_disconnect (props w) in
      if bool_decide (replace_mode (props w) = MATERIAL)
         && bool_decide (target_material (props w) = None) then
        (CANCELLED, [(WARNING, SelectTargetMaterialFirst)], w)
      else
        let '(w', disconnected_count) :=
          fold_left (disconnect_slot shader_types) (mesh_slots objs) (_clear_snapshot w, 0) in
        (FINISHED, [(INFO, Disconnected (replace_mode (props w)) disconnected_count)], w')
  end.

End MATERIAL_OT_disconnect_all_connections.

(** ** Reconnect by rules and snapshot (operators.py, MATERIAL_OT_reconnect_with_rules) *)

Module MATERIAL_OT_reconnect_with_rules.

Definition get_shader_types_to_reconnect (p : Props) : list string :=
  shader_types_of p.

(** One record of the snapshot, restored in the current tree. *)
Definition restore_item (h : Host) (nodes : list Node) (material_name : string)
           (st : Conn) (item : ConnectionSnapshotItem) : Conn :=
  if negb (String.eqb (snap_material_name item) material_name) then st
  else if negb (nonempty (snap_from_node_name item))
          || negb (nonempty (snap_to_node_name item)) then st
  else
    match nodes_get nodes (snap_from_node_name item),
          nodes_get nodes (snap_to_node_name item) with
    | Some from_node, Some to_node =>
        if (snap_from_socket_index item <? length (node_outputs from_node))%nat
           && (snap_to_socket_index item <? length (node_inputs to_node))%nat
        then snd (error_handler.safe_link
                    h (mk_link from_node (snap_from_socket_index item)
                               to_node (snap_to_socket_index item)) st)
        else st
    | _, _ => st
    end.

(** Returns the links and, in [c_count], [restored_count]. *)
Definition _restore_connections_from_snapshot (h : Host) (p : Props) (t : NodeTree)
           (material_name : string) : Conn :=
  fold_left (restore_item h (nt_nodes t) material_name)
            (connection_snapshot p) (conn_start (nt_links t)).

Definition rule_nodes (nodes : list Node) (mode : MatchMode) (label type : string)
  : list Node :=
  match mode with
  | LABEL =>
      if nonempty label
      then List.filter (fun n => NodeMatch.match_node_by_label_or_name n label) nodes
      else []
  | TYPE =>
      if nonempty type && negb (starts_with "__" type)
      then List.filter (fun n => NodeMatch.match_node_by_type n type) nodes
      else []
  end.

(** One rule: every pair of a source and a target node. *)
Definition apply_rule (h : Host) (nodes : list Node) (st : Conn)
           (rule : ConnectionRuleItem) : Conn :=
  let source_nodes := rule_nodes nodes (source_match_mode rule)
                                 (source_node_label rule) (source_node_type rule) in
  let target_nodes := rule_nodes nodes (target_match_mode rule)
                                 (target_node_label rule) (target_node_type rule) in
  fold_left
    (fun st source_node =>
       fold_left
         (fun st target_node =>
            if Nat.eqb (node_id source_node) (node_id target_node) then st
            else if (source_socket_index rule <? length (node_outputs source_node))%nat
                    && (target_socket_index rule <? length (node_inputs target_node))%nat
            then snd (error_handler.safe_link
                        h (mk_link source_node (source_socket_index rule)
                                   target_node (target_socket_index rule)) st)
            else st)
         target_nodes st)
    source_nodes st.

Record Counts := {
  auto_connect_count : Z;
  custom_rule_count : Z;
  restored_count : Z
}.

(** What the loop does to one material it has not seen yet. *)
Definition process_material (h : Host) (has_snapshot : bool) (name : string)
           (mat : Material) (acc : World * Counts) : World * Counts :=
  let '(w, cnt) := acc in
  let p := props w in
  let nodes := nt_nodes (mat_node_tree mat) in
  let st1 := AutoConnectionRules.apply_auto_connections
               h nodes (nt_links (mat_node_tree mat)) (auto_connect p) in
  let st2 := fold_left (apply_rule h nodes) (connection_rules p) (conn_start (c_links st1)) in
  let st3 :=
    if has_snapshot
    then _restore_connections_from_snapshot
           h p {| nt_nodes := nodes; nt_links := c_links st2 |} name
    else conn_start (c_links st2) in
  (set_node_tree w name mat {| nt_nodes := nodes; nt_links := c_links st3 |},
   {| auto_connect_count := auto_connect_count cnt + c_count st1;
      custom_rule_count := custom_rule_count cnt + c_count st2;
      restored_count := restored_count cnt + c_count st3 |}).

(** The body of the loop over the slots, with [processed_materials]. *)
Definition reconnect_slot (h : Host) (has_snapshot : bool)
           (acc : gset string * (World * Counts)) (slot : option string)
  : gset string * (World * Counts) :=
  let '(processed_materials, wc) := acc in
  match slot_material (fst wc) slot with
  | None => acc
  | Some (name, mat) =>
      if bool_decide (name ∈ processed_materials) then acc
      else if negb (should_process (props (fst wc)) name) then acc
      else ({[name]} ∪ processed_materials, process_material h has_snapshot name mat wc)
  end.

Definition execute (h : Host) (ctx : Context) (w : World)
  : Status * list (Level * Message) * World :=
  match selected_objects ctx with
  | [] => (CANCELLED, [(WARNING, NoSelectedObjects)], w)
  | objs =>
      let has_snapshot := (0 <? length (connection_snapshot (props w)))%nat in
      let '(_, (w', cnt)) :=
        fold_left (reconnect_slot h has_snapshot) (mesh_slots objs)
                  (∅, (w, {| auto_connect_count := 0; custom_rule_count := 0;
                             restored_count := 0 |})) in
      (FINISHED,
       [(INFO, Reconnected
                 (if auto_connect (props w) then Some (auto_connect_count cnt) else None)
                 (custom_rule_count cnt)
                 (if has_snapshot then Some (restored_count cnt) else None))],
       w')
  end.

End MATERIAL_OT_reconnect_with_rules.

(** ** The classifier and the tables as the specification words them *)

Module Spec.

Import SocketSemantics.

(** The keyword groups of the classifier in their priority order. *)
Definition keyword_groups : list (list string * Semantic) :=
  [ (["base color"; "basecolor"], COLOR);
    (NORMAL_KEYWORDS, NORMAL);
    (ROUGHNESS_KEYWORDS, ROUGHNESS);
    (METALLIC_KEYWORDS, METALLIC);
    (ALPHA_KEYWORDS, ALPHA);
    (EMISSION_KEYWORDS, EMISSION);
    (SPECULAR_KEYWORDS, SPECULAR);
    (SUBSURFACE_KEYWORDS, SUBSURFACE);
    (AO_KEYWORDS, AO);
    (DISPLACEMENT_KEYWORDS, DISPLACEMENT);
    (["color"; "颜色"], COLOR) ].

Definition group_matches (name_lower : string) (g : list string * Semantic) : bool :=
  any_kw_in (fst g) name_lower.

(** The category of the first group that matches, UNKNOWN when none does. *)
Fixpoint first_matching_group (groups : list (list string * Semantic))
         (name_lower : string) : Semantic :=
  match groups with
  | [] => UNKNOWN
  | g :: rest =>
      if group_matches name_lower g then snd g else first_matching_group rest name_lower
  end.

(** The ordered pairs of different semantics that the compatibility table
    lists, with their values. *)
Definition listed_pairs : list ((Semantic * Semantic) * Z) :=
  [ ((COLOR, EMISSION), 80);
    ((ROUGHNESS, SPECULAR), 60);
    ((AO, ROUGHNESS), 40);
    ((AO, SPECULAR), 40) ].

(** A node with at least one output socket. *)
Definition has_output (n : Node) : bool :=
  match node_outputs n with [] => false | _ :: _ => true end.

(** The links of a trace whose tag (a link end) is [k]. *)
Definition tagged (tag : Link -> nat) (k : nat) (tr : list Link) : list Link :=
  List.filter (fun l => Nat.eqb (tag l) k) tr.

(** What the alpha gate allows of the links tried from one image texture to
    one shader: the color output, the alpha output only behind the gate, and
    one link at most when the gate is closed. *)
Definition gated (has_alpha : bool) (tr : list Link) : Prop :=
  Forall (fun l => from_socket l = 0%nat \/ (from_socket l = 1%nat /\ has_alpha = true)) tr
  /\ (has_alpha = false -> (length tr <= 1)%nat).

(** Some output node of [nodes] has its surface input bound to an output of
    [new_shader]. *)
Definition surface_bound (nodes : list Node) (new_shader : Node) (links : list Link) : Prop :=
  exists o so si,
    In o nodes /\ node_type o = "OUTPUT_MATERIAL"
    /\ MATERIAL_OT_batch_replace_shader.surface_input_of o = Some si
    /\ In (mk_link new_shader so o si) links.

(** The flag of the output loop tells the truth. *)
Definition output_inv (nodes : list Node) (new_shader : Node)
           (s : MATERIAL_OT_batch_replace_shader.OutState) : Prop :=
  MATERIAL_OT_batch_replace_shader.output_connected_to_material s = true ->
  surface_bound nodes new_shader (c_links (MATERIAL_OT_batch_replace_shader.out_conn s)).

(** The material of a slot that the reconnect operator would process: it
    exists, uses nodes and passes the material filter. *)
Definition eligible (w : World) (slot : option string) : option string :=
  match slot_material w slot with
  | Some (name, _) => if should_process (props w) name then Some name else None
  | None => None
  end.

(** The names outside [seen], each at its first occurrence. *)
Fixpoint first_occurrences (seen : gset string) (names : list string) : list string :=
  match names with
  | [] => []
  | name :: rest =>
      if bool_decide (name ∈ seen) then first_occurrences seen rest
      else name :: first_occurrences ({[name]} ∪ seen) rest
  end.

(** The materials one reconnect run processes, in order. *)
Definition materials_to_process (w : World) (slots : list (option string)) : list string :=
  first_occurrences ∅ (omap (eligible w) slots).

(** Auto-connection, rules and restoration applied to the material of that
    name. *)
Definition process_by_name (h : Host) (has_snapshot : bool)
           (acc : World * MATERIAL_OT_reconnect_with_rules.Counts) (name : string)
  : World * MATERIAL_OT_reconnect_with_rules.Counts :=
  match materials (fst acc) !! name with
  | Some mat => MATERIAL_OT_reconnect_with_rules.process_material h has_snapshot name mat acc
  | None => acc
  end.

(** The input a link binds. *)
Definition input_of (l : Link) : nat * nat := (to_node l, to_socket l).

(** A link whose ends resolve in [nodes], each at the first socket of its
    name, and which the host takes. *)
Definition restorable (h : Host) (nodes : list Node) (l : Link) : Prop :=
  exists src dst so si,
    node_of_id nodes (from_node l) = Some src
    /\ node_of_id nodes (to_node l) = Some dst
    /\ node_outputs src !! from_socket l = Some so
    /\ node_inputs dst !! to_socket l = Some si
    /\ socket_named (node_outputs src) (sock_name so) = Some (from_socket l)
    /\ socket_named (node_inputs dst) (sock_name si) = Some (to_socket l)
    /\ host_accepts h l = true.

(** A tree on which disconnect followed by restore is the identity: node
    names are distinct and not empty, every link is restorable, and no two
    links bind one input. *)
Record round_trip_ready (h : Host) (t : NodeTree) : Prop := {
  rt_names : List.NoDup (map node_name (nt_nodes t));
  rt_named : forall n, In n (nt_nodes t) -> node_name n <> "";
  rt_links : forall l, In l (nt_links t) -> restorable h (nt_nodes t) l;
  rt_single : List.NoDup (map input_of (nt_links t))
}.

(** The records a disconnect pass in ALL mode stores for a tree. *)
Definition snapshot_of (t : NodeTree) (name : string) : list ConnectionSnapshotItem :=
  map (fun l => MATERIAL_OT_disconnect_all_connections._record_connection
                  (nt_nodes t) l name "ALL" "ALL")
      (nt_links t).

(** The tree without its links. *)
Definition unlinked (t : NodeTree) : NodeTree :=
  {| nt_nodes := nt_nodes t; nt_links := [] |}.

(** A link that a record of the snapshot asks for in the current nodes. *)
Definition restores (nodes : list Node) (material_name : string)
           (item : ConnectionSnapshotItem) (l : Link) : Prop :=
  snap_material_name item = material_name
  /\ exists src dst,
      nodes_get nodes (snap_from_node_name item) = Some src
      /\ nodes_get nodes (snap_to_node_name item) = Some dst
      /\ (snap_from_socket_index item < length (node_outputs src))%nat
      /\ (snap_to_socket_index item < length (node_inputs dst))%nat
      /\ l = mk_link src (snap_from_socket_index item) dst (snap_to_socket_index item).

(** One selected mesh object with the material of that name in its slot. *)
Definition one_slot (name : string) : Context :=
  {| selected_objects := [{| obj_type := "MESH"; material_slots := [Some name] |}];
     collection := None |}.

(** The kind pairs of the type compatibility table. *)
Definition kind_score (a b : string) : Z :=
  if bool_decide (a = b) then 100
  else if bool_decide ((a, b) ∈ [("RGBA", "VECTOR"); ("VECTOR", "RGBA")]) then 80
  else if bool_decide ((a, b) ∈ [("RGBA", "VALUE"); ("VALUE", "RGBA")]) then 60
  else 0.

End Spec.

(** ** Scenes used as concrete inputs *)

Module Scene.

Definition sock (name type : string) : Socket :=
  {| sock_name := name; sock_type := type;
     sock_bl_idname := String.append "NodeSocket" type |}.

Definition link (a b c d : nat) : Link :=
  {| from_node := a; from_socket := b; to_node := c; to_socket := d |}.

Definition node (id : nat) (name type : string) (ins outs : list Socket) : Node :=
  {| node_id := id; node_name := name; node_label := ""; node_type := type;
     node_tree := None; node_inputs := ins; node_outputs := outs;
     node_location := (0, 0) |}.

Definition classes (cls : string) : option NodeClass :=
  if String.eqb cls "ShaderNodeEmission" then
    Some {| nc_type := "EMISSION";
            nc_inputs := [sock "Color" "RGBA"; sock "Strength" "VALUE"];
            nc_outputs := [sock "Emission" "SHADER"] |}
  else if String.eqb cls "ShaderNodeBsdfDiffuse" then
    Some {| nc_type := "BSDF_DIFFUSE";
            nc_inputs := [sock "Color" "RGBA"; sock "Roughness" "VALUE";
                          sock "Normal" "VECTOR"];
            nc_outputs := [sock "BSDF" "SHADER"] |}
  else if String.eqb cls "ShaderNodeBsdfPrincipled" then
    Some {| nc_type := "BSDF_PRINCIPLED";
            nc_inputs := [sock "Base Color" "RGBA"; sock "Metallic" "VALUE";
                          sock "Roughness" "VALUE"; sock "IOR" "VALUE";
                          sock "Alpha" "VALUE"; sock "Normal" "VECTOR"];
            nc_outputs := [sock "BSDF" "SHADER"] |}
  else None.

(** A host that accepts every link. *)
Definition host : Host :=
  {| host_accepts := fun _ => true; node_groups := []; node_class := classes |}.

(** A host that refuses the links leaving node 1. *)
Definition strict_host : Host :=
  {| host_accepts := fun l => negb (Nat.eqb (from_node l) 1);
     node_groups := []; node_class := classes |}.

Definition emission : Node :=
  node 1 "Emission" "EMISSION"
       [sock "Color" "RGBA"; sock "Strength" "VALUE"] [sock "Emission" "SHADER"].

Definition diffuse : Node :=
  node 1 "Diffuse BSDF" "BSDF_DIFFUSE"
       [sock "Color" "RGBA"; sock "Roughness" "VALUE"; sock "Normal" "VECTOR"]
       [sock "BSDF" "SHADER"].

Definition glossy : Node :=
  node 2 "Glossy BSDF" "BSDF_GLOSSY"
       [sock "Color" "RGBA"; sock "Roughness" "VALUE"; sock "Normal" "VECTOR"]
       [sock "BSDF" "SHADER"].

Definition principled : Node :=
  node 5 "Principled BSDF" "BSDF_PRINCIPLED"
       [sock "Base Color" "RGBA"; sock "Metallic" "VALUE"; sock "Roughness" "VALUE";
        sock "IOR" "VALUE"; sock "Alpha" "VALUE"; sock "Normal" "VECTOR"]
       [sock "BSDF" "SHADER"].

(** The node that replaces [emission] in [emission_tree] by a diffuse shader. *)
Definition diffuse_new : Node :=
  {| node_id := 4; node_name := "BSDF_DIFFUSE"; node_label := "BSDF_DIFFUSE";
     node_type := "BSDF_DIFFUSE"; node_tree := None;
     node_inputs := [sock "Color" "RGBA"; sock "Roughness" "VALUE"; sock "Normal" "VECTOR"];
     node_outputs := [sock "BSDF" "SHADER"];
     node_location := (0, 0) |}.

Definition image : Node :=
  node 2 "Image Texture" "TEX_IMAGE"
       [sock "Vector" "VECTOR"] [sock "Color" "RGBA"; sock "Alpha" "VALUE"].

Definition output : Node :=
  node 3 "Material Output" "OUTPUT_MATERIAL"
       [sock "Surface" "SHADER"; sock "Volume" "SHADER"; sock "Displacement" "VECTOR"]
       [].

Definition mix : Node :=
  node 4 "Mix Shader" "MIX_SHADER"
       [sock "Fac" "VALUE"; sock "Shader" "SHADER"; sock "Shader" "SHADER"]
       [sock "Shader" "SHADER"].

Definition settings (mode : ReplaceMode) (builtin : string) (auto : bool) : Props :=
  {| builtin_shader := builtin; shader_nodegroup := None;
     specific_builtin_shader := "NONE"; specific_nodegroup := None;
     replace_mode := mode; target_material := None;
     material_specific_builtin_shader := ""; material_specific_nodegroup := None;
     auto_connect := auto; connection_rules := []; target_type := OBJECTS;
     connection_snapshot := [] |}.

Definition world (t : NodeTree) (p : Props) : World :=
  {| materials := {[ "M1" := {| use_nodes := true; mat_node_tree := t |} ]};
     material_cache := ∅;
     props := p |}.

(** One mesh object with material M1 selected. *)
Definition context : Context :=
  {| selected_objects := [{| obj_type := "MESH"; material_slots := [Some "M1"] |}];
     collection := None |}.

(** Two mesh objects that share material M1, the first in two slots. *)
Definition shared_context : Context :=
  {| selected_objects :=
       [{| obj_type := "MESH"; material_slots := [Some "M1"; Some "M1"] |};
        {| obj_type := "MESH"; material_slots := [Some "M1"] |}];
     collection := None |}.

(** An emission shader driving the output. *)
Definition emission_tree : NodeTree :=
  {| nt_nodes := [emission; output]; nt_links := [link 1 0 3 0] |}.

(** A group node bound to the group 'Toon Shader', driving the output. *)
Definition toon : Node :=
  {| node_id := 1; node_name := "Group"; node_label := ""; node_type := "GROUP";
     node_tree := Some "Toon Shader";
     node_inputs := [sock "Color" "RGBA"]; node_outputs := [sock "Shader" "SHADER"];
     node_location := (0, 0) |}.

Definition group_tree : NodeTree :=
  {| nt_nodes := [toon; output]; nt_links := [link 1 0 3 0] |}.

(** Two shaders, neither linked. *)
Definition two_shaders : list Node := [diffuse; glossy; output].

(** The same with an output node that has no input. *)
Definition bare_output : Node := node 3 "Material Output" "OUTPUT_MATERIAL" [] [].

Definition two_shaders_bare : list Node := [diffuse; glossy; bare_output].

(** Two shaders mixed: both shader inputs of the mix node are bound. *)
Definition mix_tree : NodeTree :=
  {| nt_nodes := [diffuse; glossy; output; mix];
     nt_links := [link 1 0 4 1; link 2 0 4 2; link 4 0 3 0] |}.

End Scene.

(** ** Node group cache (cache.py, class NodeGroupCache) *)

Module NodeGroupCache.

(** The two class attributes. *)
Record State := {
  _sorted_groups : option (list NodeGroup);
  _last_count : nat
}.

Definition initial : State := {| _sorted_groups := None; _last_count := 0 |}.

(** [sorted(groups, key=lambda x: x.name)]: stable, smallest name first.
    Python orders strings by code point, which on UTF-8 bytes is the order
    of the bytes. *)
Fixpoint insert_by_name (g : NodeGroup) (gs : list NodeGroup) : list NodeGroup :=
  match gs with
  | [] => [g]
  | g' :: rest =>
      if String.leb (ng_name g) (ng_name g') then g :: g' :: rest
      else g' :: insert_by_name g rest
  end.

Definition sorted_by_name (gs : list NodeGroup) : list NodeGroup :=
  fold_right insert_by_name [] gs.

Definition get_sorted_shader_node_groups (h : Host) (c : State) : list NodeGroup * State :=
  let current_count := length (node_groups h) in
  let refreshed :=
    let gs := sorted_by_name
                (List.filter (fun ng => String.eqb (ng_type ng) "SHADER") (node_groups h)) in
    (gs, {| _sorted_groups := Some gs; _last_count := current_count |}) in
  match _sorted_groups c with
  | None => refreshed
  | Some gs => if negb (Nat.eqb (_last_count c) current_count) then refreshed else (gs, c)
  end.

Definition invalidate (c : State) : State :=
  {| _sorted_groups := None; _last_count := 0 |}.

End NodeGroupCache.

(** ** The rule list and the snapshot buttons (operators.py) *)

Definition set_connection_rules (p : Props) (rules : list ConnectionRuleItem) : Props :=
  {| builtin_shader := builtin_shader p;
     shader_nodegroup := shader_nodegroup p;
     specific_builtin_shader := specific_builtin_shader p;
     specific_nodegroup := specific_nodegroup p;
     replace_mode := replace_mode p;
     target_material := target_material p;
     material_specific_builtin_shader := material_specific_builtin_shader p;
     material_specific_nodegroup := material_specific_nodegroup p;
     auto_connect := auto_connect p;
     connection_rules := rules;
     target_type := target_type p;
     connection_snapshot := connection_snapshot p |}.

(** The item [connection_rules.add()] appends: every property at its
    default. *)
Definition default_rule : ConnectionRuleItem :=
  {| source_match_mode := LABEL; source_node_label := ""; source_node_type := "";
     source_socket_index := 0;
     target_match_mode := LABEL; target_node_label := ""; target_node_type := "";
     target_socket_index := 0 |}.

(** The operators work on the settings and on [props.active_rule_index]. *)
Module MATERIAL_OT_add_connection_rule.

Definition execute (p : Props) (active_rule_index : Z) : Props * Z :=
  let p' := set_connection_rules p (connection_rules p ++ [default_rule]) in
  (p', Z.of_nat (length (connection_rules p')) - 1).

End MATERIAL_OT_add_connection_rule.

Module MATERIAL_OT_remove_connection_rule.

Definition execute (p : Props) (active_rule_index : Z) : Props * Z :=
  let index := active_rule_index in
  if (0 <=? index) && (index <? Z.of_nat (length (connection_rules p))) then
    let p' := set_connection_rules p (delete (Z.to_nat index) (connection_rules p)) in
    if Z.of_nat (length (connection_rules p')) <=? active_rule_index
    then (p', Z.of_nat (length (connection_rules p')) - 1)
    else (p', active_rule_index)
  else (p, active_rule_index).

End MATERIAL_OT_remove_connection_rule.

(** ** The shader menu (node_config.py, get_available_shaders) *)

Definition BUILTIN_SHADERS_FOR_MENU : list (string * string * string) :=
  [ ("BSDF_PRINCIPLED", "原理化BSDF (Principled BSDF)", "基础PBR着色器");
    ("BSDF_DIFFUSE", "漫射BSDF (Diffuse BSDF)", "漫反射着色器");
    ("BSDF_GLOSSY", "光泽BSDF (Glossy BSDF)", "光泽着色器");
    ("BSDF_TRANSPARENT", "透明BSDF (Transparent BSDF)", "透明着色器");
    ("BSDF_GLASS", "玻璃BSDF (Glass BSDF)", "玻璃着色器");
    ("BSDF_TRANSLUCENT", "半透明BSDF (Translucent BSDF)", "半透明着色器");
    ("BSDF_REFRACTION", "折射BSDF (Refraction BSDF)", "折射着色器");
    ("BSDF_TOON", "卡通BSDF (Toon BSDF)", "卡通着色器");
    ("BSDF_SHEEN", "光泽BSDF (Sheen BSDF)", "光泽着色器");
    ("EMISSION", "自发光 (Emission)", "自发光着色器");
    ("SUBSURFACE_SCATTERING", "次表面散射 (Subsurface Scattering)", "次表面散射");
    ("VOLUME_ABSORPTION", "体积吸收 (Volume Absorption)", "体积吸收");
    ("VOLUME_SCATTER", "体积散射 (Volume Scatter)", "体积散射");
    ("VOLUME_PRINCIPLED", "原理化体积 (Principled Volume)", "原理化体积着色器");
    ("MIX_SHADER", "混合着色器 (Mix Shader)", "混合两个着色器");
    ("ADD_SHADER", "相加着色器 (Add Shader)", "相加两个着色器") ].

(** [text.encode('ascii')] raises: some code point is beyond ASCII. *)
Definition has_chinese (text : string) : bool :=
  existsb (fun c => (0x80 <=? c)%N) (code_points text).

(** [str(i)] *)
Definition str_of_nat (i : nat) : string := NilZero.string_of_uint (Nat.to_uint i).

(** The items (identifier, name, description) of the dynamic enums. *)
Definition get_available_shaders (h : Host) (c : NodeGroupCache.State)
  : list (string * string * string) * NodeGroupCache.State :=
  let '(shader_node_groups, c') := NodeGroupCache.get_sorted_shader_node_groups h c in
  let shaders :=
    map (fun ing =>
           let identifier := String.append "NODEGROUP_" (str_of_nat (fst ing)) in
           if has_chinese (ng_name (snd ing))
           then (identifier, String.append "NodeGroup_" (str_of_nat (fst ing)),
                 "Custom shader node group")
           else (identifier, ng_name (snd ing), ng_name (snd ing)))
        (enumerate shader_node_groups)
    ++ BUILTIN_SHADERS_FOR_MENU in
  (match shaders with
   | [] => [("NONE", "-- No Shaders Available --", "")]
   | _ :: _ => shaders
   end, c').

Definition get_available_shaders_for_specific (h : Host) (c : NodeGroupCache.State)
  : list (string * string * string) * NodeGroupCache.State :=
  get_available_shaders h c.

(** ** Mutually exclusive choices (properties.py, the update callbacks)

    Assigning a property runs its update callback; the assignment a callback
    makes runs the callback of the other property, which then finds nothing
    to do.  Assigning to an enum an identifier that is not among its items
    raises TypeError: nothing is stored, and a callback that made the
    assignment ends there. *)

Module ShaderReplacerProperties.

(** The identifiers of the items of [builtin_shader] and of
    [specific_builtin_shader], two static enums with the same items. *)
Definition builtin_shader_items : list string :=
  [ "NONE"; "BSDF_PRINCIPLED"; "BSDF_DIFFUSE"; "BSDF_GLOSSY"; "BSDF_TRANSPARENT";
    "BSDF_GLASS"; "BSDF_TRANSLUCENT"; "BSDF_REFRACTION"; "BSDF_TOON"; "BSDF_SHEEN";
    "EMISSION"; "SUBSURFACE_SCATTERING"; "VOLUME_ABSORPTION"; "VOLUME_SCATTER";
    "VOLUME_PRINCIPLED"; "MIX_SHADER"; "ADD_SHADER" ].

(** The identifiers of the items of [material_specific_builtin_shader], a
    dynamic enum: the host asks [get_available_shaders_for_specific] for
    them. *)
Definition material_specific_items (h : Host) (c : NodeGroupCache.State) : list string :=
  map (fun item => fst (fst item)) (fst (get_available_shaders_for_specific h c)).

(** The value of an enum after [self.prop = value]. *)
Definition enum_assign (items : list string) (value current : string) : string :=
  if str_mem value items then value else current.

Definition with_shader (p : Props) (builtin : string) (nodegroup : option string) : Props :=
  {| builtin_shader := builtin;
     shader_nodegroup := nodegroup;
     specific_builtin_shader := specific_builtin_shader p;
     specific_nodegroup := specific_nodegroup p;
     replace_mode := replace_mode p;
     target_material := target_material p;
     material_specific_builtin_shader := material_specific_builtin_shader p;
     material_specific_nodegroup := material_specific_nodegroup p;
     auto_connect := auto_connect p;
     connection_rules := connection_rules p;
     target_type := target_type p;
     connection_snapshot := connection_snapshot p |}.

Definition with_specific (p : Props) (builtin : string) (nodegroup : option string) : Props :=
  {| builtin_shader := builtin_shader p;
     shader_nodegroup := shader_nodegroup p;
     specific_builtin_shader := builtin;
     specific_nodegroup := nodegroup;
     replace_mode := replace_mode p;
     target_material := target_material p;
     material_specific_builtin_shader := material_specific_builtin_shader p;
     material_specific_nodegroup := material_specific_nodegroup p;
     auto_connect := auto_connect p;
     connection_rules := connection_rules p;
     target_type := target_type p;
     connection_snapshot := connection_snapshot p |}.

Definition with_material_specific (p : Props) (builtin : string) (nodegroup : option string)
  : Props :=
  {| builtin_shader := builtin_shader p;
     shader_nodegroup := shader_nodegroup p;
     specific_builtin_shader := specific_builtin_shader p;
     specific_nodegroup := specific_nodegroup p;
     replace_mode := replace_mode p;
     target_material := target_material p;
     material_specific_builtin_shader := builtin;
     material_specific_nodegroup := nodegroup;
     auto_connect := auto_connect p;
     connection_rules := connection_rules p;
     target_type := target_type p;
     connection_snapshot := connection_snapshot p |}.

Definition _on_builtin_shader_changed (p : Props) : Props :=
  if negb (String.eqb (builtin_shader p) "NONE")
  then with_shader p (builtin_shader p) None
  else p.

Definition _on_shader_nodegroup_changed (p : Props) : Props :=
  match shader_nodegroup p with
  | Some _ =>
      with_shader p (enum_assign builtin_shader_items "NONE" (builtin_shader p))
                  (shader_nodegroup p)
  | None => p
  end.

Definition _on_specific_builtin_shader_changed (p : Props) : Props :=
  if negb (String.eqb (specific_builtin_shader p) "NONE")
  then with_specific p (specific_builtin_shader p) None
  else p.

Definition _on_specific_nodegroup_changed (p : Props) : Props :=
  match specific_nodegroup p with
  | Some _ =>
      with_specific p (enum_assign builtin_shader_items "NONE" (specific_builtin_shader p))
                    (specific_nodegroup p)
  | None => p
  end.

Definition _on_material_specific_builtin_shader_changed (p : Props) : Props :=
  if negb (String.eqb (material_specific_builtin_shader p) "NONE")
  then with_material_specific p (material_specific_builtin_shader p) None
  else p.

(** [items]: what [material_specific_builtin_shader] offers at that moment. *)
Definition _on_material_specific_nodegroup_changed (items : list string) (p : Props) : Props :=
  match material_specific_nodegroup p with
  | Some _ =>
      with_material_specific
        p (enum_assign items "NONE" (material_specific_builtin_shader p))
        (material_specific_nodegroup p)
  | None => p
  end.

(** [props.builtin_shader = value] and its like. *)
Definition set_builtin_shader (p : Props) (value : string) : Props :=
  if str_mem value builtin_shader_items
  then _on_builtin_shader_changed (with_shader p value (shader_nodegroup p))
  else p.

Definition set_shader_nodegroup (p : Props) (value : option string) : Props :=
  _on_shader_nodegroup_changed (with_shader p (builtin_shader p) value).

Definition set_specific_builtin_shader (p : Props) (value : string) : Props :=
  if str_mem value builtin_shader_items
  then _on_specific_builtin_shader_changed (with_specific p value (specific_nodegroup p))
  else p.

Definition set_specific_nodegroup (p : Props) (value : option string) : Props :=
  _on_specific_nodegroup_changed (with_specific p (specific_builtin_shader p) value).

Definition set_material_specific_builtin_shader (items : list string) (p : Props)
           (value : string) : Props :=
  if str_mem value items
  then _on_material_specific_builtin_shader_changed
         (with_material_specific p value (material_specific_nodegroup p))
  else p.

Definition set_material_specific_nodegroup (items : list string) (p : Props)
           (value : option string) : Props :=
  _on_material_specific_nodegroup_changed
    items (with_material_specific p (material_specific_builtin_shader p) value).

End ShaderReplacerProperties.

(** ** The image texture helpers of the batch operator (operators.py,
    MATERIAL_OT_batch_replace_shader) *)

Module ImageTextureInputs.

(** [xs.sort(key=lambda x: x[0])]: stable, smallest index first. *)
Fixpoint insert_by_index {A} (x : nat * A) (xs : list (nat * A)) : list (nat * A) :=
  match xs with
  | [] => [x]
  | y :: ys => if (fst x <=? fst y)%nat then x :: y :: ys else y :: insert_by_index x ys
  end.

Definition sort_by_index {A} (xs : list (nat * A)) : list (nat * A) :=
  fold_right insert_by_index [] xs.

Definition alpha_names : list string :=
  [ "alpha"; "Alpha"; "Opacity"; "opacity"; "透明度"; "不透明度"; "Fac" ].

Definition _find_alpha_input (shader_node : Node) : option nat :=
  find_index (fun inp => str_mem (sock_name inp) alpha_names) (node_inputs shader_node).

(** The inputs outside [connected_inputs] that satisfy [p], with their
    positions, in the order of the loop. *)
Definition matching_inputs (p : Socket -> bool) (shader_node : Node)
           (connected_inputs : list nat) : list (nat * Socket) :=
  List.filter (fun ix => negb (nat_mem (fst ix) connected_inputs) && p (snd ix))
              (enumerate (node_inputs shader_node)).

(** [matching_inputs.sort(key=lambda x: x[0]); return matching_inputs[0][1]] *)
Definition lowest (matching : list (nat * Socket)) : option nat :=
  match sort_by_index matching with
  | (idx, _) :: _ => Some idx
  | [] => None
  end.

Definition alpha_keywords : list string :=
  [ "alpha"; "opacity"; "transparency"; "透明" ].

Definition color_keywords : list string :=
  [ "base color"; "basecolor"; "color"; "颜色"; "diffuse"; "漫反射";
    "albedo"; "反照率"; "基础色" ].

Fixpoint by_keyword (keywords : list string) (shader_node : Node)
         (connected_inputs : list nat) : option nat :=
  match keywords with
  | [] => None
  | keyword :: rest =>
      match matching_inputs (fun inp => str_in keyword (lower (sock_name inp)))
                            shader_node connected_inputs with
      | [] => by_keyword rest shader_node connected_inputs
      | matching => lowest matching
      end
  end.

Definition _find_best_input_for_image_texture (shader_node : Node) (socket_type : string)
           (connected_inputs : list nat) (is_alpha : bool) : option nat :=
  if is_alpha then
    match matching_inputs (fun inp => any_kw_in alpha_keywords (lower (sock_name inp)))
                          shader_node connected_inputs with
    | [] => None
    | matching => lowest matching
    end
  else by_keyword color_keywords shader_node connected_inputs.

End ImageTextureInputs.

(** ** Notions used to state the properties of the functions above *)

Module Frame.

(** The active index points into the rule list, or the list is empty. *)
Definition index_ok (p : Props) (active_rule_index : Z) : bool :=
  match connection_rules p with
  | [] => true
  | _ :: _ => (0 <=? active_rule_index)
              && (active_rule_index <? Z.of_nat (length (connection_rules p)))
  end.

(** Names in ascending order, neighbour by neighbour. *)
Fixpoint ascending (gs : list NodeGroup) : bool :=
  match gs with
  | a :: (b :: _) as rest => String.leb (ng_name a) (ng_name b) && ascending rest
  | _ => true
  end.

(** The node group of a choice, by name. *)
Definition group_name (nodegroup : option string) : string :=
  match nodegroup with Some name => name | None => "" end.

(** Position [i] holds the first socket that satisfies [p]. *)
Definition first_with (p : Socket -> bool) (sockets : list Socket) (i : nat) : Prop :=
  exists s, sockets !! i = Some s /\ p s = true
            /\ forall j s', sockets !! j = Some s' -> (j < i)%nat -> p s' = false.

(** No socket satisfies [p]. *)
Definition none_with (p : Socket -> bool) (sockets : list Socket) : Prop :=
  forall s, In s sockets -> p s = false.

(** The priority chain of an output search: the first socket satisfying the
    first test that any socket satisfies, else the first socket. *)
Fixpoint first_by_priority (tests : list (Socket -> bool)) (sockets : list Socket)
         (i : nat) : Prop :=
  match tests with
  | [] => i = 0%nat /\ sockets <> []
  | p :: rest =>
      first_with p sockets i \/ (none_with p sockets /\ first_by_priority rest sockets i)
  end.

(** The compatibility of a source semantic with the semantic of an input. *)
Definition semantic_score (out_semantic : Semantic) (inp : Socket) : Z :=
  SocketSemantics.are_semantically_compatible
    out_semantic (SocketSemantics.get_socket_semantic (sock_name inp)).

(** One round of the semantic scan: the body of the loop over the inputs
    that keeps [best_input] and [best_score]. *)
Definition scan_step (out_semantic : Semantic) (connected_inputs : list nat)
           (best : option nat * Z) (ix : nat * Socket) : option nat * Z :=
  if nat_mem (fst ix) connected_inputs then best
  else
    let score := SocketSemantics.are_semantically_compatible
                   out_semantic (SocketSemantics.get_socket_semantic (sock_name (snd ix))) in
    if snd best <? score then (Some (fst ix), score) else best.

(** The attempts the host accepts. *)
Definition accepted (h : Host) (tr : list Link) : list Link :=
  List.filter (host_accepts h) tr.

(** [l] joins an output of a node of [sources] to an input of a node of
    [targets]. *)
Definition joins (sources targets : list Node) (l : Link) : Prop :=
  exists src dst,
    In src sources /\ In dst targets
    /\ l = mk_link src (from_socket l) dst (to_socket l)
    /\ (from_socket l < length (node_outputs src))%nat
    /\ (to_socket l < length (node_inputs dst))%nat.

(** What an operation that only calls [links.new] does: [st'] comes from
    [st] by the run of attempts [tr]; the count grows by the attempts the
    host accepts; a link of [st'] was there or is an accepted attempt; a link
    of [st] is still there unless an accepted attempt bound its input anew. *)
Definition run (h : Host) (tr : list Link) (st st' : Conn) : Prop :=
  c_trace st' = c_trace st ++ tr
  /\ c_count st' = c_count st + Z.of_nat (length (accepted h tr))
  /\ (forall l, In l (c_links st') -> In l (c_links st) \/ In l (accepted h tr))
  /\ (forall l, In l (c_links st) ->
                In l (c_links st') \/ exists l', In l' (accepted h tr) /\ same_input l l' = true).

(** A run of attempts that all satisfy [P]. *)
Definition attempts (h : Host) (P : Link -> Prop) (st st' : Conn) : Prop :=
  exists tr, run h tr st st' /\ Forall P tr.

(** A link that a connection rule asks for: from the rule's output position
    on a node its source side selects to the rule's input position on another
    node its target side selects, both positions existing. *)
Definition by_rule (nodes : list Node) (rule : ConnectionRuleItem) (l : Link) : Prop :=
  exists src dst,
    In src (MATERIAL_OT_reconnect_with_rules.rule_nodes
              nodes (source_match_mode rule) (source_node_label rule) (source_node_type rule))
    /\ In dst (MATERIAL_OT_reconnect_with_rules.rule_nodes
                 nodes (target_match_mode rule) (target_node_label rule)
                 (target_node_type rule))
    /\ node_id src <> node_id dst
    /\ (source_socket_index rule < length (node_outputs src))%nat
    /\ (target_socket_index rule < length (node_inputs dst))%nat
    /\ l = mk_link src (source_socket_index rule) dst (target_socket_index rule).

(** A link with an end on one of the nodes [ids]. *)
Definition touches (ids : list nat) (l : Link) : Prop :=
  In (from_node l) ids \/ In (to_node l) ids.

(** What every round of the replacement loop keeps, [t0] being the tree at
    the start and [selected] the names to replace: the requests touch created
    nodes; the count is the number of created nodes; links and nodes are old
    or new; created identities are beyond those of [t0]; unless the host can
    make no node for the destination, the identities in use stay beyond those
    of [t0]; the nodes are distinct; nodes that are not selected stay. *)
Definition replace_inv (h : Host) (target : string) (t0 : NodeTree) (selected : list string)
           (r : MATERIAL_OT_batch_replace_shader.Replace) : Prop :=
  let created := MATERIAL_OT_batch_replace_shader.r_new r in
  let tree := MATERIAL_OT_batch_replace_shader.r_tree r in
  let trace := MATERIAL_OT_batch_replace_shader.r_trace r in
  Forall (touches created) trace
  /\ MATERIAL_OT_batch_replace_shader.r_count r = Z.of_nat (length created)
  /\ (forall l, In l (nt_links tree) -> In l (nt_links t0) \/ In l (accepted h trace))
  /\ (forall n, In n (nt_nodes tree) -> In n (nt_nodes t0) \/ In (node_id n) created)
  /\ (forall i, In i created -> (fresh_id (nt_nodes t0) <= i)%nat)
  /\ ((forall i nodes loc,
          MATERIAL_OT_batch_replace_shader.new_shader_node h i nodes target loc = None)
      \/ (fresh_id (nt_nodes t0) <= fresh_id (nt_nodes tree))%nat)
  /\ List.NoDup (map node_id (nt_nodes tree))
  /\ (forall n, In n (nt_nodes t0) -> ~ In (node_name n) selected -> In n (nt_nodes tree)).

(** The material of a slot that the batch operator visits: it exists and
    uses nodes. *)
Definition visited (w : World) (slot : option string) : option string :=
  match slot_material w slot with
  | Some (name, _) => Some name
  | None => None
  end.

(** The replacement applied to the material of that name, its result kept
    in the cache. *)
Definition replace_by_name (h : Host) (target_shader_name specific_shader_name : string)
           (w : World) (name : string) : World :=
  match materials w !! name with
  | Some mat =>
      let '(w1, result) :=
        MATERIAL_OT_batch_replace_shader.replace_in_world
          h w name mat target_shader_name specific_shader_name in
      MaterialCache.mark_processed w1 name result
  | None => w
  end.

(** The totals of the batch loop, read off the cache: one round per visited
    slot, each adding the cached result of the slot's material. *)
Definition tally (w : World) (tot : MATERIAL_OT_batch_replace_shader.Totals)
           (names : list string) : MATERIAL_OT_batch_replace_shader.Totals :=
  fold_left
    (fun tot name =>
       let result := MaterialCache.get_result w name in
       {| MATERIAL_OT_batch_replace_shader.total_materials :=
            MATERIAL_OT_batch_replace_shader.total_materials tot + 1;
          MATERIAL_OT_batch_replace_shader.replaced_materials :=
            if 0 <? result
            then MATERIAL_OT_batch_replace_shader.replaced_materials tot + 1
            else MATERIAL_OT_batch_replace_shader.replaced_materials tot;
          MATERIAL_OT_batch_replace_shader.replaced_shaders :=
            if 0 <? result
            then MATERIAL_OT_batch_replace_shader.replaced_shaders tot + result
            else MATERIAL_OT_batch_replace_shader.replaced_shaders tot |})
    names tot.

(** Whether the disconnect operator removes a link of a tree under a
    shader-type filter. *)
Definition removed_by (t : NodeTree) (shader_types : list string) (l : Link) : bool :=
  str_mem "ALL" shader_types
  || MATERIAL_OT_disconnect_all_connections.should_remove (nt_nodes t) shader_types l.

(** A material without the links the filter removes. *)
Definition disconnected (shader_types : list string) (mat : Material) : Material :=
  {| use_nodes := use_nodes mat;
     mat_node_tree :=
       {| nt_nodes := nt_nodes (mat_node_tree mat);
          nt_links := List.filter (fun l => negb (removed_by (mat_node_tree mat) shader_types l))
                                  (nt_links (mat_node_tree mat)) |} |}.

(** A run of attempts that ends at the first one the host accepts: every
    attempt but the last was refused. *)
Definition refused_but_last (h : Host) (tr : list Link) : Prop :=
  Forall (fun l => host_accepts h l = false) (removelast tr).

(** What the reconnect operator never changes of a material. *)
Definition skeleton (mat : Material) : bool * list Node :=
  (use_nodes mat, nt_nodes (mat_node_tree mat)).

(** Between the rounds of a pass over the shader nodes: since the trace was
    [base], every accepted request is a link of the tree and ends on a shader
    node already done ([ids]). *)
Definition kept (h : Host) (ids : list nat) (base : list Link) (st : Conn) : Prop :=
  exists tr,
    c_trace st = base ++ tr
    /\ forall l, In l (accepted h tr) -> In l (c_links st) /\ In (to_node l) ids.

(** Inside the round of shader node [s]: an accepted request ends on a
    shader node already done, or on an input of [s] that is marked as
    connected. *)
Definition kept_in_round (h : Host) (ids : list nat) (s : Node) (base : list Link)
           (cs : list nat * Conn) : Prop :=
  exists tr,
    c_trace (snd cs) = base ++ tr
    /\ forall l, In l (accepted h tr) ->
                 In l (c_links (snd cs))
                 /\ (In (to_node l) ids
                     \/ (to_node l = node_id s /\ nat_mem (to_socket l) (fst cs) = true)).

(** The captured links of a node in the order the reconnection reads them:
    socket name by socket name, each with its links. *)
Definition captured {V} (links : list (string * list V)) : list (string * V) :=
  concat (map (fun item => map (pair (fst item)) (snd item)) links).

(** A link that a record of the snapshot asks for: the record names both
    nodes and they resolve with the recorded positions in range. *)
Definition asks (nodes : list Node) (material_name : string)
           (item : ConnectionSnapshotItem) (l : Link) : Prop :=
  snap_from_node_name item <> "" /\ snap_to_node_name item <> ""
  /\ Spec.restores nodes material_name item l.

(** What the records of a snapshot ask for, record by record. *)
Definition asked (nodes : list Node) (material_name : string)
           (item : ConnectionSnapshotItem) (request : option Link) : Prop :=
  match request with
  | Some l => asks nodes material_name item l
  | None => forall l, ~ asks nodes material_name item l
  end.

(** A node the host makes for the destination. *)
Definition made_for (h : Host) (target : string) (n : Node) : Prop :=
  exists i nodes loc,
    MATERIAL_OT_batch_replace_shader.new_shader_node h i nodes target loc = Some n.

(** Where the nodes of the tree come from during a replacement that began
    with [t0], and that a node was created only if the host can make one. *)
Definition origin (h : Host) (target : string) (t0 : NodeTree)
           (r : MATERIAL_OT_batch_replace_shader.Replace) : Prop :=
  (forall n, In n (nt_nodes (MATERIAL_OT_batch_replace_shader.r_tree r)) ->
             In n (nt_nodes t0) \/ made_for h target n)
  /\ (MATERIAL_OT_batch_replace_shader.r_new r <> [] -> exists n, made_for h target n).

(** The node created last is in the tree and is linked to the surface input
    of an output node. *)
Definition last_bound (r : MATERIAL_OT_batch_replace_shader.Replace) : Prop :=
  forall id, last (MATERIAL_OT_batch_replace_shader.r_new r) = Some id ->
    exists n,
      In n (nt_nodes (MATERIAL_OT_batch_replace_shader.r_tree r)) /\ node_id n = id
      /\ Spec.surface_bound (nt_nodes (MATERIAL_OT_batch_replace_shader.r_tree r)) n
                            (nt_links (MATERIAL_OT_batch_replace_shader.r_tree r)).

(** [d.get(k, [])] on a dictionary of lists. *)
Definition group {V} (d : list (string * list V)) (k : string) : list V :=
  match List.find (fun kv => String.eqb (fst kv) k) d with
  | Some kv => snd kv
  | None => []
  end.

(** The nodes the auto-connection links into. *)
Definition auto_targets (nodes : list Node) : list Node :=
  List.filter (fun n => NodeTypeConfig.is_shader_node n
                        || String.eqb (node_type n) "OUTPUT_MATERIAL") nodes.

(** What the auto-connection may ask for in a tree. *)
Definition auto_link (nodes : list Node) : Link -> Prop :=
  joins nodes (auto_targets nodes).

End Frame.

(** ** Further scenes *)

Module Scene2.

(** A color source that is neither texture nor shader. *)
Definition rgb : Node :=
  Scene.node 6 "RGB" "RGB" [] [Scene.sock "Color" "RGBA"].

Definition rgb_tree : list Node := [Scene.diffuse; rgb; Scene.output].

(** A source with a vector output. *)
Definition normal_map : Node :=
  Scene.node 7 "Normal Map" "NORMAL_MAP"
             [Scene.sock "Strength" "VALUE"; Scene.sock "Color" "RGBA"]
             [Scene.sock "Normal" "VECTOR"].

(** A diffuse shader fed by both sources and driving the output. *)
Definition two_sources_tree : NodeTree :=
  {| nt_nodes := [Scene.diffuse; rgb; normal_map; Scene.output];
     nt_links := [Scene.link 6 0 1 0; Scene.link 7 0 1 2; Scene.link 1 0 3 0] |}.

(** A host that refuses the links leaving node 6. *)
Definition refusing_host : Host :=
  {| host_accepts := fun l => negb (Nat.eqb (from_node l) 6);
     node_groups := []; node_class := Scene.classes |}.

(** Two shaders and one output node, the first shader driving it. *)
Definition two_shaders_tree : NodeTree :=
  {| nt_nodes := Scene.two_shaders; nt_links := [Scene.link 1 0 3 0] |}.

(** The mix tree after a disconnect in ALL mode: no link, three records. *)
Definition mix_settings : Props :=
  {| builtin_shader := "NONE"; shader_nodegroup := None;
     specific_builtin_shader := "NONE"; specific_nodegroup := None;
     replace_mode := ALL; target_material := None;
     material_specific_builtin_shader := ""; material_specific_nodegroup := None;
     auto_connect := false; connection_rules := []; target_type := OBJECTS;
     connection_snapshot := Spec.snapshot_of Scene.mix_tree "M1" |}.

End Scene2.

(** * Properties *)

(** ** Text primitives *)

Section Text.

(** [starts_with] and [str_in] are the prefix and the substring tests. *)
Lemma starts_with_spec (p s : string) :
  starts_with p s = true <-> exists post, s = String.append p post.
Proof.
  revert s. induction p as [|a p IH]; intros s; simpl.
  - split; [intros _; now exists s | reflexivity].
  - destruct s as [|b s]; [split; [discriminate | intros [post [=]]]|].
    rewrite andb_true_iff, IH. split.
    + intros [Hab [post ->]]. apply Ascii.eqb_eq in Hab. subst. now exists post.
    + intros [post [= -> ->]]. split; [apply Ascii.eqb_refl | now exists post].
Qed.

Lemma str_in_spec (kw s : string) :
  str_in kw s = true <-> exists pre post, s = String.append pre (String.append kw post).
Proof.
  induction s as [|c s IH].
  - simpl. rewrite orb_false_r, starts_with_spec. split.
    + intros [post ->]. now exists EmptyString, post.
    + intros (pre & post & H). destruct pre as [|a pre]; [now exists post | discriminate].
  - cbn [str_in]. rewrite orb_true_iff, starts_with_spec, IH. split.
    + intros [[post ->] | (pre & post & ->)].
      * now exists EmptyString, post.
      * now exists (String c pre), post.
    + intros (pre & post & H). destruct pre as [|a pre].
      * left. now exists post.
      * right. injection H as -> ->. now exists pre, post.
Qed.

End Text.

(** ** Code points and UTF-8 *)

Section CodePoints.

Local Open Scope N_scope.

Lemma between_spec (a c b : N) : between a c b = true <-> a <= c <= b.
Proof. unfold between. rewrite andb_true_iff, !N.leb_le. tauto. Qed.

Lemma between_false (a c b : N) : c < a \/ b < c -> between a c b = false.
Proof.
  intros H. destruct (between a c b) eqn:Hb; [|reflexivity].
  apply between_spec in Hb. lia.
Qed.

Lemma between_false_inv (a c b : N) : between a c b = false -> c < a \/ b < c.
Proof.
  intros H. destruct (N.lt_ge_cases c a) as [Hl | Hg]; [now left|].
  destruct (N.lt_ge_cases b c) as [Hl' | Hg']; [now right|].
  rewrite (proj2 (between_spec a c b)) in H by lia. discriminate.
Qed.

Lemma digit_div_mod (k x y : N) :
  k <> 0 -> y < k -> (x * k + y) / k = x /\ (x * k + y) mod k = y.
Proof.
  intros Hk Hy. split.
  - symmetry. apply (N.div_unique _ k x y); lia.
  - symmetry. apply (N.mod_unique _ k x y); lia.
Qed.

Lemma byte_lt (b : ascii) : byte b < 256.
Proof. apply N_ascii_bounded. Qed.

Lemma ascii_of_byte (b : ascii) (n : N) : n = byte b -> ascii_of_N n = b.
Proof. intros ->. apply ascii_N_embedding. Qed.

Lemma utf8_tail_byte (c : N) (b : ascii) (s : string) :
  0x80 <= byte b <= 0xBF -> c mod 64 = byte b - 0x80 -> utf8_tail c s = String b s.
Proof.
  intros Hb Hc. unfold utf8_tail. f_equal. apply ascii_of_byte. rewrite Hc. lia.
Qed.

Lemma utf8_char_stray (b : ascii) (s : string) : utf8_char (stray b) s = String b s.
Proof.
  pose proof (byte_lt b) as Hlt. unfold utf8_char, stray.
  destruct (N.ltb_spec (byte b) 0x80) as [Hs | Hs].
  - destruct (N.ltb_spec (byte b) 0x80); [|lia]. f_equal. now apply ascii_of_byte.
  - destruct (N.ltb_spec (0xDC00 + byte b) 0x80); [lia|].
    destruct (N.ltb_spec (0xDC00 + byte b) 0x800); [lia|].
    rewrite (proj2 (between_spec _ _ _)) by lia.
    f_equal. apply ascii_of_byte. lia.
Qed.

Lemma utf8_char_2 (b0 b1 : ascii) (s : string) :
  between 0xC0 (byte b0) 0xDF = true -> continuation b1 = true ->
  between 0x80 (code_point2 b0 b1) 0x7FF = true ->
  utf8_char (code_point2 b0 b1) s = String b0 (String b1 s).
Proof.
  unfold continuation. rewrite !between_spec. intros H0 H1 Hc.
  destruct (digit_div_mod 64 (byte b0 - 0xC0) (byte b1 - 0x80)) as [Hd Hm]; [lia | lia |].
  fold (code_point2 b0 b1) in Hd, Hm. unfold utf8_char.
  destruct (N.ltb_spec (code_point2 b0 b1) 0x80); [lia|].
  destruct (N.ltb_spec (code_point2 b0 b1) 0x800); [|lia].
  rewrite (utf8_tail_byte _ b1) by (assumption || lia).
  f_equal. apply ascii_of_byte. rewrite Hd. lia.
Qed.

Lemma utf8_char_3 (b0 b1 b2 : ascii) (s : string) :
  between 0xE0 (byte b0) 0xEF = true -> continuation b1 = true -> continuation b2 = true ->
  between 0x800 (code_point3 b0 b1 b2) 0xFFFF = true ->
  between 0xD800 (code_point3 b0 b1 b2) 0xDFFF = false ->
  utf8_char (code_point3 b0 b1 b2) s = String b0 (String b1 (String b2 s)).
Proof.
  unfold continuation. rewrite !between_spec. intros H0 H1 H2 Hc Hsur.
  set (x := byte b0 - 0xE0). set (y := byte b1 - 0x80). set (z := byte b2 - 0x80).
  assert (Hcp : code_point3 b0 b1 b2 = (x * 64 + y) * 64 + z)
    by (unfold code_point3; fold x y z; lia).
  destruct (digit_div_mod 64 (x * 64 + y) z) as [Hd1 Hm1]; [lia | subst z; lia |].
  destruct (digit_div_mod 64 x y) as [Hd2 Hm2]; [lia | subst y; lia |].
  assert (Hd3 : code_point3 b0 b1 b2 / 4096 = x).
  { change 4096 with (64 * 64). rewrite <- N.Div0.div_div. now rewrite Hcp, Hd1. }
  unfold utf8_char.
  destruct (N.ltb_spec (code_point3 b0 b1 b2) 0x80); [lia|].
  destruct (N.ltb_spec (code_point3 b0 b1 b2) 0x800); [lia|].
  apply between_false_inv in Hsur.
  rewrite between_false by lia.
  destruct (N.ltb_spec (code_point3 b0 b1 b2) 0x10000); [|lia].
  rewrite (utf8_tail_byte (code_point3 b0 b1 b2) b2) by (try assumption; rewrite Hcp, Hm1; reflexivity).
  rewrite (utf8_tail_byte (code_point3 b0 b1 b2 / 64) b1)
    by (try assumption; rewrite Hcp, Hd1, Hm2; reflexivity).
  f_equal. apply ascii_of_byte. rewrite Hd3. subst x. lia.
Qed.

Lemma utf8_char_4 (b0 b1 b2 b3 : ascii) (s : string) :
  between 0xF0 (byte b0) 0xF4 = true -> continuation b1 = true -> continuation b2 = true ->
  continuation b3 = true ->
  between 0x10000 (code_point4 b0 b1 b2 b3) 0x10FFFF = true ->
  utf8_char (code_point4 b0 b1 b2 b3) s = String b0 (String b1 (String b2 (String b3 s))).
Proof.
  unfold continuation. rewrite !between_spec. intros H0 H1 H2 H3 Hc.
  set (x := byte b0 - 0xF0). set (y := byte b1 - 0x80). set (z := byte b2 - 0x80).
  set (u := byte b3 - 0x80).
  assert (Hcp : code_point4 b0 b1 b2 b3 = ((x * 64 + y) * 64 + z) * 64 + u)
    by (unfold code_point4; fold x y z u; lia).
  destruct (digit_div_mod 64 ((x * 64 + y) * 64 + z) u) as [Hd1 Hm1]; [lia | subst u; lia |].
  destruct (digit_div_mod 64 (x * 64 + y) z) as [Hd2 Hm2]; [lia | subst z; lia |].
  destruct (digit_div_mod 64 x y) as [Hd3 Hm3]; [lia | subst y; lia |].
  assert (Hq2 : code_point4 b0 b1 b2 b3 / 4096 = x * 64 + y).
  { change 4096 with (64 * 64). rewrite <- N.Div0.div_div. now rewrite Hcp, Hd1, Hd2. }
  assert (Hq3 : code_point4 b0 b1 b2 b3 / 262144 = x).
  { change 262144 with (4096 * 64). rewrite <- N.Div0.div_div. now rewrite Hq2, Hd3. }
  unfold utf8_char.
  destruct (N.ltb_spec (code_point4 b0 b1 b2 b3) 0x80); [lia|].
  destruct (N.ltb_spec (code_point4 b0 b1 b2 b3) 0x800); [lia|].
  rewrite between_false by lia.
  destruct (N.ltb_spec (code_point4 b0 b1 b2 b3) 0x10000); [lia|].
  rewrite (utf8_tail_byte (code_point4 b0 b1 b2 b3) b3)
    by (try assumption; rewrite Hcp, Hm1; reflexivity).
  rewrite (utf8_tail_byte (code_point4 b0 b1 b2 b3 / 64) b2)
    by (try assumption; rewrite Hcp, Hd1, Hm2; reflexivity).
  rewrite (utf8_tail_byte (code_point4 b0 b1 b2 b3 / 4096) b1)
    by (try assumption; rewrite Hq2, Hm3; reflexivity).
  f_equal. apply ascii_of_byte. rewrite Hq3. subst x. lia.
Qed.

Lemma utf8_cons (c : N) (cs : list N) : utf8 (c :: cs) = utf8_char c (utf8 cs).
Proof. reflexivity. Qed.

Lemma utf8_char_append (c : N) (s : string) :
  utf8_char c s = String.append (utf8_char c EmptyString) s.
Proof. unfold utf8_char, utf8_tail. repeat case_match; reflexivity. Qed.

Lemma append_assoc (a b c : string) :
  String.append (String.append a b) c = String.append a (String.append b c).
Proof.
  induction a as [|x a IH]; [reflexivity|].
  change (String x (String.append (String.append a b) c)
          = String x (String.append a (String.append b c))).
  now f_equal.
Qed.

Lemma utf8_app (xs ys : list N) : utf8 (xs ++ ys) = String.append (utf8 xs) (utf8 ys).
Proof.
  induction xs as [|x xs IH]; [reflexivity|].
  change (utf8 ((x :: xs) ++ ys)) with (utf8_char x (utf8 (xs ++ ys))).
  rewrite utf8_cons, IH, utf8_char_append, (utf8_char_append x (utf8 xs)).
  symmetry. apply append_assoc.
Qed.

(** Writing the code points of a text gives the text back. *)
Lemma utf8_code_points (s : string) : utf8 (code_points s) = s.
Proof.
  assert (Hgen : forall n s, (String.length s <= n)%nat -> utf8 (code_points s) = s).
  { clear s. induction n as [|n IH]; intros s Hlen.
    - destruct s; [reflexivity | simpl in Hlen; lia].
    - destruct s as [|b0 r0]; [reflexivity|].
      assert (Hone : utf8 (stray b0 :: code_points r0) = String b0 r0).
      { rewrite utf8_cons, IH by (simpl in Hlen; lia). apply utf8_char_stray. }
      cbn [code_points].
      destruct r0 as [|b1 r1]; [exact Hone|].
      destruct (between 0xC0 (byte b0) 0xDF && continuation b1
                && between 0x80 (code_point2 b0 b1) 0x7FF) eqn:C2.
      { apply andb_true_iff in C2. destruct C2 as [C2 Hc].
        apply andb_true_iff in C2. destruct C2 as [H0 H1].
        rewrite utf8_cons, IH by (simpl in Hlen; lia). now apply utf8_char_2. }
      destruct r1 as [|b2 r2]; [exact Hone|].
      destruct (between 0xE0 (byte b0) 0xEF && continuation b1 && continuation b2
                && between 0x800 (code_point3 b0 b1 b2) 0xFFFF
                && negb (between 0xD800 (code_point3 b0 b1 b2) 0xDFFF)) eqn:C3.
      { rewrite !andb_true_iff, negb_true_iff in C3.
        destruct C3 as [[[[H0 H1] H2] Hc] Hs].
        rewrite utf8_cons, IH by (simpl in Hlen; lia). now apply utf8_char_3. }
      destruct r2 as [|b3 r3]; [exact Hone|].
      destruct (between 0xF0 (byte b0) 0xF4 && continuation b1 && continuation b2
                && continuation b3
                && between 0x10000 (code_point4 b0 b1 b2 b3) 0x10FFFF) eqn:C4;
        [|exact Hone].
      rewrite !andb_true_iff in C4. destruct C4 as [[[[H0 H1] H2] H3] Hc].
      rewrite utf8_cons, IH by (simpl in Hlen; lia). now apply utf8_char_4. }
  now apply (Hgen (String.length s)).
Qed.

(** Stripping keeps a piece of the code points. *)
Lemma lstrip_suffix (cs : list N) : exists pre, cs = pre ++ lstrip cs.
Proof.
  induction cs as [|c cs IH]; [now exists []|]. cbn [lstrip].
  destruct (is_space c).
  - destruct IH as [pre Hpre]. exists (c :: pre). cbn [app]. now f_equal.
  - now exists [].
Qed.

Lemma rstrip_prefix (cs : list N) : exists post, cs = rstrip cs ++ post.
Proof.
  induction cs as [|c cs IH]; [now exists []|]. cbn [rstrip].
  destruct IH as [post Hpost]. destruct (rstrip cs) as [|d r].
  - destruct (is_space c); [now exists (c :: cs)|]. exists cs. reflexivity.
  - exists post. cbn [app] in *. now f_equal.
Qed.

End CodePoints.


(** ** Socket semantics *)

Section Classifier.

Import SocketSemantics Spec.

Lemma any_kw_in_two (a b s : string) :
  any_kw_in [a; b] s = str_in a s || str_in b s.
Proof. unfold any_kw_in. simpl. now rewrite orb_false_r. Qed.

Lemma get_socket_semantic_groups (name : string) :
  get_socket_semantic name = first_matching_group keyword_groups (lower name).
Proof.
  unfold get_socket_semantic, keyword_groups.
  cbn [first_matching_group]. unfold group_matches. cbn [fst snd].
  now rewrite !any_kw_in_two.
Qed.

Lemma first_matching_group_first (groups before after : list (list string * Semantic))
      (g : list string * Semantic) (s : string) :
  groups = before ++ g :: after ->
  group_matches s g = true ->
  Forall (fun g' => group_matches s g' = false) before ->
  first_matching_group groups s = snd g.
Proof.
  intros -> Hg Hb. induction Hb as [|g' before' Hg' _ IH]; simpl.
  - now rewrite Hg.
  - now rewrite Hg'.
Qed.

Lemma first_matching_group_none (groups : list (list string * Semantic)) (s : string) :
  Forall (fun g => group_matches s g = false) groups ->
  first_matching_group groups s = UNKNOWN.
Proof.
  induction 1 as [|g groups' Hg _ IH]; simpl; [reflexivity|]. now rewrite Hg.
Qed.

End Classifier.

(** C7. The classifier lower-cases the name and returns the category of the
    first keyword group that matches, in the order base color, NORMAL,
    ROUGHNESS, METALLIC, ALPHA, EMISSION, SPECULAR, SUBSURFACE, AO,
    DISPLACEMENT, generic color; UNKNOWN when no group matches.  'Base Color'
    is COLOR, and a name that matches an earlier group and 'color' gets the
    earlier group's category. *)
Theorem C7_classifier_first_matching_group :
  (forall name,
      SocketSemantics.get_socket_semantic name
      = Spec.first_matching_group Spec.keyword_groups (lower name))
  /\ (forall name before g after,
         Spec.keyword_groups = before ++ g :: after ->
         Spec.group_matches (lower name) g = true ->
         Forall (fun g' => Spec.group_matches (lower name) g' = false) before ->
         SocketSemantics.get_socket_semantic name = snd g)
  /\ (forall name,
         Forall (fun g => Spec.group_matches (lower name) g = false) Spec.keyword_groups ->
         SocketSemantics.get_socket_semantic name = UNKNOWN)
  /\ map snd Spec.keyword_groups
     = [COLOR; NORMAL; ROUGHNESS; METALLIC; ALPHA; EMISSION; SPECULAR; SUBSURFACE;
        AO; DISPLACEMENT; COLOR]
  /\ map fst (firstn 1 Spec.keyword_groups) = [["base color"; "basecolor"]]
  /\ map fst (skipn 10 Spec.keyword_groups) = [["color"; "颜色"]]
  /\ SocketSemantics.get_socket_semantic "Base Color" = COLOR
  /\ SocketSemantics.get_socket_semantic "Normal Color" = NORMAL
  /\ SocketSemantics.get_socket_semantic "Emission Color" = EMISSION
  /\ SocketSemantics.get_socket_semantic "Color" = COLOR
  /\ SocketSemantics.get_socket_semantic "Strength" = UNKNOWN.
Proof.
  split; [exact get_socket_semantic_groups|].
  split.
  { intros name before g after Hsplit Hg Hb. rewrite get_socket_semantic_groups.
    eapply first_matching_group_first; eauto. }
  split.
  { intros name Hall. rewrite get_socket_semantic_groups.
    now apply first_matching_group_none. }
  repeat split; vm_compute; reflexivity.
Qed.

Lemma C7_witness_normal_color :
  SocketSemantics.get_socket_semantic "Normal Color" = snd (SocketSemantics.NORMAL_KEYWORDS, NORMAL).
Proof.
  apply (proj1 (proj2 C7_classifier_first_matching_group)
               "Normal Color" [(["base color"; "basecolor"], COLOR)]
               (SocketSemantics.NORMAL_KEYWORDS, NORMAL)
               (skipn 2 Spec.keyword_groups)).
  - reflexivity.
  - vm_compute. reflexivity.
  - repeat constructor.
Defined.

(** C8. The semantic compatibility is 100 on identical semantics, the table
    value on the listed ordered pairs (COLOR to EMISSION 80, ROUGHNESS to
    SPECULAR 60, AO to ROUGHNESS 40, AO to SPECULAR 40) and 0 on every other
    ordered pair; it is not symmetric: COLOR to EMISSION is 80 and EMISSION to
    COLOR is 0.  It is a function of its two arguments and of nothing else. *)
Theorem C8_semantic_compatibility_table :
  (forall a, SocketSemantics.are_semantically_compatible a a = 100)
  /\ (forall a b v, In ((a, b), v) Spec.listed_pairs ->
                    SocketSemantics.are_semantically_compatible a b = v)
  /\ (forall a b, a <> b -> ~ In (a, b) (map fst Spec.listed_pairs) ->
                  SocketSemantics.are_semantically_compatible a b = 0)
  /\ SocketSemantics.are_semantically_compatible COLOR EMISSION = 80
  /\ SocketSemantics.are_semantically_compatible ROUGHNESS SPECULAR = 60
  /\ SocketSemantics.are_semantically_compatible AO ROUGHNESS = 40
  /\ SocketSemantics.are_semantically_compatible AO SPECULAR = 40
  /\ SocketSemantics.are_semantically_compatible EMISSION COLOR = 0.
Proof.
  split.
  { intros a. unfold SocketSemantics.are_semantically_compatible.
    now rewrite bool_decide_eq_true_2. }
  split.
  { intros a b v Hin. simpl in Hin.
    repeat (destruct Hin as [Hin|Hin]; [inversion Hin; subst; reflexivity|]).
    destruct Hin. }
  split.
  { intros a b Hne Hnl.
    destruct a, b; try reflexivity; try (exfalso; apply Hne; reflexivity);
      exfalso; apply Hnl; simpl; tauto. }
  repeat split.
Qed.

Lemma C8_witness_emission_to_color :
  SocketSemantics.are_semantically_compatible EMISSION COLOR = 0.
Proof.
  apply (proj1 (proj2 (proj2 C8_semantic_compatibility_table)) EMISSION COLOR).
  - discriminate.
  - simpl. intros H. repeat (destruct H as [H|H]; [discriminate H|]). exact H.
Defined.

(** ** Pass 1 of the auto-connection: shader to output *)

Section ShaderToOutput.

Import AutoConnectionRules Spec.

Lemma shader_output_of_none (outs : list Socket) :
  shader_output_of outs = None <-> outs = [].
Proof.
  unfold shader_output_of. split.
  - destruct (find_index _ outs); [discriminate|]. destruct outs; [reflexivity|discriminate].
  - now intros ->.
Qed.

Lemma connect_shaders_to_output_first (h : Host) (o : Node) (ss : list Node) (st : Conn) :
  connect_shaders_to_output h o ss st
  = match List.find has_output ss with
    | Some s =>
        match shader_output_of (node_outputs s), surface_input_of (node_inputs o) with
        | Some so, Some si => snd (try_link h (mk_link s so o si) st)
        | _, _ => st
        end
    | None => st
    end.
Proof.
  induction ss as [|s ss IH]; [reflexivity|].
  cbn [connect_shaders_to_output List.find].
  destruct (shader_output_of (node_outputs s)) as [so|] eqn:Hso.
  - assert (has_output s = true) as ->.
    { unfold has_output. destruct (node_outputs s); [discriminate|reflexivity]. }
    now rewrite Hso.
  - apply shader_output_of_none in Hso. unfold has_output at 1. now rewrite Hso.
Qed.

Lemma try_link_count (h : Host) (l : Link) (st : Conn) :
  c_count st <= c_count (snd (try_link h l st)) <= c_count st + 1.
Proof. unfold try_link. destruct (links_new h l (c_links st)); simpl; lia. Qed.

Lemma try_link_trace (h : Host) (l : Link) (st : Conn) :
  c_trace (snd (try_link h l st)) = c_trace st ++ [l].
Proof. unfold try_link. now destruct (links_new h l (c_links st)). Qed.

End ShaderToOutput.

(** C6 as stated fails: the host refuses the link of the first shader node,
    the loop stops all the same, no link is made, and the second shader node,
    whose link the host accepts, is never tried; and with an output node that
    has no input the pass tries nothing and no shader drives the output. *)
Lemma C6_stops_after_refused_link :
  AutoConnectionRules.pass_shader_to_output
    Scene.strict_host Scene.two_shaders (conn_start [])
  = {| c_links := []; c_count := 0; c_trace := [Scene.link 1 0 3 0] |}
  /\ host_accepts Scene.strict_host (Scene.link 2 0 3 0) = true
  /\ AutoConnectionRules.shader_nodes_of Scene.two_shaders = [Scene.diffuse; Scene.glossy]
  /\ AutoConnectionRules.pass_shader_to_output
       Scene.host Scene.two_shaders_bare (conn_start [])
     = {| c_links := []; c_count := 0; c_trace := [] |}.
Proof. repeat split. Qed.

(** C6, amended.  The shader-to-output pass stops at the first shader node
    that has an output socket, after one attempt to link its shader-flow
    output to the surface input of the output node, whether or not the link
    was made: it calls [links.new] at most once, makes at most one link, and
    touches no later shader node. *)
Theorem C6_shader_to_output_single_attempt (h : Host) (nodes : list Node) (st : Conn) :
  AutoConnectionRules.pass_shader_to_output h nodes st
  = match AutoConnectionRules.output_node_of nodes,
          List.find Spec.has_output (AutoConnectionRules.shader_nodes_of nodes) with
    | Some o, Some s =>
        match AutoConnectionRules.shader_output_of (node_outputs s),
              AutoConnectionRules.surface_input_of (node_inputs o) with
        | Some so, Some si => snd (try_link h (mk_link s so o si) st)
        | _, _ => st
        end
    | _, _ => st
    end
  /\ c_count st <= c_count (AutoConnectionRules.pass_shader_to_output h nodes st)
     <= c_count st + 1
  /\ exists tr,
      c_trace (AutoConnectionRules.pass_shader_to_output h nodes st) = c_trace st ++ tr
      /\ (length tr <= 1)%nat.
Proof.
  assert (Heq : AutoConnectionRules.pass_shader_to_output h nodes st
                = match AutoConnectionRules.output_node_of nodes,
                        List.find Spec.has_output (AutoConnectionRules.shader_nodes_of nodes) with
                  | Some o, Some s =>
                      match AutoConnectionRules.shader_output_of (node_outputs s),
                            AutoConnectionRules.surface_input_of (node_inputs o) with
                      | Some so, Some si => snd (try_link h (mk_link s so o si) st)
                      | _, _ => st
                      end
                  | _, _ => st
                  end).
  { unfold AutoConnectionRules.pass_shader_to_output.
    destruct (AutoConnectionRules.output_node_of nodes) as [o|]; [|reflexivity].
    apply connect_shaders_to_output_first. }
  split; [exact Heq|]. rewrite Heq.
  destruct (AutoConnectionRules.output_node_of nodes) as [o|];
    [|split; [lia | exists []; rewrite app_nil_r; auto]].
  destruct (List.find _ _) as [s|];
    [|split; [lia | exists []; rewrite app_nil_r; auto]].
  destruct (AutoConnectionRules.shader_output_of _) as [so|];
    [|split; [lia | exists []; rewrite app_nil_r; auto]].
  destruct (AutoConnectionRules.surface_input_of _) as [si|];
    [|split; [lia | exists []; rewrite app_nil_r; auto]].
  split; [apply try_link_count|].
  exists [mk_link s so o si]. split; [apply try_link_trace | simpl; lia].
Qed.

(** ** Pass 2 of the auto-connection: texture to shader *)

Section TaggedFold.

(** A loop whose every round appends to a trace only links tagged with the
    key of the round's element: over elements of distinct keys, the links of
    one tag in the whole trace are the links of one round. *)

Context {S X : Type}.
Variables (step : S -> X -> S) (trace : S -> list Link).
Variables (key : X -> nat) (tag : Link -> nat).
Variables (I : Link -> Prop) (Q : X -> list Link -> Prop).

Hypothesis step_trace :
  forall s x, exists tr,
      trace (step s x) = trace s ++ tr
      /\ Forall (fun l => tag l = key x /\ I l) tr
      /\ Q x tr.

Lemma tagged_all (k : nat) (tr : list Link) :
  Forall (fun l => tag l = k) tr -> Spec.tagged tag k tr = tr.
Proof.
  induction 1 as [|l tr Hl _ IH]; [reflexivity|].
  unfold Spec.tagged in *. simpl. rewrite Hl, Nat.eqb_refl. now f_equal.
Qed.

Lemma tagged_none (k : nat) (tr : list Link) :
  Forall (fun l => tag l <> k) tr -> Spec.tagged tag k tr = [].
Proof.
  induction 1 as [|l tr Hl _ IH]; [reflexivity|].
  unfold Spec.tagged in *. simpl. apply Nat.eqb_neq in Hl. now rewrite Hl.
Qed.

Lemma fold_tagged (xs : list X) (s : S) :
  List.NoDup (map key xs) ->
  exists tr,
    trace (fold_left step xs s) = trace s ++ tr
    /\ Forall (fun l => (exists x, In x xs /\ tag l = key x) /\ I l) tr
    /\ forall x, In x xs -> Q x (Spec.tagged tag (key x) tr).
Proof.
  revert s. induction xs as [|x xs IH]; intros s Hnd.
  - exists []. simpl. rewrite app_nil_r. repeat split; [constructor | intros ? []].
  - simpl in Hnd. apply List.NoDup_cons_iff in Hnd. destruct Hnd as [Hx Hnd].
    destruct (step_trace s x) as (tr1 & Ht1 & Hf1 & Hq1).
    destruct (IH (step s x) Hnd) as (tr2 & Ht2 & Hf2 & Hq2).
    exists (tr1 ++ tr2). simpl. rewrite Ht2, Ht1, app_assoc. split; [reflexivity|].
    split.
    + apply List.Forall_app. split.
      * eapply List.Forall_impl; [|exact Hf1]. simpl. intros l [Hl Hi].
        split; [exists x; auto | assumption].
      * eapply List.Forall_impl; [|exact Hf2]. simpl. intros l [(y & Hy & Hl) Hi].
        split; [exists y; auto | assumption].
    + intros y [<- | Hy].
      * unfold Spec.tagged. rewrite List.filter_app. fold (Spec.tagged tag (key x) tr1).
        fold (Spec.tagged tag (key x) tr2).
        rewrite tagged_all, (tagged_none _ tr2), app_nil_r; [assumption| |].
        -- eapply List.Forall_impl; [|exact Hf2]. simpl. intros l [(z & Hz & Hl) _] Heq.
           apply Hx. rewrite <- Heq, Hl. now apply in_map.
        -- eapply List.Forall_impl; [|exact Hf1]. simpl. tauto.
      * unfold Spec.tagged. rewrite List.filter_app. fold (Spec.tagged tag (key y) tr1).
        fold (Spec.tagged tag (key y) tr2).
        rewrite (tagged_none _ tr1); [now apply Hq2|].
        eapply List.Forall_impl; [|exact Hf1]. simpl. intros l [Hl _] Heq.
        apply Hx. rewrite <- Hl, Heq. now apply in_map.
Qed.

End TaggedFold.

Section TextureToShader.

Import AutoConnectionRules Spec.

Lemma link_input_trace (h : Host) (l : Link) (cs : list nat * Conn) :
  c_trace (snd (snd (link_input h l cs))) = c_trace (snd cs) ++ [l].
Proof.
  unfold link_input, try_link. now destruct (links_new h l (c_links (snd cs))).
Qed.

Lemma connect_image_texture_trace (h : Host) (s t : Node) (ha : bool) (cs : list nat * Conn) :
  exists tr,
    c_trace (snd (connect_image_texture h s t ha cs)) = c_trace (snd cs) ++ tr
    /\ Forall (fun l => from_node l = node_id t /\ to_node l = node_id s) tr
    /\ gated ha tr.
Proof.
  unfold connect_image_texture.
  set (cs1 := if (0 <? length (node_outputs t))%nat then _ else cs).
  assert (exists tr1, c_trace (snd cs1) = c_trace (snd cs) ++ tr1
                      /\ Forall (fun l => from_node l = node_id t /\ to_node l = node_id s
                                          /\ from_socket l = 0%nat) tr1
                      /\ (length tr1 <= 1)%nat) as (tr1 & Ht1 & Hf1 & Hl1).
  { subst cs1. destruct (0 <? length (node_outputs t))%nat;
      [|exists []; rewrite app_nil_r; repeat split; [constructor | simpl; lia]].
    destruct (color_target _ _ _) as [ti|];
      [|exists []; rewrite app_nil_r; repeat split; [constructor | simpl; lia]].
    exists [mk_link t 0 s ti]. rewrite link_input_trace.
    repeat split; [repeat constructor | simpl; lia]. }
  assert (Hft : Forall (fun l => from_node l = node_id t /\ to_node l = node_id s) tr1)
    by (eapply List.Forall_impl; [|exact Hf1]; simpl; tauto).
  assert (Hfs : Forall (fun l => from_socket l = 0%nat
                                 \/ (from_socket l = 1%nat /\ ha = true)) tr1)
    by (eapply List.Forall_impl; [|exact Hf1]; simpl; tauto).
  destruct (ha && (1 <? length (node_outputs t))%nat) eqn:Hgate.
  - apply andb_true_iff in Hgate. destruct Hgate as [-> _].
    destruct (alpha_target _ _) as [ai|].
    + exists (tr1 ++ [mk_link t 1 s ai]). rewrite link_input_trace, Ht1, app_assoc.
      split; [reflexivity|]. split; [|split].
      * apply List.Forall_app. split; [exact Hft|]. constructor; [|constructor].
        split; reflexivity.
      * apply List.Forall_app. split; [exact Hfs|]. constructor; [|constructor].
        right. split; reflexivity.
      * intros [=].
    + exists tr1. split; [assumption|]. split; [exact Hft|].
      split; [exact Hfs | intros [=]].
  - exists tr1. split; [assumption|]. split; [exact Hft|].
    split; [exact Hfs | intros _; exact Hl1].
Qed.

Lemma connect_other_texture_trace (h : Host) (s t : Node) (cs : list nat * Conn) :
  exists tr,
    c_trace (snd (connect_other_texture h s t cs)) = c_trace (snd cs) ++ tr
    /\ Forall (fun l => from_node l = node_id t /\ to_node l = node_id s) tr.
Proof.
  unfold connect_other_texture.
  destruct (color_output_of _) as [co|];
    [|exists []; rewrite app_nil_r; split; [reflexivity | constructor]].
  destruct (best_input _ _ _) as [[bi|] sc];
    [|exists []; rewrite app_nil_r; split; [reflexivity | constructor]].
  destruct (50 <=? sc);
    [|exists []; rewrite app_nil_r; split; [reflexivity | constructor]].
  exists [mk_link t co s bi]. rewrite link_input_trace. split; [reflexivity|].
  repeat constructor.
Qed.

Lemma connect_texture_trace (h : Host) (s : Node) (ha : bool)
      (cs : list nat * Conn) (t : Node) :
  exists tr,
    c_trace (snd (connect_texture h s ha cs t)) = c_trace (snd cs) ++ tr
    /\ Forall (fun l => from_node l = node_id t /\ to_node l = node_id s) tr
    /\ (node_type t = "TEX_IMAGE" -> gated ha tr).
Proof.
  unfold connect_texture. destruct (node_outputs t) eqn:Ho.
  - exists []. rewrite app_nil_r. split; [reflexivity|]. split; [constructor|].
    intros _. split; [constructor | simpl; lia].
  - destruct (String.eqb_spec (node_type t) "TEX_IMAGE") as [Hty|Hty].
    + destruct (connect_image_texture_trace h s t ha cs) as (tr & Ht & Hf & Hg).
      exists tr. auto.
    + destruct (connect_other_texture_trace h s t cs) as (tr & Ht & Hf).
      exists tr. repeat split; [assumption..|contradiction|contradiction].
Qed.

(** All textures against one shader node. *)
Lemma connect_textures_to_shader_trace (h : Host) (texs : list Node) :
  List.NoDup (map node_id texs) ->
  forall (st : Conn) (s : Node),
  exists tr,
    c_trace (connect_textures_to_shader h texs st s) = c_trace st ++ tr
    /\ Forall (fun l => to_node l = node_id s /\ True) tr
    /\ forall t, In t texs -> node_type t = "TEX_IMAGE" ->
                 gated (has_alpha_input s) (tagged from_node (node_id t) tr).
Proof.
  intros Hnd st s. unfold connect_textures_to_shader.
  destruct (fold_tagged
              (connect_texture h s (has_alpha_input s)) (fun cs => c_trace (snd cs))
              node_id from_node (fun l => to_node l = node_id s)
              (fun t tr => node_type t = "TEX_IMAGE" -> gated (has_alpha_input s) tr)
              (fun cs t => connect_texture_trace h s (has_alpha_input s) cs t)
              texs ([], st) Hnd) as (tr & Ht & Hf & Hq).
  exists tr. split; [exact Ht|]. split; [|exact Hq].
  eapply List.Forall_impl; [|exact Hf]. simpl. tauto.
Qed.

Lemma NoDup_map_filter {A B} (f : A -> B) (p : A -> bool) (xs : list A) :
  List.NoDup (map f xs) -> List.NoDup (map f (List.filter p xs)).
Proof.
  induction xs as [|x xs IH]; simpl; [auto|]. intros Hnd.
  apply List.NoDup_cons_iff in Hnd. destruct Hnd as [Hx Hnd].
  destruct (p x); [|auto]. simpl. constructor; [|auto].
  intros Hin. apply Hx. apply in_map_iff in Hin. destruct Hin as (y & <- & Hy).
  apply filter_In in Hy. apply in_map. tauto.
Qed.

Lemma NoDup_ids_eq (nodes : list Node) (a b : Node) :
  List.NoDup (map node_id nodes) -> In a nodes -> In b nodes ->
  node_id a = node_id b -> a = b.
Proof.
  induction nodes as [|n nodes IH]; simpl; [tauto|]. intros Hnd Ha Hb Heq.
  apply List.NoDup_cons_iff in Hnd. destruct Hnd as [Hn Hnd].
  destruct Ha as [<- | Ha], Hb as [<- | Hb]; auto.
  - exfalso. apply Hn. rewrite Heq. now apply in_map.
  - exfalso. apply Hn. rewrite <- Heq. now apply in_map.
Qed.

Lemma filter_filter_and {A} (p q : A -> bool) (xs : list A) :
  List.filter p (List.filter q xs) = List.filter (fun x => p x && q x) xs.
Proof.
  induction xs as [|x xs IH]; simpl; [reflexivity|].
  destruct (q x); simpl; destruct (p x); simpl; now rewrite ?IH.
Qed.

End TextureToShader.

(** C5. In the texture-to-shader pass the links tried from an image texture
    to a shader node leave the texture's first (color) output, or its second
    (alpha) output only when the shader has an input classified ALPHA; when
    the shader has no such input, at most one link is tried from the texture
    to it, so at most one is made and the alpha output is never tried. *)
Theorem C5_alpha_gate (h : Host) (nodes : list Node) (st : Conn) (shader tex : Node) :
  List.NoDup (map node_id nodes) ->
  In shader nodes ->
  In tex nodes ->
  node_type tex = "TEX_IMAGE" ->
  exists tr,
    c_trace (AutoConnectionRules.pass_texture_to_shader h nodes st) = c_trace st ++ tr
    /\ let tried :=
         List.filter (fun l => Nat.eqb (from_node l) (node_id tex)
                               && Nat.eqb (to_node l) (node_id shader)) tr in
       Forall (fun l => from_socket l = 0%nat
                        \/ (from_socket l = 1%nat
                            /\ AutoConnectionRules.has_alpha_input shader = true)) tried
       /\ (AutoConnectionRules.has_alpha_input shader = false ->
           (length tried <= 1)%nat
           /\ Forall (fun l => from_socket l = 0%nat) tried).
Proof.
  intros Hnd Hs Ht Hty. unfold AutoConnectionRules.pass_texture_to_shader.
  set (texs := AutoConnectionRules.texture_nodes_of nodes).
  set (shaders := AutoConnectionRules.shader_nodes_of nodes).
  assert (Hndt : List.NoDup (map node_id texs)) by (now apply NoDup_map_filter).
  assert (Hnds : List.NoDup (map node_id shaders)) by (now apply NoDup_map_filter).
  assert (Hint : In tex texs).
  { apply filter_In. split; [assumption|].
    unfold NodeTypeConfig.is_texture_node. now rewrite Hty. }
  destruct (fold_tagged
              (AutoConnectionRules.connect_textures_to_shader h texs) c_trace
              node_id to_node (fun _ => True)
              (fun s tr => forall t, In t texs -> node_type t = "TEX_IMAGE" ->
                                     Spec.gated (AutoConnectionRules.has_alpha_input s)
                                           (Spec.tagged from_node (node_id t) tr))
              (connect_textures_to_shader_trace h texs Hndt)
              shaders st Hnds) as (tr & Htr & Hf & Hq).
  exists tr. split; [exact Htr|]. cbv zeta.
  assert (Hm : List.filter (fun l => Nat.eqb (from_node l) (node_id tex)
                                     && Nat.eqb (to_node l) (node_id shader)) tr
               = Spec.tagged from_node (node_id tex) (Spec.tagged to_node (node_id shader) tr)).
  { unfold Spec.tagged. now rewrite filter_filter_and. }
  rewrite Hm.
  assert (Hg : Spec.gated (AutoConnectionRules.has_alpha_input shader)
                     (Spec.tagged from_node (node_id tex) (Spec.tagged to_node (node_id shader) tr))).
  { destruct (in_dec (fun a b => decide (a = b)) (node_id shader) (map node_id shaders))
      as [Hin | Hnin].
    - apply in_map_iff in Hin. destruct Hin as (s & Heq & Hin).
      assert (s = shader) as ->.
      { apply (NoDup_ids_eq nodes); auto. apply filter_In in Hin. tauto. }
      now apply Hq.
    - rewrite (tagged_none to_node (node_id shader) tr).
      + split; [constructor | simpl; lia].
      + eapply List.Forall_impl; [|exact Hf]. simpl. intros l [(s & Hin & Hl) _] Heq.
        apply Hnin. rewrite <- Heq, Hl. now apply in_map. }
  destruct Hg as [Hg1 Hg2]. split; [exact Hg1|].
  intros Hna. split; [now apply Hg2|].
  eapply List.Forall_impl; [|exact Hg1]. simpl. intros l [H0 | [_ H1]]; [assumption|congruence].
Qed.

Lemma C5_witness_diffuse_image :
  exists tr,
    c_trace (AutoConnectionRules.pass_texture_to_shader
               Scene.host [Scene.diffuse; Scene.image; Scene.output] (conn_start []))
    = c_trace (conn_start []) ++ tr
    /\ let tried :=
         List.filter (fun l => Nat.eqb (from_node l) (node_id Scene.image)
                               && Nat.eqb (to_node l) (node_id Scene.diffuse)) tr in
       Forall (fun l => from_socket l = 0%nat
                        \/ (from_socket l = 1%nat
                            /\ AutoConnectionRules.has_alpha_input Scene.diffuse = true)) tried
       /\ (AutoConnectionRules.has_alpha_input Scene.diffuse = false ->
           (length tried <= 1)%nat
           /\ Forall (fun l => from_socket l = 0%nat) tried).
Proof.
  apply (C5_alpha_gate Scene.host [Scene.diffuse; Scene.image; Scene.output]
                       (conn_start []) Scene.diffuse Scene.image).
  - repeat (constructor; [simpl; intuition discriminate|]). constructor.
  - simpl. tauto.
  - simpl. tauto.
  - reflexivity.
Defined.

(** ** The best input of a replacement node *)

Section BestInput.

Import MATERIAL_OT_batch_replace_shader.

Lemma insert_desc_not_nil {A} (key : A -> Z) (x : A) (xs : list A) :
  insert_desc key x xs <> [].
Proof. destruct xs as [|y ys]; simpl; [discriminate|]. now destruct (key y <=? key x). Qed.

Lemma sort_desc_nil {A} (key : A -> Z) (xs : list A) :
  sort_desc key xs = [] -> xs = [].
Proof.
  destruct xs as [|x xs]; [reflexivity|]. simpl. intros H.
  now apply insert_desc_not_nil in H.
Qed.

(** The head of the sorted list is the first element of greatest key. *)
Lemma sort_desc_head {A} (key : A -> Z) (xs : list A) (y : A) (rest : list A) :
  sort_desc key xs = y :: rest ->
  exists pre post,
    xs = pre ++ y :: post
    /\ Forall (fun x => key x < key y) pre
    /\ Forall (fun x => key x <= key y) post.
Proof.
  revert y rest. induction xs as [|x xs IH]; intros y rest; [discriminate|].
  simpl. destruct (sort_desc key xs) as [|y' r'] eqn:Hs.
  - apply sort_desc_nil in Hs. subst xs. simpl. intros [= <- <-].
    exists [], []. repeat split; constructor.
  - destruct (IH y' r' eq_refl) as (pre & post & -> & Hpre & Hpost).
    simpl. destruct (key y' <=? key x) eqn:Hle.
    + apply Z.leb_le in Hle. intros [= <- <-].
      exists [], (pre ++ y' :: post). repeat split; [constructor|].
      apply List.Forall_app. split.
      * eapply List.Forall_impl; [|exact Hpre]. simpl. intros; lia.
      * constructor; [lia|]. eapply List.Forall_impl; [|exact Hpost]. simpl. intros; lia.
    + apply Z.leb_gt in Hle. intros [= <- _].
      exists (x :: pre), post. repeat split; [constructor; assumption | assumption].
Qed.

Lemma nat_mem_In (i : nat) (s : list nat) : nat_mem i s = true <-> In i s.
Proof.
  unfold nat_mem. rewrite existsb_exists. split.
  - intros (j & Hj & Heq). apply Nat.eqb_eq in Heq. now subst.
  - intros H. exists i. split; [assumption | apply Nat.eqb_refl].
Qed.

Lemma In_enumerate_from {A} (k : nat) (xs : list A) (i : nat) (x : A) :
  In (i, x) (combine (seq k (length xs)) xs) <-> (k <= i)%nat /\ xs !! (i - k)%nat = Some x.
Proof.
  revert k. induction xs as [|y ys IH]; intros k; simpl.
  - split; [tauto | intros [_ H]; discriminate].
  - rewrite IH. split.
    + intros [[= <- <-] | [Hle Hl]].
      * split; [lia|]. now rewrite Nat.sub_diag.
      * split; [lia|]. replace (i - k)%nat with (S (i - S k)) by lia. exact Hl.
    + intros [Hle Hl]. destruct (i - k)%nat as [|n] eqn:Hn.
      * left. simpl in Hl. injection Hl as <-. f_equal. lia.
      * right. split; [lia|]. simpl in Hl. replace (i - S k)%nat with n by lia. exact Hl.
Qed.

Lemma In_enumerate {A} (xs : list A) (i : nat) (x : A) :
  In (i, x) (enumerate xs) <-> xs !! i = Some x.
Proof.
  unfold enumerate. rewrite In_enumerate_from, Nat.sub_0_r. split; [tauto|]. split; [lia|auto].
Qed.

(** Positions grow along [enumerate]. *)
Lemma enumerate_from_split {A} (k : nat) (xs : list A) pre (a : nat * A) post :
  combine (seq k (length xs)) xs = pre ++ a :: post ->
  Forall (fun b => (fst b < fst a)%nat) pre /\ Forall (fun b => (fst a < fst b)%nat) post.
Proof.
  revert k pre. induction xs as [|y ys IH]; intros k pre; simpl.
  - destruct pre; discriminate.
  - destruct pre as [|b pre]; simpl.
    + intros [= <- <-]. split; [constructor|].
      apply List.Forall_forall. intros [j z] Hin. apply In_enumerate_from in Hin. simpl. lia.
    + intros [= <- Hrest]. destruct (IH _ _ Hrest) as [Hpre Hpost]. split; [|assumption].
      constructor; [|assumption]. simpl.
      assert (In a (combine (seq (S k) (length ys)) ys)) as Hin
          by (rewrite Hrest; apply in_elt).
      destruct a as [j z]. apply In_enumerate_from in Hin. simpl. lia.
Qed.

Lemma filter_split {A} (p : A -> bool) (xs pre : list A) (a : A) (post : list A) :
  List.filter p xs = pre ++ a :: post ->
  exists pre' post',
    xs = pre' ++ a :: post' /\ pre = List.filter p pre' /\ post = List.filter p post'
    /\ p a = true.
Proof.
  revert pre. induction xs as [|x xs IH]; intros pre; simpl.
  - destruct pre; discriminate.
  - destruct (p x) eqn:Hp.
    + destruct pre as [|b pre]; simpl.
      * intros [= <- <-]. exists [], xs. auto.
      * intros [= <- Hrest]. destruct (IH _ Hrest) as (pre' & post' & -> & -> & -> & Hpa).
        exists (x :: pre'), post'. simpl. rewrite Hp. auto.
    + intros Hrest. destruct (IH _ Hrest) as (pre' & post' & -> & -> & -> & Hpa).
      exists (x :: pre'), post'. simpl. rewrite Hp. auto.
Qed.

Lemma map_split {A B} (f : A -> B) (xs : list A) (pre : list B) (b : B) (post : list B) :
  map f xs = pre ++ b :: post ->
  exists pre' a post',
    xs = pre' ++ a :: post' /\ pre = map f pre' /\ b = f a /\ post = map f post'.
Proof.
  revert pre. induction xs as [|x xs IH]; intros pre; simpl.
  - destruct pre; discriminate.
  - destruct pre as [|c pre]; simpl.
    + intros [= <- <-]. exists [], x, xs. auto.
    + intros [= <- Hrest]. destruct (IH _ Hrest) as (pre' & a & post' & -> & -> & -> & ->).
      exists (x :: pre'), a, post'. auto.
Qed.

Lemma In_candidates (shader_node : Node) (name type : string) (connected : list nat)
      (i : nat) (sc : Z) :
  In (i, sc) (candidates shader_node name type connected) <->
  exists inp, node_inputs shader_node !! i = Some inp
              /\ nat_mem i connected = false
              /\ sc = input_score name type i inp.
Proof.
  unfold candidates. rewrite in_map_iff. split.
  - intros ([j inp] & [= <- <-] & Hin). apply filter_In in Hin. destruct Hin as [Hin Hc].
    apply In_enumerate in Hin. simpl in *. exists inp. repeat split; [assumption|].
    now apply negb_true_iff.
  - intros (inp & Hl & Hc & ->). exists (i, inp). split; [reflexivity|].
    apply filter_In. split; [now apply In_enumerate|]. simpl. now rewrite Hc.
Qed.

Lemma candidates_split (shader_node : Node) (name type : string) (connected : list nat)
      pre (i : nat) (sc : Z) post :
  candidates shader_node name type connected = pre ++ (i, sc) :: post ->
  forall j s, In (j, s) (candidates shader_node name type connected) ->
              (j < i)%nat -> In (j, s) pre.
Proof.
  unfold candidates. intros Hsplit j s Hin Hlt.
  destruct (map_split _ _ _ _ _ Hsplit) as (pre1 & [i' inp] & post1 & Hf & -> & [= <- ->] & ->).
  destruct (filter_split _ _ _ _ _ Hf) as (pre2 & post2 & He & -> & -> & _).
  destruct (enumerate_from_split _ _ _ _ _ He) as [_ Hpost].
  rewrite Hsplit in Hin. apply in_app_or in Hin. destruct Hin as [Hin | [Heq | Hin]].
  - exact Hin.
  - injection Heq as <- _. lia.
  - exfalso. apply in_map_iff in Hin. destruct Hin as ([j' inp'] & [= <- <-] & Hin).
    apply filter_In in Hin. destruct Hin as [Hin _].
    rewrite List.Forall_forall in Hpost. specialize (Hpost _ Hin). simpl in Hpost. lia.
Qed.

(** What [_find_best_input_socket] returns: the unconnected input of
    greatest score, the lowest-numbered one among equals, if that score
    reaches 300 tenths. *)
Lemma find_best_input_some (shader_node : Node) (name type : string)
      (connected : list nat) (i : nat) :
  _find_best_input_socket shader_node name type connected = Some i ->
  exists inp,
    node_inputs shader_node !! i = Some inp
    /\ nat_mem i connected = false
    /\ 300 <= input_score name type i inp
    /\ forall j inp', node_inputs shader_node !! j = Some inp' ->
                      nat_mem j connected = false ->
                      input_score name type j inp' <= input_score name type i inp
                      /\ ((j < i)%nat ->
                          input_score name type j inp' < input_score name type i inp).
Proof.
  unfold _find_best_input_socket.
  destruct (sort_desc snd (candidates shader_node name type connected))
    as [|[b sc] rest] eqn:Hs; [discriminate|].
  destruct (300 <=? sc) eqn:Hth; [|discriminate]. intros [= ->].
  apply Z.leb_le in Hth.
  destruct (sort_desc_head _ _ _ _ Hs) as (pre & post & Hsplit & Hpre & Hpost).
  assert (In (i, sc) (candidates shader_node name type connected)) as Hin
      by (rewrite Hsplit; apply in_elt).
  apply In_candidates in Hin. destruct Hin as (inp & Hl & Hc & ->).
  exists inp. repeat split; try assumption.
  - assert (In (j, input_score name type j inp')
               (candidates shader_node name type connected)) as Hj
        by (apply In_candidates; eauto).
    rewrite Hsplit in Hj. apply in_app_or in Hj. destruct Hj as [Hj | [Hj | Hj]].
    + rewrite List.Forall_forall in Hpre. specialize (Hpre _ Hj). simpl in Hpre. lia.
    + injection Hj as _ <-. lia.
    + rewrite List.Forall_forall in Hpost. specialize (Hpost _ Hj). simpl in Hpost. lia.
  - intros Hlt.
    assert (In (j, input_score name type j inp')
               (candidates shader_node name type connected)) as Hj
        by (apply In_candidates; eauto).
    apply (candidates_split _ _ _ _ _ _ _ _ Hsplit) in Hj; [|assumption].
    rewrite List.Forall_forall in Hpre. specialize (Hpre _ Hj). simpl in Hpre. lia.
Qed.

Lemma find_best_input_none (shader_node : Node) (name type : string)
      (connected : list nat) :
  _find_best_input_socket shader_node name type connected = None ->
  forall j inp', node_inputs shader_node !! j = Some inp' ->
                 nat_mem j connected = false ->
                 input_score name type j inp' < 300.
Proof.
  unfold _find_best_input_socket. intros Hnone j inp' Hl Hc.
  assert (In (j, input_score name type j inp')
             (candidates shader_node name type connected)) as Hj
      by (apply In_candidates; eauto).
  destruct (sort_desc snd (candidates shader_node name type connected))
    as [|[b sc] rest] eqn:Hs.
  - apply sort_desc_nil in Hs. rewrite Hs in Hj. destruct Hj.
  - destruct (300 <=? sc) eqn:Hth; [discriminate|]. apply Z.leb_gt in Hth.
    destruct (sort_desc_head _ _ _ _ Hs) as (pre & post & Hsplit & Hpre & Hpost).
    rewrite Hsplit in Hj. apply in_app_or in Hj. destruct Hj as [Hj | [Hj | Hj]].
    + rewrite List.Forall_forall in Hpre. specialize (Hpre _ Hj). simpl in Hpre. lia.
    + injection Hj as _ <-. lia.
    + rewrite List.Forall_forall in Hpost. specialize (Hpost _ Hj). simpl in Hpost. lia.
Qed.

Lemma type_score_kinds (a b : string) :
  _get_type_compatibility_score a b = Spec.kind_score a b.
Proof.
  unfold _get_type_compatibility_score, Spec.kind_score, dict_get, type_compatibility.
  destruct (String.eqb_spec a b) as [->|Hne].
  - now rewrite bool_decide_eq_true_2.
  - rewrite (bool_decide_eq_false_2 _ Hne). cbn [List.find fst snd].
    repeat case_bool_decide; simplify_eq; try reflexivity;
      repeat match goal with
             | H : _ ∈ _ |- _ => apply list_elem_of_In in H; simpl in H
             | H : ¬ (_ ∈ _) |- _ => rewrite list_elem_of_In in H; simpl in H
             end; try (exfalso; intuition congruence).
Qed.

End BestInput.

Section InputLoop.

Import MATERIAL_OT_batch_replace_shader.

(** One captured incoming link: nothing is tried, or the best input is
    tried and joins [connected_inputs] exactly when the host takes the link. *)
Lemma reconnect_input_step (h : Host) (nodes : list Node) (new_shader : Node)
      (socket_name : string) (cs : list nat * Conn) (conn : InputLink) :
  reconnect_input h nodes new_shader socket_name cs conn = cs
  \/ exists source_node source_socket target_socket,
      _find_best_input_socket new_shader socket_name (il_to_socket_type conn) (fst cs)
      = Some target_socket
      /\ let l := mk_link source_node source_socket new_shader target_socket in
         c_trace (snd (reconnect_input h nodes new_shader socket_name cs conn))
         = c_trace (snd cs) ++ [l]
         /\ fst (reconnect_input h nodes new_shader socket_name cs conn)
            = if host_accepts h l then target_socket :: fst cs else fst cs.
Proof.
  unfold reconnect_input.
  destruct (nodes_get nodes (il_from_node conn)) as [source_node|]; [|now left].
  destruct (resolve_socket _ _ _) as [source_socket|]; [|now left].
  destruct (_find_best_input_socket _ _ _ _) as [target_socket|] eqn:Hb; [|now left].
  right. exists source_node, source_socket, target_socket. split; [reflexivity|].
  unfold error_handler.safe_link, try_link, links_new.
  destruct (host_accepts h _); simpl; auto.
Qed.

Lemma reconnect_input_nodup (h : Host) (nodes : list Node) (new_shader : Node)
      (socket_name : string) (cs : list nat * Conn) (conn : InputLink) :
  List.NoDup (fst cs) ->
  List.NoDup (fst (reconnect_input h nodes new_shader socket_name cs conn)).
Proof.
  intros Hnd.
  destruct (reconnect_input_step h nodes new_shader socket_name cs conn)
    as [-> | (sn & ss & ts & Hb & _ & ->)]; [assumption|].
  destruct (host_accepts h _); [|assumption].
  constructor; [|assumption].
  apply find_best_input_some in Hb. destruct Hb as (inp & _ & Hc & _).
  intros Hin. apply nat_mem_In in Hin. congruence.
Qed.

Lemma reconnect_inputs_all_nodup (h : Host) (nodes : list Node) (new_shader : Node)
      (input_links : list (string * list InputLink)) (st : Conn) :
  List.NoDup (fst (reconnect_inputs_all h nodes new_shader input_links st)).
Proof.
  unfold reconnect_inputs_all.
  assert (Hgen : forall cs, List.NoDup (fst cs) ->
            List.NoDup
              (fst (fold_left
                      (fun cs item =>
                         fold_left (reconnect_input h nodes new_shader (fst item))
                                   (snd item) cs)
                      input_links cs))).
  { induction input_links as [|[name conns] rest IH]; intros cs Hnd; [assumption|].
    simpl. apply IH. revert cs Hnd.
    induction conns as [|c conns IHc]; intros cs Hnd; [assumption|].
    simpl. apply IHc. now apply reconnect_input_nodup. }
  apply Hgen. constructor.
Qed.

Lemma name_score_cases (a b : string) :
  (a = b -> name_score a b = 100)
  /\ (a <> b -> lower a = lower b -> name_score a b = 90)
  /\ (a <> b -> lower a <> lower b ->
      str_in (lower b) (lower a) = true \/ str_in (lower a) (lower b) = true ->
      name_score a b = 50)
  /\ (a <> b -> lower a <> lower b ->
      str_in (lower b) (lower a) = false -> str_in (lower a) (lower b) = false ->
      name_score a b = 0).
Proof.
  unfold name_score.
  destruct (String.eqb_spec a b) as [Hab|Hab];
    destruct (String.eqb_spec (lower a) (lower b)) as [Hl|Hl];
    repeat split; intros; try congruence.
  - destruct H1 as [-> | ->]; [reflexivity | now rewrite orb_true_r].
  - now rewrite H1, H2.
Qed.

End InputLoop.

(** ** Validation of the batch replace operator *)

Section Validation.

Import MATERIAL_OT_batch_replace_shader.

Lemma chosen_shader_unset (builtin : string) :
  builtin = "" \/ builtin = "NONE" -> chosen_shader builtin None = "".
Proof. intros [-> | ->]; reflexivity. Qed.

Lemma target_material_of_unset (w : World) :
  target_material (props w) = None -> target_material_of w = None.
Proof. unfold target_material_of. now intros ->. Qed.

End Validation.

(** C9. When the destination shader is unresolved (no built-in and no node
    group chosen, or the chosen name is neither a shader node group nor a
    valid built-in type), or SPECIFIC mode has no node to replace chosen, or
    MATERIAL or MATERIAL_SPECIFIC mode has no target material, the operator
    reports an error and returns CANCELLED with the materials, the material
    cache and the settings (the snapshot with them) as they were. *)
Theorem C9_validation_error_before_mutation (h : Host) (ctx : Context) (w : World) :
  let p := props w in
  let target := MATERIAL_OT_batch_replace_shader.chosen_shader
                  (builtin_shader p) (shader_nodegroup p) in
  ((builtin_shader p = "" \/ builtin_shader p = "NONE") /\ shader_nodegroup p = None)
  \/ (MATERIAL_OT_batch_replace_shader.node_group_exists h target = false
      /\ NodeTypeConfig.is_valid_builtin_shader target = false)
  \/ (replace_mode p = SPECIFIC
      /\ (specific_builtin_shader p = "" \/ specific_builtin_shader p = "NONE")
      /\ specific_nodegroup p = None)
  \/ ((replace_mode p = MATERIAL \/ replace_mode p = MATERIAL_SPECIFIC)
      /\ target_material p = None) ->
  exists msg,
    MATERIAL_OT_batch_replace_shader.execute h ctx w = (CANCELLED, [(ERROR, msg)], w).
Proof.
  intros p target Hcase. unfold MATERIAL_OT_batch_replace_shader.execute.
  fold p. fold target.
  destruct (nonempty target) eqn:Hne; cbn [negb]; [|eauto].
  destruct (negb (MATERIAL_OT_batch_replace_shader.node_group_exists h target)
            && negb (NodeTypeConfig.is_valid_builtin_shader target)) eqn:Hex; [eauto|].
  destruct Hcase as [[Hb Hg] | [[Hg Hv] | [[Hm [Hb Hg]] | [Hm Ht]]]].
  - exfalso. subst target. rewrite Hg, (chosen_shader_unset _ Hb) in Hne. discriminate.
  - rewrite Hg, Hv in Hex. discriminate.
  - rewrite Hm, Hg, (chosen_shader_unset _ Hb). cbn. eauto.
  - apply target_material_of_unset in Ht.
    destruct Hm as [Hm | Hm]; rewrite Hm; cbn; rewrite Ht; eauto.
Qed.

Lemma C9_witness_no_destination :
  exists msg,
    MATERIAL_OT_batch_replace_shader.execute
      Scene.host Scene.context (Scene.world Scene.emission_tree (Scene.settings ALL "NONE" true))
    = (CANCELLED, [(ERROR, msg)],
       Scene.world Scene.emission_tree (Scene.settings ALL "NONE" true)).
Proof.
  apply (C9_validation_error_before_mutation
           Scene.host Scene.context
           (Scene.world Scene.emission_tree (Scene.settings ALL "NONE" true))).
  left. split; [right; reflexivity | reflexivity].
Defined.

(** ** Selection of the nodes to replace *)

(** C1 (the code departs from the claim).  In ALL mode a built-in shader node
    is selected whatever the destination is: an EMISSION node is selected and
    replaced when the destination is EMISSION, and the operator reports one
    replaced node. *)
Theorem C1_same_builtin_type_is_replaced :
  MATERIAL_OT_batch_replace_shader.shaders_to_replace
    Scene.emission_tree ALL "EMISSION" "" = ["Emission"]
  /\ MATERIAL_OT_batch_replace_shader.r_count
       (MATERIAL_OT_batch_replace_shader.replace_material_shaders
          Scene.host Scene.emission_tree (Scene.settings ALL "EMISSION" true) "EMISSION" "")
     = 1
  /\ fst (MATERIAL_OT_batch_replace_shader.execute
            Scene.host Scene.context
            (Scene.world Scene.emission_tree (Scene.settings ALL "EMISSION" true)))
     = (FINISHED, [(INFO, ReplacedTotal 1 1 1)]).
Proof. repeat split; vm_compute; reflexivity. Qed.

Section SkipSameGroup.

Import MATERIAL_OT_batch_replace_shader.

Lemma selects_all_same_group (t : NodeTree) (target : string) (n : Node) :
  node_type n = "GROUP" -> node_tree n = Some target -> selects_all t target n = false.
Proof.
  intros Hty Htree. unfold selects_all. rewrite Hty, Htree.
  change (str_mem "GROUP" NodeTypeConfig.SHADER_NODE_TYPES) with false. cbv iota.
  rewrite !String.eqb_refl. cbn [negb]. apply andb_false_r.
Qed.

Lemma selects_all_other (t : NodeTree) (target : string) (n : Node) :
  str_mem (node_type n) NodeTypeConfig.SHADER_NODE_TYPES = false ->
  node_type n <> "GROUP" \/ node_tree n = None ->
  selects_all t target n = false.
Proof.
  intros Hsh Hother. unfold selects_all. rewrite Hsh.
  destruct (node_tree n) as [ng|]; [|reflexivity].
  destruct Hother as [Hne | Hnone]; [|discriminate].
  apply String.eqb_neq in Hne. now rewrite Hne.
Qed.

Lemma filter_none {A} (p : A -> bool) (xs : list A) :
  (forall x, In x xs -> p x = false) -> List.filter p xs = [].
Proof.
  induction xs as [|x xs IH]; simpl; [reflexivity|]. intros Hall.
  rewrite (Hall x (or_introl eq_refl)). auto.
Qed.

End SkipSameGroup.

(** X2. In ALL and MATERIAL mode a group node bound to the destination group
    is not selected: when every node of the material is such a group node, or is
    neither of a built-in shader type nor a bound group node, nothing is
    replaced, the replaced count is 0 and the tree is as it was. *)
Theorem X2_same_group_is_skipped (h : Host) (t : NodeTree) (p : Props)
        (target specific : string) :
  replace_mode p = ALL \/ replace_mode p = MATERIAL ->
  (forall n, In n (nt_nodes t) ->
             (node_type n = "GROUP" /\ node_tree n = Some target)
             \/ (str_mem (node_type n) NodeTypeConfig.SHADER_NODE_TYPES = false
                 /\ (node_type n <> "GROUP" \/ node_tree n = None))) ->
  MATERIAL_OT_batch_replace_shader.replace_material_shaders h t p target specific
  = {| MATERIAL_OT_batch_replace_shader.r_tree := t;
       MATERIAL_OT_batch_replace_shader.r_count := 0;
       MATERIAL_OT_batch_replace_shader.r_trace := [];
       MATERIAL_OT_batch_replace_shader.r_new := [] |}.
Proof.
  intros Hmode Hnodes.
  unfold MATERIAL_OT_batch_replace_shader.replace_material_shaders,
    MATERIAL_OT_batch_replace_shader.shaders_to_replace.
  assert (List.filter (MATERIAL_OT_batch_replace_shader.selects_all t target) (nt_nodes t)
          = []) as Hnone.
  { apply filter_none. intros n Hn. destruct (Hnodes n Hn) as [[Hty Htr] | [Hsh Hother]].
    - now apply selects_all_same_group.
    - now apply selects_all_other. }
  destruct Hmode as [-> | ->]; now rewrite Hnone.
Qed.

Lemma X2_witness_group_tree :
  MATERIAL_OT_batch_replace_shader.replace_material_shaders
    Scene.host Scene.group_tree (Scene.settings ALL "NONE" true) "Toon Shader" ""
  = {| MATERIAL_OT_batch_replace_shader.r_tree := Scene.group_tree;
       MATERIAL_OT_batch_replace_shader.r_count := 0;
       MATERIAL_OT_batch_replace_shader.r_trace := [];
       MATERIAL_OT_batch_replace_shader.r_new := [] |}.
Proof.
  apply (X2_same_group_is_skipped
           Scene.host Scene.group_tree (Scene.settings ALL "NONE" true) "Toon Shader" "").
  - left. reflexivity.
  - simpl. intros n [<- | [<- | []]].
    + left. split; reflexivity.
    + right. split; [reflexivity | left; discriminate].
Defined.

(** ** The surface link of a replacement node *)

Section SurfaceFallback.

Import MATERIAL_OT_batch_replace_shader.

Variables (h : Host) (nodes : list Node) (new_shader : Node).

Lemma link_output_inv (l : Link) (to_material : bool) (s : OutState) :
  Spec.output_inv nodes new_shader s ->
  from_node l = node_id new_shader ->
  (to_material = true ->
   exists o, In o nodes /\ node_type o = "OUTPUT_MATERIAL"
             /\ surface_input_of o = Some (to_socket l) /\ to_node l = node_id o) ->
  Spec.output_inv nodes new_shader (link_output h l to_material s).
Proof.
  intros Hinv Hfrom Hmat. unfold Spec.output_inv, Spec.surface_bound, link_output, error_handler.safe_link,
    try_link, links_new.
  destruct (host_accepts h l) eqn:Hacc; simpl; [|exact Hinv].
  destruct to_material; simpl.
  - intros _. destruct (Hmat eq_refl) as (o & Ho & Hty & Hsi & Hto).
    exists o, (from_socket l), (to_socket l). repeat split; try assumption.
    apply in_or_app. right. left. unfold mk_link. destruct l; simpl in *. now subst.
  - intros Hflag. destruct (Hinv Hflag) as (o & so & si & Ho & Hty & Hsi & Hin).
    destruct (same_input (mk_link new_shader so o si) l) eqn:Hsame.
    + unfold same_input in Hsame. apply andb_true_iff in Hsame.
      destruct Hsame as [Hn Hk]. apply Nat.eqb_eq in Hn, Hk. simpl in Hn, Hk.
      exists o, (from_socket l), si. repeat split; try assumption.
      apply in_or_app. right. left. unfold mk_link. destruct l; simpl in *. now subst.
    + exists o, so, si. repeat split; try assumption.
      apply in_or_app. left. apply filter_In. split; [assumption|]. now rewrite Hsame.
Qed.

Lemma nodes_get_In (name : string) (n : Node) :
  nodes_get nodes name = Some n -> In n nodes.
Proof. unfold nodes_get. intros H. now apply find_some in H. Qed.

Lemma reconnect_output_standard_inv (target_node : Node) (socket_name : string)
      (conn : OutputLink) (s : OutState) :
  Spec.output_inv nodes new_shader s ->
  Spec.output_inv nodes new_shader (reconnect_output_standard h new_shader target_node socket_name conn s).
Proof.
  intros Hinv. unfold reconnect_output_standard.
  destruct (resolve_socket _ _ _) as [ts|]; [|assumption].
  destruct (_find_best_output_socket _ _ _ _) as [ss|]; [|assumption].
  apply link_output_inv; [assumption | reflexivity | discriminate].
Qed.

Lemma reconnect_output_inv (socket_name : string) (s : OutState)
      (conn : OutputLink) :
  Spec.output_inv nodes new_shader s -> Spec.output_inv nodes new_shader (reconnect_output h nodes new_shader socket_name s conn).
Proof.
  intros Hinv. unfold reconnect_output.
  destruct (nodes_get nodes (ol_to_node conn)) as [target_node|] eqn:Hget; [|assumption].
  destruct (String.eqb_spec (node_type target_node) "OUTPUT_MATERIAL") as [Hty|Hty];
    cbn [andb]; [|now apply reconnect_output_standard_inv].
  destruct (negb (output_connected_to_material s));
    [|now apply reconnect_output_standard_inv].
  destruct (_find_shader_output new_shader) as [ss|];
    [|now apply reconnect_output_standard_inv].
  destruct (surface_input_of target_node) as [si|] eqn:Hsi;
    [|now apply reconnect_output_standard_inv].
  apply link_output_inv; [assumption | reflexivity |].
  intros _. exists target_node. repeat split; try assumption.
  now apply nodes_get_In in Hget.
Qed.

Lemma reconnect_loop_inv (output_links : list (string * list OutputLink)) (s : OutState) :
  Spec.output_inv nodes new_shader s ->
  Spec.output_inv nodes new_shader
    (fold_left
       (fun s item => fold_left (reconnect_output h nodes new_shader (fst item)) (snd item) s)
       output_links s).
Proof.
  revert s. induction output_links as [|[name conns] rest IH]; intros s Hinv; [assumption|].
  simpl. apply IH. clear IH. revert s Hinv.
  induction conns as [|c conns IHc]; intros s Hinv; [assumption|].
  simpl. apply IHc. now apply reconnect_output_inv.
Qed.

Lemma find_shader_output_some :
  node_outputs new_shader <> [] -> exists so, _find_shader_output new_shader = Some so.
Proof.
  intros Hne. unfold _find_shader_output.
  destruct (find_index _ _) as [i|]; [eauto|].
  destruct (node_outputs new_shader); [contradiction | eauto].
Qed.

Lemma surface_input_of_some (o : Node) :
  node_inputs o <> [] -> exists si, surface_input_of o = Some si.
Proof.
  intros Hne. unfold surface_input_of.
  destruct (socket_named _ _) as [i|]; [eauto|].
  destruct (node_inputs o); [contradiction | eauto].
Qed.

(** The fallback closes the gap. *)
Lemma reconnect_outputs_bound (output_links : list (string * list OutputLink)) (st : Conn) :
  node_outputs new_shader <> [] ->
  (exists o, In o nodes /\ node_type o = "OUTPUT_MATERIAL") ->
  (forall o, In o nodes -> node_type o = "OUTPUT_MATERIAL" -> node_inputs o <> []) ->
  (forall o so si, In o nodes -> node_type o = "OUTPUT_MATERIAL" ->
                   host_accepts h (mk_link new_shader so o si) = true) ->
  Spec.surface_bound nodes new_shader
    (c_links (out_conn (reconnect_outputs h nodes new_shader output_links st))).
Proof.
  intros Hout (o0 & Ho0 & Hty0) Hins Hacc. unfold reconnect_outputs.
  set (s := fold_left _ output_links _).
  assert (Hinv : Spec.output_inv nodes new_shader s).
  { subst s. apply reconnect_loop_inv. intros Hflag. discriminate Hflag. }
  unfold connect_fallback, Spec.surface_bound.
  destruct (output_connected_to_material s) eqn:Hflag; [now apply Hinv|].
  destruct (List.find _ nodes) as [o|] eqn:Hfind.
  - apply find_some in Hfind. destruct Hfind as [Ho Hty].
    apply String.eqb_eq in Hty.
    destruct (find_shader_output_some Hout) as (so & ->).
    destruct (surface_input_of_some o (Hins o Ho Hty)) as (si & Hsi). rewrite Hsi.
    unfold link_output, error_handler.safe_link, try_link, links_new.
    rewrite (Hacc o so si Ho Hty). simpl.
    exists o, so, si. repeat split; try assumption.
    apply in_or_app. right. now left.
  - exfalso. apply (find_none _ _ Hfind) in Ho0. rewrite Hty0 in Ho0. discriminate.
Qed.

End SurfaceFallback.

Section WithoutAutoConnect.

Import MATERIAL_OT_batch_replace_shader.

Lemma replace_one_plain (h : Host) (target : string) (r : Replace) (name : string) :
  r_trace (replace_one h false target r name) = r_trace r
  /\ forall l, In l (nt_links (r_tree (replace_one h false target r name))) ->
               In l (nt_links (r_tree r)).
Proof.
  unfold replace_one. destruct (nodes_get _ _) as [old|]; [|auto].
  cbn [error_handler.safe_remove_node negb].
  destruct (new_shader_node _ _ _ _ _) as [new|]; cbn [r_trace r_tree nt_links c_links c_trace];
    (split; [reflexivity|]); intros l Hl; unfold nodes_remove in Hl; cbn [nt_links] in Hl;
    apply filter_In in Hl; tauto.
Qed.

End WithoutAutoConnect.

(** X5. With auto-connect off a batch replacement makes no link: it never
    calls [links.new], and the links of the material afterwards are links it
    had before (those bound to a replaced node are gone with the node). *)
Theorem X5_no_link_without_auto_connect (h : Host) (t : NodeTree) (p : Props)
        (target specific : string) :
  auto_connect p = false ->
  let r := MATERIAL_OT_batch_replace_shader.replace_material_shaders
             h t p target specific in
  MATERIAL_OT_batch_replace_shader.r_trace r = []
  /\ forall l, In l (nt_links (MATERIAL_OT_batch_replace_shader.r_tree r)) ->
               In l (nt_links t).
Proof.
  intros Hauto. cbn zeta.
  unfold MATERIAL_OT_batch_replace_shader.replace_material_shaders. rewrite Hauto.
  set (names := MATERIAL_OT_batch_replace_shader.shaders_to_replace _ _ _ _).
  assert (Hgen : forall r,
             MATERIAL_OT_batch_replace_shader.r_trace
               (fold_left (MATERIAL_OT_batch_replace_shader.replace_one h false target) names r)
             = MATERIAL_OT_batch_replace_shader.r_trace r
             /\ forall l,
                 In l (nt_links (MATERIAL_OT_batch_replace_shader.r_tree
                                   (fold_left
                                      (MATERIAL_OT_batch_replace_shader.replace_one
                                         h false target) names r))) ->
                 In l (nt_links (MATERIAL_OT_batch_replace_shader.r_tree r))).
  { induction names as [|name names IH]; intros r; [auto|]. simpl.
    destruct (IH (MATERIAL_OT_batch_replace_shader.replace_one h false target r name))
      as [Htr Hl].
    destruct (replace_one_plain h target r name) as [Htr1 Hl1].
    split; [congruence | auto]. }
  apply Hgen.
Qed.

Lemma X5_witness_emission_tree :
  let r := MATERIAL_OT_batch_replace_shader.replace_material_shaders
             Scene.host Scene.emission_tree (Scene.settings ALL "BSDF_DIFFUSE" false)
             "BSDF_DIFFUSE" "" in
  MATERIAL_OT_batch_replace_shader.r_trace r = []
  /\ forall l, In l (nt_links (MATERIAL_OT_batch_replace_shader.r_tree r)) ->
               In l (nt_links Scene.emission_tree).
Proof.
  apply (X5_no_link_without_auto_connect
           Scene.host Scene.emission_tree (Scene.settings ALL "BSDF_DIFFUSE" false)
           "BSDF_DIFFUSE" "").
  reflexivity.
Defined.

(** ** Disconnect and restore *)

(** C3 (the code departs from the claim).  The mix shader has two inputs
    named 'Shader', at positions 1 and 2, both bound.  The disconnect pass
    removes the three links of the material and stores three records, but it
    records the link into input 2 at position 1, the first input of that
    name.  The restore then reports three links made, binds input 1 twice,
    the second link replacing the first, and leaves input 2 unbound: two
    links are back, not the original three. *)
Theorem C3_same_named_inputs_are_not_restored :
  let w0 := Scene.world Scene.mix_tree (Scene.settings ALL "NONE" false) in
  let d := MATERIAL_OT_disconnect_all_connections.execute Scene.context w0 in
  let r := MATERIAL_OT_reconnect_with_rules.execute Scene.host Scene.context (snd d) in
  let links_of (w : World) := (fun m => nt_links (mat_node_tree m)) <$> materials w !! "M1" in
  links_of w0 = Some [Scene.link 1 0 4 1; Scene.link 2 0 4 2; Scene.link 4 0 3 0]
  /\ fst d = (FINISHED, [(INFO, Disconnected ALL 3)])
  /\ links_of (snd d) = Some []
  /\ map (fun i => (snap_from_node_name i, snap_from_socket_index i,
                    snap_to_node_name i, snap_to_socket_index i))
         (connection_snapshot (props (snd d)))
     = [("Diffuse BSDF", 0%nat, "Mix Shader", 1%nat);
        ("Glossy BSDF", 0%nat, "Mix Shader", 1%nat);
        ("Mix Shader", 0%nat, "Material Output", 0%nat)]
  /\ fst r = (FINISHED, [(INFO, Reconnected None 0 (Some 3))])
  /\ links_of (snd r) = Some [Scene.link 2 0 4 1; Scene.link 4 0 3 0].
Proof. vm_compute. repeat split. Qed.

Section RoundTrip.

Import MATERIAL_OT_disconnect_all_connections MATERIAL_OT_reconnect_with_rules Spec.

Lemma find_split {A} (f : A -> bool) (xs : list A) (x : A) :
  List.find f xs = Some x <->
  exists pre post, xs = pre ++ x :: post /\ Forall (fun y => f y = false) pre /\ f x = true.
Proof.
  split.
  - induction xs as [|y ys IH]; simpl; [discriminate|].
    destruct (f y) eqn:Hy.
    + intros [= <-]. exists [], ys. repeat split; [constructor | assumption].
    + intros Hf. destruct (IH Hf) as (pre & post & -> & Hpre & Hx).
      exists (y :: pre), post. repeat split; [constructor; assumption | assumption].
  - intros (pre & post & -> & Hpre & Hx).
    induction Hpre as [|y pre Hy _ IH]; simpl; [now rewrite Hx | now rewrite Hy].
Qed.

(** The position recorded for a socket is its own when no earlier socket of
    the node has its name. *)
Lemma recorded_index_first (sockets : list Socket) (k : nat) (s : Socket) :
  sockets !! k = Some s ->
  socket_named sockets (sock_name s) = Some k ->
  recorded_index sockets k = k.
Proof.
  intros Hk Hfirst. unfold recorded_index. rewrite Hk.
  unfold socket_named, find_index in Hfirst.
  destruct (List.find _ (enumerate sockets)) as [[j x]|] eqn:Hfind; [|discriminate].
  injection Hfirst as ->. apply find_split in Hfind.
  destruct Hfind as (pre & post & Hsplit & Hpre & Hx). simpl in Hx.
  assert (List.find (fun ix => Nat.eqb (fst ix) k
                               || String.eqb (sock_name (snd ix)) (sock_name s))
                    (enumerate sockets) = Some (k, x)) as ->; [|reflexivity].
  apply find_split. exists pre, post. split; [assumption|]. split.
  - destruct (enumerate_from_split _ _ _ _ _ Hsplit) as [Hlt _].
    apply List.Forall_forall. intros [j y] Hin.
    rewrite List.Forall_forall in Hpre, Hlt.
    specialize (Hpre _ Hin). specialize (Hlt _ Hin). simpl in *.
    rewrite Hpre, orb_false_r. apply Nat.eqb_neq. lia.
  - simpl. now rewrite Nat.eqb_refl.
Qed.

Lemma node_of_id_some (nodes : list Node) (i : nat) (n : Node) :
  node_of_id nodes i = Some n -> In n nodes /\ node_id n = i.
Proof.
  unfold node_of_id. intros H. apply find_some in H. destruct H as [Hin Heq].
  now apply Nat.eqb_eq in Heq.
Qed.

Lemma nodes_get_unique (nodes : list Node) (n : Node) :
  List.NoDup (map node_name nodes) -> In n nodes -> nodes_get nodes (node_name n) = Some n.
Proof.
  unfold nodes_get. induction nodes as [|m nodes IH]; simpl; [tauto|].
  intros Hnd Hin. apply List.NoDup_cons_iff in Hnd. destruct Hnd as [Hm Hnd].
  destruct Hin as [<- | Hin]; [now rewrite String.eqb_refl|].
  destruct (String.eqb_spec (node_name m) (node_name n)) as [Heq|Hne]; [|auto].
  exfalso. apply Hm. rewrite Heq. now apply in_map.
Qed.

Variables (h : Host) (nodes : list Node) (material_name mode shader_type : string).

Hypothesis names_distinct : List.NoDup (map node_name nodes).
Hypothesis names_not_empty : forall n, In n nodes -> node_name n <> "".

(** A restorable link comes back as it was. *)
Lemma restore_recorded (l : Link) (st : Conn) :
  restorable h nodes l ->
  restore_item h nodes material_name st
               (_record_connection nodes l material_name mode shader_type)
  = snd (error_handler.safe_link h l st).
Proof.
  intros (src & dst & so & si & Hsrc & Hdst & Hso & Hsi & Hfo & Hfi & _).
  unfold restore_item, _record_connection. rewrite Hsrc, Hdst.
  cbn [snap_material_name snap_from_node_name snap_to_node_name snap_from_socket_index
       snap_to_socket_index from_option].
  rewrite String.eqb_refl. cbn [negb].
  destruct (node_of_id_some _ _ _ Hsrc) as [Hsin Hsid].
  destruct (node_of_id_some _ _ _ Hdst) as [Hdin Hdid].
  assert (nonempty (node_name src) = true) as ->
      by (pose proof (names_not_empty _ Hsin); destruct (node_name src); [contradiction|reflexivity]).
  assert (nonempty (node_name dst) = true) as ->
      by (pose proof (names_not_empty _ Hdin); destruct (node_name dst); [contradiction|reflexivity]).
  cbn [negb orb].
  rewrite (nodes_get_unique _ _ names_distinct Hsin), (nodes_get_unique _ _ names_distinct Hdin).
  rewrite (recorded_index_first _ _ _ Hso Hfo), (recorded_index_first _ _ _ Hsi Hfi).
  assert ((from_socket l <? length (node_outputs src))%nat = true) as ->
      by (apply Nat.ltb_lt; eapply lookup_lt_Some; eassumption).
  assert ((to_socket l <? length (node_inputs dst))%nat = true) as ->
      by (apply Nat.ltb_lt; eapply lookup_lt_Some; eassumption).
  cbn [andb]. do 2 f_equal. unfold mk_link. destruct l; simpl in *. now subst.
Qed.

Lemma filter_other_inputs (l : Link) (done : list Link) :
  ~ In (input_of l) (map input_of done) ->
  List.filter (fun l' => negb (same_input l' l)) done = done.
Proof.
  induction done as [|d done IH]; simpl; [reflexivity|]. intros Hnin.
  destruct (same_input d l) eqn:Hsame.
  - exfalso. apply Hnin. left. unfold same_input in Hsame.
    apply andb_true_iff in Hsame. destruct Hsame as [Ha Hb].
    apply Nat.eqb_eq in Ha, Hb. unfold input_of. now rewrite Ha, Hb.
  - simpl. f_equal. apply IH. tauto.
Qed.

Lemma restore_all (todo done : list Link) (c : Z) (tr : list Link) :
  (forall l, In l todo -> restorable h nodes l) ->
  List.NoDup (map input_of (done ++ todo)) ->
  fold_left (restore_item h nodes material_name)
            (map (fun l => _record_connection nodes l material_name mode shader_type) todo)
            {| c_links := done; c_count := c; c_trace := tr |}
  = {| c_links := done ++ todo;
       c_count := c + Z.of_nat (length todo);
       c_trace := tr ++ todo |}.
Proof.
  revert done c tr. induction todo as [|l todo IH]; intros done c tr Hgood Hnd.
  - simpl. now rewrite !app_nil_r, Z.add_0_r.
  - cbn [map fold_left]. rewrite restore_recorded by (apply Hgood; now left).
    destruct (Hgood l (or_introl eq_refl)) as (_ & _ & _ & _ & _ & _ & _ & _ & _ & _ & Hacc).
    unfold error_handler.safe_link, try_link, links_new. cbn [c_links]. rewrite Hacc.
    cbn [snd c_links c_count c_trace].
    rewrite filter_other_inputs.
    + rewrite IH.
      * rewrite <- !app_assoc. cbn [app length]. f_equal. lia.
      * intros l' Hl'. apply Hgood. now right.
      * now rewrite <- app_assoc.
    + rewrite map_app in Hnd. apply NoDup_ListNoDup, NoDup_app in Hnd.
      destruct Hnd as (_ & Hdis & _).
      intros Hin. apply (Hdis (input_of l)); [now apply list_elem_of_In|].
      apply list_elem_of_In. now left.
Qed.

Lemma remove_all_links (ls : list Link) :
  fold_left (fun acc l => links_remove l acc) ls ls = [].
Proof.
  assert (Hgen : forall rm acc, (forall l, In l acc -> In l rm) ->
                                fold_left (fun acc l => links_remove l acc) rm acc = []).
  { induction rm as [|r rm IH]; intros acc Hsub; simpl.
    - destruct acc as [|a acc]; [reflexivity|]. destruct (Hsub a (or_introl eq_refl)).
    - apply IH. intros l Hl. unfold links_remove in Hl. apply filter_In in Hl.
      destruct Hl as [Hl Hne]. destruct (Hsub l Hl) as [<- | Hin]; [|assumption].
      rewrite bool_decide_eq_true_2 in Hne by reflexivity. discriminate. }
  now apply Hgen.
Qed.

End RoundTrip.

Section RoundTripOperators.

Import MATERIAL_OT_disconnect_all_connections MATERIAL_OT_reconnect_with_rules Spec.

Variables (h : Host) (w : World) (name : string) (mat : Material).

Hypothesis mode_all : replace_mode (props w) = ALL.
Hypothesis no_auto : auto_connect (props w) = false.
Hypothesis no_rules : connection_rules (props w) = [].
Hypothesis in_scene : materials w !! name = Some mat.
Hypothesis with_nodes : use_nodes mat = true.

Lemma disconnect_execute_all :
  MATERIAL_OT_disconnect_all_connections.execute (one_slot name) w
  = (FINISHED,
     [(INFO, Disconnected ALL (Z.of_nat (length (nt_links (mat_node_tree mat)))))],
     set_node_tree (set_snapshot w (snapshot_of (mat_node_tree mat) name)) name mat
                   (unlinked (mat_node_tree mat))).
Proof.
  unfold MATERIAL_OT_disconnect_all_connections.execute, one_slot.
  cbn [selected_objects]. rewrite mode_all.
  rewrite (bool_decide_eq_false_2 (ALL = MATERIAL)) by discriminate. cbn [andb].
  unfold get_shader_types_to_disconnect, shader_types_of. rewrite mode_all.
  unfold mesh_slots. cbn [map obj_type material_slots concat app].
  rewrite String.eqb_refl. cbn [concat app fold_left]. unfold disconnect_slot at 1.
  unfold _clear_snapshot at 1. unfold slot_material.
  cbn [set_snapshot materials props replace_mode connection_snapshot].
  rewrite in_scene, with_nodes. unfold should_process.
  cbn [replace_mode]. rewrite ?mode_all. cbn [negb].
  unfold links_to_remove.
  change (str_mem "ALL" ["ALL"]) with true. cbv iota.
  rewrite remove_all_links. unfold _clear_snapshot, snapshot_of, unlinked.
  cbn [set_snapshot materials material_cache props replace_mode target_material
       connection_snapshot app].
  rewrite mode_all. cbn [negb mode_name Z.add]. reflexivity.
Qed.

Hypothesis ready : round_trip_ready h (mat_node_tree mat).

Lemma restore_snapshot_of (p : Props) :
  connection_snapshot p = snapshot_of (mat_node_tree mat) name ->
  _restore_connections_from_snapshot h p (unlinked (mat_node_tree mat)) name
  = {| c_links := nt_links (mat_node_tree mat);
       c_count := Z.of_nat (length (nt_links (mat_node_tree mat)));
       c_trace := nt_links (mat_node_tree mat) |}.
Proof.
  intros Hsnap. unfold _restore_connections_from_snapshot, unlinked, conn_start.
  cbn [nt_nodes nt_links]. rewrite Hsnap. unfold snapshot_of.
  destruct ready as [Hnames Hnamed Hlinks Hsingle].
  now rewrite (restore_all h _ name "ALL" "ALL" Hnames Hnamed _ [] 0 [] Hlinks Hsingle).
Qed.

Lemma reconnect_execute_all :
  MATERIAL_OT_reconnect_with_rules.execute
    h (one_slot name)
    (set_node_tree (set_snapshot w (snapshot_of (mat_node_tree mat) name)) name mat
                   (unlinked (mat_node_tree mat)))
  = (FINISHED,
     [(INFO, Reconnected
               None 0
               (if (0 <? length (nt_links (mat_node_tree mat)))%nat
                then Some (Z.of_nat (length (nt_links (mat_node_tree mat))))
                else None))],
     set_node_tree
       (set_node_tree (set_snapshot w (snapshot_of (mat_node_tree mat) name)) name mat
                      (unlinked (mat_node_tree mat)))
       name {| use_nodes := use_nodes mat; mat_node_tree := unlinked (mat_node_tree mat) |}
       {| nt_nodes := nt_nodes (mat_node_tree mat);
          nt_links := nt_links (mat_node_tree mat) |}).
Proof.
  unfold MATERIAL_OT_reconnect_with_rules.execute, one_slot.
  cbn [selected_objects]. unfold mesh_slots. cbn [map obj_type material_slots concat app].
  rewrite String.eqb_refl. cbn [concat app fold_left]. unfold reconnect_slot.
  unfold slot_material. cbn [fst set_node_tree set_snapshot materials props].
  rewrite lookup_insert_eq. cbn [use_nodes]. rewrite with_nodes.
  rewrite (bool_decide_eq_false_2 (name ∈ (∅ : gset string))) by apply not_elem_of_empty.
  unfold should_process. cbn [replace_mode target_material]. rewrite mode_all. cbn [negb].
  unfold process_material.
  cbn [fst set_node_tree set_snapshot materials material_cache props auto_connect
       connection_rules connection_snapshot mat_node_tree].
  rewrite no_auto, no_rules. unfold AutoConnectionRules.apply_auto_connections.
  cbn [negb fold_left conn_start c_links c_count].
  assert (Hlen : length (snapshot_of (mat_node_tree mat) name)
                 = length (nt_links (mat_node_tree mat)))
    by (unfold snapshot_of; apply length_map).
  rewrite !Hlen.
  destruct (nt_links (mat_node_tree mat)) as [|l ls] eqn:Hlinks.
  - cbn [length Nat.ltb Nat.leb conn_start c_links c_count unlinked nt_nodes Z.add
         auto_connect_count custom_rule_count restored_count].
    reflexivity.
  - cbn [length Nat.ltb Nat.leb].
    match goal with
    | |- context [_restore_connections_from_snapshot h ?p ?t name] =>
        change t with (unlinked (mat_node_tree mat));
        rewrite (restore_snapshot_of p) by reflexivity
    end.
    rewrite Hlinks.
    cbn [c_links c_count Z.add unlinked nt_nodes length
         auto_connect_count custom_rule_count restored_count].
    reflexivity.
Qed.

End RoundTripOperators.

(** X1. Round trip.  In ALL mode, with auto-connect off and no rule, on a
    material whose node names are distinct and not empty, whose links bind
    distinct inputs, resolve at the first socket of their name and are taken
    by the host: the disconnect pass removes the N links and stores N records,
    and the reconnect pass then restores N links and the material is as it
    was, link for link and in the same order. *)
Theorem X1_disconnect_restore_round_trip (h : Host) (w : World) (name : string)
        (mat : Material) :
  replace_mode (props w) = ALL ->
  auto_connect (props w) = false ->
  connection_rules (props w) = [] ->
  materials w !! name = Some mat ->
  use_nodes mat = true ->
  Spec.round_trip_ready h (mat_node_tree mat) ->
  let d := MATERIAL_OT_disconnect_all_connections.execute (Spec.one_slot name) w in
  let r := MATERIAL_OT_reconnect_with_rules.execute h (Spec.one_slot name) (snd d) in
  let n := length (nt_links (mat_node_tree mat)) in
  fst d = (FINISHED, [(INFO, Disconnected ALL (Z.of_nat n))])
  /\ length (connection_snapshot (props (snd d))) = n
  /\ materials (snd d) !! name
     = Some {| use_nodes := true; mat_node_tree := Spec.unlinked (mat_node_tree mat) |}
  /\ fst r = (FINISHED,
              [(INFO, Reconnected None 0 (if (0 <? n)%nat then Some (Z.of_nat n) else None))])
  /\ materials (snd r) !! name = Some mat.
Proof.
  intros Hmode Hauto Hrules Hmat Hnodes Hready d r n. subst d r n.
  rewrite (disconnect_execute_all w name mat Hmode Hmat Hnodes). cbn [fst snd].
  rewrite (reconnect_execute_all h w name mat Hmode Hauto Hrules Hnodes Hready).
  cbn [fst snd set_node_tree set_snapshot props connection_snapshot materials].
  split; [reflexivity|]. split; [unfold Spec.snapshot_of; apply length_map|].
  rewrite !lookup_insert_eq. rewrite Hnodes.
  split; [reflexivity|]. split; [reflexivity|].
  destruct mat as [u [ns ls]]. simpl in *. now subst.
Qed.

Lemma X1_witness_emission_tree :
  let w := Scene.world Scene.emission_tree (Scene.settings ALL "NONE" false) in
  let mat := {| use_nodes := true; mat_node_tree := Scene.emission_tree |} in
  let d := MATERIAL_OT_disconnect_all_connections.execute (Spec.one_slot "M1") w in
  let r := MATERIAL_OT_reconnect_with_rules.execute Scene.host (Spec.one_slot "M1") (snd d) in
  let n := length (nt_links (mat_node_tree mat)) in
  fst d = (FINISHED, [(INFO, Disconnected ALL (Z.of_nat n))])
  /\ length (connection_snapshot (props (snd d))) = n
  /\ materials (snd d) !! "M1"
     = Some {| use_nodes := true; mat_node_tree := Spec.unlinked (mat_node_tree mat) |}
  /\ fst r = (FINISHED,
              [(INFO, Reconnected None 0 (if (0 <? n)%nat then Some (Z.of_nat n) else None))])
  /\ materials (snd r) !! "M1" = Some mat.
Proof.
  apply (X1_disconnect_restore_round_trip
           Scene.host (Scene.world Scene.emission_tree (Scene.settings ALL "NONE" false))
           "M1" {| use_nodes := true; mat_node_tree := Scene.emission_tree |}).
  - reflexivity.
  - reflexivity.
  - reflexivity.
  - reflexivity.
  - reflexivity.
  - constructor.
    + simpl. repeat (constructor; [simpl; intuition discriminate|]). constructor.
    + simpl. intros n [<- | [<- | []]]; discriminate.
    + simpl. intros l [<- | []].
      exists Scene.emission, Scene.output,
             (Scene.sock "Emission" "SHADER"), (Scene.sock "Surface" "SHADER").
      repeat split; reflexivity.
    + simpl. repeat (constructor; [simpl; intuition discriminate|]). constructor.
Defined.

Section SnapshotCounts.

Import MATERIAL_OT_disconnect_all_connections MATERIAL_OT_reconnect_with_rules Spec.

(** Along the disconnect loop the count of removed links is the number of
    records stored. *)
Lemma disconnect_slot_count (shader_types : list string) (acc : World * Z)
      (slot : option string) :
  Z.of_nat (length (connection_snapshot (props (fst acc)))) = snd acc ->
  Z.of_nat (length (connection_snapshot
                      (props (fst (disconnect_slot shader_types acc slot)))))
  = snd (disconnect_slot shader_types acc slot).
Proof.
  destruct acc as [w c]. intros Hinv. unfold disconnect_slot.
  destruct (slot_material w slot) as [[name mat]|]; [|assumption].
  destruct (should_process (props w) name); cbn [negb]; [|assumption].
  cbn [fst snd set_node_tree set_snapshot props connection_snapshot] in *.
  rewrite length_app, length_map. lia.
Qed.

Lemma disconnect_loop_count (shader_types : list string) (slots : list (option string))
      (acc : World * Z) :
  Z.of_nat (length (connection_snapshot (props (fst acc)))) = snd acc ->
  Z.of_nat (length (connection_snapshot
                      (props (fst (fold_left (disconnect_slot shader_types) slots acc)))))
  = snd (fold_left (disconnect_slot shader_types) slots acc).
Proof.
  revert acc. induction slots as [|slot slots IH]; intros acc Hinv; [assumption|].
  simpl. apply IH. now apply disconnect_slot_count.
Qed.

End SnapshotCounts.

(** X3. A disconnect pass that is not cancelled empties the snapshot first
    and then stores one record per link it removes: the count it reports is
    the number of records in the snapshot afterwards, whatever the snapshot
    held before. *)
Theorem X3_disconnect_count_is_record_count (ctx : Context) (w w' : World)
        (mode : ReplaceMode) (n : Z) :
  MATERIAL_OT_disconnect_all_connections.execute ctx w
  = (FINISHED, [(INFO, Disconnected mode n)], w') ->
  Z.of_nat (length (connection_snapshot (props w'))) = n.
Proof.
  unfold MATERIAL_OT_disconnect_all_connections.execute.
  destruct (selected_objects ctx) as [|obj objs]; [discriminate|].
  destruct (_ && _); [discriminate|].
  pose proof (disconnect_loop_count
                (MATERIAL_OT_disconnect_all_connections.get_shader_types_to_disconnect
                   (props w))
                (mesh_slots (obj :: objs))
                (MATERIAL_OT_disconnect_all_connections._clear_snapshot w, 0) eq_refl) as Hc.
  destruct (fold_left _ _ _) as [w1 c]. simpl in Hc. intros [= _ <- <-]. exact Hc.
Qed.

Lemma X3_witness_mix_tree :
  Z.of_nat (length (connection_snapshot
                      (props (snd (MATERIAL_OT_disconnect_all_connections.execute
                                     Scene.context
                                     (Scene.world Scene.mix_tree
                                                  (Scene.settings ALL "NONE" false)))))))
  = 3.
Proof.
  apply (X3_disconnect_count_is_record_count
           Scene.context (Scene.world Scene.mix_tree (Scene.settings ALL "NONE" false))
           _ ALL 3).
  vm_compute. reflexivity.
Defined.

(** ** One pass per material in the reconnect operator *)

Section OncePerMaterial.

Import MATERIAL_OT_reconnect_with_rules Spec.

Lemma first_occurrences_spec (names : list string) (seen : gset string) :
  List.NoDup (first_occurrences seen names)
  /\ forall name, In name (first_occurrences seen names) <-> In name names /\ name ∉ seen.
Proof.
  revert seen. induction names as [|n names IH]; intros seen; simpl.
  - split; [constructor | tauto].
  - case_bool_decide as Hn.
    + destruct (IH seen) as [Hnd Hin]. split; [assumption|].
      intros name. rewrite Hin. split; [tauto|].
      intros [[<- | Hname] Hns]; [contradiction | tauto].
    + destruct (IH ({[n]} ∪ seen)) as [Hnd Hin]. split.
      * constructor; [|assumption]. rewrite Hin. intros [_ Hns]. apply Hns.
        apply elem_of_union_l, elem_of_singleton. reflexivity.
      * intros name. simpl. rewrite Hin. split.
        -- intros [<- | [Hname Hns]]; [tauto|]. split; [tauto|].
           intros Hs. apply Hns. now apply elem_of_union_r.
        -- intros [[<- | Hname] Hns]; [tauto|].
           destruct (decide (name = n)) as [-> | Hne]; [tauto|]. right. split; [assumption|].
           intros Hu. apply elem_of_union in Hu. destruct Hu as [Hu | Hu]; [|contradiction].
           apply elem_of_singleton in Hu. contradiction.
Qed.

Lemma slot_material_lookup (w : World) (slot : option string) (name : string) (mat : Material) :
  slot_material w slot = Some (name, mat) ->
  slot = Some name /\ materials w !! name = Some mat /\ use_nodes mat = true.
Proof.
  unfold slot_material. destruct slot as [n|]; [|discriminate].
  destruct (materials w !! n) as [m|] eqn:Hl; [|discriminate].
  destruct (use_nodes m) eqn:Hu; [|discriminate]. intros [= <- <-]. auto.
Qed.

(** Processing a material changes neither which materials exist and use
    nodes nor the settings. *)
Lemma eligible_process (h : Host) (has_snapshot : bool) (name : string) (mat : Material)
      (acc : World * Counts) (slot : option string) :
  materials (fst acc) !! name = Some mat ->
  eligible (fst (process_material h has_snapshot name mat acc)) slot
  = eligible (fst acc) slot.
Proof.
  intros Hl. destruct acc as [w cnt]. unfold process_material, eligible, slot_material.
  cbn [fst set_node_tree materials props].
  destruct slot as [n|]; [|reflexivity].
  destruct (decide (name = n)) as [<- | Hne].
  - rewrite lookup_insert_eq. simpl in Hl. rewrite Hl. cbn [use_nodes].
    now destruct (use_nodes mat).
  - now rewrite lookup_insert_ne.
Qed.

Lemma omap_eligible_cons (w : World) (slot : option string) (slots : list (option string)) :
  omap (eligible w) (slot :: slots)
  = match eligible w slot with
    | Some name => name :: omap (eligible w) slots
    | None => omap (eligible w) slots
    end.
Proof. reflexivity. Qed.

Lemma reconnect_loop_schedule (h : Host) (has_snapshot : bool)
      (slots : list (option string)) (processed : gset string) (acc : World * Counts) :
  snd (fold_left (reconnect_slot h has_snapshot) slots (processed, acc))
  = fold_left (process_by_name h has_snapshot)
              (first_occurrences processed (omap (eligible (fst acc)) slots)) acc.
Proof.
  revert processed acc. induction slots as [|slot slots IH]; intros processed acc;
    [reflexivity|].
  cbn [fold_left]. rewrite omap_eligible_cons. unfold reconnect_slot at 2.
  unfold eligible at 1.
  destruct (slot_material (fst acc) slot) as [[name mat]|] eqn:Hsm; [|apply IH].
  destruct (slot_material_lookup _ _ _ _ Hsm) as (_ & Hl & _).
  case_bool_decide as Hseen.
  - rewrite IH. destruct (should_process (props (fst acc)) name); [|reflexivity].
    cbn [first_occurrences]. now rewrite bool_decide_eq_true_2.
  - destruct (should_process (props (fst acc)) name); cbn [negb]; [|apply IH].
    cbn [first_occurrences]. rewrite (bool_decide_eq_false_2 _ Hseen).
    cbn [fold_left]. unfold process_by_name at 2. rewrite Hl.
    rewrite IH. f_equal. f_equal. clear IH.
    induction slots as [|s slots IHs]; [reflexivity|].
    rewrite !omap_eligible_cons, IHs, eligible_process; [reflexivity | assumption].
Qed.

End OncePerMaterial.

(** C10. One run of the reconnect operator processes each material at most
    once: the loop over the material slots of the selected objects does what
    one application of auto-connection, rules and restoration per entry of a
    duplicate-free list of material names does, that list being the
    materials of the slots that exist, use nodes and pass the material
    filter, each at its first occurrence. *)
Theorem C10_each_material_once (h : Host) (ctx : Context) (w : World) :
  let slots := mesh_slots (selected_objects ctx) in
  let has_snapshot := (0 <? length (connection_snapshot (props w)))%nat in
  let start := (w, {| MATERIAL_OT_reconnect_with_rules.auto_connect_count := 0;
                      MATERIAL_OT_reconnect_with_rules.custom_rule_count := 0;
                      MATERIAL_OT_reconnect_with_rules.restored_count := 0 |}) in
  List.NoDup (Spec.materials_to_process w slots)
  /\ (forall name, In name (Spec.materials_to_process w slots)
                   <-> exists slot, In slot slots /\ Spec.eligible w slot = Some name)
  /\ snd (fold_left (MATERIAL_OT_reconnect_with_rules.reconnect_slot h has_snapshot)
                    slots (∅, start))
     = fold_left (Spec.process_by_name h has_snapshot) (Spec.materials_to_process w slots) start
  /\ (selected_objects ctx <> [] ->
      snd (MATERIAL_OT_reconnect_with_rules.execute h ctx w)
      = fst (fold_left (Spec.process_by_name h has_snapshot)
                       (Spec.materials_to_process w slots) start)).
Proof.
  intros slots has_snapshot start. unfold Spec.materials_to_process.
  destruct (first_occurrences_spec (omap (Spec.eligible w) slots) ∅) as [Hnd Hin].
  split; [exact Hnd|]. split.
  { intros name. rewrite Hin. split.
    - intros [Hname _]. apply list_elem_of_In, list_elem_of_omap in Hname.
      destruct Hname as (slot & Hslot & Hel). exists slot. split; [|assumption].
      now apply list_elem_of_In.
    - intros (slot & Hslot & Hel). split; [|apply not_elem_of_empty].
      apply list_elem_of_In, list_elem_of_omap. exists slot. split; [|assumption].
      now apply list_elem_of_In. }
  assert (Hloop : snd (fold_left (MATERIAL_OT_reconnect_with_rules.reconnect_slot h has_snapshot)
                                 slots (∅, start))
                  = fold_left (Spec.process_by_name h has_snapshot)
                              (Spec.first_occurrences ∅ (omap (Spec.eligible w) slots)) start)
    by apply reconnect_loop_schedule.
  split; [exact Hloop|].
  intros Hsel. unfold MATERIAL_OT_reconnect_with_rules.execute.
  destruct (selected_objects ctx) as [|obj objs] eqn:Hobjs; [contradiction|].
  fold has_snapshot. subst slots. fold start.
  destruct (fold_left _ _ (∅, start)) as [processed [w' cnt]]. simpl in Hloop.
  rewrite <- Hloop. reflexivity.
Qed.

Lemma C10_witness_shared_material :
  snd (MATERIAL_OT_reconnect_with_rules.execute
         Scene.host Scene.shared_context
         (Scene.world Scene.emission_tree (Scene.settings ALL "NONE" true)))
  = fst (fold_left
           (Spec.process_by_name
              Scene.host
              (0 <? length (connection_snapshot
                              (props (Scene.world Scene.emission_tree
                                                  (Scene.settings ALL "NONE" true)))))%nat)
           (Spec.materials_to_process
              (Scene.world Scene.emission_tree (Scene.settings ALL "NONE" true))
              (mesh_slots (selected_objects Scene.shared_context)))
           (Scene.world Scene.emission_tree (Scene.settings ALL "NONE" true),
            {| MATERIAL_OT_reconnect_with_rules.auto_connect_count := 0;
               MATERIAL_OT_reconnect_with_rules.custom_rule_count := 0;
               MATERIAL_OT_reconnect_with_rules.restored_count := 0 |})).
Proof.
  apply (proj2 (proj2 (proj2 (C10_each_material_once
                                Scene.host Scene.shared_context
                                (Scene.world Scene.emission_tree
                                             (Scene.settings ALL "NONE" true)))))).
  discriminate.
Defined.

(** ** Operators that do not finish *)

(** X6. An operator that does not finish has changed nothing: each of the
    three operators (batch replace, disconnect, reconnect) either returns
    FINISHED, or returns CANCELLED with the scene, the cache and the settings
    exactly as they were and with a single report of level ERROR or
    WARNING. *)
Theorem X6_unfinished_operator_changes_nothing (h : Host) (ctx : Context) (w : World) :
  let finished_or_unchanged (r : Status * list (Level * Message) * World) :=
    fst (fst r) = FINISHED
    \/ (fst (fst r) = CANCELLED /\ snd r = w
        /\ exists m, snd (fst r) = [(ERROR, m)] \/ snd (fst r) = [(WARNING, m)]) in
  finished_or_unchanged (MATERIAL_OT_batch_replace_shader.execute h ctx w)
  /\ finished_or_unchanged (MATERIAL_OT_disconnect_all_connections.execute ctx w)
  /\ finished_or_unchanged (MATERIAL_OT_reconnect_with_rules.execute h ctx w).
Proof.
  intros finished_or_unchanged. subst finished_or_unchanged. cbv beta.
  unfold MATERIAL_OT_batch_replace_shader.execute,
    MATERIAL_OT_disconnect_all_connections.execute,
    MATERIAL_OT_reconnect_with_rules.execute.
  split; [|split]; repeat case_match; cbn [fst snd];
    solve [ left; reflexivity
          | right; split; [reflexivity|]; split; [reflexivity|];
            eexists; first [left; reflexivity | right; reflexivity] ].
Qed.

(** ** The material cache *)

(** X7. The material cache is a map from material names to results:
    after [mark_processed w m r] the material [m] is processed with result
    [r] and every other name answers as before; after [clear] nothing is
    processed; the result of a name that is not processed is 0; and neither
    operation touches the materials or the settings. *)
Theorem X7_material_cache_lookup (w : World) (m m' : string) (r : Z) :
  MaterialCache.is_processed (MaterialCache.mark_processed w m r) m'
  = (String.eqb m' m || MaterialCache.is_processed w m')
  /\ MaterialCache.get_result (MaterialCache.mark_processed w m r) m'
     = (if String.eqb m' m then r else MaterialCache.get_result w m')
  /\ MaterialCache.is_processed (MaterialCache.clear w) m' = false
  /\ MaterialCache.get_result (MaterialCache.clear w) m' = 0
  /\ (MaterialCache.is_processed w m' = true \/ MaterialCache.get_result w m' = 0)
  /\ materials (MaterialCache.mark_processed w m r) = materials w
  /\ props (MaterialCache.mark_processed w m r) = props w
  /\ materials (MaterialCache.clear w) = materials w
  /\ props (MaterialCache.clear w) = props w.
Proof.
  unfold MaterialCache.is_processed, MaterialCache.get_result,
    MaterialCache.mark_processed, MaterialCache.clear.
  cbn [material_cache materials props].
  destruct (String.eqb_spec m' m) as [-> | Hne].
  - rewrite !lookup_insert_eq. cbn [default orb].
    split; [apply bool_decide_eq_true_2; eauto|]. split; [reflexivity|].
    rewrite lookup_empty. cbn [default].
    split; [apply bool_decide_eq_false_2; intros [? [=]]|]. split; [reflexivity|].
    split; [|auto].
    destruct (material_cache w !! m) as [z|];
      [left; apply bool_decide_eq_true_2; eauto | right; reflexivity].
  - rewrite !lookup_insert_ne by congruence. cbn [orb].
    split; [reflexivity|]. split; [reflexivity|].
    rewrite lookup_empty. cbn [default].
    split; [apply bool_decide_eq_false_2; intros [? [=]]|]. split; [reflexivity|].
    split; [|auto].
    destruct (material_cache w !! m') as [z|];
      [left; apply bool_decide_eq_true_2; eauto | right; reflexivity].
Qed.

(** ** The registry of built-in shaders *)

Section Registry.

Import NodeTypeConfig.

Lemma str_mem_In (x : string) (xs : list string) : str_mem x xs = true <-> In x xs.
Proof.
  unfold str_mem. rewrite existsb_exists. split.
  - intros (y & Hy & Heq). apply String.eqb_eq in Heq. now subst.
  - intros H. exists x. split; [assumption | apply String.eqb_refl].
Qed.

(** The table of classes, checked entry by entry. *)
Lemma builtin_classes_checked :
  forallb
    (fun t =>
       existsb (fun kv => String.eqb (fst kv) t
                          && String.eqb (snd kv) (get_shader_class_name t))
               SHADER_TYPE_TO_CLASS
       && str_mem t SHADER_NODE_TYPES
       && forallb (fun t' => implb (String.eqb (get_shader_class_name t')
                                               (get_shader_class_name t))
                                   (String.eqb t' t))
                  BUILTIN_SHADER_TYPES)
    BUILTIN_SHADER_TYPES = true.
Proof. vm_compute. reflexivity. Qed.

End Registry.

(** X8. Every destination that passes [is_valid_builtin_shader] has an
    entry of its own in SHADER_TYPE_TO_CLASS, so [get_shader_class_name]
    never answers with its Principled default for it; its type is one of
    SHADER_NODE_TYPES; and two valid destinations of one class are the same
    destination. *)
Theorem X8_valid_builtin_has_its_own_class (t : string) :
  NodeTypeConfig.is_valid_builtin_shader t = true ->
  In (t, NodeTypeConfig.get_shader_class_name t) NodeTypeConfig.SHADER_TYPE_TO_CLASS
  /\ str_mem t NodeTypeConfig.SHADER_NODE_TYPES = true
  /\ forall t', NodeTypeConfig.is_valid_builtin_shader t' = true ->
                NodeTypeConfig.get_shader_class_name t' = NodeTypeConfig.get_shader_class_name t ->
                t' = t.
Proof.
  unfold NodeTypeConfig.is_valid_builtin_shader. intros Hv. apply str_mem_In in Hv.
  pose proof builtin_classes_checked as Hc. rewrite forallb_forall in Hc.
  specialize (Hc t Hv). rewrite !andb_true_iff in Hc. destruct Hc as [[Hin Hty] Hinj].
  split; [|split; [exact Hty|]].
  - apply existsb_exists in Hin. destruct Hin as ([k c] & Hkc & Heq).
    cbn [fst snd] in Heq. apply andb_true_iff in Heq. destruct Heq as [Hk Hcls].
    apply String.eqb_eq in Hk, Hcls. now subst.
  - intros t' Hv' Heq. apply str_mem_In in Hv'. rewrite forallb_forall in Hinj.
    specialize (Hinj t' Hv'). rewrite Heq, String.eqb_refl in Hinj. cbn [implb] in Hinj.
    now apply String.eqb_eq.
Qed.

Lemma X8_witness_emission :
  In ("EMISSION", NodeTypeConfig.get_shader_class_name "EMISSION")
     NodeTypeConfig.SHADER_TYPE_TO_CLASS
  /\ str_mem "EMISSION" NodeTypeConfig.SHADER_NODE_TYPES = true.
Proof.
  pose proof (X8_valid_builtin_has_its_own_class "EMISSION" eq_refl) as (Hin & Hty & _).
  split; [exact Hin | exact Hty].
Defined.

(** ** The rule list buttons *)


Lemma index_ok_spec (p : Props) (i : Z) :
  Frame.index_ok p i = true
  <-> connection_rules p = [] \/ 0 <= i < Z.of_nat (length (connection_rules p)).
Proof.
  unfold Frame.index_ok. destruct (connection_rules p) as [|r rs].
  - split; [now left | reflexivity].
  - rewrite andb_true_iff, Z.leb_le, Z.ltb_lt. split; [now right|].
    intros [H | H]; [discriminate | exact H].
Qed.

(** X9. The add and remove buttons keep the active index inside the rule
    list: from a state whose index points into the list (or whose list is
    empty), adding appends one rule and selects it, removing deletes exactly
    the rule the index points to, both leave the index inside the list again,
    and removing right after adding gives the rule list back. *)
Theorem X9_rule_list_index_stays_inside (p : Props) (i : Z) :
  Frame.index_ok p i = true ->
  let added := MATERIAL_OT_add_connection_rule.execute p i in
  let removed := MATERIAL_OT_remove_connection_rule.execute p i in
  let both := MATERIAL_OT_remove_connection_rule.execute (fst added) (snd added) in
  connection_rules (fst added) = connection_rules p ++ [default_rule]
  /\ snd added = Z.of_nat (length (connection_rules p))
  /\ Frame.index_ok (fst added) (snd added) = true
  /\ connection_rules (fst removed) = delete (Z.to_nat i) (connection_rules p)
  /\ Frame.index_ok (fst removed) (snd removed) = true
  /\ fst both = set_connection_rules p (connection_rules p)
  /\ snd both = Z.of_nat (length (connection_rules p)) - 1.
Proof.
  intros Hok added removed both. subst added removed both.
  unfold MATERIAL_OT_add_connection_rule.execute, MATERIAL_OT_remove_connection_rule.execute.
  cbn [fst snd set_connection_rules connection_rules].
  rewrite (index_ok_spec p i) in Hok.
  set (rules := connection_rules p) in *.
  assert (Hlen : Z.of_nat (length (rules ++ [default_rule])) = Z.of_nat (length rules) + 1)
    by (rewrite length_app; cbn [length]; lia).
  rewrite Hlen.
  replace (Z.of_nat (length rules) + 1 - 1) with (Z.of_nat (length rules)) by lia.
  split; [reflexivity|]. split; [reflexivity|]. split.
  { apply index_ok_spec. right. cbn [connection_rules set_connection_rules]. rewrite Hlen. lia. }
  assert (Hadd : (0 <=? Z.of_nat (length rules))
                 && (Z.of_nat (length rules) <? Z.of_nat (length rules) + 1) = true)
    by (apply andb_true_iff; rewrite Z.leb_le, Z.ltb_lt; lia).
  rewrite Hadd. rewrite Nat2Z.id.
  replace (delete (length rules) (rules ++ [default_rule])) with rules
    by (rewrite delete_middle; symmetry; apply app_nil_r).
  rewrite Z.leb_refl. cbn [fst snd].
  destruct Hok as [Hnil | Hin].
  - rewrite Hnil. cbn [length].
    replace ((0 <=? i) && (i <? Z.of_nat 0)) with false
      by (symmetry; apply andb_false_iff; destruct (0 <=? i) eqn:H0;
          [right; apply Z.ltb_ge; lia | now left]).
    cbn [fst snd]. fold rules. rewrite Hnil.
    split; [now destruct (Z.to_nat i)|]. split; [|split; reflexivity].
    apply index_ok_spec. left. exact Hnil.
  - assert (Hrange : (0 <=? i) && (i <? Z.of_nat (length rules)) = true)
      by (apply andb_true_iff; rewrite Z.leb_le, Z.ltb_lt; lia).
    rewrite Hrange.
    assert (Hdel : length (delete (Z.to_nat i) rules) = (length rules - 1)%nat)
      by (apply length_delete, lookup_lt_is_Some; lia).
    destruct (Z.of_nat (length (delete (Z.to_nat i) rules)) <=? i) eqn:Hle;
      cbn [fst snd set_connection_rules connection_rules];
      (split; [reflexivity|]); (split; [|split; reflexivity]);
      apply index_ok_spec; cbn [connection_rules set_connection_rules].
    + apply Z.leb_le in Hle.
      destruct (delete (Z.to_nat i) rules) as [|d ds] eqn:Hd; [now left|].
      right. cbn [length] in *. lia.
    + apply Z.leb_gt in Hle. right. lia.
Qed.

Lemma X9_witness_two_rules :
  let p := set_connection_rules (Scene.settings ALL "NONE" true) [default_rule; default_rule] in
  connection_rules (fst (MATERIAL_OT_remove_connection_rule.execute p 1)) = [default_rule]
  /\ Frame.index_ok (fst (MATERIAL_OT_remove_connection_rule.execute p 1))
                    (snd (MATERIAL_OT_remove_connection_rule.execute p 1)) = true.
Proof.
  intros p.
  pose proof (X9_rule_list_index_stays_inside p 1 eq_refl) as (_ & _ & _ & Hd & Hi & _).
  split; [exact Hd | exact Hi].
Defined.

(** ** Mutually exclusive choices *)

Section Choices.

Import ShaderReplacerProperties MATERIAL_OT_batch_replace_shader.

(** Every identifier the dynamic enum offers is a node group position or a
    built-in of the menu: none is empty and none is 'NONE'. *)
Lemma material_specific_items_named (h : Host) (c : NodeGroupCache.State) (x : string) :
  In x (material_specific_items h c) -> nonempty x = true /\ x <> "NONE".
Proof.
  unfold material_specific_items, get_available_shaders_for_specific, get_available_shaders.
  destruct (NodeGroupCache.get_sorted_shader_node_groups h c) as [groups c'].
  cbn [fst].
  set (named := map _ (enumerate groups)).
  assert (Hitems : forall y, In y (named ++ BUILTIN_SHADERS_FOR_MENU) ->
                             nonempty (fst (fst y)) = true /\ fst (fst y) <> "NONE").
  { intros y Hy. apply in_app_or in Hy. destruct Hy as [Hy | Hy].
    - subst named. apply in_map_iff in Hy. destruct Hy as (ing & <- & _).
      destruct (has_chinese (ng_name (snd ing))); cbn [fst];
        cbv [String.append]; split; [reflexivity | discriminate | reflexivity | discriminate].
    - assert (Hc : forallb (fun y => nonempty (fst (fst y))
                                     && negb (String.eqb (fst (fst y)) "NONE"))
                           BUILTIN_SHADERS_FOR_MENU = true) by (vm_compute; reflexivity).
      rewrite forallb_forall in Hc. specialize (Hc y Hy).
      apply andb_true_iff in Hc. destruct Hc as [Hn Hne]. split; [exact Hn|].
      apply negb_true_iff, String.eqb_neq in Hne. exact Hne. }
  intros Hx. apply in_map_iff in Hx. destruct Hx as (y & <- & Hy).
  apply Hitems. destruct (named ++ BUILTIN_SHADERS_FOR_MENU) as [|z zs] eqn:Hl; [|exact Hy].
  apply app_eq_nil in Hl. destruct Hl as [_ Hl]. discriminate Hl.
Qed.

Lemma chosen_shader_builtin (builtin : string) (nodegroup : option string) :
  nonempty builtin = true -> builtin <> "NONE" -> chosen_shader builtin nodegroup = builtin.
Proof.
  intros Hn Hne. unfold chosen_shader. rewrite Hn.
  apply String.eqb_neq in Hne. now rewrite Hne.
Qed.

End Choices.

(** X10. What the update callbacks do to a pair of choices.  For the
    destination pair and for the specific pair, whose built-in is a static
    enum with the item 'NONE', a built-in and a node group never stand
    together after an assignment, and the shader the operators read from the
    pair ([chosen_shader]) is the one just assigned: the built-in just chosen
    (the node group that was there when 'NONE' is chosen), or the node group
    just chosen (the built-in that was there when the group is unset); an
    identifier that is no item is refused and changes nothing.  For the
    material-specific pair the built-in is a dynamic enum whose items never
    include 'NONE': choosing a built-in unsets the node group, but choosing a
    node group cannot store 'NONE', so the built-in stays as it was, and when
    it is one of the items the operators go on reading the built-in and not
    the node group just chosen. *)
Theorem X10_group_choice_clears_static_enums_only
        (h : Host) (c : NodeGroupCache.State) (p : Props)
        (value : string) (group : option string) :
  let items := ShaderReplacerProperties.material_specific_items h c in
  let exclusive (builtin : string) (nodegroup : option string) :=
    builtin = "NONE" \/ nodegroup = None in
  let after_builtin (old_group : option string) :=
    if String.eqb value "NONE" then Frame.group_name old_group else value in
  let after_group (old_builtin : string) :=
    match group with
    | Some name => name
    | None => MATERIAL_OT_batch_replace_shader.chosen_shader old_builtin None
    end in
  let p1 := ShaderReplacerProperties.set_builtin_shader p value in
  let p2 := ShaderReplacerProperties.set_shader_nodegroup p group in
  let p3 := ShaderReplacerProperties.set_specific_builtin_shader p value in
  let p4 := ShaderReplacerProperties.set_specific_nodegroup p group in
  let p5 := ShaderReplacerProperties.set_material_specific_builtin_shader items p value in
  let p6 := ShaderReplacerProperties.set_material_specific_nodegroup items p group in
  ((str_mem value ShaderReplacerProperties.builtin_shader_items = false /\ p1 = p /\ p3 = p)
   \/ (str_mem value ShaderReplacerProperties.builtin_shader_items = true
       /\ exclusive (builtin_shader p1) (shader_nodegroup p1)
       /\ MATERIAL_OT_batch_replace_shader.chosen_shader
            (builtin_shader p1) (shader_nodegroup p1)
          = after_builtin (shader_nodegroup p)
       /\ exclusive (specific_builtin_shader p3) (specific_nodegroup p3)
       /\ MATERIAL_OT_batch_replace_shader.chosen_shader
            (specific_builtin_shader p3) (specific_nodegroup p3)
          = after_builtin (specific_nodegroup p)))
  /\ (exclusive (builtin_shader p2) (shader_nodegroup p2)
      /\ MATERIAL_OT_batch_replace_shader.chosen_shader (builtin_shader p2) (shader_nodegroup p2)
         = after_group (builtin_shader p))
  /\ (exclusive (specific_builtin_shader p4) (specific_nodegroup p4)
      /\ MATERIAL_OT_batch_replace_shader.chosen_shader
           (specific_builtin_shader p4) (specific_nodegroup p4)
         = after_group (specific_builtin_shader p))
  /\ str_mem "NONE" items = false
  /\ ((str_mem value items = false /\ p5 = p)
      \/ (str_mem value items = true
          /\ material_specific_builtin_shader p5 = value
          /\ material_specific_nodegroup p5 = None
          /\ MATERIAL_OT_batch_replace_shader.chosen_shader
               (material_specific_builtin_shader p5) (material_specific_nodegroup p5)
             = value))
  /\ material_specific_builtin_shader p6 = material_specific_builtin_shader p
  /\ material_specific_nodegroup p6 = group
  /\ (str_mem (material_specific_builtin_shader p) items = true ->
      MATERIAL_OT_batch_replace_shader.chosen_shader
        (material_specific_builtin_shader p6) (material_specific_nodegroup p6)
      = material_specific_builtin_shader p).
Proof.
  intros items exclusive after_builtin after_group p1 p2 p3 p4 p5 p6.
  assert (Hnone : str_mem "NONE" items = false).
  { destruct (str_mem "NONE" items) eqn:Hm; [|reflexivity].
    apply str_mem_In, material_specific_items_named in Hm. now destruct Hm. }
  assert (Hstatic : str_mem "NONE" ShaderReplacerProperties.builtin_shader_items = true)
    by reflexivity.
  subst exclusive after_builtin after_group p1 p2 p3 p4 p5 p6. cbv beta.
  unfold ShaderReplacerProperties.set_builtin_shader,
    ShaderReplacerProperties.set_shader_nodegroup,
    ShaderReplacerProperties.set_specific_builtin_shader,
    ShaderReplacerProperties.set_specific_nodegroup,
    ShaderReplacerProperties.set_material_specific_builtin_shader,
    ShaderReplacerProperties.set_material_specific_nodegroup,
    ShaderReplacerProperties._on_builtin_shader_changed,
    ShaderReplacerProperties._on_shader_nodegroup_changed,
    ShaderReplacerProperties._on_specific_builtin_shader_changed,
    ShaderReplacerProperties._on_specific_nodegroup_changed,
    ShaderReplacerProperties._on_material_specific_builtin_shader_changed,
    ShaderReplacerProperties._on_material_specific_nodegroup_changed,
    ShaderReplacerProperties.enum_assign.
  rewrite Hnone, Hstatic.
  split; [|split; [|split; [|split; [reflexivity|split; [|split; [|split]]]]]].
  - destruct (str_mem value ShaderReplacerProperties.builtin_shader_items) eqn:Hv;
      [right | left; auto].
    split; [reflexivity|].
    cbn [ShaderReplacerProperties.with_shader ShaderReplacerProperties.with_specific
         builtin_shader shader_nodegroup specific_builtin_shader specific_nodegroup].
    unfold MATERIAL_OT_batch_replace_shader.chosen_shader, Frame.group_name.
    destruct (String.eqb value "NONE") eqn:Hn;
      cbn [negb andb builtin_shader shader_nodegroup specific_builtin_shader
           specific_nodegroup ShaderReplacerProperties.with_shader
           ShaderReplacerProperties.with_specific];
      rewrite ?Hn; try (apply String.eqb_eq in Hn; subst value);
      cbn [negb andb nonempty String.eqb Ascii.eqb Bool.eqb];
      repeat split; first [ now left | now right | reflexivity | now destruct value ].
  - unfold MATERIAL_OT_batch_replace_shader.chosen_shader.
    destruct group as [g|];
      cbn [ShaderReplacerProperties.with_shader builtin_shader shader_nodegroup
           negb andb nonempty String.eqb Ascii.eqb Bool.eqb];
      split; first [ now left | now right | reflexivity ].
  - unfold MATERIAL_OT_batch_replace_shader.chosen_shader.
    destruct group as [g|];
      cbn [ShaderReplacerProperties.with_specific specific_builtin_shader specific_nodegroup
           negb andb nonempty String.eqb Ascii.eqb Bool.eqb];
      split; first [ now left | now right | reflexivity ].
  - destruct (str_mem value items) eqn:Hv; [right | left; auto].
    apply str_mem_In, material_specific_items_named in Hv. destruct Hv as [Hn Hne].
    apply String.eqb_neq in Hne.
    cbn [ShaderReplacerProperties.with_material_specific material_specific_builtin_shader
         material_specific_nodegroup].
    rewrite Hne.
    cbn [negb ShaderReplacerProperties.with_material_specific
         material_specific_builtin_shader material_specific_nodegroup].
    split; [reflexivity|]. split; [reflexivity|]. split; [reflexivity|].
    apply chosen_shader_builtin; [exact Hn | now apply String.eqb_neq].
  - destruct group as [g|];
      cbn [ShaderReplacerProperties.with_material_specific material_specific_builtin_shader
           material_specific_nodegroup]; reflexivity.
  - destruct group as [g|];
      cbn [ShaderReplacerProperties.with_material_specific material_specific_builtin_shader
           material_specific_nodegroup]; reflexivity.
  - intros Hold. apply str_mem_In, material_specific_items_named in Hold.
    destruct Hold as [Hn Hne].
    destruct group as [g|];
      cbn [ShaderReplacerProperties.with_material_specific material_specific_builtin_shader
           material_specific_nodegroup];
      now apply chosen_shader_builtin.
Qed.

(** ** The node group cache *)

Section GroupCache.

Import NodeGroupCache.

Lemma insert_by_name_perm (g : NodeGroup) (gs : list NodeGroup) :
  Permutation (insert_by_name g gs) (g :: gs).
Proof.
  induction gs as [|g' gs IH]; simpl; [reflexivity|].
  destruct (String.leb (ng_name g) (ng_name g')); [reflexivity|].
  rewrite IH. apply perm_swap.
Qed.

Lemma sorted_by_name_perm (gs : list NodeGroup) : Permutation (sorted_by_name gs) gs.
Proof.
  induction gs as [|g gs IH]; simpl; [reflexivity|].
  rewrite insert_by_name_perm. now constructor.
Qed.

Lemma ascending_insert (g : NodeGroup) (gs : list NodeGroup) :
  Frame.ascending gs = true -> Frame.ascending (insert_by_name g gs) = true.
Proof.
  induction gs as [|a gs IH]; [reflexivity|]. intros Hasc. cbn [insert_by_name].
  destruct (String.leb (ng_name g) (ng_name a)) eqn:Hle.
  - cbn [Frame.ascending]. rewrite Hle. exact Hasc.
  - assert (Hag : String.leb (ng_name a) (ng_name g) = true).
    { destruct (String.leb_total (ng_name g) (ng_name a)) as [H | H]; [congruence | exact H]. }
    destruct gs as [|b gs].
    + cbn [insert_by_name Frame.ascending]. now rewrite Hag.
    + cbn [Frame.ascending] in Hasc. apply andb_true_iff in Hasc. destruct Hasc as [Hab Hrest].
      specialize (IH Hrest). cbn [insert_by_name] in *.
      destruct (String.leb (ng_name g) (ng_name b)).
      * cbn [Frame.ascending] in *. now rewrite Hag.
      * cbn [Frame.ascending] in *. now rewrite Hab.
Qed.

Lemma ascending_sorted (gs : list NodeGroup) : Frame.ascending (sorted_by_name gs) = true.
Proof.
  induction gs as [|g gs IH]; [reflexivity|]. simpl. now apply ascending_insert.
Qed.

End GroupCache.

(** X11. When the cache is empty or the number of node groups has changed,
    [get_sorted_shader_node_groups] answers with the node groups of type
    SHADER, all of them and no other, in ascending order of name, and stores
    that answer; an invalidated cache gives the same answer.  The stored
    answer is then returned as it is for as long as the number of node groups
    stays the same, whatever the groups are. *)
Theorem X11_group_cache_sorted_until_count_changes (h h' : Host) (c : NodeGroupCache.State) :
  NodeGroupCache._sorted_groups c = None
  \/ NodeGroupCache._last_count c <> length (node_groups h) ->
  length (node_groups h') = length (node_groups h) ->
  let r := NodeGroupCache.get_sorted_shader_node_groups h c in
  Frame.ascending (fst r) = true
  /\ Permutation (fst r)
                 (List.filter (fun ng => String.eqb (ng_type ng) "SHADER") (node_groups h))
  /\ NodeGroupCache.get_sorted_shader_node_groups h (NodeGroupCache.invalidate c) = r
  /\ NodeGroupCache.get_sorted_shader_node_groups h' (snd r) = r.
Proof.
  intros Hstale Hcount r.
  assert (Hr : r = (let gs := NodeGroupCache.sorted_by_name
                                (List.filter (fun ng => String.eqb (ng_type ng) "SHADER")
                                             (node_groups h)) in
                    (gs, {| NodeGroupCache._sorted_groups := Some gs;
                            NodeGroupCache._last_count := length (node_groups h) |}))).
  { subst r. unfold NodeGroupCache.get_sorted_shader_node_groups.
    destruct (NodeGroupCache._sorted_groups c) as [gs|]; [|reflexivity].
    destruct Hstale as [[=] | Hne]. apply Nat.eqb_neq in Hne. now rewrite Hne. }
  rewrite Hr. cbn [fst snd]. split; [apply ascending_sorted|].
  split; [apply sorted_by_name_perm|]. split; [reflexivity|].
  unfold NodeGroupCache.get_sorted_shader_node_groups.
  cbn [NodeGroupCache._sorted_groups NodeGroupCache._last_count].
  now rewrite Hcount, Nat.eqb_refl.
Qed.

Lemma X11_witness_renamed_group :
  let toon := {| ng_name := "Toon"; ng_type := "SHADER"; ng_inputs := []; ng_outputs := [] |} in
  let skin := {| ng_name := "Skin"; ng_type := "SHADER"; ng_inputs := []; ng_outputs := [] |} in
  let blur := {| ng_name := "Blur"; ng_type := "COMPOSITING"; ng_inputs := []; ng_outputs := [] |} in
  let cell := {| ng_name := "Cell"; ng_type := "SHADER"; ng_inputs := []; ng_outputs := [] |} in
  let h := {| host_accepts := fun _ => true; node_groups := [toon; blur; skin];
              node_class := fun _ => None |} in
  let h' := {| host_accepts := fun _ => true; node_groups := [cell; blur; skin];
               node_class := fun _ => None |} in
  let r := NodeGroupCache.get_sorted_shader_node_groups h NodeGroupCache.initial in
  fst r = [skin; toon]
  /\ NodeGroupCache.get_sorted_shader_node_groups h' (snd r) = r.
Proof.
  intros toon skin blur cell h h' r.
  pose proof (X11_group_cache_sorted_until_count_changes
                h h' NodeGroupCache.initial (or_introl eq_refl) eq_refl) as (_ & _ & _ & Hsame).
  split; [reflexivity | exact Hsame].
Defined.

(** ** Matching nodes for the connection rules *)

Section Matching.

(** A stripped text is a piece of the text. *)
Lemma str_in_strip (s : string) : str_in (strip s) s = true.
Proof.
  apply str_in_spec. unfold strip.
  destruct (lstrip_suffix (code_points s)) as [pre Hpre].
  destruct (rstrip_prefix (lstrip (code_points s))) as [post Hpost].
  exists (utf8 pre), (utf8 post).
  rewrite <- !utf8_app, <- Hpost, <- Hpre. symmetry. apply utf8_code_points.
Qed.

Lemma str_in_empty (s : string) : str_in "" s = true.
Proof. destruct s; reflexivity. Qed.

(** The display names of the table, looked up in reverse. *)
Lemma reverse_names_checked :
  forallb
    (fun kv =>
       match NodeMatch.NODE_TYPE_NAMES_REVERSE (snd kv) with
       | Some t => String.eqb t (if String.eqb (fst kv) "BSDF_GLOSSY" then "BSDF_SHEEN"
                                 else fst kv)
       | None => false
       end)
    NodeMatch.NODE_TYPE_NAMES = true.
Proof. vm_compute. reflexivity. Qed.

End Matching.

(** X12. Matching a node by label or name is a substring test that ignores
    case: with the target lower-cased and stripped, a node matches exactly
    when the target is not empty and is contained in the lower-cased label
    (if the node has one) or in the lower-cased name; the two exact
    comparisons of the function add nothing.  So a target that is not empty
    but is stripped to the empty text (one blank, one ideographic space)
    matches every node, and a rule that selects by that label selects all
    nodes, while the empty target matches none.  Case is ignored beyond
    ASCII. *)
Theorem X12_label_match_is_substring_test (node : Node) (target_name : string) :
  let target_name_lower := strip (lower target_name) in
  NodeMatch.match_node_by_label_or_name node target_name
  = nonempty target_name
    && ((nonempty (node_label node) && str_in target_name_lower (lower (node_label node)))
        || str_in target_name_lower (lower (node_name node)))
  /\ (nonempty target_name = true -> target_name_lower = "" ->
      NodeMatch.match_node_by_label_or_name node target_name = true)
  /\ NodeMatch.match_node_by_label_or_name node " " = true
  /\ NodeMatch.match_node_by_label_or_name node "　" = true
  /\ NodeMatch.match_node_by_label_or_name node "" = false
  /\ (node_name node = "Émission Цвет" ->
      NodeMatch.match_node_by_label_or_name node "ÉMISSION" = true
      /\ NodeMatch.match_node_by_label_or_name node " цвет " = true)
  /\ forall nodes type,
      MATERIAL_OT_reconnect_with_rules.rule_nodes nodes LABEL " " type = nodes
      /\ MATERIAL_OT_reconnect_with_rules.rule_nodes nodes LABEL "　" type = nodes.
Proof.
  intros target_name_lower.
  assert (Hmain : forall target,
             NodeMatch.match_node_by_label_or_name node target
             = nonempty target
               && ((nonempty (node_label node)
                    && str_in (strip (lower target)) (lower (node_label node)))
                   || str_in (strip (lower target)) (lower (node_name node)))).
  { intros target. unfold NodeMatch.match_node_by_label_or_name.
    destruct (nonempty target); [|reflexivity]. cbn [negb andb].
    destruct (nonempty (node_label node)) eqn:Hlabel; cbn [andb].
    + destruct (String.eqb_spec (strip (lower (node_label node))) (strip (lower target)))
        as [Heq | Hne].
      * rewrite <- Heq, str_in_strip. reflexivity.
      * destruct (String.eqb_spec (strip (lower (node_name node))) (strip (lower target)))
          as [Heq' | Hne']; [|reflexivity].
        rewrite <- Heq', (str_in_strip (lower (node_name node))). now rewrite orb_true_r.
    + destruct (String.eqb_spec (strip (lower (node_name node))) (strip (lower target)))
        as [Heq' | Hne']; [|reflexivity].
      rewrite <- Heq'. now rewrite str_in_strip. }
  assert (Hblank : forall n target,
             nonempty target = true -> strip (lower target) = "" ->
             NodeMatch.match_node_by_label_or_name n target = true).
  { intros n target Hn Hs. unfold NodeMatch.match_node_by_label_or_name.
    rewrite Hn, Hs. cbn [negb]. rewrite !str_in_empty. repeat case_match; reflexivity. }
  assert (Hall : forall nodes target type,
             nonempty target = true -> strip (lower target) = "" ->
             MATERIAL_OT_reconnect_with_rules.rule_nodes nodes LABEL target type = nodes).
  { intros nodes target type Hn Hs. unfold MATERIAL_OT_reconnect_with_rules.rule_nodes.
    rewrite Hn. induction nodes as [|n nodes IH]; [reflexivity|].
    cbn [List.filter]. rewrite (Hblank n target Hn Hs). now f_equal. }
  split; [apply Hmain|].
  split; [apply Hblank|].
  split; [apply Hblank; vm_compute; reflexivity|].
  split; [apply Hblank; vm_compute; reflexivity|].
  split; [reflexivity|].
  split.
  - intros Hname. rewrite !Hmain, Hname. split.
    + replace (str_in (strip (lower "ÉMISSION")) (lower "Émission Цвет")) with true
        by (vm_compute; reflexivity).
      cbn [nonempty andb]. now rewrite orb_true_r.
    + replace (str_in (strip (lower " цвет ")) (lower "Émission Цвет")) with true
        by (vm_compute; reflexivity).
      cbn [nonempty andb]. now rewrite orb_true_r.
  - intros nodes type. split; apply Hall; vm_compute; reflexivity.
Qed.

(** X13. Matching a node by type accepts the node's own type and the
    display name of the table NODE_TYPE_NAMES: the node matches exactly when
    the target is not empty and is the node's type or a display name whose
    reverse lookup gives the node's type.  The reverse lookup of the display
    name of an entry gives the type of that entry, except for BSDF_GLOSSY,
    whose display name is also that of BSDF_SHEEN and gives BSDF_SHEEN. *)
Theorem X13_type_match_and_display_names (node : Node) (target_type : string) :
  NodeMatch.match_node_by_type node target_type
  = nonempty target_type
    && (String.eqb (node_type node) target_type
        || match NodeMatch.NODE_TYPE_NAMES_REVERSE target_type with
           | Some english_type => String.eqb (node_type node) english_type
           | None => false
           end)
  /\ forall type display,
      In (type, display) NodeMatch.NODE_TYPE_NAMES ->
      NodeMatch.NODE_TYPE_NAMES_REVERSE display
      = Some (if String.eqb type "BSDF_GLOSSY" then "BSDF_SHEEN" else type).
Proof.
  split.
  - unfold NodeMatch.match_node_by_type.
    destruct (nonempty target_type); [|reflexivity]. cbn [negb andb].
    destruct (String.eqb_spec (node_type node) target_type) as [Heq | Hne]; [reflexivity|].
    cbn [orb].
    destruct (String.eqb_spec target_type "GROUP") as [-> | Hg]; [|reflexivity].
    destruct (String.eqb_spec (node_type node) "GROUP") as [Heq | Hne']; [contradiction|].
    reflexivity.
  - intros type display Hin. pose proof reverse_names_checked as Hc.
    rewrite forallb_forall in Hc. specialize (Hc _ Hin). cbn [fst snd] in Hc.
    destruct (NodeMatch.NODE_TYPE_NAMES_REVERSE display) as [t|]; [|discriminate].
    apply String.eqb_eq in Hc. now subst.
Qed.

(** ** Searching a socket list *)

Section SocketSearch.

Lemma find_enumerate_from {A} (p : A -> bool) (xs : list A) (k : nat) :
  match List.find (fun ix => p (snd ix)) (combine (seq k (length xs)) xs) with
  | Some (i, x) =>
      (k <= i)%nat /\ xs !! (i - k)%nat = Some x /\ p x = true
      /\ forall j y, xs !! j = Some y -> (j < i - k)%nat -> p y = false
  | None => forall y, In y xs -> p y = false
  end.
Proof.
  revert k. induction xs as [|x xs IH]; intros k; simpl; [tauto|].
  destruct (p x) eqn:Hp.
  - split; [lia|]. rewrite Nat.sub_diag. split; [reflexivity|]. split; [assumption|].
    intros j y _ Hj. lia.
  - specialize (IH (S k)). destruct (List.find _ _) as [[i y]|].
    + destruct IH as (Hle & Hl & Hpy & Hfirst). split; [lia|].
      replace (i - k)%nat with (S (i - S k)) by lia. split; [exact Hl|]. split; [exact Hpy|].
      intros j z Hz Hj. destruct j as [|j]; [simpl in Hz; congruence|].
      apply (Hfirst j z Hz). lia.
    + intros y [<- | Hy]; [assumption | now apply IH].
Qed.

Lemma find_index_spec (p : Socket -> bool) (sockets : list Socket) :
  match find_index p sockets with
  | Some i => Frame.first_with p sockets i
  | None => Frame.none_with p sockets
  end.
Proof.
  unfold find_index, enumerate. pose proof (find_enumerate_from p sockets 0) as H.
  destruct (List.find _ _) as [[i x]|]; [|exact H].
  cbn [fst]. rewrite Nat.sub_0_r in H. destruct H as (_ & Hl & Hp & Hfirst).
  exists x. auto.
Qed.

Lemma first_with_lt (p : Socket -> bool) (sockets : list Socket) (i : nat) :
  Frame.first_with p sockets i -> (i < length sockets)%nat.
Proof. intros (s & Hs & _). now apply lookup_lt_Some in Hs. Qed.

Lemma first_by_priority_lt (tests : list (Socket -> bool)) (sockets : list Socket) (i : nat) :
  Frame.first_by_priority tests sockets i -> (i < length sockets)%nat.
Proof.
  induction tests as [|p tests IH]; simpl.
  - intros [-> Hne]. destruct sockets; [contradiction | simpl; lia].
  - intros [H | [_ H]]; [now apply first_with_lt in H | auto].
Qed.

End SocketSearch.

(** X14. The output of the new node that takes over an outgoing link is
    found by a chain of priorities: the first output with the original name;
    failing that the first output with that name up to case; failing that the
    first output of the original type; failing that the first output.  The
    search fails only on a node without outputs, its answer is always a
    position of the node's outputs, and the outputs already used play no
    part; the second test ignores case beyond ASCII.  [_find_shader_output]
    is the same chain with the single test "type SHADER". *)
Theorem X14_output_socket_priority_chain (shader_node : Node)
        (original_name original_type : string) (connected_outputs : list nat) :
  let outs := node_outputs shader_node in
  let chain (tests : list (Socket -> bool)) (r : option nat) :=
    match r with
    | Some i => Frame.first_by_priority tests outs i /\ (i < length outs)%nat
    | None => outs = []
    end in
  chain [ fun out => String.eqb (sock_name out) original_name;
          fun out => String.eqb (lower (sock_name out)) (lower original_name);
          fun out => String.eqb (sock_type out) original_type ]
        (MATERIAL_OT_batch_replace_shader._find_best_output_socket
           shader_node original_name original_type connected_outputs)
  /\ chain [ fun out => String.eqb (sock_type out) "SHADER" ]
           (MATERIAL_OT_batch_replace_shader._find_shader_output shader_node)
  /\ MATERIAL_OT_batch_replace_shader._find_best_output_socket
       shader_node original_name original_type connected_outputs
     = MATERIAL_OT_batch_replace_shader._find_best_output_socket
         shader_node original_name original_type []
  /\ (outs = [Scene.sock "BSDF" "SHADER"; Scene.sock "цвет" "RGBA"] ->
      MATERIAL_OT_batch_replace_shader._find_best_output_socket
        shader_node "Цвет" "SHADER" connected_outputs = Some 1%nat).
Proof.
  intros outs chain.
  assert (Hchain : forall tests r,
             match r with
             | Some i => Frame.first_by_priority tests outs i
             | None => outs = []
             end -> chain tests r).
  { intros tests [i|] H; cbn; [|exact H]. split; [exact H|].
    now apply first_by_priority_lt in H. }
  split; [|split; [|split; [reflexivity|]]]; [apply Hchain | apply Hchain |];
    unfold MATERIAL_OT_batch_replace_shader._find_best_output_socket,
      MATERIAL_OT_batch_replace_shader._find_shader_output, socket_named; fold outs.
  - pose proof (find_index_spec (fun s => String.eqb (sock_name s) original_name) outs) as H1.
    destruct (find_index _ outs) as [i|]; [now left|].
    pose proof (find_index_spec
                  (fun out => String.eqb (lower (sock_name out)) (lower original_name)) outs)
      as H2.
    destruct (find_index _ outs) as [i|]; [right; split; [exact H1 | now left]|].
    pose proof (find_index_spec (fun out => String.eqb (sock_type out) original_type) outs)
      as H3.
    destruct (find_index _ outs) as [i|];
      [right; split; [exact H1|]; right; split; [exact H2 | now left]|].
    destruct outs as [|o outs']; [reflexivity|].
    right. split; [exact H1|]. right. split; [exact H2|]. right. split; [exact H3|].
    split; [reflexivity | discriminate].
  - pose proof (find_index_spec (fun out => String.eqb (sock_type out) "SHADER") outs) as H1.
    destruct (find_index _ outs) as [i|]; [now left|].
    destruct outs as [|o outs']; [reflexivity|].
    right. split; [exact H1|]. split; [reflexivity | discriminate].
  - intros Houts. rewrite Houts. vm_compute. reflexivity.
Qed.

(** ** The semantic scan of the auto-connection *)

Section SemanticScan.

Import AutoConnectionRules.

Variables (out_semantic : Semantic) (connected_inputs : list nat).

(** The scan over the inputs from position [k] on, started with [best]:
    either nothing beats [best], or the answer is the first free input of
    the greatest score, and that score beats [best]. *)
Lemma best_scan (ins : list Socket) (k : nat) (best : option nat * Z) :
  let r := fold_left (Frame.scan_step out_semantic connected_inputs)
                     (combine (seq k (length ins)) ins) best in
  (r = best
   /\ forall j inp, ins !! j = Some inp -> nat_mem (k + j) connected_inputs = false ->
                    Frame.semantic_score out_semantic inp <= snd best)
  \/ exists i inp,
      r = (Some (k + i)%nat, Frame.semantic_score out_semantic inp)
      /\ ins !! i = Some inp
      /\ nat_mem (k + i) connected_inputs = false
      /\ snd best < Frame.semantic_score out_semantic inp
      /\ forall j inp', ins !! j = Some inp' -> nat_mem (k + j) connected_inputs = false ->
                        Frame.semantic_score out_semantic inp'
                        <= Frame.semantic_score out_semantic inp
                        /\ ((j < i)%nat ->
                            Frame.semantic_score out_semantic inp'
                            < Frame.semantic_score out_semantic inp).
Proof.
  revert k best. induction ins as [|x ins IH]; intros k best r; subst r;
    cbn [length seq combine fold_left].
  - left. split; [reflexivity|]. intros j inp [=].
  - assert (Hstep : Frame.scan_step out_semantic connected_inputs best (k, x)
                    = if nat_mem k connected_inputs then best
                      else if snd best <? Frame.semantic_score out_semantic x
                           then (Some k, Frame.semantic_score out_semantic x) else best)
      by reflexivity.
    rewrite Hstep. clear Hstep.
    destruct (nat_mem k connected_inputs) eqn:Hk.
    + destruct (IH (S k) best) as [[Hr Hall] | (i & inp & Hr & Hi & Hfree & Hbeat & Hall)].
      * left. split; [exact Hr|]. intros [|j] inp Hj Hf.
        -- rewrite Nat.add_0_r in Hf. congruence.
        -- apply (Hall j inp Hj). now rewrite <- Nat.add_succ_comm in Hf.
      * right. exists (S i), inp. rewrite <- Nat.add_succ_comm.
        split; [exact Hr|]. split; [exact Hi|]. split; [exact Hfree|]. split; [exact Hbeat|].
        intros [|j] inp' Hj Hf.
        -- rewrite Nat.add_0_r in Hf. congruence.
        -- rewrite <- Nat.add_succ_comm in Hf. destruct (Hall j inp' Hj Hf) as [Hle Hlt].
           split; [exact Hle | intros ?; apply Hlt; lia].
    + destruct (snd best <? Frame.semantic_score out_semantic x) eqn:Hlt.
      * apply Z.ltb_lt in Hlt.
        destruct (IH (S k) (Some k, Frame.semantic_score out_semantic x))
          as [[Hr Hall] | (i & inp & Hr & Hi & Hfree & Hbeat & Hall)].
        -- right. exists 0%nat, x. rewrite Nat.add_0_r.
           split; [exact Hr|]. split; [reflexivity|]. split; [exact Hk|]. split; [exact Hlt|].
           intros [|j] inp' Hj Hf.
           ++ injection Hj as <-. split; [lia | intros ?; lia].
           ++ rewrite <- Nat.add_succ_comm in Hf. specialize (Hall j inp' Hj Hf).
              cbn [snd] in Hall. split; [exact Hall | intros ?; lia].
        -- right. exists (S i), inp. rewrite <- Nat.add_succ_comm. cbn [snd] in Hbeat.
           split; [exact Hr|]. split; [exact Hi|]. split; [exact Hfree|]. split; [lia|].
           intros [|j] inp' Hj Hf.
           ++ injection Hj as <-. split; [lia | intros _; exact Hbeat].
           ++ rewrite <- Nat.add_succ_comm in Hf. destruct (Hall j inp' Hj Hf) as [Hle Hl].
              split; [exact Hle | intros ?; apply Hl; lia].
      * apply Z.ltb_ge in Hlt.
        destruct (IH (S k) best) as [[Hr Hall] | (i & inp & Hr & Hi & Hfree & Hbeat & Hall)].
        -- left. split; [exact Hr|]. intros [|j] inp Hj Hf.
           ++ injection Hj as <-. exact Hlt.
           ++ apply (Hall j inp Hj). now rewrite <- Nat.add_succ_comm in Hf.
        -- right. exists (S i), inp. rewrite <- Nat.add_succ_comm.
           split; [exact Hr|]. split; [exact Hi|]. split; [exact Hfree|]. split; [exact Hbeat|].
           intros [|j] inp' Hj Hf.
           ++ injection Hj as <-. split; [lia | intros _; lia].
           ++ rewrite <- Nat.add_succ_comm in Hf. destruct (Hall j inp' Hj Hf) as [Hle Hl].
              split; [exact Hle | intros ?; apply Hl; lia].
Qed.

Lemma best_input_spec (ins : list Socket) :
  (best_input out_semantic ins connected_inputs = (None, 0)
   /\ forall j inp, ins !! j = Some inp -> nat_mem j connected_inputs = false ->
                    Frame.semantic_score out_semantic inp <= 0)
  \/ exists i inp,
      best_input out_semantic ins connected_inputs
      = (Some i, Frame.semantic_score out_semantic inp)
      /\ ins !! i = Some inp
      /\ nat_mem i connected_inputs = false
      /\ 0 < Frame.semantic_score out_semantic inp
      /\ forall j inp', ins !! j = Some inp' -> nat_mem j connected_inputs = false ->
                        Frame.semantic_score out_semantic inp'
                        <= Frame.semantic_score out_semantic inp
                        /\ ((j < i)%nat ->
                            Frame.semantic_score out_semantic inp'
                            < Frame.semantic_score out_semantic inp).
Proof.
  pose proof (best_scan ins 0 (None, 0)) as H. cbv zeta in H.
  unfold best_input, enumerate. cbn [snd] in H. exact H.
Qed.

End SemanticScan.

(** X15. The semantic scan [best_input] of the auto-connection answers with
    the free input of greatest compatibility with the source semantic, the
    lowest-numbered one among equals, and with that compatibility, which is
    positive; it answers with no input and 0 exactly when no free input has a
    positive compatibility. *)
Theorem X15_best_input_is_first_maximum (out_semantic : Semantic) (ins : list Socket)
        (connected_inputs : list nat) :
  (AutoConnectionRules.best_input out_semantic ins connected_inputs = (None, 0)
   /\ forall j inp, ins !! j = Some inp -> nat_mem j connected_inputs = false ->
                    Frame.semantic_score out_semantic inp <= 0)
  \/ exists i inp,
      AutoConnectionRules.best_input out_semantic ins connected_inputs
      = (Some i, Frame.semantic_score out_semantic inp)
      /\ ins !! i = Some inp
      /\ nat_mem i connected_inputs = false
      /\ 0 < Frame.semantic_score out_semantic inp
      /\ forall j inp', ins !! j = Some inp' -> nat_mem j connected_inputs = false ->
                        Frame.semantic_score out_semantic inp'
                        <= Frame.semantic_score out_semantic inp
                        /\ ((j < i)%nat ->
                            Frame.semantic_score out_semantic inp'
                            < Frame.semantic_score out_semantic inp).
Proof.
  pose proof (best_scan out_semantic connected_inputs ins 0 (None, 0)) as H.
  cbv zeta in H. unfold AutoConnectionRules.best_input, enumerate. cbn [snd] in H.
  destruct H as [[Hr Hall] | (i & inp & Hr & Hrest)].
  - left. split; [exact Hr | exact Hall].
  - right. exists i, inp. split; [exact Hr | exact Hrest].
Qed.

(** ** Runs of link attempts *)

Section Attempts.

Variable h : Host.

Lemma run_refl (st : Conn) : Frame.run h [] st st.
Proof.
  unfold Frame.run. rewrite app_nil_r. cbn. rewrite Z.add_0_r.
  repeat split; intros l Hl; now left.
Qed.

Lemma run_trans (tr1 tr2 : list Link) (st1 st2 st3 : Conn) :
  Frame.run h tr1 st1 st2 -> Frame.run h tr2 st2 st3 -> Frame.run h (tr1 ++ tr2) st1 st3.
Proof.
  intros (Ht1 & Hc1 & Hn1 & Ho1) (Ht2 & Hc2 & Hn2 & Ho2).
  unfold Frame.run, Frame.accepted in *. rewrite List.filter_app, length_app.
  split; [now rewrite Ht2, Ht1, app_assoc|]. split; [lia|]. split.
  - intros l Hl. destruct (Hn2 l Hl) as [Hl2 | Hl2].
    + destruct (Hn1 l Hl2) as [Hl1 | Hl1]; [now left | right; apply in_or_app; now left].
    + right. apply in_or_app. now right.
  - intros l Hl. destruct (Ho1 l Hl) as [Hl2 | (l' & Hl' & Hs)].
    + destruct (Ho2 l Hl2) as [Hl3 | (l' & Hl' & Hs)]; [now left|].
      right. exists l'. split; [apply in_or_app; now right | exact Hs].
    + right. exists l'. split; [apply in_or_app; now left | exact Hs].
Qed.

Lemma run_try_link (l : Link) (st : Conn) : Frame.run h [l] st (snd (try_link h l st)).
Proof.
  unfold Frame.run, try_link, links_new, Frame.accepted. cbn [List.filter].
  destruct (host_accepts h l) eqn:Hacc; cbn [snd c_links c_count c_trace length].
  - split; [reflexivity|]. split; [lia|]. split.
    + intros l0 Hl0. apply in_app_or in Hl0. destruct Hl0 as [Hl0 | Hl0].
      * left. apply filter_In in Hl0. tauto.
      * right. exact Hl0.
    + intros l0 Hl0. destruct (same_input l0 l) eqn:Hs.
      * right. exists l. split; [now left | exact Hs].
      * left. apply in_or_app. left. apply filter_In. split; [exact Hl0 | now rewrite Hs].
  - split; [reflexivity|]. split; [lia|]. split; intros l0 Hl0; now left.
Qed.

Lemma attempts_refl (P : Link -> Prop) (st : Conn) : Frame.attempts h P st st.
Proof. exists []. split; [apply run_refl | constructor]. Qed.

Lemma attempts_trans (P : Link -> Prop) (st1 st2 st3 : Conn) :
  Frame.attempts h P st1 st2 -> Frame.attempts h P st2 st3 -> Frame.attempts h P st1 st3.
Proof.
  intros (tr1 & Hr1 & Hp1) (tr2 & Hr2 & Hp2). exists (tr1 ++ tr2).
  split; [now apply run_trans with st2 | apply List.Forall_app; now split].
Qed.

Lemma attempts_weaken (P Q : Link -> Prop) (st st' : Conn) :
  (forall l, P l -> Q l) -> Frame.attempts h P st st' -> Frame.attempts h Q st st'.
Proof.
  intros Hpq (tr & Hr & Hp). exists tr. split; [exact Hr|].
  eapply List.Forall_impl; [|exact Hp]. exact Hpq.
Qed.

Lemma attempts_try_link (P : Link -> Prop) (l : Link) (st : Conn) :
  P l -> Frame.attempts h P st (snd (try_link h l st)).
Proof. intros Hp. exists [l]. split; [apply run_try_link | now constructor]. Qed.

Lemma attempts_fold {X} (P : Link -> Prop) (step : Conn -> X -> Conn) (xs : list X) :
  (forall st x, In x xs -> Frame.attempts h P st (step st x)) ->
  forall st, Frame.attempts h P st (fold_left step xs st).
Proof.
  induction xs as [|x xs IH]; intros Hstep st; [apply attempts_refl|].
  simpl. eapply attempts_trans; [apply Hstep; now left|].
  apply IH. intros st' y Hy. apply Hstep. now right.
Qed.

(** The same for loops whose state holds the links among other things. *)
Lemma attempts_fold_via {S X} (proj : S -> Conn) (P : Link -> Prop)
      (step : S -> X -> S) (xs : list X) :
  (forall s x, In x xs -> Frame.attempts h P (proj s) (proj (step s x))) ->
  forall s, Frame.attempts h P (proj s) (proj (fold_left step xs s)).
Proof.
  induction xs as [|x xs IH]; intros Hstep s; [apply attempts_refl|].
  simpl. eapply attempts_trans; [apply Hstep; now left|].
  apply IH. intros s' y Hy. apply Hstep. now right.
Qed.

(** The same for loops that carry the set of inputs already bound. *)
Lemma attempts_fold_inputs {X} (P : Link -> Prop)
      (step : list nat * Conn -> X -> list nat * Conn) (xs : list X) :
  (forall cs x, In x xs -> Frame.attempts h P (snd cs) (snd (step cs x))) ->
  forall cs, Frame.attempts h P (snd cs) (snd (fold_left step xs cs)).
Proof.
  induction xs as [|x xs IH]; intros Hstep cs; [apply attempts_refl|].
  simpl. eapply attempts_trans; [apply Hstep; now left|].
  apply IH. intros cs' y Hy. apply Hstep. now right.
Qed.

Lemma attempts_link_input (P : Link -> Prop) (l : Link) (cs : list nat * Conn) :
  P l -> Frame.attempts h P (snd cs) (snd (snd (AutoConnectionRules.link_input h l cs))).
Proof.
  intros Hp. unfold AutoConnectionRules.link_input.
  pose proof (attempts_try_link P l (snd cs) Hp) as H.
  destruct (try_link h l (snd cs)) as [ok st]. exact H.
Qed.

Lemma joins_mk_link (sources targets : list Node) (src dst : Node) (o i : nat) :
  In src sources -> In dst targets ->
  (o < length (node_outputs src))%nat -> (i < length (node_inputs dst))%nat ->
  Frame.joins sources targets (mk_link src o dst i).
Proof. intros Hs Hd Ho Hi. exists src, dst. cbn. auto. Qed.

End Attempts.

(** ** The three passes of the auto-connection as runs of attempts *)

Section AutoAttempts.

Import AutoConnectionRules.

Variables (h : Host) (nodes : list Node).

Lemma find_index_lt {A} (p : A -> bool) (xs : list A) (i : nat) :
  find_index p xs = Some i -> (i < length xs)%nat.
Proof.
  unfold find_index. destruct (List.find _ _) as [[j x]|] eqn:Hf; [|discriminate].
  intros [= <-]. apply List.find_some in Hf. destruct Hf as [Hin _].
  apply In_enumerate in Hin. cbn [fst]. now apply lookup_lt_Some in Hin.
Qed.

Lemma shader_output_of_lt (outs : list Socket) (o : nat) :
  shader_output_of outs = Some o -> (o < length outs)%nat.
Proof.
  unfold shader_output_of. destruct (find_index _ outs) as [i|] eqn:Hf.
  - intros [= <-]. now apply find_index_lt in Hf.
  - destruct outs; [discriminate|]. intros [= <-]. simpl. lia.
Qed.

Lemma first_named_lt (ins : list Socket) (names : list string) (i : nat) :
  first_named ins names = Some i -> (i < length ins)%nat.
Proof.
  induction names as [|name names IH]; simpl; [discriminate|].
  unfold socket_named. destruct (find_index _ ins) as [j|] eqn:Hf; [|exact IH].
  intros [= <-]. now apply find_index_lt in Hf.
Qed.

Lemma surface_input_of_lt (ins : list Socket) (i : nat) :
  surface_input_of ins = Some i -> (i < length ins)%nat.
Proof.
  unfold surface_input_of. destruct (first_named ins surface_names) as [j|] eqn:Hf.
  - intros [= <-]. now apply first_named_lt in Hf.
  - destruct ins; [discriminate|]. intros [= <-]. simpl. lia.
Qed.

Lemma first_unconnected_free (p : Socket -> bool) (ins : list Socket)
      (connected : list nat) (i : nat) :
  first_unconnected p ins connected = Some i ->
  (i < length ins)%nat /\ nat_mem i connected = false.
Proof.
  unfold first_unconnected. destruct (List.find _ _) as [[j x]|] eqn:Hf; [|discriminate].
  intros [= <-]. apply List.find_some in Hf. destruct Hf as [Hin Hp].
  apply In_enumerate in Hin. cbn [fst snd] in *. apply andb_true_iff in Hp.
  split; [now apply lookup_lt_Some in Hin|]. destruct Hp as [Hp _].
  now apply negb_true_iff in Hp.
Qed.

Lemma color_target_free (keywords : list string) (ins : list Socket)
      (connected : list nat) (i : nat) :
  color_target keywords ins connected = Some i ->
  (i < length ins)%nat /\ nat_mem i connected = false.
Proof.
  induction keywords as [|kw kws IH]; simpl; [discriminate|].
  destruct (first_unconnected _ ins connected) as [j|] eqn:Hf; [|exact IH].
  intros [= <-]. now apply first_unconnected_free in Hf.
Qed.

Lemma color_output_of_lt (outs : list Socket) (o : nat) :
  color_output_of outs = Some o -> (o < length outs)%nat.
Proof.
  unfold color_output_of. destruct (find_index _ outs) as [i|] eqn:Hf.
  - intros [= <-]. now apply find_index_lt in Hf.
  - apply find_index_lt.
Qed.

Lemma best_input_free (sem : Semantic) (ins : list Socket) (connected : list nat)
      (i : nat) (score : Z) :
  best_input sem ins connected = (Some i, score) ->
  (i < length ins)%nat /\ nat_mem i connected = false.
Proof.
  intros Hb. destruct (best_input_spec sem connected ins) as [[Hn _] | (j & inp & Hs & Hl & Hf & _)].
  - congruence.
  - rewrite Hs in Hb. injection Hb as <- _. split; [now apply lookup_lt_Some in Hl | exact Hf].
Qed.

(** The shader nodes of the engine are the shader nodes of the registry. *)
Lemma shader_nodes_of_registry :
  shader_nodes_of nodes = List.filter NodeTypeConfig.is_shader_node nodes.
Proof.
  unfold shader_nodes_of. apply List.filter_ext. intros n.
  unfold NodeTypeConfig.is_shader_node.
  destruct (str_mem (node_type n) NodeTypeConfig.SHADER_NODE_TYPES); [reflexivity|].
  destruct (node_tree n) as [ng|]; cbn [bool_decide]; [|now rewrite andb_false_r].
  destruct (String.eqb (node_type n) "GROUP"); [|reflexivity].
  rewrite bool_decide_eq_true_2 by discriminate. reflexivity.
Qed.

Lemma shader_is_target (s : Node) :
  In s (shader_nodes_of nodes) -> In s nodes /\ In s (Frame.auto_targets nodes).
Proof.
  rewrite shader_nodes_of_registry. intros Hs. apply filter_In in Hs. destruct Hs as [Hin Hsh].
  split; [exact Hin|]. apply filter_In. split; [exact Hin | now rewrite Hsh].
Qed.

Lemma output_is_target (o : Node) :
  output_node_of nodes = Some o -> In o (Frame.auto_targets nodes).
Proof.
  unfold output_node_of. intros Hf. apply List.find_some in Hf. destruct Hf as [Hin Hty].
  apply filter_In. split; [exact Hin | now rewrite Hty, orb_true_r].
Qed.

Lemma pass_shader_to_output_attempts (st : Conn) :
  Frame.attempts h (Frame.auto_link nodes) st (pass_shader_to_output h nodes st).
Proof.
  unfold pass_shader_to_output. destruct (output_node_of nodes) as [o|] eqn:Ho;
    [|apply attempts_refl].
  apply output_is_target in Ho.
  assert (Hgen : forall ss, (forall s, In s ss -> In s (shader_nodes_of nodes)) ->
                            Frame.attempts h (Frame.auto_link nodes) st (connect_shaders_to_output h o ss st)).
  { induction ss as [|s ss IH]; intros Hss; simpl; [apply attempts_refl|].
    destruct (shader_output_of (node_outputs s)) as [so|] eqn:Hso.
    - destruct (surface_input_of (node_inputs o)) as [si|] eqn:Hsi; [|apply attempts_refl].
      apply attempts_try_link. apply joins_mk_link.
      + apply shader_is_target, Hss. now left.
      + exact Ho.
      + now apply shader_output_of_lt.
      + now apply surface_input_of_lt.
    - apply IH. intros s' Hs'. apply Hss. now right. }
  apply Hgen. auto.
Qed.

Lemma connect_texture_attempts (s t : Node) (ha : bool) (cs : list nat * Conn) :
  In s (shader_nodes_of nodes) -> In t nodes ->
  Frame.attempts h (Frame.auto_link nodes) (snd cs) (snd (connect_texture h s ha cs t)).
Proof.
  intros Hs Ht. apply shader_is_target in Hs. destruct Hs as [_ Hs].
  unfold connect_texture. destruct (node_outputs t) as [|o0 outs] eqn:Houts;
    [apply attempts_refl|].
  destruct (String.eqb (node_type t) "TEX_IMAGE").
  - unfold connect_image_texture. rewrite Houts.
    set (cs1 := if (0 <? length (o0 :: outs))%nat then _ else cs).
    assert (H1 : Frame.attempts h (Frame.auto_link nodes) (snd cs) (snd cs1)).
    { subst cs1. destruct (0 <? length (o0 :: outs))%nat; [|apply attempts_refl].
      destruct (color_target _ _ _) as [ti|] eqn:Hct; [|apply attempts_refl].
      apply attempts_link_input. apply color_target_free in Hct.
      apply joins_mk_link; [assumption.. | rewrite Houts; simpl; lia | tauto]. }
    eapply attempts_trans; [exact H1|].
    destruct (ha && (1 <? length (o0 :: outs))%nat) eqn:Hgate; [|apply attempts_refl].
    apply andb_true_iff in Hgate. destruct Hgate as [_ Hlen]. apply Nat.ltb_lt in Hlen.
    destruct (alpha_target _ _) as [ai|] eqn:Hat; [|apply attempts_refl].
    apply attempts_link_input. apply first_unconnected_free in Hat.
    apply joins_mk_link; [assumption.. | now rewrite Houts | tauto].
  - unfold connect_other_texture. rewrite Houts.
    destruct (color_output_of (o0 :: outs)) as [co|] eqn:Hco; [|apply attempts_refl].
    destruct (best_input _ _ _) as [[bi|] sc] eqn:Hb; [|apply attempts_refl].
    destruct (50 <=? sc); [|apply attempts_refl].
    apply attempts_link_input. apply best_input_free in Hb. apply color_output_of_lt in Hco.
    apply joins_mk_link; [assumption.. | now rewrite Houts | tauto].
Qed.

Lemma pass_texture_to_shader_attempts (st : Conn) :
  Frame.attempts h (Frame.auto_link nodes) st (pass_texture_to_shader h nodes st).
Proof.
  unfold pass_texture_to_shader. apply attempts_fold. intros st' s Hs.
  unfold connect_textures_to_shader.
  apply (attempts_fold_inputs h (Frame.auto_link nodes) (connect_texture h s (has_alpha_input s))
                              (texture_nodes_of nodes)).
  intros cs t Ht. apply connect_texture_attempts; [exact Hs|].
  apply filter_In in Ht. tauto.
Qed.

Lemma connect_other_outputs_attempts (s o : Node) (outs : list (nat * Socket))
      (cs : list nat * Conn) :
  In s (shader_nodes_of nodes) -> In o nodes ->
  (forall oi out, In (oi, out) outs -> (oi < length (node_outputs o))%nat) ->
  Frame.attempts h (Frame.auto_link nodes) (snd cs) (snd (connect_other_outputs h s o outs cs)).
Proof.
  intros Hs Ho. apply shader_is_target in Hs. destruct Hs as [_ Hs].
  revert cs. induction outs as [|[oi out] outs IH]; intros cs Hin;
    cbn [connect_other_outputs]; [apply attempts_refl|].
  assert (Hrest : forall cs', Frame.attempts h (Frame.auto_link nodes) (snd cs')
                                (snd (connect_other_outputs h s o outs cs'))).
  { intros cs'. apply IH. intros oi' out' H'. apply (Hin oi' out'). now right. }
  destruct (negb (str_mem (sock_type out) ["RGBA"; "VECTOR"; "VALUE"])); [apply Hrest|].
  destruct (best_input _ _ _) as [[bi|] sc] eqn:Hb; [|apply Hrest].
  destruct (40 <=? sc); [|apply Hrest].
  apply best_input_free in Hb.
  assert (Hl : Frame.attempts h (Frame.auto_link nodes) (snd cs)
                 (snd (snd (link_input h (mk_link o oi s bi) cs)))).
  { apply attempts_link_input. apply joins_mk_link; [assumption.. | | tauto].
    apply (Hin oi out). now left. }
  destruct (link_input h (mk_link o oi s bi) cs) as [ok cs'] eqn:Hli. cbn [snd] in Hl.
  destruct ok; [exact Hl|]. eapply attempts_trans; [exact Hl | apply Hrest].
Qed.

Lemma pass_other_to_shader_attempts (st : Conn) :
  Frame.attempts h (Frame.auto_link nodes) st (pass_other_to_shader h nodes st).
Proof.
  unfold pass_other_to_shader. apply attempts_fold. intros st' s Hs.
  unfold connect_others_to_shader.
  apply (attempts_fold_inputs
           h (Frame.auto_link nodes) (fun cs o => connect_other_outputs h s o (enumerate (node_outputs o)) cs)
           (other_nodes_of nodes)).
  intros cs o Ho. apply connect_other_outputs_attempts; [exact Hs | |].
  - apply filter_In in Ho. tauto.
  - intros oi out Hin. apply In_enumerate in Hin. now apply lookup_lt_Some in Hin.
Qed.

Lemma apply_auto_connections_attempts (links : list Link) (auto : bool) :
  Frame.attempts h (Frame.auto_link nodes) (conn_start links) (apply_auto_connections h nodes links auto).
Proof.
  unfold apply_auto_connections. destruct auto; cbn [negb]; [|apply attempts_refl].
  eapply attempts_trans; [apply pass_shader_to_output_attempts|].
  eapply attempts_trans; [apply pass_texture_to_shader_attempts|].
  apply pass_other_to_shader_attempts.
Qed.

End AutoAttempts.

(** X16. Auto-connection only ever asks the host for links from an output of
    a node of the tree into an input of a shader node or of the output node,
    both sockets existing; the count it returns is the number of those
    requests the host accepted; every link of the tree afterwards was there
    before or is an accepted request; and a link that was there before is
    still there unless an accepted request bound its input anew.  With the
    switch off it asks for nothing and returns 0. *)
Theorem X16_auto_connection_accounts_for_its_links (h : Host) (nodes : list Node)
        (links : list Link) (auto_connect : bool) :
  let st := AutoConnectionRules.apply_auto_connections h nodes links auto_connect in
  Forall (Frame.joins nodes (Frame.auto_targets nodes)) (c_trace st)
  /\ c_count st = Z.of_nat (length (Frame.accepted h (c_trace st)))
  /\ (forall l, In l (c_links st) -> In l links \/ In l (Frame.accepted h (c_trace st)))
  /\ (forall l, In l links ->
                In l (c_links st)
                \/ exists l', In l' (Frame.accepted h (c_trace st)) /\ same_input l l' = true)
  /\ AutoConnectionRules.apply_auto_connections h nodes links false = conn_start links.
Proof.
  intros st. destruct (apply_auto_connections_attempts h nodes links auto_connect)
    as (tr & (Ht & Hc & Hn & Ho) & Hp).
  fold st in Ht, Hc, Hn, Ho. cbn [conn_start c_trace c_count c_links app] in *.
  rewrite Ht. split; [exact Hp|]. split; [lia|]. split; [exact Hn|]. split; [exact Ho|].
  reflexivity.
Qed.

(** ** The connection rules as runs of attempts *)

Section RuleAttempts.

Import MATERIAL_OT_reconnect_with_rules.

Variable h : Host.

(** A loop whose rounds make known attempts makes the attempts of all its
    rounds. *)
Lemma run_fold_exact {X} (step : Conn -> X -> Conn) (R : X -> Link -> Prop) (xs : list X) :
  (forall st x, In x xs ->
                exists tr, Frame.run h tr st (step st x) /\ forall l, In l tr <-> R x l) ->
  forall st, exists tr,
      Frame.run h tr st (fold_left step xs st)
      /\ forall l, In l tr <-> exists x, In x xs /\ R x l.
Proof.
  induction xs as [|x xs IH]; intros Hstep st.
  - exists []. split; [apply run_refl|]. intros l. split; [intros [] | intros (x & [] & _)].
  - destruct (Hstep st x (or_introl eq_refl)) as (tr1 & Hr1 & Hin1).
    destruct (IH (fun st' y Hy => Hstep st' y (or_intror Hy)) (step st x))
      as (tr2 & Hr2 & Hin2).
    exists (tr1 ++ tr2). split; [now apply run_trans with (step st x)|].
    intros l. rewrite in_app_iff, Hin1, Hin2. split.
    + intros [Hl | (y & Hy & Hl)]; [exists x; split; [now left | exact Hl]|].
      exists y. split; [now right | exact Hl].
    + intros (y & [<- | Hy] & Hl); [now left | right; now exists y].
Qed.

Lemma apply_rule_run (nodes : list Node) (rule : ConnectionRuleItem) (st : Conn) :
  exists tr,
    Frame.run h tr st (apply_rule h nodes st rule)
    /\ forall l, In l tr <-> Frame.by_rule nodes rule l.
Proof.
  unfold apply_rule.
  set (sources := rule_nodes nodes (source_match_mode rule) _ _).
  set (targets := rule_nodes nodes (target_match_mode rule) _ _).
  set (R := fun (s t : Node) (l : Link) =>
              node_id s <> node_id t
              /\ (source_socket_index rule < length (node_outputs s))%nat
              /\ (target_socket_index rule < length (node_inputs t))%nat
              /\ l = mk_link s (source_socket_index rule) t (target_socket_index rule)).
  destruct (run_fold_exact
              (fun st source_node =>
                 fold_left
                   (fun st target_node =>
                      if Nat.eqb (node_id source_node) (node_id target_node) then st
                      else if (source_socket_index rule <? length (node_outputs source_node))%nat
                              && (target_socket_index rule
                                  <? length (node_inputs target_node))%nat
                           then snd (error_handler.safe_link
                                       h (mk_link source_node (source_socket_index rule)
                                                  target_node (target_socket_index rule)) st)
                           else st)
                   targets st)
              (fun s l => exists t, In t targets /\ R s t l) sources) with st as (tr & Hr & Hin).
  { intros st' s _. apply (run_fold_exact _ (R s)). intros st'' t _.
    destruct (Nat.eqb_spec (node_id s) (node_id t)) as [Heq | Hne].
    - exists []. split; [apply run_refl|]. intros l. split; [intros [] | intros [Hc _]; tauto].
    - destruct ((source_socket_index rule <? length (node_outputs s))%nat
                && (target_socket_index rule <? length (node_inputs t))%nat) eqn:Hrange.
      + apply andb_true_iff in Hrange. destruct Hrange as [Ho Hi].
        apply Nat.ltb_lt in Ho, Hi.
        exists [mk_link s (source_socket_index rule) t (target_socket_index rule)].
        split; [apply run_try_link|]. intros l. subst R. cbn. split.
        * intros [<- | []]. auto.
        * intros (_ & _ & _ & ->). now left.
      + exists []. split; [apply run_refl|]. intros l. split; [intros []|].
        intros (_ & Ho & Hi & _). apply Nat.ltb_lt in Ho, Hi. rewrite Ho, Hi in Hrange.
        discriminate. }
  exists tr. split; [exact Hr|]. intros l. rewrite Hin. unfold Frame.by_rule.
  fold sources targets. subst R. cbv beta. split.
  - intros (s & Hs & t & Ht & H1 & H2 & H3 & H4). exists s, t. auto 10.
  - intros (s & t & Hs & Ht & H1 & H2 & H3 & H4). exists s. split; [exact Hs|].
    exists t. auto 10.
Qed.

End RuleAttempts.

(** X17. The connection rules ask the host for exactly the links they
    describe: for every rule, every pair of a node selected by its source
    side and a different node selected by its target side, and only when the
    rule's output position exists on the first and its input position on the
    second, the link between those two positions.  The count of the rules is
    the number of those requests the host accepted; every link afterwards was
    there before or is an accepted request; and a link that was there is
    still there unless an accepted request bound its input anew. *)
Theorem X17_rules_link_every_selected_pair (h : Host) (nodes : list Node)
        (rules : list ConnectionRuleItem) (st : Conn) :
  let st' := fold_left (MATERIAL_OT_reconnect_with_rules.apply_rule h nodes) rules st in
  exists tr,
    Frame.run h tr st st'
    /\ forall l, In l tr <-> exists rule, In rule rules /\ Frame.by_rule nodes rule l.
Proof.
  intros st'. subst st'.
  apply (run_fold_exact h (MATERIAL_OT_reconnect_with_rules.apply_rule h nodes)
                        (Frame.by_rule nodes) rules).
  intros st'' rule _. apply apply_rule_run.
Qed.

(** ** The frame of a replacement *)

Section ReplaceFrame.

Import MATERIAL_OT_batch_replace_shader.

Variable h : Host.

Lemma nodes_get_named (nodes : list Node) (name : string) (n : Node) :
  nodes_get nodes name = Some n -> In n nodes /\ node_name n = name.
Proof.
  unfold nodes_get. intros H. apply List.find_some in H. destruct H as [Hin Heq].
  now apply String.eqb_eq in Heq.
Qed.

Lemma reconnect_inputs_attempts (nodes : list Node) (new_shader : Node)
      (input_links : list (string * list InputLink)) (st : Conn) :
  Frame.attempts h (Frame.touches [node_id new_shader]) st
                 (reconnect_inputs h nodes new_shader input_links st).
Proof.
  unfold reconnect_inputs, reconnect_inputs_all.
  apply (attempts_fold_via
           h snd (Frame.touches [node_id new_shader])
           (fun cs item => fold_left (reconnect_input h nodes new_shader (fst item))
                                     (snd item) cs)
           input_links).
  intros cs item _.
  apply (attempts_fold_via h snd (Frame.touches [node_id new_shader])
                           (reconnect_input h nodes new_shader (fst item)) (snd item)).
  intros cs' conn _. unfold reconnect_input.
  destruct (nodes_get nodes (il_from_node conn)) as [source_node|]; [|apply attempts_refl].
  destruct (resolve_socket _ _ _) as [source_socket|]; [|apply attempts_refl].
  destruct (_find_best_input_socket _ _ _ _) as [target_socket|]; [|apply attempts_refl].
  pose proof (attempts_try_link
                h (Frame.touches [node_id new_shader])
                (mk_link source_node source_socket new_shader target_socket) (snd cs')) as H.
  unfold error_handler.safe_link.
  destruct (try_link h _ (snd cs')) as [ok st']. apply H. right. now left.
Qed.

Lemma link_output_attempts (new_shader target : Node) (o i : nat) (b : bool) (s : OutState) :
  Frame.attempts h (Frame.touches [node_id new_shader]) (out_conn s)
                 (out_conn (link_output h (mk_link new_shader o target i) b s)).
Proof.
  unfold link_output, error_handler.safe_link.
  pose proof (attempts_try_link
                h (Frame.touches [node_id new_shader])
                (mk_link new_shader o target i) (out_conn s)) as H.
  destruct (try_link h _ (out_conn s)) as [ok st']. apply H. left. now left.
Qed.

Lemma reconnect_outputs_attempts (nodes : list Node) (new_shader : Node)
      (output_links : list (string * list OutputLink)) (st : Conn) :
  Frame.attempts h (Frame.touches [node_id new_shader]) st
                 (out_conn (reconnect_outputs h nodes new_shader output_links st)).
Proof.
  unfold reconnect_outputs.
  set (s0 := {| connected_outputs := []; output_connected_to_material := false;
                out_conn := st |}).
  change st with (out_conn s0) at 1.
  eapply attempts_trans.
  - apply (attempts_fold_via
             h out_conn (Frame.touches [node_id new_shader])
             (fun s item => fold_left (reconnect_output h nodes new_shader (fst item))
                                      (snd item) s)
             output_links).
    intros s item _.
    apply (attempts_fold_via h out_conn (Frame.touches [node_id new_shader])
                             (reconnect_output h nodes new_shader (fst item)) (snd item)).
    intros s' conn _. unfold reconnect_output.
    destruct (nodes_get nodes (ol_to_node conn)) as [target_node|]; [|apply attempts_refl].
    assert (Hstd : Frame.attempts
                     h (Frame.touches [node_id new_shader]) (out_conn s')
                     (out_conn (reconnect_output_standard h new_shader target_node
                                                          (fst item) conn s'))).
    { unfold reconnect_output_standard.
      destruct (resolve_socket _ _ _) as [target_socket|]; [|apply attempts_refl].
      destruct (_find_best_output_socket _ _ _ _) as [source_socket|]; [|apply attempts_refl].
      apply link_output_attempts. }
    destruct (String.eqb (node_type target_node) "OUTPUT_MATERIAL"
              && negb (output_connected_to_material s')); [|exact Hstd].
    destruct (_find_shader_output new_shader) as [source_socket|]; [|exact Hstd].
    destruct (surface_input_of target_node) as [surface_input|]; [|exact Hstd].
    apply link_output_attempts.
  - unfold connect_fallback.
    destruct (output_connected_to_material _); [apply attempts_refl|].
    destruct (List.find _ nodes) as [output_node|]; [|apply attempts_refl].
    destruct (_find_shader_output new_shader) as [source_socket|]; [|apply attempts_refl].
    destruct (surface_input_of output_node) as [surface_input|]; [|apply attempts_refl].
    apply link_output_attempts.
Qed.

Lemma new_shader_node_id (i : nat) (nodes : list Node) (target : string) (loc : Z * Z)
      (n : Node) :
  new_shader_node h i nodes target loc = Some n -> node_id n = i.
Proof.
  unfold new_shader_node. destruct (List.find _ _) as [ng|]; [now intros [= <-]|].
  destruct (node_class h _) as [cls|]; [now intros [= <-] | discriminate].
Qed.

(** Whether a node can be made depends on the host and the destination
    alone. *)
Lemma new_shader_node_none (i : nat) (nodes : list Node) (target : string) (loc : Z * Z) :
  new_shader_node h i nodes target loc = None ->
  forall i' nodes' loc', new_shader_node h i' nodes' target loc' = None.
Proof.
  unfold new_shader_node. intros H i' nodes' loc'.
  destruct (List.find _ _) as [ng|]; [discriminate|].
  destruct (node_class h _) as [cls|]; [discriminate | reflexivity].
Qed.

Lemma fresh_id_gt (nodes : list Node) (n : Node) :
  In n nodes -> (node_id n < fresh_id nodes)%nat.
Proof.
  unfold fresh_id. induction nodes as [|m nodes IH]; [intros []|].
  intros [<- | Hin]; simpl; [lia|]. specialize (IH Hin). lia.
Qed.

Lemma accepted_app (tr1 tr2 : list Link) :
  Frame.accepted h (tr1 ++ tr2) = Frame.accepted h tr1 ++ Frame.accepted h tr2.
Proof. apply List.filter_app. Qed.

Lemma touches_mono (ids ids' : list nat) (l : Link) :
  (forall i, In i ids -> In i ids') -> Frame.touches ids l -> Frame.touches ids' l.
Proof. intros Hsub [H | H]; [left | right]; auto. Qed.

Variables (auto : bool) (target : string) (t0 : NodeTree) (selected : list string).

Lemma replace_one_inv (r : Replace) (name : string) :
  In name selected ->
  Frame.replace_inv h target t0 selected r ->
  Frame.replace_inv h target t0 selected (replace_one h auto target r name).
Proof.
  intros Hsel (Htr & Hcount & Hlinks & Hnodes & Hfresh & Hmake & Hnd & Hkept).
  unfold Frame.replace_inv. cbv zeta. unfold replace_one.
  destruct (nodes_get (nt_nodes (r_tree r)) name) as [old|] eqn:Hget;
    [|repeat split; assumption].
  apply nodes_get_named in Hget. destruct Hget as [Hold Hname].
  cbn [error_handler.safe_remove_node negb].
  assert (Hsub : forall n, In n (nt_nodes (nodes_remove old (r_tree r))) ->
                           In n (nt_nodes (r_tree r))).
  { intros n Hn. unfold nodes_remove in Hn. cbn [nt_nodes] in Hn.
    apply filter_In in Hn. tauto. }
  assert (Hsubl : forall l, In l (nt_links (nodes_remove old (r_tree r))) ->
                            In l (nt_links (r_tree r))).
  { intros l Hl. unfold nodes_remove in Hl. cbn [nt_links] in Hl.
    apply filter_In in Hl. tauto. }
  assert (Hnd1 : List.NoDup (map node_id (nt_nodes (nodes_remove old (r_tree r)))))
    by (unfold nodes_remove; cbn [nt_nodes]; now apply NoDup_map_filter).
  assert (Hkept1 : forall n, In n (nt_nodes t0) -> ~ In (node_name n) selected ->
                             In n (nt_nodes (nodes_remove old (r_tree r)))).
  { intros n Hn Hns. unfold nodes_remove. cbn [nt_nodes]. apply filter_In.
    split; [now apply Hkept|]. apply negb_true_iff, Nat.eqb_neq. intros Heq.
    apply Hns. assert (n = old) as -> by (apply (NoDup_ids_eq _ _ _ Hnd); auto).
    now rewrite Hname. }
  destruct (new_shader_node h (fresh_id (nt_nodes (r_tree r)))
                            (nt_nodes (nodes_remove old (r_tree r))) target
                            (node_location old)) as [new|] eqn:Hnew.
  - pose proof (new_shader_node_id _ _ _ _ _ Hnew) as Hid.
    assert (Hge : (fresh_id (nt_nodes t0) <= node_id new)%nat).
    { destruct Hmake as [Hnone | Hge]; [now rewrite Hnone in Hnew | now rewrite Hid]. }
    set (st0 := {| c_links := nt_links (nodes_remove old (r_tree r)); c_count := 0;
                   c_trace := r_trace r |}).
    set (nodes := nt_nodes (nodes_remove old (r_tree r)) ++ [new]).
    set (st2 := if auto then _ else st0).
    assert (Hatt : Frame.attempts h (Frame.touches [node_id new]) st0 st2).
    { subst st2. destruct auto; [|apply attempts_refl].
      eapply attempts_trans; [apply reconnect_inputs_attempts|].
      apply reconnect_outputs_attempts. }
    destruct Hatt as (tr & (Ht & _ & Hn & _) & Hp). cbn [c_trace c_links st0] in Ht, Hn.
    cbn [r_tree r_count r_trace r_new nt_nodes nt_links]. rewrite Ht.
    split; [|split; [|split; [|split; [|split; [|split; [|split]]]]]].
    + apply List.Forall_app. split.
      * eapply List.Forall_impl; [|exact Htr]. intros l. apply touches_mono.
        intros i Hi. apply in_or_app. now left.
      * eapply List.Forall_impl; [|exact Hp]. intros l. apply touches_mono.
        intros i Hi. apply in_or_app. now right.
    + rewrite length_app. cbn [length]. lia.
    + intros l Hl. rewrite accepted_app. destruct (Hn l Hl) as [Hl1 | Hl1].
      * destruct (Hlinks l (Hsubl l Hl1)) as [H0 | H0]; [now left|].
        right. apply in_or_app. now left.
      * right. apply in_or_app. now right.
    + intros n Hn'. subst nodes. apply in_app_or in Hn'. destruct Hn' as [Hn' | [<- | []]].
      * destruct (Hnodes n (Hsub n Hn')) as [H0 | H0]; [now left|].
        right. apply in_or_app. now left.
      * right. apply in_or_app. right. now left.
    + intros i Hi. apply in_app_or in Hi. destruct Hi as [Hi | [<- | []]]; [auto | exact Hge].
    + right. subst nodes.
      assert (node_id new < fresh_id (nt_nodes (nodes_remove old (r_tree r)) ++ [new]))%nat
        by (apply fresh_id_gt, in_or_app; right; now left).
      lia.
    + subst nodes. rewrite map_app. apply NoDup_ListNoDup, NoDup_app.
      split; [now apply NoDup_ListNoDup|]. split; [|apply NoDup_singleton].
      intros i Hi Hi'. apply list_elem_of_In in Hi. apply list_elem_of_singleton in Hi'.
      cbn [map] in Hi'. subst i. apply in_map_iff in Hi. destruct Hi as (n & Heq & Hn').
      apply Hsub, fresh_id_gt in Hn'. lia.
    + intros n Hn' Hns. subst nodes. apply in_or_app. left. now apply Hkept1.
  - cbn [r_tree r_count r_trace r_new].
    split; [exact Htr|]. split; [exact Hcount|]. split; [auto|]. split; [auto|].
    split; [exact Hfresh|]. split; [left; now apply new_shader_node_none with (1 := Hnew)|].
    split; [exact Hnd1 | exact Hkept1].
Qed.

Lemma replace_loop_inv (names : list string) (r : Replace) :
  (forall name, In name names -> In name selected) ->
  Frame.replace_inv h target t0 selected r ->
  Frame.replace_inv h target t0 selected (fold_left (replace_one h auto target) names r).
Proof.
  revert r. induction names as [|name names IH]; intros r Hsub Hinv; [exact Hinv|].
  simpl. apply IH; [intros n Hn; apply Hsub; now right|].
  apply replace_one_inv; [apply Hsub; now left | exact Hinv].
Qed.

End ReplaceFrame.

(** X18. The frame of a replacement.  In a tree whose nodes are distinct,
    replacing the selected shader nodes asks the host only for links that
    have a node created by the replacement at one end; the count returned is
    the number of nodes created; every link of the tree afterwards was there
    before or is a request the host accepted; every node afterwards was there
    before or was created; the created nodes are none of the nodes that were
    there; and every node whose name was not selected is still there. *)
Theorem X18_replacement_touches_only_created_nodes (h : Host) (t : NodeTree) (p : Props)
        (target_shader_name specific_shader_name : string) :
  List.NoDup (map node_id (nt_nodes t)) ->
  let selected := MATERIAL_OT_batch_replace_shader.shaders_to_replace
                    t (replace_mode p) target_shader_name specific_shader_name in
  let r := MATERIAL_OT_batch_replace_shader.replace_material_shaders
             h t p target_shader_name specific_shader_name in
  let created := MATERIAL_OT_batch_replace_shader.r_new r in
  let result := MATERIAL_OT_batch_replace_shader.r_tree r in
  Forall (Frame.touches created) (MATERIAL_OT_batch_replace_shader.r_trace r)
  /\ MATERIAL_OT_batch_replace_shader.r_count r = Z.of_nat (length created)
  /\ (forall l, In l (nt_links result) ->
                In l (nt_links t)
                \/ In l (Frame.accepted h (MATERIAL_OT_batch_replace_shader.r_trace r)))
  /\ (forall n, In n (nt_nodes result) -> In n (nt_nodes t) \/ In (node_id n) created)
  /\ (forall n, In n (nt_nodes t) -> ~ In (node_id n) created)
  /\ (forall n, In n (nt_nodes t) -> ~ In (node_name n) selected -> In n (nt_nodes result)).
Proof.
  intros Hnd selected r created result.
  assert (Hinv : Frame.replace_inv h target_shader_name t selected r).
  { subst r. unfold MATERIAL_OT_batch_replace_shader.replace_material_shaders.
    apply replace_loop_inv; [auto|]. unfold Frame.replace_inv. cbv zeta.
    cbn [MATERIAL_OT_batch_replace_shader.r_tree MATERIAL_OT_batch_replace_shader.r_count
         MATERIAL_OT_batch_replace_shader.r_trace MATERIAL_OT_batch_replace_shader.r_new
         length].
    split; [constructor|]. split; [reflexivity|]. split; [now left|]. split; [now left|].
    split; [intros i []|]. split; [now right|]. split; [exact Hnd | auto]. }
  destruct Hinv as (Htr & Hcount & Hlinks & Hnodes & Hfresh & _ & _ & Hkept).
  split; [exact Htr|]. split; [exact Hcount|]. split; [exact Hlinks|].
  split; [exact Hnodes|]. split; [|exact Hkept].
  intros n Hn Hc. apply Hfresh in Hc. apply fresh_id_gt in Hn. lia.
Qed.

Lemma X18_witness_emission_tree :
  let r := MATERIAL_OT_batch_replace_shader.replace_material_shaders
             Scene.host Scene.emission_tree (Scene.settings ALL "BSDF_DIFFUSE" true)
             "BSDF_DIFFUSE" "" in
  MATERIAL_OT_batch_replace_shader.r_new r = [4%nat]
  /\ MATERIAL_OT_batch_replace_shader.r_trace r = [Scene.link 4 0 3 0]
  /\ Forall (Frame.touches (MATERIAL_OT_batch_replace_shader.r_new r))
            (MATERIAL_OT_batch_replace_shader.r_trace r)
  /\ MATERIAL_OT_batch_replace_shader.r_count r
     = Z.of_nat (length (MATERIAL_OT_batch_replace_shader.r_new r)).
Proof.
  intros r.
  assert (Hnd : List.NoDup (map node_id (nt_nodes Scene.emission_tree))).
  { repeat (constructor; [simpl; intuition discriminate|]). constructor. }
  pose proof (X18_replacement_touches_only_created_nodes
                Scene.host Scene.emission_tree (Scene.settings ALL "BSDF_DIFFUSE" true)
                "BSDF_DIFFUSE" "" Hnd) as (Htr & Hcount & _).
  split; [reflexivity|]. split; [reflexivity|]. split; [exact Htr | exact Hcount].
Defined.

(** ** The batch loop and the material cache *)

Section BatchLoop.

Import MATERIAL_OT_batch_replace_shader.

Variables (h : Host) (target specific : string).

Lemma visited_replace (w : World) (name : string) (mat : Material) (t : NodeTree) (result : Z)
      (slot : option string) :
  materials w !! name = Some mat ->
  Frame.visited (MaterialCache.mark_processed (set_node_tree w name mat t) name result) slot
  = Frame.visited w slot.
Proof.
  intros Hl. unfold Frame.visited, slot_material, MaterialCache.mark_processed, set_node_tree.
  cbn [materials]. destruct slot as [n|]; [|reflexivity].
  destruct (decide (name = n)) as [<- | Hne].
  - rewrite lookup_insert_eq, Hl. cbn [use_nodes]. now destruct (use_nodes mat).
  - now rewrite lookup_insert_ne.
Qed.

Lemma omap_visited_cons (w : World) (slot : option string) (slots : list (option string)) :
  omap (Frame.visited w) (slot :: slots)
  = match Frame.visited w slot with
    | Some name => name :: omap (Frame.visited w) slots
    | None => omap (Frame.visited w) slots
    end.
Proof. reflexivity. Qed.

Lemma omap_visited_ext (w w' : World) (slots : list (option string)) :
  (forall slot, Frame.visited w' slot = Frame.visited w slot) ->
  omap (Frame.visited w') slots = omap (Frame.visited w) slots.
Proof.
  intros Hext. induction slots as [|s slots IH]; [reflexivity|].
  now rewrite !omap_visited_cons, Hext, IH.
Qed.

Lemma is_processed_dom (w : World) (name : string) :
  MaterialCache.is_processed w name = bool_decide (name ∈ dom (material_cache w)).
Proof.
  unfold MaterialCache.is_processed. apply bool_decide_ext. symmetry. apply elem_of_dom.
Qed.

Lemma tally_cons (w : World) (tot : Totals) (name : string) (names : list string) :
  Frame.tally w tot (name :: names)
  = Frame.tally
      w {| total_materials := total_materials tot + 1;
           replaced_materials :=
             if 0 <? MaterialCache.get_result w name
             then replaced_materials tot + 1 else replaced_materials tot;
           replaced_shaders :=
             if 0 <? MaterialCache.get_result w name
             then replaced_shaders tot + MaterialCache.get_result w name
             else replaced_shaders tot |}
      names.
Proof. reflexivity. Qed.

(** The loop over the slots: the materials are replaced in the order of
    their first visit, a cached result is never changed, and the totals are
    those of the final cache. *)
Lemma batch_loop (slots : list (option string)) (w : World) (tot : Totals) :
  let r := fold_left (replace_slot h target specific) slots (w, tot) in
  fst r = fold_left (Frame.replace_by_name h target specific)
                    (Spec.first_occurrences (dom (material_cache w))
                                            (omap (Frame.visited w) slots)) w
  /\ (forall n, n ∈ dom (material_cache w) ->
                material_cache (fst r) !! n = material_cache w !! n)
  /\ snd r = Frame.tally (fst r) tot (omap (Frame.visited w) slots).
Proof.
  revert w tot. induction slots as [|slot slots IH]; intros w tot; [cbn; auto|].
  cbv zeta. cbn [fold_left]. rewrite omap_visited_cons.
  destruct (Frame.visited w slot) as [name|] eqn:Hvis.
  2:{ assert (Hskip : replace_slot h target specific (w, tot) slot = (w, tot)).
      { unfold replace_slot. unfold Frame.visited in Hvis.
        destruct (slot_material w slot) as [[? ?]|]; [discriminate | reflexivity]. }
      rewrite Hskip. apply IH. }
  unfold Frame.visited in Hvis.
  destruct (slot_material w slot) as [[name' mat]|] eqn:Hsm; [|discriminate].
  injection Hvis as ->.
  destruct (slot_material_lookup _ _ _ _ Hsm) as (_ & Hl & _).
  cbn [Spec.first_occurrences].
  destruct (decide (name ∈ dom (material_cache w))) as [Hseen | Hseen].
  - rewrite (bool_decide_eq_true_2 _ Hseen).
    set (tot1 := {| total_materials := total_materials tot + 1;
                    replaced_materials :=
                      if 0 <? MaterialCache.get_result w name
                      then replaced_materials tot + 1 else replaced_materials tot;
                    replaced_shaders :=
                      if 0 <? MaterialCache.get_result w name
                      then replaced_shaders tot + MaterialCache.get_result w name
                      else replaced_shaders tot |}).
    assert (Hstep : replace_slot h target specific (w, tot) slot = (w, tot1)).
    { unfold replace_slot. rewrite Hsm, is_processed_dom, (bool_decide_eq_true_2 _ Hseen).
      reflexivity. }
    rewrite Hstep. pose proof (IH w tot1) as HI. cbv zeta in HI.
    destruct HI as (Hw & Hc & Ht).
    split; [exact Hw|]. split; [exact Hc|].
    rewrite Ht, tally_cons.
    assert (Hg : MaterialCache.get_result
                   (fst (fold_left (replace_slot h target specific) slots (w, tot1))) name
                 = MaterialCache.get_result w name)
      by (unfold MaterialCache.get_result; now rewrite (Hc name Hseen)).
    rewrite Hg. reflexivity.
  - rewrite (bool_decide_eq_false_2 _ Hseen).
    set (rep := replace_material_shaders h (mat_node_tree mat) (props w) target specific).
    set (w1 := MaterialCache.mark_processed (set_node_tree w name mat (r_tree rep))
                                            name (r_count rep)).
    set (tot1 := {| total_materials := total_materials tot + 1;
                    replaced_materials :=
                      if 0 <? r_count rep
                      then replaced_materials tot + 1 else replaced_materials tot;
                    replaced_shaders :=
                      if 0 <? r_count rep
                      then replaced_shaders tot + r_count rep
                      else replaced_shaders tot |}).
    assert (Hstep : replace_slot h target specific (w, tot) slot = (w1, tot1)).
    { unfold replace_slot. rewrite Hsm, is_processed_dom, (bool_decide_eq_false_2 _ Hseen).
      reflexivity. }
    assert (Hname : Frame.replace_by_name h target specific w name = w1).
    { unfold Frame.replace_by_name. rewrite Hl. reflexivity. }
    assert (Hv : forall slot', Frame.visited w1 slot' = Frame.visited w slot')
      by (intros slot'; now apply visited_replace).
    assert (Hdom : dom (material_cache w1) = {[name]} ∪ dom (material_cache w))
      by (subst w1; unfold MaterialCache.mark_processed; cbn [material_cache set_node_tree];
          apply dom_insert_L).
    assert (Hres : material_cache w1 !! name = Some (r_count rep))
      by (subst w1; unfold MaterialCache.mark_processed; cbn [material_cache];
          apply lookup_insert_eq).
    rewrite Hstep. pose proof (IH w1 tot1) as HI. cbv zeta in HI.
    destruct HI as (Hw & Hc & Ht).
    rewrite (omap_visited_ext w w1 slots Hv), Hdom in Hw.
    rewrite (omap_visited_ext w w1 slots Hv) in Ht.
    split; [|split].
    + rewrite Hw. cbn [fold_left]. now rewrite Hname.
    + intros n Hn. rewrite Hc.
      * subst w1. unfold MaterialCache.mark_processed. cbn [material_cache set_node_tree].
        apply lookup_insert_ne. intros <-. contradiction.
      * rewrite Hdom. now apply elem_of_union_r.
    + rewrite Ht, tally_cons.
      assert (Hg : MaterialCache.get_result
                     (fst (fold_left (replace_slot h target specific) slots (w1, tot1))) name
                   = r_count rep).
      { unfold MaterialCache.get_result. rewrite Hc, Hres; [reflexivity|].
        rewrite Hdom. apply elem_of_union_l, elem_of_singleton. reflexivity. }
      rewrite Hg. reflexivity.
Qed.

Lemma tally_total (w : World) (names : list string) (tot : Totals) :
  total_materials (Frame.tally w tot names)
  = total_materials tot + Z.of_nat (length names).
Proof.
  revert tot. induction names as [|n names IH]; intros tot; [cbn; lia|].
  rewrite tally_cons, IH. cbn [total_materials length]. lia.
Qed.

End BatchLoop.

(** X19. One run of the batch operator in the modes ALL and SPECIFIC
    replaces each material once: over the slots of the target mesh objects,
    the loop does what one replacement per entry of a duplicate-free list of
    material names does, the names being those of the slots whose material
    exists and uses nodes, each at its first occurrence, and each result
    going to the cache.  The totals are counted per slot from the cache:
    the number of materials is the number of such slots, and a material
    shared by several slots adds its cached result once for each of them. *)
Theorem X19_batch_replaces_each_material_once (h : Host) (ctx : Context) (w : World) :
  let p := props w in
  let target := MATERIAL_OT_batch_replace_shader.chosen_shader
                  (builtin_shader p) (shader_nodegroup p) in
  let specific :=
    match replace_mode p with
    | SPECIFIC => MATERIAL_OT_batch_replace_shader.chosen_shader
                    (specific_builtin_shader p) (specific_nodegroup p)
    | _ => ""
    end in
  let slots := mesh_slots (MATERIAL_OT_batch_replace_shader.get_target_objects
                             ctx (target_type p)) in
  let names := omap (Frame.visited w) slots in
  let zero := {| MATERIAL_OT_batch_replace_shader.total_materials := 0;
                 MATERIAL_OT_batch_replace_shader.replaced_materials := 0;
                 MATERIAL_OT_batch_replace_shader.replaced_shaders := 0 |} in
  let r := fold_left (MATERIAL_OT_batch_replace_shader.replace_slot h target specific)
                     slots (MaterialCache.clear w, zero) in
  List.NoDup (Spec.first_occurrences ∅ names)
  /\ (forall name, In name (Spec.first_occurrences ∅ names) <-> In name names)
  /\ fst r = fold_left (Frame.replace_by_name h target specific)
                       (Spec.first_occurrences ∅ names) (MaterialCache.clear w)
  /\ snd r = Frame.tally (fst r) zero names
  /\ MATERIAL_OT_batch_replace_shader.total_materials (snd r) = Z.of_nat (length names)
  /\ (fst (fst (MATERIAL_OT_batch_replace_shader.execute h ctx w)) = CANCELLED
      \/ replace_mode p = MATERIAL
      \/ replace_mode p = MATERIAL_SPECIFIC
      \/ snd (MATERIAL_OT_batch_replace_shader.execute h ctx w) = fst r).
Proof.
  intros p target specific slots names zero r.
  destruct (first_occurrences_spec names ∅) as [Hnd Hin].
  split; [exact Hnd|]. split.
  { intros name. rewrite Hin. split; [tauto|]. intros H. split; [exact H|].
    apply not_elem_of_empty. }
  destruct (batch_loop h target specific slots (MaterialCache.clear w) zero)
    as (Hw & _ & Ht).
  fold r in Hw, Ht.
  assert (Hv : omap (Frame.visited (MaterialCache.clear w)) slots = names) by reflexivity.
  rewrite Hv in Hw, Ht. cbn [MaterialCache.clear material_cache] in Hw. rewrite dom_empty_L in Hw.
  split; [exact Hw|]. split; [exact Ht|]. split.
  { rewrite Ht, tally_total. cbn. lia. }
  unfold MATERIAL_OT_batch_replace_shader.execute. fold p target.
  destruct (negb (nonempty target)); [now left|].
  destruct (negb (MATERIAL_OT_batch_replace_shader.node_group_exists h target) && _);
    [now left|].
  destruct (replace_mode p) eqn:Hmode; [| |right; now left|right; right; now left].
  - cbn [bool_decide andb]. rewrite bool_decide_eq_false_2 by discriminate. cbn [andb].
    fold slots. subst specific.
    destruct (MATERIAL_OT_batch_replace_shader.get_target_objects ctx (target_type p))
      eqn:Hobjs; [now left|].
    right. right. right. subst r.
    destruct (fold_left _ slots _) as [w' tot]. reflexivity.
  - subst specific.
    destruct (bool_decide (SPECIFIC = SPECIFIC) && _); [now left|]. fold slots.
    destruct (MATERIAL_OT_batch_replace_shader.get_target_objects ctx (target_type p))
      eqn:Hobjs; [now left|].
    right. right. right. subst r.
    destruct (fold_left _ slots _) as [w' tot]. reflexivity.
Qed.

(** ** What disconnect leaves of a material *)

Section DisconnectFrame.

Import MATERIAL_OT_disconnect_all_connections.

Lemma fold_links_remove (rm acc : list Link) :
  fold_left (fun ls l => links_remove l ls) rm acc
  = List.filter (fun l => negb (existsb (fun r => bool_decide (l = r)) rm)) acc.
Proof.
  revert acc. induction rm as [|r rm IH]; intros acc; cbn [fold_left existsb].
  - induction acc as [|a acc IHa]; [reflexivity|]. cbn. now f_equal.
  - rewrite IH. unfold links_remove. rewrite filter_filter_and.
    apply List.filter_ext. intros l. rewrite negb_orb. apply andb_comm.
Qed.

Lemma disconnect_links (t : NodeTree) (shader_types : list string) :
  fold_left (fun ls l => links_remove l ls) (links_to_remove t shader_types) (nt_links t)
  = List.filter (fun l => negb (Frame.removed_by t shader_types l)) (nt_links t).
Proof.
  rewrite fold_links_remove. apply List.filter_ext_in. intros l Hl. f_equal.
  unfold links_to_remove, Frame.removed_by.
  destruct (str_mem "ALL" shader_types); cbn [orb].
  - apply existsb_exists. exists l. split; [exact Hl | now apply bool_decide_eq_true_2].
  - destruct (should_remove (nt_nodes t) shader_types l) eqn:Hp.
    + apply existsb_exists. exists l. split; [|now apply bool_decide_eq_true_2].
      apply filter_In. now split.
    + apply not_true_is_false. intros Hex. apply existsb_exists in Hex.
      destruct Hex as (r & Hr & Heq). apply bool_decide_eq_true_1 in Heq. subst r.
      apply filter_In in Hr. destruct Hr as [_ Hr]. congruence.
Qed.

Lemma disconnected_twice (shader_types : list string) (mat : Material) :
  Frame.disconnected shader_types (Frame.disconnected shader_types mat)
  = Frame.disconnected shader_types mat.
Proof.
  unfold Frame.disconnected. cbn [use_nodes mat_node_tree nt_nodes nt_links]. f_equal. f_equal.
  unfold Frame.removed_by. cbn [nt_nodes]. rewrite filter_filter_and.
  apply List.filter_ext. intros l. now rewrite andb_diag.
Qed.

(** One round of the loop on a material it processes. *)
Lemma disconnect_slot_materials (shader_types : list string) (w : World) (c : Z)
      (slot : option string) (name : string) :
  Spec.eligible w slot = Some name ->
  exists mat,
    materials w !! name = Some mat
    /\ materials (fst (disconnect_slot shader_types (w, c) slot))
       = <[name := Frame.disconnected shader_types mat]> (materials w)
    /\ replace_mode (props (fst (disconnect_slot shader_types (w, c) slot)))
       = replace_mode (props w)
    /\ target_material (props (fst (disconnect_slot shader_types (w, c) slot)))
       = target_material (props w).
Proof.
  unfold Spec.eligible, disconnect_slot.
  destruct (slot_material w slot) as [[n mat]|] eqn:Hsm; [|discriminate].
  destruct (should_process (props w) n) eqn:Hsp; [|discriminate]. intros [= ->].
  destruct (slot_material_lookup _ _ _ _ Hsm) as (_ & Hl & _).
  exists mat. split; [exact Hl|]. cbn [negb fst set_node_tree set_snapshot materials props
                                        replace_mode target_material].
  rewrite disconnect_links. split; [reflexivity|]. split; reflexivity.
Qed.

Lemma disconnect_slot_skips (shader_types : list string) (w : World) (c : Z)
      (slot : option string) :
  Spec.eligible w slot = None -> disconnect_slot shader_types (w, c) slot = (w, c).
Proof.
  unfold Spec.eligible, disconnect_slot.
  destruct (slot_material w slot) as [[n mat]|]; [|reflexivity].
  destruct (should_process (props w) n); [discriminate | reflexivity].
Qed.

Lemma eligible_ext (w w' : World) (shader_types : list string) (name : string)
      (mat : Material) :
  materials w !! name = Some mat ->
  materials w' = <[name := Frame.disconnected shader_types mat]> (materials w) ->
  replace_mode (props w') = replace_mode (props w) ->
  target_material (props w') = target_material (props w) ->
  forall slot, Spec.eligible w' slot = Spec.eligible w slot.
Proof.
  intros Hl Hm Hmode Htm slot. unfold Spec.eligible, slot_material, should_process.
  rewrite Hm, Hmode, Htm. destruct slot as [n|]; [|reflexivity].
  destruct (decide (name = n)) as [<- | Hne].
  - rewrite lookup_insert_eq, Hl. cbn [Frame.disconnected use_nodes].
    now destruct (use_nodes mat).
  - now rewrite lookup_insert_ne.
Qed.

Lemma disconnect_loop_materials (shader_types : list string) (slots : list (option string))
      (w : World) (c : Z) (name : string) :
  materials (fst (fold_left (disconnect_slot shader_types) slots (w, c))) !! name
  = if bool_decide (name ∈ omap (Spec.eligible w) slots)
    then Frame.disconnected shader_types <$> materials w !! name
    else materials w !! name.
Proof.
  revert w c. induction slots as [|slot slots IH]; intros w c.
  - cbn. rewrite bool_decide_eq_false_2; [reflexivity | apply not_elem_of_nil].
  - cbn [fold_left]. rewrite omap_eligible_cons.
    destruct (Spec.eligible w slot) as [name0|] eqn:Hel.
    + destruct (disconnect_slot_materials shader_types w c slot name0 Hel)
        as (mat & Hl & Hm & Hmode & Htm).
      destruct (disconnect_slot shader_types (w, c) slot) as [w1 c1] eqn:Hstep.
      cbn [fst] in Hm, Hmode, Htm. rewrite IH.
      assert (Hext : omap (Spec.eligible w1) slots = omap (Spec.eligible w) slots).
      { clear IH. induction slots as [|s slots IHs]; [reflexivity|].
        rewrite !omap_eligible_cons, IHs.
        now rewrite (eligible_ext w w1 shader_types name0 mat Hl Hm Hmode Htm). }
      rewrite Hext, Hm. destruct (decide (name = name0)) as [-> | Hne].
      * rewrite lookup_insert_eq, Hl. cbn [fmap option_fmap option_map].
        rewrite (bool_decide_eq_true_2 (name0 ∈ name0 :: _)) by (now left).
        rewrite disconnected_twice. now case_bool_decide.
      * rewrite lookup_insert_ne by congruence.
        apply (f_equal (fun b : bool => if b then _ else _)). apply bool_decide_ext.
        rewrite elem_of_cons. split; [now right | intros [? | ?]; [contradiction | assumption]].
    + rewrite (disconnect_slot_skips shader_types w c slot Hel). apply IH.
Qed.

End DisconnectFrame.

(** X20. What disconnect leaves of the scene.  Unless it is cancelled, the
    operator changes exactly the materials found in a slot of a selected mesh
    object that exist, use nodes and pass the material filter: each of them
    keeps its nodes and loses exactly the links the shader-type filter
    selects (all links under 'ALL', otherwise the links with an end on a node
    of one of the filtered types), however many slots hold it; every other
    material is as it was. *)
Theorem X20_disconnect_removes_exactly_the_filtered_links (ctx : Context) (w : World)
        (name : string) :
  let r := MATERIAL_OT_disconnect_all_connections.execute ctx w in
  let shader_types := shader_types_of (props w) in
  let slots := mesh_slots (selected_objects ctx) in
  (fst (fst r) = CANCELLED /\ snd r = w)
  \/ (fst (fst r) = FINISHED
      /\ materials (snd r) !! name
         = if bool_decide (name ∈ omap (Spec.eligible w) slots)
           then Frame.disconnected shader_types <$> materials w !! name
           else materials w !! name).
Proof.
  intros r shader_types slots. subst r.
  unfold MATERIAL_OT_disconnect_all_connections.execute.
  destruct (selected_objects ctx) as [|obj objs] eqn:Hobjs; [left; split; reflexivity|].
  destruct (bool_decide (replace_mode (props w) = MATERIAL) && _);
    [left; split; reflexivity|].
  right. unfold MATERIAL_OT_disconnect_all_connections.get_shader_types_to_disconnect.
  fold shader_types. subst slots.
  pose proof (disconnect_loop_materials
                shader_types (mesh_slots (obj :: objs))
                (MATERIAL_OT_disconnect_all_connections._clear_snapshot w) 0 name) as Hloop.
  destruct (fold_left _ _ _) as [w' c]. cbn [fst snd] in *. split; [reflexivity|].
  rewrite Hloop. reflexivity.
Qed.

(** ** Pass 3 of the auto-connection: other nodes to shader *)

Section OtherToShader.

Import AutoConnectionRules Spec.

Lemma link_input_ok (h : Host) (l : Link) (cs : list nat * Conn) :
  fst (link_input h l cs) = host_accepts h l.
Proof.
  unfold link_input, try_link, links_new. now destruct (host_accepts h l).
Qed.

Lemma connect_other_outputs_trace (h : Host) (s o : Node) (outs : list (nat * Socket))
      (cs : list nat * Conn) :
  exists tr,
    c_trace (snd (connect_other_outputs h s o outs cs)) = c_trace (snd cs) ++ tr
    /\ Forall (fun l => from_node l = node_id o /\ to_node l = node_id s) tr
    /\ Frame.refused_but_last h tr.
Proof.
  revert cs. induction outs as [|[oi out] outs IH]; intros cs; cbn [connect_other_outputs].
  - exists []. rewrite app_nil_r. repeat split; constructor.
  - destruct (negb (str_mem (sock_type out) ["RGBA"; "VECTOR"; "VALUE"])); [apply IH|].
    destruct (best_input _ _ _) as [[bi|] sc]; [|apply IH].
    destruct (40 <=? sc); [|apply IH].
    pose proof (link_input_trace h (mk_link o oi s bi) cs) as Htr.
    pose proof (link_input_ok h (mk_link o oi s bi) cs) as Hok.
    destruct (link_input h (mk_link o oi s bi) cs) as [ok cs'].
    cbn [fst snd] in Htr, Hok. destruct ok.
    + exists [mk_link o oi s bi]. split; [exact Htr|].
      split; [repeat constructor|]. constructor.
    + destruct (IH cs') as (tr & Ht & Hf & Hr).
      exists (mk_link o oi s bi :: tr). rewrite Ht, Htr, <- app_assoc.
      split; [reflexivity|]. split; [constructor; [split; reflexivity | exact Hf]|].
      unfold Frame.refused_but_last in *. destruct tr as [|l tr]; [constructor|].
      change (removelast (mk_link o oi s bi :: l :: tr))
        with (mk_link o oi s bi :: removelast (l :: tr)).
      constructor; [now symmetry | exact Hr].
Qed.

(** All other nodes against one shader node. *)
Lemma connect_others_to_shader_trace (h : Host) (others : list Node) :
  List.NoDup (map node_id others) ->
  forall (st : Conn) (s : Node),
  exists tr,
    c_trace (connect_others_to_shader h others st s) = c_trace st ++ tr
    /\ Forall (fun l => to_node l = node_id s /\ True) tr
    /\ forall o, In o others ->
                 Frame.refused_but_last h (tagged from_node (node_id o) tr).
Proof.
  intros Hnd st s. unfold connect_others_to_shader.
  destruct (fold_tagged
              (fun cs o => connect_other_outputs h s o (enumerate (node_outputs o)) cs)
              (fun cs => c_trace (snd cs))
              node_id from_node (fun l => to_node l = node_id s)
              (fun o tr => Frame.refused_but_last h tr)
              (fun cs o => connect_other_outputs_trace h s o (enumerate (node_outputs o)) cs)
              others ([], st) Hnd) as (tr & Ht & Hf & Hq).
  exists tr. split; [exact Ht|]. split; [|exact Hq].
  eapply List.Forall_impl; [|exact Hf]. simpl. tauto.
Qed.

End OtherToShader.

(** X21. In the pass from the other nodes to the shaders, the outputs of a
    source node are tried against a shader node one after the other only
    until the host accepts a link: of the links requested from that source to
    that shader every one but the last was refused, so at most one of them is
    made. *)
Theorem X21_one_link_per_source_and_shader (h : Host) (nodes : list Node) (st : Conn)
        (shader other : Node) :
  List.NoDup (map node_id nodes) ->
  In shader (AutoConnectionRules.shader_nodes_of nodes) ->
  In other (AutoConnectionRules.other_nodes_of nodes) ->
  exists tr,
    c_trace (AutoConnectionRules.pass_other_to_shader h nodes st) = c_trace st ++ tr
    /\ let tried :=
         List.filter (fun l => Nat.eqb (from_node l) (node_id other)
                               && Nat.eqb (to_node l) (node_id shader)) tr in
       Frame.refused_but_last h tried
       /\ (length (Frame.accepted h tried) <= 1)%nat.
Proof.
  intros Hnd Hs Ho. unfold AutoConnectionRules.pass_other_to_shader.
  set (others := AutoConnectionRules.other_nodes_of nodes) in *.
  set (shaders := AutoConnectionRules.shader_nodes_of nodes) in *.
  assert (Hndo : List.NoDup (map node_id others)) by (now apply NoDup_map_filter).
  assert (Hnds : List.NoDup (map node_id shaders)) by (now apply NoDup_map_filter).
  destruct (fold_tagged
              (AutoConnectionRules.connect_others_to_shader h others) c_trace
              node_id to_node (fun _ => True)
              (fun s tr => forall o, In o others ->
                                     Frame.refused_but_last
                                       h (Spec.tagged from_node (node_id o) tr))
              (connect_others_to_shader_trace h others Hndo)
              shaders st Hnds) as (tr & Htr & Hf & Hq).
  exists tr. split; [exact Htr|]. cbv zeta.
  assert (Hm : List.filter (fun l => Nat.eqb (from_node l) (node_id other)
                                     && Nat.eqb (to_node l) (node_id shader)) tr
               = Spec.tagged from_node (node_id other)
                             (Spec.tagged to_node (node_id shader) tr)).
  { unfold Spec.tagged. now rewrite filter_filter_and. }
  rewrite Hm. pose proof (Hq shader Hs other Ho) as Hr. split; [exact Hr|].
  revert Hr. generalize (Spec.tagged from_node (node_id other)
                                     (Spec.tagged to_node (node_id shader) tr)).
  intros tried Hr. unfold Frame.refused_but_last in Hr.
  induction tried as [|l tried IH]; [simpl; lia|].
  destruct tried as [|l' tried].
  - unfold Frame.accepted. simpl. destruct (host_accepts h l); simpl; lia.
  - change (removelast (l :: l' :: tried)) with (l :: removelast (l' :: tried)) in Hr.
    apply List.Forall_cons_iff in Hr. destruct Hr as [Hl Hr].
    unfold Frame.accepted in *. cbn [List.filter]. rewrite Hl. now apply IH.
Qed.

Lemma X21_witness_rgb_tree :
  exists tr,
    c_trace (AutoConnectionRules.pass_other_to_shader
               Scene.host Scene2.rgb_tree (conn_start []))
    = c_trace (conn_start []) ++ tr
    /\ let tried :=
         List.filter (fun l => Nat.eqb (from_node l) (node_id Scene2.rgb)
                               && Nat.eqb (to_node l) (node_id Scene.diffuse)) tr in
       Frame.refused_but_last Scene.host tried
       /\ (length (Frame.accepted Scene.host tried) <= 1)%nat.
Proof.
  apply (X21_one_link_per_source_and_shader
           Scene.host Scene2.rgb_tree (conn_start []) Scene.diffuse Scene2.rgb).
  - repeat (constructor; [simpl; intuition discriminate|]). constructor.
  - simpl. tauto.
  - simpl. tauto.
Defined.

(** ** What reconnect leaves of the scene *)

Section ReconnectFrame.

Import MATERIAL_OT_reconnect_with_rules.

Variables (h : Host) (has_snapshot : bool).

Lemma process_by_name_frame (acc : World * Counts) (n name : string) :
  let acc' := Spec.process_by_name h has_snapshot acc n in
  Frame.skeleton <$> materials (fst acc') !! name
  = Frame.skeleton <$> materials (fst acc) !! name
  /\ (name = n \/ materials (fst acc') !! name = materials (fst acc) !! name)
  /\ props (fst acc') = props (fst acc)
  /\ material_cache (fst acc') = material_cache (fst acc).
Proof.
  cbv zeta. unfold Spec.process_by_name.
  destruct (materials (fst acc) !! n) as [mat|] eqn:Hl; [|auto].
  destruct acc as [w cnt]. unfold process_material.
  cbn [fst set_node_tree materials props material_cache] in *.
  split; [|split; [|split; reflexivity]].
  - destruct (decide (name = n)) as [-> | Hne].
    + now rewrite lookup_insert_eq, Hl.
    + now rewrite lookup_insert_ne.
  - destruct (decide (name = n)) as [-> | Hne]; [now left|].
    right. now rewrite lookup_insert_ne.
Qed.

Lemma process_loop_frame (names : list string) (acc : World * Counts) (name : string) :
  let acc' := fold_left (Spec.process_by_name h has_snapshot) names acc in
  Frame.skeleton <$> materials (fst acc') !! name
  = Frame.skeleton <$> materials (fst acc) !! name
  /\ (In name names \/ materials (fst acc') !! name = materials (fst acc) !! name)
  /\ props (fst acc') = props (fst acc)
  /\ material_cache (fst acc') = material_cache (fst acc).
Proof.
  revert acc. induction names as [|n names IH]; intros acc; [cbn; auto|].
  cbv zeta. cbn [fold_left].
  pose proof (process_by_name_frame acc n name) as H1. cbv zeta in H1.
  pose proof (IH (Spec.process_by_name h has_snapshot acc n)) as H2. cbv zeta in H2.
  destruct H1 as (Hs1 & Hm1 & Hp1 & Hc1). destruct H2 as (Hs2 & Hm2 & Hp2 & Hc2).
  split; [congruence|]. split; [|split; congruence].
  destruct Hm2 as [Hin | Hm2]; [left; now right|].
  destruct Hm1 as [-> | Hm1]; [left; now left|]. right. congruence.
Qed.

End ReconnectFrame.

(** X22. What reconnect leaves of the scene.  The reconnect operator never
    adds, removes or alters a node and never switches the use of nodes: every
    material has the nodes it had; a material that is not found in a slot of
    a selected mesh object, or does not use nodes, or does not pass the
    material filter, is exactly as it was; and the settings (the snapshot
    among them) and the material cache are untouched. *)
Theorem X22_reconnect_keeps_nodes_and_other_materials (h : Host) (ctx : Context) (w : World)
        (name : string) :
  let w' := snd (MATERIAL_OT_reconnect_with_rules.execute h ctx w) in
  let slots := mesh_slots (selected_objects ctx) in
  Frame.skeleton <$> materials w' !! name = Frame.skeleton <$> materials w !! name
  /\ (In name (omap (Spec.eligible w) slots) \/ materials w' !! name = materials w !! name)
  /\ props w' = props w
  /\ material_cache w' = material_cache w.
Proof.
  intros w' slots. subst w'. unfold MATERIAL_OT_reconnect_with_rules.execute.
  destruct (selected_objects ctx) as [|obj objs] eqn:Hobjs; [cbn; auto|].
  set (has_snapshot := (0 <? length (connection_snapshot (props w)))%nat).
  set (start := (w, {| MATERIAL_OT_reconnect_with_rules.auto_connect_count := 0;
                       MATERIAL_OT_reconnect_with_rules.custom_rule_count := 0;
                       MATERIAL_OT_reconnect_with_rules.restored_count := 0 |})).
  pose proof (reconnect_loop_schedule h has_snapshot (mesh_slots (obj :: objs)) ∅ start)
    as Hloop.
  pose proof (process_loop_frame
                h has_snapshot
                (Spec.first_occurrences ∅ (omap (Spec.eligible (fst start))
                                                (mesh_slots (obj :: objs))))
                start name) as Hframe.
  cbv zeta in Hframe. rewrite <- Hloop in Hframe.
  destruct (fold_left _ _ (∅, start)) as [processed [w' cnt]].
  cbn [fst snd] in *. destruct Hframe as (Hs & Hm & Hp & Hc).
  split; [exact Hs|]. split; [|split; assumption].
  destruct Hm as [Hin | Hm]; [|now right]. left.
  apply (first_occurrences_spec _ ∅) in Hin. subst slots. tauto.
Qed.

(** ** A pass keeps the links it makes *)

Section OwnLinks.

Import AutoConnectionRules.

Variables (h : Host) (ids : list nat) (s : Node) (base : list Link).

Hypothesis s_new : ~ In (node_id s) ids.

(** One request for an input of [s] that is not marked as connected. *)
Lemma kept_link_input (t : Node) (o i : nat) (cs : list nat * Conn) :
  nat_mem i (fst cs) = false ->
  Frame.kept_in_round h ids s base cs ->
  Frame.kept_in_round h ids s base (snd (link_input h (mk_link t o s i) cs)).
Proof.
  intros Hfree (tr & Ht & Hk). exists (tr ++ [mk_link t o s i]).
  unfold link_input, try_link, links_new, Frame.accepted in *.
  rewrite List.filter_app. cbn [List.filter].
  destruct (host_accepts h (mk_link t o s i)) eqn:Hacc;
    cbn [fst snd c_links c_trace]; rewrite Ht, app_assoc; (split; [reflexivity|]).
  - intros l Hl. apply in_app_or in Hl. destruct Hl as [Hl | [<- | []]].
    + destruct (Hk l Hl) as [Hin Hend]. split.
      * apply in_or_app. left. apply filter_In. split; [exact Hin|].
        apply negb_true_iff. unfold same_input. cbn [mk_link to_node to_socket].
        destruct Hend as [Hold | [Hs Hc]].
        -- apply andb_false_iff. left. apply Nat.eqb_neq. intros Heq. apply s_new.
           now rewrite <- Heq.
        -- apply andb_false_iff. right. apply Nat.eqb_neq. intros Heq.
           rewrite Heq in Hc. congruence.
      * destruct Hend as [Hold | [Hs Hc]]; [now left|]. right. split; [exact Hs|].
        unfold nat_mem in Hc |- *. cbn [existsb]. now rewrite Hc, orb_true_r.
    + split; [apply in_or_app; right; now left|]. right. split; [reflexivity|].
      unfold nat_mem. cbn [existsb mk_link to_socket]. now rewrite Nat.eqb_refl.
  - rewrite app_nil_r. exact Hk.
Qed.

Lemma kept_connect_texture (t : Node) (ha : bool) (cs : list nat * Conn) :
  Frame.kept_in_round h ids s base cs ->
  Frame.kept_in_round h ids s base (connect_texture h s ha cs t).
Proof.
  intros Hk. unfold connect_texture. destruct (node_outputs t) as [|o0 outs]; [exact Hk|].
  destruct (String.eqb (node_type t) "TEX_IMAGE").
  - unfold connect_image_texture.
    set (cs1 := if (0 <? length (node_outputs t))%nat then _ else cs).
    assert (H1 : Frame.kept_in_round h ids s base cs1).
    { subst cs1. destruct (0 <? length (node_outputs t))%nat; [|exact Hk].
      destruct (color_target _ _ _) as [ti|] eqn:Hct; [|exact Hk].
      apply color_target_free in Hct. apply kept_link_input; tauto. }
    destruct (ha && (1 <? length (node_outputs t))%nat); [|exact H1].
    destruct (alpha_target _ _) as [ai|] eqn:Hat; [|exact H1].
    apply first_unconnected_free in Hat. apply kept_link_input; tauto.
  - unfold connect_other_texture.
    destruct (color_output_of (node_outputs t)) as [co|]; [|exact Hk].
    destruct (best_input _ _ _) as [[bi|] sc] eqn:Hb; [|exact Hk].
    destruct (50 <=? sc); [|exact Hk].
    apply best_input_free in Hb. apply kept_link_input; tauto.
Qed.

Lemma kept_connect_other_outputs (o : Node) (outs : list (nat * Socket))
      (cs : list nat * Conn) :
  Frame.kept_in_round h ids s base cs ->
  Frame.kept_in_round h ids s base (connect_other_outputs h s o outs cs).
Proof.
  revert cs. induction outs as [|[oi out] outs IH]; intros cs Hk;
    cbn [connect_other_outputs]; [exact Hk|].
  destruct (negb (str_mem (sock_type out) ["RGBA"; "VECTOR"; "VALUE"])); [now apply IH|].
  destruct (best_input _ _ _) as [[bi|] sc] eqn:Hb; [|now apply IH].
  destruct (40 <=? sc); [|now apply IH].
  apply best_input_free in Hb.
  pose proof (kept_link_input o oi bi cs (proj2 Hb) Hk) as Hl.
  destruct (link_input h (mk_link o oi s bi) cs) as [ok cs']. cbn [snd] in Hl.
  destruct ok; [exact Hl | now apply IH].
Qed.

(** A round starts with nothing marked and ends with [s] done. *)
Lemma kept_round (f : list nat * Conn -> list nat * Conn) (st : Conn) :
  (forall cs, Frame.kept_in_round h ids s base cs -> Frame.kept_in_round h ids s base (f cs)) ->
  Frame.kept h ids base st ->
  Frame.kept h (node_id s :: ids) base (snd (f ([], st))).
Proof.
  intros Hf (tr & Ht & Hk).
  destruct (Hf ([], st)) as (tr' & Ht' & Hk').
  { exists tr. split; [exact Ht|]. intros l Hl. destruct (Hk l Hl). auto. }
  exists tr'. split; [exact Ht'|]. intros l Hl. destruct (Hk' l Hl) as [Hin Hend].
  split; [exact Hin|]. destruct Hend as [Hold | [Hs _]]; [now right | now left].
Qed.

End OwnLinks.

Section OwnLinksPass.

Import AutoConnectionRules.

Variables (h : Host) (base : list Link).

Lemma kept_pass (round : Conn -> Node -> Conn) (shaders : list Node) :
  (forall ids s st, ~ In (node_id s) ids ->
                    Frame.kept h ids base st -> Frame.kept h (node_id s :: ids) base (round st s)) ->
  List.NoDup (map node_id shaders) ->
  forall ids st,
    (forall s, In s shaders -> ~ In (node_id s) ids) ->
    Frame.kept h ids base st ->
    exists ids', Frame.kept h ids' base (fold_left round shaders st).
Proof.
  intros Hround. induction shaders as [|s shaders IH]; intros Hnd ids st Hnew Hk.
  - now exists ids.
  - cbn [map] in Hnd. apply List.NoDup_cons_iff in Hnd. destruct Hnd as [Hs Hnd].
    cbn [fold_left]. apply (IH Hnd (node_id s :: ids)).
    + intros s' Hs' [Heq | Hin].
      * apply Hs. rewrite Heq. now apply in_map.
      * apply (Hnew s'); [now right | exact Hin].
    + apply Hround; [apply Hnew; now left | exact Hk].
Qed.

End OwnLinksPass.

(** X23. A pass of the auto-connection keeps the links it makes: in a tree
    whose nodes are distinct, every request that the host accepts during the
    texture pass is a link of the tree when that pass ends, and every request
    accepted during the pass of the other nodes is a link of the tree when
    that pass ends.  (Within a pass an input of a shader node is bound at
    most once; the later pass starts with no input marked and may bind an
    input anew.) *)
Theorem X23_a_pass_keeps_its_own_links (h : Host) (nodes : list Node) (st : Conn) :
  List.NoDup (map node_id nodes) ->
  let kept (st' : Conn) :=
    exists tr,
      c_trace st' = c_trace st ++ tr
      /\ forall l, In l (Frame.accepted h tr) -> In l (c_links st') in
  kept (AutoConnectionRules.pass_texture_to_shader h nodes st)
  /\ kept (AutoConnectionRules.pass_other_to_shader h nodes st).
Proof.
  intros Hnd kept.
  assert (Hnds : List.NoDup (map node_id (AutoConnectionRules.shader_nodes_of nodes)))
    by (now apply NoDup_map_filter).
  assert (Hstart : Frame.kept h [] (c_trace st) st).
  { exists []. rewrite app_nil_r. split; [reflexivity | intros l []]. }
  assert (Hend : forall st', (exists ids, Frame.kept h ids (c_trace st) st') -> kept st').
  { intros st' (ids & tr & Ht & Hk). exists tr. split; [exact Ht|].
    intros l Hl. now destruct (Hk l Hl). }
  split; apply Hend.
  - unfold AutoConnectionRules.pass_texture_to_shader.
    refine (kept_pass h (c_trace st)
                      (AutoConnectionRules.connect_textures_to_shader
                         h (AutoConnectionRules.texture_nodes_of nodes))
                      (AutoConnectionRules.shader_nodes_of nodes) _ Hnds [] st _ Hstart);
      [|auto].
    intros ids s st' Hs Hk. unfold AutoConnectionRules.connect_textures_to_shader.
    apply (kept_round h ids s (c_trace st)
                      (fun cs => fold_left
                                   (AutoConnectionRules.connect_texture
                                      h s (AutoConnectionRules.has_alpha_input s))
                                   (AutoConnectionRules.texture_nodes_of nodes) cs));
      [|exact Hk].
    intros cs. generalize (AutoConnectionRules.texture_nodes_of nodes). intros texs.
    revert cs. induction texs as [|t texs IH]; intros cs Hc; [exact Hc|].
    cbn [fold_left]. apply IH. now apply kept_connect_texture.
  - unfold AutoConnectionRules.pass_other_to_shader.
    refine (kept_pass h (c_trace st)
                      (AutoConnectionRules.connect_others_to_shader
                         h (AutoConnectionRules.other_nodes_of nodes))
                      (AutoConnectionRules.shader_nodes_of nodes) _ Hnds [] st _ Hstart);
      [|auto].
    intros ids s st' Hs Hk. unfold AutoConnectionRules.connect_others_to_shader.
    apply (kept_round h ids s (c_trace st)
                      (fun cs => fold_left
                                   (fun cs o =>
                                      AutoConnectionRules.connect_other_outputs
                                        h s o (enumerate (node_outputs o)) cs)
                                   (AutoConnectionRules.other_nodes_of nodes) cs));
      [|exact Hk].
    intros cs. generalize (AutoConnectionRules.other_nodes_of nodes). intros others.
    revert cs. induction others as [|o others IH]; intros cs Hc; [exact Hc|].
    cbn [fold_left]. apply IH. now apply kept_connect_other_outputs.
Qed.

Lemma X23_witness_image_tree :
  exists tr,
    c_trace (AutoConnectionRules.pass_texture_to_shader
               Scene.host [Scene.diffuse; Scene.image; Scene.output] (conn_start []))
    = c_trace (conn_start []) ++ tr
    /\ forall l, In l (Frame.accepted Scene.host tr) ->
                 In l (c_links (AutoConnectionRules.pass_texture_to_shader
                                  Scene.host [Scene.diffuse; Scene.image; Scene.output]
                                  (conn_start []))).
Proof.
  refine (proj1 (X23_a_pass_keeps_its_own_links
                   Scene.host [Scene.diffuse; Scene.image; Scene.output] (conn_start []) _)).
  repeat (constructor; [simpl; intuition discriminate|]). constructor.
Defined.

(** ** The image texture helpers and the search of the engine *)

Section ImageHelpers.

Import ImageTextureInputs.

Lemma sort_by_index_sorted {A} (p : nat * A -> bool) (xs : list A) (k : nat) :
  sort_by_index (List.filter p (combine (seq k (length xs)) xs))
  = List.filter p (combine (seq k (length xs)) xs).
Proof.
  revert k. induction xs as [|x xs IH]; intros k; [reflexivity|].
  cbn [length seq combine List.filter]. destruct (p (k, x)); [|apply IH].
  cbn [sort_by_index fold_right]. fold (sort_by_index (List.filter p (combine (seq (S k) (length xs)) xs))).
  rewrite IH.
  destruct (List.filter p (combine (seq (S k) (length xs)) xs)) as [|[j y] rest] eqn:Hf;
    [reflexivity|].
  cbn [insert_by_index fst].
  assert (Hin : In (j, y) (List.filter p (combine (seq (S k) (length xs)) xs)))
    by (rewrite Hf; now left).
  apply filter_In in Hin. destruct Hin as [Hin _]. apply In_enumerate_from in Hin.
  destruct Hin as [Hle _]. replace (k <=? j)%nat with true; [reflexivity|].
  symmetry. apply Nat.leb_le. lia.
Qed.

(** The match of lowest index is the first match. *)
Lemma lowest_is_first (p : Socket -> bool) (shader_node : Node) (connected : list nat) :
  match matching_inputs p shader_node connected with
  | [] => None
  | matching => lowest matching
  end
  = AutoConnectionRules.first_unconnected p (node_inputs shader_node) connected.
Proof.
  unfold lowest, matching_inputs, AutoConnectionRules.first_unconnected, enumerate.
  set (q := fun ix : nat * Socket => negb (nat_mem (fst ix) connected) && p (snd ix)).
  pose proof (sort_by_index_sorted q (node_inputs shader_node) 0) as Hs.
  generalize dependent (combine (seq 0 (length (node_inputs shader_node)))
                                (node_inputs shader_node)).
  intros l Hs.
  destruct (List.filter q l) as [|[i x] rest] eqn:Hf.
  - induction l as [|a l IH]; [reflexivity|]. cbn [List.filter List.find] in *.
    destruct (q a); [discriminate|]. now apply IH.
  - rewrite Hs. clear Hs. revert Hf. induction l as [|a l IH]; [discriminate|].
    cbn [List.filter List.find]. destruct (q a).
    + intros [= -> _]. reflexivity.
    + exact IH.
Qed.

Lemma alpha_names_checked :
  forallb (fun name => bool_decide (SocketSemantics.get_socket_semantic name = ALPHA))
          alpha_names = true.
Proof. vm_compute. reflexivity. Qed.

End ImageHelpers.

(** X24. The image texture helpers of the batch operator agree with the
    search the auto-connection engine makes in line.  Collecting the free
    inputs that match, sorting them by position and taking the first is
    taking the first free input that matches: for the color output
    [_find_best_input_for_image_texture] is the engine's search by color
    keyword, keyword by keyword in the same order, and for the alpha output
    it is the engine's search by alpha keyword; the socket type passed to it
    plays no part.  An input that [_find_alpha_input] finds by name is an
    input the engine classifies ALPHA, so the engine's alpha gate is open
    for that shader. *)
Theorem X24_image_helpers_agree_with_engine (shader_node : Node) (socket_type : string)
        (connected_inputs : list nat) :
  ImageTextureInputs._find_best_input_for_image_texture
    shader_node socket_type connected_inputs false
  = AutoConnectionRules.color_target AutoConnectionRules.color_keywords
                                     (node_inputs shader_node) connected_inputs
  /\ ImageTextureInputs._find_best_input_for_image_texture
       shader_node socket_type connected_inputs true
     = AutoConnectionRules.alpha_target (node_inputs shader_node) connected_inputs
  /\ (ImageTextureInputs._find_alpha_input shader_node = None
      \/ AutoConnectionRules.has_alpha_input shader_node = true).
Proof.
  split; [|split].
  - unfold ImageTextureInputs._find_best_input_for_image_texture.
    change ImageTextureInputs.color_keywords with AutoConnectionRules.color_keywords.
    induction AutoConnectionRules.color_keywords as [|kw kws IH]; [reflexivity|].
    cbn [ImageTextureInputs.by_keyword AutoConnectionRules.color_target].
    rewrite <- (lowest_is_first (fun inp => str_in kw (lower (sock_name inp)))
                                shader_node connected_inputs).
    destruct (ImageTextureInputs.matching_inputs _ shader_node connected_inputs)
      as [|m ms] eqn:Hm; [exact IH|].
    unfold ImageTextureInputs.lowest.
    unfold ImageTextureInputs.matching_inputs, enumerate in Hm.
    rewrite <- Hm, sort_by_index_sorted, Hm. now destruct m.
  - unfold ImageTextureInputs._find_best_input_for_image_texture,
      AutoConnectionRules.alpha_target.
    change ImageTextureInputs.alpha_keywords with AutoConnectionRules.alpha_keywords.
    apply lowest_is_first.
  - unfold ImageTextureInputs._find_alpha_input.
    pose proof (find_index_spec
                  (fun inp => str_mem (sock_name inp) ImageTextureInputs.alpha_names)
                  (node_inputs shader_node)) as Hspec.
    destruct (find_index _ _) as [i|]; [right | now left].
    destruct Hspec as (inp & Hl & Hname & _).
    unfold AutoConnectionRules.has_alpha_input. apply existsb_exists.
    exists inp. split; [apply list_elem_of_In; eapply list_elem_of_lookup_2; exact Hl|].
    apply str_mem_In in Hname. pose proof alpha_names_checked as Hc.
    rewrite forallb_forall in Hc. now apply Hc.
Qed.

(** ** Disconnect run twice *)

Section DisconnectTwice.

Import MATERIAL_OT_disconnect_all_connections.

Lemma links_to_remove_disconnected (shader_types : list string) (mat : Material) :
  links_to_remove (mat_node_tree (Frame.disconnected shader_types mat)) shader_types = [].
Proof.
  unfold links_to_remove, Frame.disconnected, Frame.removed_by.
  cbn [mat_node_tree nt_links nt_nodes].
  destruct (str_mem "ALL" shader_types); cbn [orb negb].
  - apply filter_none. auto.
  - rewrite filter_filter_and. apply filter_none. intros l _. apply andb_negb_r.
Qed.

(** A round on a material that has nothing to remove changes nothing. *)
Lemma disconnect_slot_clean (shader_types : list string) (w : World) (c : Z)
      (slot : option string) :
  (forall name mat, slot_material w slot = Some (name, mat) ->
                    should_process (props w) name = true ->
                    links_to_remove (mat_node_tree mat) shader_types = []) ->
  materials (fst (disconnect_slot shader_types (w, c) slot)) = materials w
  /\ props (fst (disconnect_slot shader_types (w, c) slot)) = props w
  /\ snd (disconnect_slot shader_types (w, c) slot) = c.
Proof.
  intros Hclean. unfold disconnect_slot.
  destruct (slot_material w slot) as [[name mat]|] eqn:Hsm; [|auto].
  destruct (should_process (props w) name) eqn:Hsp; cbn [negb]; [|auto].
  rewrite (Hclean name mat eq_refl Hsp).
  destruct (slot_material_lookup _ _ _ _ Hsm) as (_ & Hl & _).
  destruct w as [ms cache p]. destruct p as [f1 f2 f3 f4 f5 f6 f7 f8 f9 f10 f11 f12].
  destruct mat as [u [ns ls]].
  cbn [fst snd set_node_tree set_snapshot materials props map fold_left length
       connection_snapshot mat_node_tree nt_nodes nt_links use_nodes] in *.
  rewrite app_nil_r. split; [now apply insert_id|]. split; [reflexivity | lia].
Qed.

Lemma disconnect_loop_clean (shader_types : list string) (slots : list (option string))
      (w : World) (c : Z) :
  (forall slot name mat, In slot slots -> slot_material w slot = Some (name, mat) ->
                         should_process (props w) name = true ->
                         links_to_remove (mat_node_tree mat) shader_types = []) ->
  materials (fst (fold_left (disconnect_slot shader_types) slots (w, c))) = materials w
  /\ props (fst (fold_left (disconnect_slot shader_types) slots (w, c))) = props w
  /\ snd (fold_left (disconnect_slot shader_types) slots (w, c)) = c.
Proof.
  revert w c. induction slots as [|slot slots IH]; intros w c Hclean; [auto|].
  cbn [fold_left].
  destruct (disconnect_slot_clean shader_types w c slot) as (Hm & Hp & Hc).
  { intros name mat. apply Hclean. now left. }
  destruct (disconnect_slot shader_types (w, c) slot) as [w1 c1].
  cbn [fst snd] in Hm, Hp, Hc. subst c1.
  destruct (IH w1 c) as (Hm' & Hp' & Hc').
  { intros slot' name mat Hin Hsm Hsp. apply (Hclean slot' name mat); [now right | |].
    - unfold slot_material in *. now rewrite <- Hm.
    - now rewrite <- Hp. }
  split; [congruence|]. split; [congruence | exact Hc'].
Qed.

(** The loop changes no setting but the snapshot. *)
Lemma disconnect_loop_props (shader_types : list string) (slots : list (option string))
      (w : World) (c : Z) :
  exists snapshot,
    props (fst (fold_left (disconnect_slot shader_types) slots (w, c)))
    = props (set_snapshot w snapshot).
Proof.
  revert w c. induction slots as [|slot slots IH]; intros w c.
  - exists (connection_snapshot (props w)). destruct w as [ms cache p]. now destruct p.
  - cbn [fold_left].
    assert (Hstep : exists snapshot,
               props (fst (disconnect_slot shader_types (w, c) slot))
               = props (set_snapshot w snapshot)).
    { unfold disconnect_slot.
      destruct (slot_material w slot) as [[name mat]|];
        [|exists (connection_snapshot (props w)); destruct w as [ms cache p]; now destruct p].
      destruct (should_process (props w) name); cbn [negb];
        [|exists (connection_snapshot (props w)); destruct w as [ms cache p]; now destruct p].
      eexists. cbn [fst set_node_tree props]. reflexivity. }
    destruct Hstep as (s1 & Hs1).
    destruct (disconnect_slot shader_types (w, c) slot) as [w1 c1]. cbn [fst] in Hs1.
    destruct (IH w1 c1) as (s2 & Hs2). exists s2. rewrite Hs2.
    unfold set_snapshot. cbn [props]. rewrite Hs1. reflexivity.
Qed.

End DisconnectTwice.

(** X25. Disconnect run twice.  A second run of the disconnect operator
    right after a run that finished, on the same selection and settings,
    finds nothing to remove: it leaves every material as the first run left
    it and reports 0 disconnected links, but it has emptied the snapshot, so
    the records the first run stored for restoring the links are gone. *)
Theorem X25_second_disconnect_empties_the_snapshot (ctx : Context) (w : World) :
  let r1 := MATERIAL_OT_disconnect_all_connections.execute ctx w in
  let r2 := MATERIAL_OT_disconnect_all_connections.execute ctx (snd r1) in
  fst (fst r1) = CANCELLED
  \/ (fst (fst r2) = FINISHED
      /\ snd (fst r2) = [(INFO, Disconnected (replace_mode (props w)) 0)]
      /\ materials (snd r2) = materials (snd r1)
      /\ connection_snapshot (props (snd r2)) = []).
Proof.
  intros r1 r2.
  destruct (selected_objects ctx) as [|obj objs] eqn:Hobjs.
  { left. subst r1. unfold MATERIAL_OT_disconnect_all_connections.execute.
    now rewrite Hobjs. }
  destruct (bool_decide (replace_mode (props w) = MATERIAL)
            && bool_decide (target_material (props w) = None)) eqn:Hcancel.
  { left. subst r1. unfold MATERIAL_OT_disconnect_all_connections.execute.
    now rewrite Hobjs, Hcancel. }
  right.
  set (slots := mesh_slots (obj :: objs)).
  set (shader_types :=
         MATERIAL_OT_disconnect_all_connections.get_shader_types_to_disconnect (props w)).
  set (start := MATERIAL_OT_disconnect_all_connections._clear_snapshot w).
  assert (Hr1 : snd r1
                = fst (fold_left
                         (MATERIAL_OT_disconnect_all_connections.disconnect_slot shader_types)
                         slots (start, 0))).
  { subst r1. unfold MATERIAL_OT_disconnect_all_connections.execute.
    rewrite Hobjs, Hcancel. fold shader_types start slots.
    now destruct (fold_left _ slots (start, 0)). }
  subst r2. rewrite Hr1. clear Hr1 r1.
  destruct (disconnect_loop_props shader_types slots start 0) as (s1 & Hprops).
  pose proof (fun name => disconnect_loop_materials shader_types slots start 0 name) as Hmats.
  destruct (fold_left (MATERIAL_OT_disconnect_all_connections.disconnect_slot shader_types)
                      slots (start, 0)) as [w1 c1] eqn:Hloop.
  cbn [fst snd] in *.
  assert (Hmode : replace_mode (props w1) = replace_mode (props w)) by now rewrite Hprops.
  assert (Htm : target_material (props w1) = target_material (props w)) by now rewrite Hprops.
  assert (Htypes : MATERIAL_OT_disconnect_all_connections.get_shader_types_to_disconnect
                     (props w1) = shader_types) by now rewrite Hprops.
  unfold MATERIAL_OT_disconnect_all_connections.execute.
  rewrite Hobjs, Hmode, Htm, Hcancel, Htypes. fold slots.
  set (start2 := MATERIAL_OT_disconnect_all_connections._clear_snapshot w1).
  destruct (disconnect_loop_clean shader_types slots start2 0) as (Hm & Hp & Hc).
  { intros slot name mat Hin Hsm Hsp.
    assert (Hel : Spec.eligible start slot = Some name).
    { unfold Spec.eligible, slot_material, should_process in *.
      subst start start2. cbn [materials props set_snapshot replace_mode target_material
                               MATERIAL_OT_disconnect_all_connections._clear_snapshot] in *.
      rewrite Hmode, Htm in Hsp. destruct slot as [n|]; [|discriminate].
      rewrite Hmats in Hsm.
      destruct (materials w !! n) as [mat0|]; [|now case_bool_decide].
      assert (Hu : use_nodes mat0 = true /\ name = n).
      { case_bool_decide; cbn [fmap option_fmap option_map Frame.disconnected use_nodes] in Hsm;
          destruct (use_nodes mat0); inversion Hsm; auto. }
      destruct Hu as [-> ->]. now rewrite Hsp. }
    assert (Hname : name ∈ omap (Spec.eligible start) slots).
    { apply list_elem_of_omap. exists slot. split; [now apply list_elem_of_In | exact Hel]. }
    destruct (slot_material_lookup _ _ _ _ Hsm) as (_ & Hl & _).
    subst start2. cbn [materials set_snapshot
                       MATERIAL_OT_disconnect_all_connections._clear_snapshot] in Hl.
    rewrite Hmats, (bool_decide_eq_true_2 _ Hname) in Hl.
    destruct (materials start !! name) as [mat0|]; [|discriminate].
    injection Hl as <-. apply links_to_remove_disconnected. }
  destruct (fold_left _ slots (start2, 0)) as [w2 c2]. cbn [fst snd] in *. subst c2.
  split; [reflexivity|]. split; [reflexivity|]. split; [exact Hm|].
  rewrite Hp. reflexivity.
Qed.

(** ** CAPTURE: the links of the node to replace, grouped by socket name *)

Section Capture.

Context {V : Type}.

Lemma group_dict_append (d : list (string * list V)) (k k' : string) (v : V) :
  Frame.group (dict_append d k v) k'
  = if String.eqb k k' then Frame.group d k' ++ [v] else Frame.group d k'.
Proof.
  unfold Frame.group. induction d as [|[k0 vs] d IH]; cbn [dict_append List.find fst snd].
  - destruct (String.eqb k k'); reflexivity.
  - destruct (String.eqb_spec k0 k) as [-> | Hne]; cbn [List.find fst snd].
    + destruct (String.eqb k k'); reflexivity.
    + destruct (String.eqb_spec k0 k') as [-> | Hne'].
      * rewrite (proj2 (String.eqb_neq k k')) by congruence. reflexivity.
      * exact IH.
Qed.

Lemma keys_dict_append (d : list (string * list V)) (k : string) (v : V) :
  List.NoDup (map fst d) ->
  (forall k' vs, In (k', vs) d -> vs <> []) ->
  List.NoDup (map fst (dict_append d k v))
  /\ (forall k' vs, In (k', vs) (dict_append d k v) -> vs <> [])
  /\ (forall k', In k' (map fst (dict_append d k v)) <-> k' = k \/ In k' (map fst d)).
Proof.
  induction d as [|[k0 vs] d IH]; intros Hnd Hne; cbn [dict_append map fst].
  - split; [repeat constructor; intros []|]. split.
    + intros k' vs' [[= <- <-] | []]. discriminate.
    + intros k'. cbn. intuition.
  - cbn [map fst] in Hnd. apply List.NoDup_cons_iff in Hnd. destruct Hnd as [Hk0 Hnd].
    destruct (String.eqb_spec k0 k) as [-> | Hneq]; cbn [map fst].
    + split; [now constructor|]. split.
      * intros k' vs' [[= <- <-] | Hin]; [now destruct vs | apply (Hne k' vs'); now right].
      * intros k'. cbn. intuition.
    + destruct IH as (IH1 & IH2 & IH3); [exact Hnd | intros k' vs' H'; apply (Hne k' vs'); now right|].
      split; [|split].
      * constructor; [|exact IH1]. rewrite IH3. intros [-> | Hin]; [congruence | contradiction].
      * intros k' vs' [[= <- <-] | Hin]; [apply (Hne k0 vs); now left | now apply (IH2 k' vs')].
      * intros k'. cbn. rewrite IH3. intuition.
Qed.

Variables (X : Type) (step : list (string * list V) -> X -> list (string * list V)).

(** Every round files one value under one key, or nothing. *)
Hypothesis step_shape :
  forall x, (forall d, step d x = d) \/ (exists k v, forall d, step d x = dict_append d k v).

Lemma grouped_fold (xs : list X) (d : list (string * list V)) :
  List.NoDup (map fst d) ->
  (forall k vs, In (k, vs) d -> vs <> []) ->
  List.NoDup (map fst (fold_left step xs d))
  /\ (forall k vs, In (k, vs) (fold_left step xs d) -> vs <> [])
  /\ forall k, Frame.group (fold_left step xs d) k
               = Frame.group d k ++ flat_map (fun x => Frame.group (step [] x) k) xs.
Proof.
  revert d. induction xs as [|x xs IH]; intros d Hnd Hne; cbn [fold_left flat_map].
  - split; [exact Hnd|]. split; [exact Hne|]. intros k. now rewrite app_nil_r.
  - assert (Hstep : List.NoDup (map fst (step d x))
                    /\ (forall k vs, In (k, vs) (step d x) -> vs <> [])
                    /\ forall k, Frame.group (step d x) k
                                 = Frame.group d k ++ Frame.group (step [] x) k).
    { destruct (step_shape x) as [Hskip | (k0 & v & Hput)].
      - rewrite !Hskip. split; [exact Hnd|]. split; [exact Hne|]. intros k.
        apply (eq_sym (app_nil_r _)).
      - rewrite !Hput. destruct (keys_dict_append d k0 v Hnd Hne) as (H1 & H2 & _).
        split; [exact H1|]. split; [exact H2|]. intros k. rewrite !group_dict_append.
        destruct (String.eqb k0 k); [reflexivity | now rewrite app_nil_r]. }
    destruct Hstep as (Hnd1 & Hne1 & Hg1).
    destruct (IH (step d x) Hnd1 Hne1) as (Hnd2 & Hne2 & Hg2).
    split; [exact Hnd2|]. split; [exact Hne2|]. intros k.
    now rewrite Hg2, Hg1, app_assoc.
Qed.

End Capture.

Section CaptureShape.

Import MATERIAL_OT_batch_replace_shader.

Lemma capture_input_shape (nodes : list Node) (old_shader : Node) (link : Link) :
  (forall d, capture_input nodes old_shader d link = d)
  \/ (exists k v, forall d, capture_input nodes old_shader d link = dict_append d k v).
Proof.
  unfold capture_input. destruct (Nat.eqb _ _); [|now left].
  destruct (node_inputs old_shader !! to_socket link) as [ts|]; [|now left].
  destruct (node_of_id nodes (from_node link)) as [fn|]; [|now left].
  destruct (node_outputs fn !! from_socket link) as [fs|]; [|now left].
  right. eexists. eexists. intros d. reflexivity.
Qed.

Lemma capture_output_shape (nodes : list Node) (old_shader : Node) (link : Link) :
  (forall d, capture_output nodes old_shader d link = d)
  \/ (exists k v, forall d, capture_output nodes old_shader d link = dict_append d k v).
Proof.
  unfold capture_output. destruct (Nat.eqb _ _); [|now left].
  destruct (node_outputs old_shader !! from_socket link) as [fs|]; [|now left].
  destruct (node_of_id nodes (to_node link)) as [tn|]; [|now left].
  destruct (node_inputs tn !! to_socket link) as [ts|]; [|now left].
  right. eexists. eexists. intros d. reflexivity.
Qed.

End CaptureShape.

(** X26. CAPTURE loses nothing and keeps the order.  The records captured
    for the node to replace are grouped by socket name: under each name
    stand, in the order of the links of the tree, exactly the records of the
    links that a capture of that single link files under that name; no name
    occurs twice and no group is empty.  This holds for the incoming links
    (grouped by the name of the input of the old node) and for the outgoing
    links (grouped by the name of its output). *)
Theorem X26_capture_groups_links_by_socket_name (nodes : list Node) (old_shader : Node)
        (links : list Link) :
  let input_links :=
    fold_left (MATERIAL_OT_batch_replace_shader.capture_input nodes old_shader) links [] in
  let output_links :=
    fold_left (MATERIAL_OT_batch_replace_shader.capture_output nodes old_shader) links [] in
  (List.NoDup (map fst input_links)
   /\ (forall k vs, In (k, vs) input_links -> vs <> [])
   /\ forall k,
       Frame.group input_links k
       = flat_map (fun l => Frame.group
                              (MATERIAL_OT_batch_replace_shader.capture_input
                                 nodes old_shader [] l) k) links)
  /\ (List.NoDup (map fst output_links)
      /\ (forall k vs, In (k, vs) output_links -> vs <> [])
      /\ forall k,
          Frame.group output_links k
          = flat_map (fun l => Frame.group
                                 (MATERIAL_OT_batch_replace_shader.capture_output
                                    nodes old_shader [] l) k) links).
Proof.
  intros input_links output_links. split.
  - destruct (grouped_fold Link (MATERIAL_OT_batch_replace_shader.capture_input nodes old_shader)
                           (capture_input_shape nodes old_shader) links [])
      as (Hnd & Hne & Hg); [constructor | intros k vs [] |].
    split; [exact Hnd|]. split; [exact Hne | exact Hg].
  - destruct (grouped_fold Link (MATERIAL_OT_batch_replace_shader.capture_output nodes old_shader)
                           (capture_output_shape nodes old_shader) links [])
      as (Hnd & Hne & Hg); [constructor | intros k vs [] |].
    split; [exact Hnd|]. split; [exact Hne | exact Hg].
Qed.

(** ** The material modes of the batch operator *)

(** X27. In the modes MATERIAL and MATERIAL_SPECIFIC the batch operator
    works on the target material alone: the selection and the active
    collection play no part in its outcome, every material other than the
    target is as it was, and, unless the operator is cancelled, the material
    cache is empty afterwards. *)
Theorem X27_material_modes_touch_only_the_target (h : Host) (ctx ctx' : Context) (w : World)
        (name : string) :
  let r := MATERIAL_OT_batch_replace_shader.execute h ctx w in
  replace_mode (props w) = ALL
  \/ replace_mode (props w) = SPECIFIC
  \/ (MATERIAL_OT_batch_replace_shader.execute h ctx' w = r
      /\ (target_material (props w) = Some name
          \/ materials (snd r) !! name = materials w !! name)
      /\ (fst (fst r) = CANCELLED \/ material_cache (snd r) = ∅)).
Proof.
  intros r. subst r. unfold MATERIAL_OT_batch_replace_shader.execute.
  destruct (replace_mode (props w)) eqn:Hmode; [now left | right; now left | |];
    right; right;
    (destruct (negb (nonempty _)); [cbn; auto|]);
    (destruct (negb (MATERIAL_OT_batch_replace_shader.node_group_exists h _) && _);
     [cbn; auto|]);
    cbn [bool_decide andb]; rewrite bool_decide_eq_false_2 by discriminate; cbn [andb];
    unfold MATERIAL_OT_batch_replace_shader.target_material_of;
    (destruct (target_material (props w)) as [n|]; [|cbn; auto]);
    (destruct (materials w !! n) as [mat|]; [|cbn; auto]);
    (destruct (negb (use_nodes mat)); [cbn; auto|]);
    unfold MATERIAL_OT_batch_replace_shader.replace_in_world;
    cbn [fst snd set_node_tree materials material_cache MaterialCache.clear];
    (split; [reflexivity|]); (split; [|now right]);
    (destruct (decide (name = n)) as [-> | Hne];
     [now left | right; now rewrite lookup_insert_ne]).
Qed.

(** ** What a restore asks for *)

Section RestoreExact.

Import MATERIAL_OT_reconnect_with_rules.

Variables (h : Host) (nodes : list Node) (material_name : string).

(** One record: the link it asks for is tried, and a record that asks for
    none leaves everything as it is. *)
Lemma restore_item_exact (st : Conn) (item : ConnectionSnapshotItem) :
  exists request,
    Frame.asked nodes material_name item request
    /\ restore_item h nodes material_name st item
       = match request with Some l => snd (try_link h l st) | None => st end.
Proof.
  unfold restore_item, Frame.asked, Frame.asks, Spec.restores.
  destruct (String.eqb_spec (snap_material_name item) material_name) as [Hm | Hm];
    cbn [negb].
  2:{ exists None. split; [|reflexivity]. intros l (_ & _ & Hmat & _). contradiction. }
  destruct (nonempty (snap_from_node_name item)) eqn:Hfn; cbn [negb orb].
  2:{ exists None. split; [|reflexivity]. intros l (Hne & _).
      destruct (snap_from_node_name item); [now apply Hne | discriminate]. }
  destruct (nonempty (snap_to_node_name item)) eqn:Htn; cbn [negb].
  2:{ exists None. split; [|reflexivity]. intros l (_ & Hne & _).
      destruct (snap_to_node_name item); [now apply Hne | discriminate]. }
  destruct (nodes_get nodes (snap_from_node_name item)) as [src|] eqn:Hsrc.
  2:{ exists None. split; [|reflexivity].
      intros l (_ & _ & _ & src & dst & Hs & _). congruence. }
  destruct (nodes_get nodes (snap_to_node_name item)) as [dst|] eqn:Hdst.
  2:{ exists None. split; [|reflexivity].
      intros l (_ & _ & _ & src' & dst & _ & Hd & _). congruence. }
  destruct (snap_from_socket_index item <? length (node_outputs src))%nat eqn:Hf;
    cbn [andb].
  2:{ exists None. split; [|reflexivity].
      intros l (_ & _ & _ & src' & dst' & Hs & _ & Hlt & _).
      apply Nat.ltb_ge in Hf. assert (src' = src) by congruence. subst. lia. }
  destruct (snap_to_socket_index item <? length (node_inputs dst))%nat eqn:Ht.
  2:{ exists None. split; [|reflexivity].
      intros l (_ & _ & _ & src' & dst' & _ & Hd & _ & Hlt & _).
      apply Nat.ltb_ge in Ht. assert (dst' = dst) by congruence. subst. lia. }
  apply Nat.ltb_lt in Hf, Ht.
  exists (Some (mk_link src (snap_from_socket_index item) dst (snap_to_socket_index item))).
  split; [|reflexivity].
  split; [now destruct (snap_from_node_name item)|].
  split; [now destruct (snap_to_node_name item)|].
  split; [assumption|]. exists src, dst. auto.
Qed.

Lemma restore_exact (items : list ConnectionSnapshotItem) (st : Conn) :
  exists requests,
    Forall2 (Frame.asked nodes material_name) items requests
    /\ Frame.run h (omap id requests) st
                 (fold_left (restore_item h nodes material_name) items st).
Proof.
  revert st. induction items as [|item items IH]; intros st.
  - exists []. split; [constructor | apply run_refl].
  - cbn [fold_left].
    destruct (restore_item_exact st item) as (request & Hask & ->).
    destruct (IH (match request with Some l => snd (try_link h l st) | None => st end))
      as (requests & Hall & Hrun).
    exists (request :: requests). split; [now constructor|].
    destruct request as [l|].
    + exact (run_trans h [l] (omap id requests) _ _ _ (run_try_link h l st) Hrun).
    + exact Hrun.
Qed.

End RestoreExact.

(** X4. Restoring a material from the snapshot runs over every record,
    whatever fails.  A record asks for a link exactly when it belongs to the
    material, names both nodes, both names are found in the current tree and
    both recorded positions exist there; the link then joins those positions.
    The requests the host receives are these links, one per such record, in
    the order of the records, and nothing else; the count returned is the
    number of them the host accepted; every link afterwards was there or is
    an accepted request, and a link that was there is still there unless an
    accepted request bound its input anew. *)
Theorem X4_restore_asks_one_link_per_record (h : Host) (p : Props) (t : NodeTree)
        (material_name : string) :
  let st := MATERIAL_OT_reconnect_with_rules._restore_connections_from_snapshot
              h p t material_name in
  exists requests,
    Forall2 (Frame.asked (nt_nodes t) material_name) (connection_snapshot p) requests
    /\ c_trace st = omap id requests
    /\ c_count st = Z.of_nat (length (Frame.accepted h (c_trace st)))
    /\ Frame.run h (omap id requests) (conn_start (nt_links t)) st.
Proof.
  cbn zeta. unfold MATERIAL_OT_reconnect_with_rules._restore_connections_from_snapshot.
  destruct (restore_exact h (nt_nodes t) material_name (connection_snapshot p)
                          (conn_start (nt_links t))) as (requests & Hall & Hrun).
  exists requests. split; [exact Hall|].
  pose proof Hrun as (Ht & Hc & _). cbn [conn_start c_trace c_count app] in Ht, Hc.
  split; [exact Ht|]. split; [now rewrite Ht, Hc | exact Hrun].
Qed.

Lemma X4_witness_mix_tree :
  let st := MATERIAL_OT_reconnect_with_rules._restore_connections_from_snapshot
              Scene.host Scene2.mix_settings (Spec.unlinked Scene.mix_tree) "M1" in
  c_trace st = [Scene.link 1 0 4 1; Scene.link 2 0 4 1; Scene.link 4 0 3 0]
  /\ exists requests,
      Forall2 (Frame.asked (nt_nodes (Spec.unlinked Scene.mix_tree)) "M1")
              (connection_snapshot Scene2.mix_settings) requests
      /\ c_trace st = omap id requests
      /\ c_count st = Z.of_nat (length (Frame.accepted Scene.host (c_trace st)))
      /\ Frame.run Scene.host (omap id requests)
                   (conn_start (nt_links (Spec.unlinked Scene.mix_tree))) st.
Proof.
  split; [vm_compute; reflexivity|].
  apply (X4_restore_asks_one_link_per_record
           Scene.host Scene2.mix_settings (Spec.unlinked Scene.mix_tree) "M1").
Defined.

(** ** The surface link after a batch *)

Section SurfaceAfterBatch.

Import MATERIAL_OT_batch_replace_shader.

Variables (h : Host) (target : string) (t0 : NodeTree) (selected : list string).

Lemma replace_one_origin (auto : bool) (r : Replace) (name : string) :
  Frame.origin h target t0 r -> Frame.origin h target t0 (replace_one h auto target r name).
Proof.
  intros [Hnodes Hmade]. unfold Frame.origin, replace_one.
  destruct (nodes_get (nt_nodes (r_tree r)) name) as [old|]; [|now split].
  cbn [error_handler.safe_remove_node negb].
  assert (Hsub : forall n, In n (nt_nodes (nodes_remove old (r_tree r))) ->
                           In n (nt_nodes t0) \/ Frame.made_for h target n).
  { intros n Hn. unfold nodes_remove in Hn. cbn [nt_nodes] in Hn.
    apply filter_In in Hn. apply Hnodes. tauto. }
  destruct (new_shader_node h _ _ target _) as [new|] eqn:Hnew;
    cbn [r_tree r_new nt_nodes]; [|now split].
  assert (Hm : Frame.made_for h target new) by (unfold Frame.made_for; eauto).
  split; [|eauto].
  intros n Hn. apply in_app_or in Hn. destruct Hn as [Hn | [<- | []]]; auto.
Qed.

Lemma replace_inv_start :
  List.NoDup (map node_id (nt_nodes t0)) ->
  Frame.replace_inv h target t0 selected
                    {| r_tree := t0; r_count := 0; r_trace := []; r_new := [] |}.
Proof.
  intros Hnd. unfold Frame.replace_inv. cbv zeta. cbn [r_tree r_count r_trace r_new length].
  split; [constructor|]. split; [reflexivity|]. split; [now left|]. split; [now left|].
  split; [intros i []|]. split; [now right|]. split; [exact Hnd | auto].
Qed.

Hypothesis made_ok :
  forall n, Frame.made_for h target n ->
            node_outputs n <> [] /\ node_type n <> "OUTPUT_MATERIAL".
Hypothesis output_stays :
  exists o, In o (nt_nodes t0) /\ node_type o = "OUTPUT_MATERIAL"
            /\ ~ In (node_name o) selected.
Hypothesis output_inputs :
  forall o, In o (nt_nodes t0) -> node_type o = "OUTPUT_MATERIAL" -> node_inputs o <> [].
Hypothesis output_accepts :
  forall o l, In o (nt_nodes t0) -> node_type o = "OUTPUT_MATERIAL" ->
              to_node l = node_id o -> host_accepts h l = true.

Lemma replace_one_last_bound (r : Replace) (name : string) :
  In name selected ->
  Frame.replace_inv h target t0 selected r -> Frame.origin h target t0 r ->
  Frame.last_bound r -> Frame.last_bound (replace_one h true target r name).
Proof.
  intros Hsel Hinv Horig Hbound. unfold Frame.last_bound in *.
  pose proof (replace_one_inv h true target t0 selected r name Hsel Hinv) as Hinv'.
  pose proof (replace_one_origin true r name Horig) as Horig'.
  remember (replace_one h true target r name) as r' eqn:Hr'.
  unfold replace_one in Hr'.
  destruct (nodes_get (nt_nodes (r_tree r)) name) as [old|]; [|now subst r'].
  cbn [error_handler.safe_remove_node negb] in Hr'.
  destruct (new_shader_node h _ _ target _) as [new|] eqn:Hnew.
  - assert (Hm : Frame.made_for h target new) by (unfold Frame.made_for; eauto).
    destruct (made_ok new Hm) as [Hout _].
    destruct Hinv' as (_ & _ & _ & _ & _ & _ & _ & Hkept).
    destruct Horig' as [Hnodes' _].
    subst r'. cbn [r_tree r_new nt_nodes nt_links] in *.
    intros id Hlast. rewrite last_snoc in Hlast. injection Hlast as <-.
    exists new. split; [apply in_or_app; right; now left|]. split; [reflexivity|].
    assert (Hold : forall o, In o (nt_nodes (nodes_remove old (r_tree r)) ++ [new]) ->
                             node_type o = "OUTPUT_MATERIAL" -> In o (nt_nodes t0)).
    { intros o Ho Hty. destruct (Hnodes' o Ho) as [H0 | Hmade]; [exact H0|].
      destruct (made_ok o Hmade) as [_ Hne]. contradiction. }
    apply reconnect_outputs_bound.
    + exact Hout.
    + destruct output_stays as (o & Ho & Hty & Hns). exists o. split; [|exact Hty].
      now apply Hkept.
    + intros o Ho Hty. apply output_inputs; [now apply Hold | exact Hty].
    + intros o so si Ho Hty. apply (output_accepts o); [now apply Hold | exact Hty |].
      reflexivity.
  - subst r'. cbn [r_tree r_new] in *. intros id Hlast.
    destruct Horig as [_ Hmade]. destruct Hmade as (n & i & nodes & loc & Hn).
    { intros Hnil. rewrite Hnil in Hlast. discriminate. }
    now rewrite (new_shader_node_none h _ _ _ _ Hnew i nodes loc) in Hn.
Qed.

Lemma replace_loop_last_bound (names : list string) (r : Replace) :
  (forall name, In name names -> In name selected) ->
  Frame.replace_inv h target t0 selected r -> Frame.origin h target t0 r ->
  Frame.last_bound r -> Frame.last_bound (fold_left (replace_one h true target) names r).
Proof.
  revert r. induction names as [|name names IH]; intros r Hsub Hinv Horig Hbound;
    [exact Hbound|].
  cbn [fold_left]. apply IH.
  - intros n Hn. apply Hsub. now right.
  - apply replace_one_inv; [apply Hsub; now left | exact Hinv].
  - now apply replace_one_origin.
  - apply replace_one_last_bound; [apply Hsub; now left | assumption..].
Qed.

End SurfaceAfterBatch.

(** C2 as stated fails: an input holds one link, so when a batch replaces
    two shaders of a tree with one output node the link of the second new
    node takes the surface input from the first; after the batch the first
    new node (4) is in the tree and no link leaves it. *)
Lemma C2_second_replacement_unlinks_the_first :
  let settings := Scene.settings ALL "EMISSION" true in
  let r := MATERIAL_OT_batch_replace_shader.replace_material_shaders
             Scene.host Scene2.two_shaders_tree settings "EMISSION" "" in
  let result := MATERIAL_OT_batch_replace_shader.execute
                  Scene.host Scene.context (Scene.world Scene2.two_shaders_tree settings) in
  MATERIAL_OT_batch_replace_shader.r_new r = [4%nat; 5%nat]
  /\ MATERIAL_OT_batch_replace_shader.r_trace r = [Scene.link 4 0 3 0; Scene.link 5 0 3 0]
  /\ map node_id (nt_nodes (MATERIAL_OT_batch_replace_shader.r_tree r)) = [3%nat; 4%nat; 5%nat]
  /\ nt_links (MATERIAL_OT_batch_replace_shader.r_tree r) = [Scene.link 5 0 3 0]
  /\ fst result = (FINISHED, [(INFO, ReplacedTotal 1 1 2)])
  /\ (mat_node_tree <$> materials (snd result) !! "M1")
     = Some (MATERIAL_OT_batch_replace_shader.r_tree r).
Proof. vm_compute. repeat split. Qed.

(** C2, amended.  Replacing the selected shader nodes of a tree with
    auto-connect on, where the nodes of the tree are distinct, a node the
    host makes for the destination has an output socket and is no output
    node, the tree has an output node that is not replaced, every output node
    of the tree has an input, and the host takes the links into the output
    nodes: after every replacement of the batch, and so after the whole batch
    ([post] empty), the node created last is in the tree and is linked to the
    surface input (the input named 'Surface', else the first input) of an
    output node of the tree, whether or not the captured links of the node it
    replaces reached an output node.  A node created earlier may have lost
    that link to it. *)
Theorem C2_surface_fallback (h : Host) (t : NodeTree) (p : Props)
        (target_shader_name specific_shader_name : string) (pre post : list string) :
  let r := fold_left (MATERIAL_OT_batch_replace_shader.replace_one
                        h (auto_connect p) target_shader_name)
                     pre
                     {| MATERIAL_OT_batch_replace_shader.r_tree := t;
                        MATERIAL_OT_batch_replace_shader.r_count := 0;
                        MATERIAL_OT_batch_replace_shader.r_trace := [];
                        MATERIAL_OT_batch_replace_shader.r_new := [] |} in
  let result := MATERIAL_OT_batch_replace_shader.r_tree r in
  MATERIAL_OT_batch_replace_shader.shaders_to_replace
    t (replace_mode p) target_shader_name specific_shader_name = pre ++ post ->
  auto_connect p = true ->
  List.NoDup (map node_id (nt_nodes t)) ->
  (forall n, Frame.made_for h target_shader_name n ->
             node_outputs n <> [] /\ node_type n <> "OUTPUT_MATERIAL") ->
  (exists o, In o (nt_nodes t) /\ node_type o = "OUTPUT_MATERIAL"
             /\ ~ In (node_name o) (pre ++ post)) ->
  (forall o, In o (nt_nodes t) -> node_type o = "OUTPUT_MATERIAL" -> node_inputs o <> []) ->
  (forall o l, In o (nt_nodes t) -> node_type o = "OUTPUT_MATERIAL" ->
               to_node l = node_id o -> host_accepts h l = true) ->
  (post = [] ->
   r = MATERIAL_OT_batch_replace_shader.replace_material_shaders
         h t p target_shader_name specific_shader_name)
  /\ forall id,
      last (MATERIAL_OT_batch_replace_shader.r_new r) = Some id ->
      exists new_shader o so si,
        In new_shader (nt_nodes result) /\ node_id new_shader = id
        /\ In o (nt_nodes result) /\ node_type o = "OUTPUT_MATERIAL"
        /\ MATERIAL_OT_batch_replace_shader.surface_input_of o = Some si
        /\ In (mk_link new_shader so o si) (nt_links result).
Proof.
  intros r result Hnames Hauto Hnd Hmade Hstays Hins Hacc. split.
  - intros ->. rewrite app_nil_r in Hnames. subst r.
    unfold MATERIAL_OT_batch_replace_shader.replace_material_shaders. now rewrite Hnames.
  - intros id Hlast. subst result r. rewrite Hauto in *.
    destruct (replace_loop_last_bound
                h target_shader_name t (pre ++ post) Hmade Hstays Hins Hacc pre
                {| MATERIAL_OT_batch_replace_shader.r_tree := t;
                   MATERIAL_OT_batch_replace_shader.r_count := 0;
                   MATERIAL_OT_batch_replace_shader.r_trace := [];
                   MATERIAL_OT_batch_replace_shader.r_new := [] |}) with (id := id)
      as (n & Hn & Hid & o & so & si & Ho & Hty & Hsi & Hl).
    + intros name Hname. apply in_or_app. now left.
    + now apply replace_inv_start.
    + split; [now left | now intros []].
    + intros i Hi. discriminate Hi.
    + exact Hlast.
    + exists n, o, so, si. auto 8.
Qed.

Lemma C2_witness_two_shaders :
  let r := MATERIAL_OT_batch_replace_shader.replace_material_shaders
             Scene.host Scene2.two_shaders_tree (Scene.settings ALL "EMISSION" true)
             "EMISSION" "" in
  let result := MATERIAL_OT_batch_replace_shader.r_tree r in
  last (MATERIAL_OT_batch_replace_shader.r_new r) = Some 5%nat
  /\ exists new_shader o so si,
      In new_shader (nt_nodes result) /\ node_id new_shader = 5%nat
      /\ In o (nt_nodes result) /\ node_type o = "OUTPUT_MATERIAL"
      /\ MATERIAL_OT_batch_replace_shader.surface_input_of o = Some si
      /\ In (mk_link new_shader so o si) (nt_links result).
Proof.
  split; [reflexivity|].
  refine (proj2 (C2_surface_fallback
                   Scene.host Scene2.two_shaders_tree (Scene.settings ALL "EMISSION" true)
                   "EMISSION" "" ["Diffuse BSDF"; "Glossy BSDF"] [] _ _ _ _ _ _ _)
                5%nat _).
  - reflexivity.
  - reflexivity.
  - repeat (constructor; [simpl; intuition discriminate|]). constructor.
  - intros n (i & nodes & loc & Hn). vm_compute in Hn. injection Hn as <-.
    split; discriminate.
  - exists Scene.output. split; [simpl; tauto|]. split; [reflexivity|].
    simpl. intuition discriminate.
  - intros o Ho Hty. simpl in Ho. destruct Ho as [<- | [<- | [<- | []]]]; discriminate.
  - intros o l Ho Hty Hto. reflexivity.
  - reflexivity.
Defined.

(** ** The input loop of a replacement *)

Section InputLoopExact.

Import MATERIAL_OT_batch_replace_shader.

Variable h : Host.

(** A loop over the socket names and, inside, over the links of each name is
    one loop over the captured links in that order. *)
Lemma fold_captured {S V} (step : string -> S -> V -> S)
      (links : list (string * list V)) (s : S) :
  fold_left (fun s item => fold_left (step (fst item)) (snd item) s) links s
  = fold_left (fun s nc => step (fst nc) s (snd nc)) (Frame.captured links) s.
Proof.
  revert s. induction links as [|[name conns] rest IH]; intros s; [reflexivity|].
  unfold Frame.captured. cbn [map concat fold_left fst snd]. rewrite fold_left_app.
  fold (Frame.captured rest). rewrite <- IH. f_equal.
  clear IH. revert s. induction conns as [|c conns IHc]; intros s; [reflexivity|].
  cbn [map fold_left fst snd]. apply IHc.
Qed.

(** One captured incoming link, exactly. *)
Lemma reconnect_input_exact (nodes : list Node) (new_shader : Node)
      (socket_name : string) (cs : list nat * Conn) (conn : InputLink) :
  let result := reconnect_input h nodes new_shader socket_name cs conn in
  match nodes_get nodes (il_from_node conn) with
  | Some source_node =>
      match resolve_socket (node_outputs source_node)
                           (il_from_socket_index conn) (il_from_socket conn),
            _find_best_input_socket new_shader socket_name (il_to_socket_type conn) (fst cs)
      with
      | Some source_socket, Some target_socket =>
          let l := mk_link source_node source_socket new_shader target_socket in
          c_trace (snd result) = c_trace (snd cs) ++ [l]
          /\ (if host_accepts h l
              then fst result = target_socket :: fst cs
                   /\ c_links (snd result)
                      = List.filter (fun l' => negb (same_input l' l)) (c_links (snd cs))
                        ++ [l]
                   /\ c_count (snd result) = c_count (snd cs) + 1
              else fst result = fst cs
                   /\ c_links (snd result) = c_links (snd cs)
                   /\ c_count (snd result) = c_count (snd cs))
      | _, _ => result = cs
      end
  | None => result = cs
  end.
Proof.
  cbv zeta. unfold reconnect_input.
  destruct (nodes_get nodes (il_from_node conn)) as [source_node|]; [|reflexivity].
  destruct (resolve_socket _ _ _) as [source_socket|]; [|reflexivity].
  destruct (_find_best_input_socket _ _ _ _) as [target_socket|]; [|reflexivity].
  unfold error_handler.safe_link, try_link, links_new.
  destruct (host_accepts h _); cbn [fst snd c_trace c_links c_count]; auto.
Qed.

Lemma link_output_from (new_shader target : Node) (o i : nat) (b : bool) (s : OutState) :
  Frame.attempts h (fun l => from_node l = node_id new_shader) (out_conn s)
                 (out_conn (link_output h (mk_link new_shader o target i) b s)).
Proof.
  unfold link_output, error_handler.safe_link.
  pose proof (attempts_try_link
                h (fun l => from_node l = node_id new_shader)
                (mk_link new_shader o target i) (out_conn s)) as H.
  destruct (try_link h _ (out_conn s)) as [ok st']. apply H. reflexivity.
Qed.

(** The output loop and the fallback ask only for links that leave the new
    node. *)
Lemma reconnect_outputs_from (nodes : list Node) (new_shader : Node)
      (output_links : list (string * list OutputLink)) (st : Conn) :
  Frame.attempts h (fun l => from_node l = node_id new_shader) st
                 (out_conn (reconnect_outputs h nodes new_shader output_links st)).
Proof.
  unfold reconnect_outputs.
  set (s0 := {| connected_outputs := []; output_connected_to_material := false;
                out_conn := st |}).
  change st with (out_conn s0) at 1.
  eapply attempts_trans.
  - apply (attempts_fold_via
             h out_conn (fun l => from_node l = node_id new_shader)
             (fun s item => fold_left (reconnect_output h nodes new_shader (fst item))
                                      (snd item) s)
             output_links).
    intros s item _.
    apply (attempts_fold_via h out_conn (fun l => from_node l = node_id new_shader)
                             (reconnect_output h nodes new_shader (fst item)) (snd item)).
    intros s' conn _. unfold reconnect_output.
    destruct (nodes_get nodes (ol_to_node conn)) as [target_node|]; [|apply attempts_refl].
    assert (Hstd : Frame.attempts
                     h (fun l => from_node l = node_id new_shader) (out_conn s')
                     (out_conn (reconnect_output_standard h new_shader target_node
                                                          (fst item) conn s'))).
    { unfold reconnect_output_standard.
      destruct (resolve_socket _ _ _) as [target_socket|]; [|apply attempts_refl].
      destruct (_find_best_output_socket _ _ _ _) as [source_socket|]; [|apply attempts_refl].
      apply link_output_from. }
    destruct (String.eqb (node_type target_node) "OUTPUT_MATERIAL"
              && negb (output_connected_to_material s')); [|exact Hstd].
    destruct (_find_shader_output new_shader) as [source_socket|]; [|exact Hstd].
    destruct (surface_input_of target_node) as [surface_input|]; [|exact Hstd].
    apply link_output_from.
  - unfold connect_fallback.
    destruct (output_connected_to_material _); [apply attempts_refl|].
    destruct (List.find _ nodes) as [output_node|]; [|apply attempts_refl].
    destruct (_find_shader_output new_shader) as [source_socket|]; [|apply attempts_refl].
    destruct (surface_input_of output_node) as [surface_input|]; [|apply attempts_refl].
    apply link_output_from.
Qed.

(** The requests of one replacement: those of the input loop over the
    captured incoming links, then links that leave the new node. *)
Lemma replace_one_requests (target : string) (r : Replace) (name : string)
      (old_shader new_shader : Node) :
  nodes_get (nt_nodes (r_tree r)) name = Some old_shader ->
  new_shader_node h (fresh_id (nt_nodes (r_tree r)))
                  (nt_nodes (nodes_remove old_shader (r_tree r)))
                  target (node_location old_shader) = Some new_shader ->
  let nodes := nt_nodes (nodes_remove old_shader (r_tree r)) ++ [new_shader] in
  let input_links :=
    fold_left (capture_input (nt_nodes (r_tree r)) old_shader) (nt_links (r_tree r)) [] in
  let st0 := {| c_links := nt_links (nodes_remove old_shader (r_tree r));
                c_count := 0; c_trace := r_trace r |} in
  exists tail,
    r_trace (replace_one h true target r name)
    = c_trace (snd (fold_left
                      (fun cs nc => reconnect_input h nodes new_shader (fst nc) cs (snd nc))
                      (Frame.captured input_links) ([], st0)))
      ++ tail
    /\ Forall (fun l => from_node l = node_id new_shader) tail.
Proof.
  intros Hget Hnew nodes input_links st0. unfold replace_one. rewrite Hget.
  cbn [error_handler.safe_remove_node negb]. rewrite Hnew. cbn [r_trace].
  fold nodes input_links st0.
  destruct (reconnect_outputs_from
              nodes new_shader
              (fold_left (capture_output (nt_nodes (r_tree r)) old_shader)
                         (nt_links (r_tree r)) [])
              (reconnect_inputs h nodes new_shader input_links st0))
    as (tail & (Ht & _) & Hfrom).
  exists tail. split; [|exact Hfrom]. rewrite Ht. f_equal.
  unfold reconnect_inputs, reconnect_inputs_all. now rewrite fold_captured.
Qed.

End InputLoopExact.

(** C4 as stated fails where the host refuses a link: the input that won
    the first captured link (Color, score 2500 tenths) does not join
    [connected_inputs], and wins the second captured link as well; had the
    host taken the first link, the second would have found no input. *)
Lemma C4_refused_input_is_chosen_again :
  let settings := Scene.settings ALL "EMISSION" true in
  let refused := MATERIAL_OT_batch_replace_shader.replace_material_shaders
                   Scene2.refusing_host Scene2.two_sources_tree settings "EMISSION" "" in
  let taken := MATERIAL_OT_batch_replace_shader.replace_material_shaders
                 Scene.host Scene2.two_sources_tree settings "EMISSION" "" in
  MATERIAL_OT_batch_replace_shader.r_trace refused
  = [Scene.link 6 0 8 0; Scene.link 7 0 8 0; Scene.link 8 0 3 0]
  /\ nt_links (MATERIAL_OT_batch_replace_shader.r_tree refused)
     = [Scene.link 7 0 8 0; Scene.link 8 0 3 0]
  /\ MATERIAL_OT_batch_replace_shader.r_trace taken
     = [Scene.link 6 0 8 0; Scene.link 8 0 3 0]
  /\ nt_links (MATERIAL_OT_batch_replace_shader.r_tree taken)
     = [Scene.link 6 0 8 0; Scene.link 8 0 3 0].
Proof. vm_compute. repeat split. Qed.

(** C4, amended.  For a captured incoming link the input chosen on the new
    node is the input outside [connected_inputs] of greatest score, the
    lowest-numbered among equals, where the score (in tenths) is 10 times the
    name score (100 exact, else 90 equal up to case, else 50 containment
    either way), plus 8 times the semantic compatibility, plus 6 times the
    kind compatibility (identical 100, RGBA with VECTOR 80, RGBA with VALUE
    60, otherwise 0), plus 10 times max(0, 10 - index); it is chosen only if
    its score reaches 300 tenths.  The input loop of a replacement goes
    through the captured incoming links in order; for each one whose source
    node and socket resolve, and for which an input is chosen, it asks the
    host for exactly one link, from that source to the chosen input, and for
    the others it asks nothing.  The chosen input joins [connected_inputs],
    and is never chosen again, exactly when the host took the link; an input
    whose link the host refused stays free for the later captured links. *)
Theorem C4_best_input_by_weighted_score :
  (forall name type idx inp,
      MATERIAL_OT_batch_replace_shader.input_score name type idx inp
      = 10 * MATERIAL_OT_batch_replace_shader.name_score (sock_name inp) name
        + 8 * SocketSemantics.are_semantically_compatible
                (SocketSemantics.get_socket_semantic name)
                (SocketSemantics.get_socket_semantic (sock_name inp))
        + 6 * Spec.kind_score type (sock_type inp)
        + 10 * Z.max 0 (10 - Z.of_nat idx))
  /\ (forall a b,
         (a = b -> MATERIAL_OT_batch_replace_shader.name_score a b = 100)
         /\ (a <> b -> lower a = lower b ->
             MATERIAL_OT_batch_replace_shader.name_score a b = 90)
         /\ (a <> b -> lower a <> lower b ->
             str_in (lower b) (lower a) = true \/ str_in (lower a) (lower b) = true ->
             MATERIAL_OT_batch_replace_shader.name_score a b = 50)
         /\ (a <> b -> lower a <> lower b ->
             str_in (lower b) (lower a) = false -> str_in (lower a) (lower b) = false ->
             MATERIAL_OT_batch_replace_shader.name_score a b = 0))
  /\ (MATERIAL_OT_batch_replace_shader.name_score "Цвет" "цвет" = 90
      /\ MATERIAL_OT_batch_replace_shader.name_score "Base Color" "color" = 50
      /\ MATERIAL_OT_batch_replace_shader.name_score "Цвет" "Color" = 0)
  /\ (forall shader_node name type connected i,
         MATERIAL_OT_batch_replace_shader._find_best_input_socket
           shader_node name type connected = Some i ->
         exists inp,
           node_inputs shader_node !! i = Some inp
           /\ nat_mem i connected = false
           /\ 300 <= MATERIAL_OT_batch_replace_shader.input_score name type i inp
           /\ forall j inp',
               node_inputs shader_node !! j = Some inp' ->
               nat_mem j connected = false ->
               MATERIAL_OT_batch_replace_shader.input_score name type j inp'
               <= MATERIAL_OT_batch_replace_shader.input_score name type i inp
               /\ ((j < i)%nat ->
                   MATERIAL_OT_batch_replace_shader.input_score name type j inp'
                   < MATERIAL_OT_batch_replace_shader.input_score name type i inp))
  /\ (forall shader_node name type connected,
         MATERIAL_OT_batch_replace_shader._find_best_input_socket
           shader_node name type connected = None ->
         forall j inp',
           node_inputs shader_node !! j = Some inp' ->
           nat_mem j connected = false ->
           MATERIAL_OT_batch_replace_shader.input_score name type j inp' < 300)
  /\ (forall h nodes new_shader socket_name cs conn,
         let result := MATERIAL_OT_batch_replace_shader.reconnect_input
                         h nodes new_shader socket_name cs conn in
         match nodes_get nodes (il_from_node conn) with
         | Some source_node =>
             match MATERIAL_OT_batch_replace_shader.resolve_socket
                     (node_outputs source_node)
                     (il_from_socket_index conn) (il_from_socket conn),
                   MATERIAL_OT_batch_replace_shader._find_best_input_socket
                     new_shader socket_name (il_to_socket_type conn) (fst cs)
             with
             | Some source_socket, Some target_socket =>
                 let l := mk_link source_node source_socket new_shader target_socket in
                 c_trace (snd result) = c_trace (snd cs) ++ [l]
                 /\ (if host_accepts h l
                     then fst result = target_socket :: fst cs
                          /\ c_links (snd result)
                             = List.filter (fun l' => negb (same_input l' l))
                                           (c_links (snd cs)) ++ [l]
                          /\ c_count (snd result) = c_count (snd cs) + 1
                     else fst result = fst cs
                          /\ c_links (snd result) = c_links (snd cs)
                          /\ c_count (snd result) = c_count (snd cs))
             | _, _ => result = cs
             end
         | None => result = cs
         end)
  /\ (forall h nodes new_shader input_links st,
         MATERIAL_OT_batch_replace_shader.reconnect_inputs h nodes new_shader input_links st
         = snd (fold_left
                  (fun cs nc =>
                     MATERIAL_OT_batch_replace_shader.reconnect_input
                       h nodes new_shader (fst nc) cs (snd nc))
                  (Frame.captured input_links) ([], st)))
  /\ (forall h target r name old_shader new_shader,
         nodes_get (nt_nodes (MATERIAL_OT_batch_replace_shader.r_tree r)) name
         = Some old_shader ->
         MATERIAL_OT_batch_replace_shader.new_shader_node
           h (fresh_id (nt_nodes (MATERIAL_OT_batch_replace_shader.r_tree r)))
           (nt_nodes (nodes_remove old_shader (MATERIAL_OT_batch_replace_shader.r_tree r)))
           target (node_location old_shader) = Some new_shader ->
         let t := MATERIAL_OT_batch_replace_shader.r_tree r in
         let nodes := nt_nodes (nodes_remove old_shader t) ++ [new_shader] in
         let input_links :=
           fold_left (MATERIAL_OT_batch_replace_shader.capture_input (nt_nodes t) old_shader)
                     (nt_links t) [] in
         let st0 := {| c_links := nt_links (nodes_remove old_shader t);
                       c_count := 0;
                       c_trace := MATERIAL_OT_batch_replace_shader.r_trace r |} in
         exists tail,
           MATERIAL_OT_batch_replace_shader.r_trace
             (MATERIAL_OT_batch_replace_shader.replace_one h true target r name)
           = c_trace (MATERIAL_OT_batch_replace_shader.reconnect_inputs
                        h nodes new_shader input_links st0)
             ++ tail
           /\ Forall (fun l => from_node l = node_id new_shader) tail)
  /\ (forall h nodes new_shader input_links st,
         List.NoDup (fst (MATERIAL_OT_batch_replace_shader.reconnect_inputs_all
                            h nodes new_shader input_links st))).
Proof.
  split.
  { intros. unfold MATERIAL_OT_batch_replace_shader.input_score.
    now rewrite type_score_kinds. }
  split; [exact name_score_cases|].
  split; [vm_compute; repeat split|].
  split; [exact find_best_input_some|].
  split; [exact find_best_input_none|].
  split; [exact reconnect_input_exact|].
  split.
  { intros. unfold MATERIAL_OT_batch_replace_shader.reconnect_inputs,
      MATERIAL_OT_batch_replace_shader.reconnect_inputs_all.
    now rewrite fold_captured. }
  split; [|exact reconnect_inputs_all_nodup].
  intros h target r name old_shader new_shader Hget Hnew t nodes input_links st0.
  destruct (replace_one_requests h target r name old_shader new_shader Hget Hnew)
    as (tail & Ht & Hfrom).
  exists tail. split; [|exact Hfrom]. rewrite Ht. f_equal.
  unfold MATERIAL_OT_batch_replace_shader.reconnect_inputs,
    MATERIAL_OT_batch_replace_shader.reconnect_inputs_all.
  now rewrite fold_captured.
Qed.

Lemma C4_witness_base_color :
  exists inp,
    node_inputs Scene.principled !! 0%nat = Some inp
    /\ nat_mem 0 [] = false
    /\ 300 <= MATERIAL_OT_batch_replace_shader.input_score "Color" "RGBA" 0 inp
    /\ forall j inp',
        node_inputs Scene.principled !! j = Some inp' ->
        nat_mem j [] = false ->
        MATERIAL_OT_batch_replace_shader.input_score "Color" "RGBA" j inp'
        <= MATERIAL_OT_batch_replace_shader.input_score "Color" "RGBA" 0 inp
        /\ ((j < 0)%nat ->
            MATERIAL_OT_batch_replace_shader.input_score "Color" "RGBA" j inp'
            < MATERIAL_OT_batch_replace_shader.input_score "Color" "RGBA" 0 inp).
Proof.
  apply (proj1 (proj2 (proj2 (proj2 C4_best_input_by_weighted_score)))
               Scene.principled "Color" "RGBA" [] 0%nat).
  vm_compute. reflexivity.
Defined.
